(* ===== verification/_CoqProject ===== *)
-Q . S2P
Prelude.v
Types.v
OrderIdAllocator.v
PnLTracker.v
RiskManager.v
QuantLink.v
OrderManager.v
OrderManagerInv.v
OrderLifecycle.v
CancelProtocol.v
ResponseFaults.v
MarketOrderBook.v
BookRep.v
BookRefine.v
BookProperties.v
Features.v
Strategy.v
TradeEngine.v
EngineInv.v
EngineProperties.v
Bytes.v
OrderGateway.v
GatewayProperties.v
ItchDecoder.v
DecoderProperties.v
MarketData.v
RecoveryInv.v
RecoveryProperties.v
SnapshotSync.v
FeedRegistration.v
Main.v
MainProperties.v
System.v
SystemProperties.v
Process.v
ProcessProperties.v
