(* ===== verification/Prelude.v ===== *)
(** * A verification of AlphaTrader

    AlphaTrader is a trading client in C++: it follows an exchange's market-data
    feed, keeps an order book per ticker, runs strategies on the books and trades
    through an order-entry session.  Three threads share three single-producer
    single-consumer queues and a gate:

    - the market-data consumer (src/src/market_data/) decodes ITCH frames from
      UDP, detects gaps, recovers by snapshot or replay over TCP, and pushes
      [MarketUpdate]s; it opens the gate when it is in step with the exchange;
    - the trade engine (src/src/trading/) applies the updates to the books, runs
      the features and strategies, checks orders against the risk limits and
      pushes [OrderRequest]s; it applies the [OrderResponse]s to orders, risk
      reservations and positions;
    - the order gateway (src/src/order_gateway/) turns requests into OUCH messages
      and the exchange's bytes into responses.

    ** Files

    Each component has a file of definitions translated from its source and, where
    the proofs are long, files with its invariant and its properties.

    - [Prelude]: outcomes of C++ code ([Ok], [Undef] for undefined behaviour,
      [Halt] for a failed assertion), machine integers, arrays with a live prefix,
      tactics.  [Types]: src/src/types.h.  [Bytes]: memory representation and byte
      order.
    - [QuantLink]: the interfaces of the QuantLink submodule (queue, object pool)
      as classes with laws and instances.
    - [OrderIdAllocator], [PnLTracker], [RiskManager], [OrderManager]: the files of
      the same names in src/src/trading/; [OrderManagerInv] holds the invariant
      that ties live orders to risk reservations, [OrderLifecycle] its properties,
      [CancelProtocol] the life of a cancel, [ResponseFaults] the answers of the
      exchange after which orders and reservations come apart.
    - [MarketOrderBook]: src/src/market_order_book.{h,cpp}, at the level of
      pointers; [BookRep] relates the pointer structure to the list of resting
      orders, [BookRefine] proves each operation against the reference book,
      [BookProperties] the properties.
    - [Features], [Strategy]: src/src/trading/features/ and strategy.h; the
      concepts are classes with laws, [LiquidityTaker] an instance.
    - [TradeEngine], [EngineInv], [EngineProperties]: trade_engine.h.
    - [OrderGateway], [GatewayProperties]: src/src/order_gateway/.
    - [ItchDecoder], [DecoderProperties]: itch_decoder.{h,cpp}.
    - [MarketData]: market_data.h, market_data_consumer.cpp,
      market_data_incremental.cpp and market_data_recovery.cpp; [RecoveryInv] the
      invariant of the recovery state machine, [RecoveryProperties] its
      properties, [SnapshotSync] the reading of a snapshot; [FeedRegistration] the
      registration datagrams.
    - [Main], [MainProperties]: src/src/main.cpp; [System], [SystemProperties]: the
      three threads together; [Process], [ProcessProperties]: the threads' flags,
      [main]'s control flow from start to summary, and shutdown.

    ** How the code is modelled

    A C++ function is a Rocq function that returns an [outcome] of its results and
    its new state; a method takes the object as its last argument.  Members keep
    their names.  Integers are [Z], wrapped ([wrapU], [wrapS]) or checked ([chkS])
    at their width.  Fixed arrays are the list of their live elements.  The book's
    intrusive lists live in heaps of nodes and levels, so that a stale pointer is
    visible; the decoder's vectors carry their capacity, which names their storage,
    and a reference to an element records it, so that a dangling reference is
    visible.  Loops over queues and buffers take as fuel the number of
    queued elements or buffered bytes: each round consumes at least one, so the
    fuel is never the reason they stop (the loops' specifications show the queue
    empty, or the buffer left without a complete frame).  What the operating system
    returns (datagrams, TCP reads, connection results, the clock) is an argument of
    the operation that asks for it.  A run of a component is a sequence of turns,
    and theorems about reachable states are by induction on it.

    Code outside the repository is an interface: queue, pool, byte order, message
    layouts, address parsing.  Its laws state documented behaviour (a queue is
    FIFO, a pool hands out addresses that are not live, byte swapping is an
    involution on its width, message types are distinct and fields in range), and
    every law has an instance.

    ** What is proved

    - The whole program ([SystemProperties]): in every interleaving of the threads,
      as long as the updates the engine has taken are ones the books can take (see
      Bounds), the books are the reference books of a stream of updates without
      holes, the engine stays consistent and its passes return, and every request
      submitted is on the wire or queued, once and in order.
    - The process ([ProcessProperties]): its states are states of such a run; after
      the signal [main] reaches the summary without a deadlock, in at most twelve
      control steps, with every thread joined.
    - Market data: every run of the recovery state machine delivers a stream
      without holes; mode, socket, gate and queues agree and no socket leaks; a
      replay whose frames decode closes the gap it was requested for and a
      snapshot synchronises the consumer, however TCP cuts them; the boundaries of
      datagrams do not matter; registration is renewed in time while the clock
      does not step back.
    - Books: the pointer structure refines the list of resting orders, price levels
      are FIFO, [clear] returns every node.
    - Decoder: it tracks exactly the orders resting in the books; framing.
    - Orders and risk: live orders have exactly one reservation each, ids are
      unique, the limits are enforced exactly, responses move exactly what was
      executed, a cancel is outstanding at most once; the position limit holds for
      one-sided flow.
    - Profit and loss: realised plus open value equals the cash flow and the
      remainders of the average-price divisions, exactly; totals are exact.
    - Strategy: the taker's hook is exactly the submission its signal asks for.
    - Engine: a pass drains both queues, routes responses to their owner, applies
      updates to every slot, and is silent inside snapshots.
    - Gateway: stream decoding, round trip of requests to the wire, well-formed
      responses.
    - Main: the program starts exactly on the configurations it can trade.
    - Faults: in every consistent state a partial cancel strands the rest of its
      order and an enlarging replace desynchronises order and reservation
      ([ResponseFaults]); concrete runs exhibit what else goes wrong (a replaced
      order that keeps a stale pointer, opposite reservations that net out,
      dangling references, a stalled replay, an overrun queue, orders the decoder
      forgets at a snapshot, requests left unsent at shutdown).

    ** Bounds

    Theorems about the engine state the room they need: resting quantities of a
    book sum to at most 2^32, positions stay under 2^62, fewer than 2^48 ids are
    issued; for whole runs, fewer than 2^26 updates and 2^29 responses per session,
    which keeps the 64-bit sums of the features and positions in range.  Books are
    within their pool and replaces are of orders without a younger one behind them
    in their level, because of the fault above.  The runs themselves are not
    restricted: [session_fits] is a hypothesis of the theorems about them, on the
    updates and responses the engine has taken.

    ** Not modelled

    Logging and printed text; the pinning of threads to cores (a turn is atomic:
    one iteration of a thread's loop, and the memory orders of the flags, the gate
    and the queues are those of an interleaving); socket set-up; the layout of wire
    structs beyond the laws of their accessors.  The tests, tools and docs of
    the repository are not part of the program.

    ** Plan

    Still open: finer interleavings, where a turn of one thread may run between two
    pops of another; the decoder's orders and the books together along a run of the
    consumer; a strategy that cancels and replaces. *)

From stdpp Require Export base tactics list gmap relations.
From Stdlib Require Export ZArith Lia.

#[global] Open Scope Z_scope.
#[global] Set Default Proof Using "Type".

(** ** Outcomes of C++ code

    [Ok a] is a normal return.  [Undef] is undefined behaviour (signed
    overflow, out-of-range access, null or dangling dereference).  [Halt] is a
    deliberate stop of the process: a failed [ASSERT], or an exception that
    leaves a [noexcept] function. *)
Inductive outcome (A : Type) : Type :=
| Ok (a : A)
| Undef
| Halt.
Arguments Ok {A} a.
Arguments Undef {A}.
Arguments Halt {A}.

#[export] Instance outcome_ret : MRet outcome := λ A a, Ok a.
#[export] Instance outcome_bind : MBind outcome := λ A B f m,
  match m with Ok a => f a | Undef => Undef | Halt => Halt end.

#[export] Instance outcome_eq_dec `{EqDecision A} : EqDecision (outcome A).
Proof. intros [a| |] [b| |]; first [by left | by right | destruct (decide (a = b)); [left|right]; congruence]. Defined.

(** [returns m P]: [m] ends normally and its value satisfies [P]; it excludes
    undefined behaviour and halting, so it is a total-correctness triple. *)
Definition returns {A} (m : outcome A) (P : A → Prop) : Prop :=
  match m with Ok a => P a | _ => False end.

Lemma returns_ok {A} (m : outcome A) P :
  returns m P ↔ ∃ a, m = Ok a ∧ P a.
Proof. destruct m; simpl; naive_solver. Qed.

Lemma returns_bind {A B} (m : outcome A) (f : A → outcome B) P :
  returns m (λ a, returns (f a) P) → returns (m ≫= f) P.
Proof. by destruct m. Qed.

Lemma returns_mono {A} (m : outcome A) (P Q : A → Prop) :
  returns m P → (∀ a, P a → Q a) → returns m Q.
Proof. destruct m; simpl; auto. Qed.

Lemma bind_Ok_inv {A B} (m : outcome A) (f : A → outcome B) b :
  m ≫= f = Ok b → ∃ a, m = Ok a ∧ f a = Ok b.
Proof. destruct m; simpl; naive_solver. Qed.

Lemma bind_Ok {A B} (a : A) (f : A → outcome B) : Ok a ≫= f = f a.
Proof. done. Qed.

(** Invert every [_ ≫= _ = Ok _] hypothesis. *)
Ltac inv_ok :=
  repeat match goal with
  | H : (_ ≫= _) = Ok _ |- _ =>
      let a := fresh "a" in let H1 := fresh "Hrun" in let H2 := fresh "Hret" in
      apply bind_Ok_inv in H as (a & H1 & H2)
  | H : Ok _ = Ok _ |- _ => injection H as H; subst
  | H : Undef = Ok _ |- _ => discriminate H
  | H : Halt = Ok _ |- _ => discriminate H
  | p : (_ * _)%type |- _ => destruct p
  end; simplify_eq/=.

(** ** Machine integers

    A [w]-bit integer is a [Z] kept in its range.  Unsigned arithmetic and
    explicit narrowing casts wrap; signed arithmetic that leaves its range is
    [Undef]. *)
Definition wrapU (w z : Z) : Z := z `mod` 2 ^ w.
Definition wrapS (w z : Z) : Z := (z + 2 ^ (w - 1)) `mod` 2 ^ w - 2 ^ (w - 1).
Definition fitsU (w z : Z) : bool := (0 <=? z) && (z <? 2 ^ w).
Definition fitsS (w z : Z) : bool := (- 2 ^ (w - 1) <=? z) && (z <? 2 ^ (w - 1)).
Definition chkS (w z : Z) : outcome Z := if fitsS w z then Ok z else Undef.

(** [a / b] at width [w]. *)
Definition divS (w a b : Z) : outcome Z := if b =? 0 then Undef else chkS w (Z.quot a b).

Lemma wrapU_range w z : 0 ≤ w → 0 ≤ wrapU w z < 2 ^ w.
Proof. intros. apply Z.mod_pos_bound. lia. Qed.

Lemma wrapU_small w z : 0 ≤ z < 2 ^ w → wrapU w z = z.
Proof. apply Z.mod_small. Qed.

Lemma wrapS_range w z : 0 < w → - 2 ^ (w - 1) ≤ wrapS w z < 2 ^ (w - 1).
Proof.
  intros Hw. unfold wrapS.
  pose proof (Z.mod_pos_bound (z + 2 ^ (w - 1)) (2 ^ w) ltac:(lia)).
  assert (2 ^ w = 2 * 2 ^ (w - 1)) by (rewrite <- Z.pow_succ_r by lia; f_equal; lia).
  lia.
Qed.

Lemma wrapS_small w z : 0 < w → - 2 ^ (w - 1) ≤ z < 2 ^ (w - 1) → wrapS w z = z.
Proof.
  intros Hw Hz. unfold wrapS.
  assert (2 ^ w = 2 * 2 ^ (w - 1)) by (rewrite <- Z.pow_succ_r by lia; f_equal; lia).
  rewrite Z.mod_small; lia.
Qed.

Lemma fitsU_spec w z : fitsU w z = true ↔ 0 ≤ z < 2 ^ w.
Proof. unfold fitsU. rewrite andb_true_iff, Z.leb_le, Z.ltb_lt. done. Qed.

Lemma fitsS_spec w z : fitsS w z = true ↔ - 2 ^ (w - 1) ≤ z < 2 ^ (w - 1).
Proof. unfold fitsS. rewrite andb_true_iff, Z.leb_le, Z.ltb_lt. done. Qed.

Lemma chkS_ok w z : - 2 ^ (w - 1) ≤ z < 2 ^ (w - 1) → chkS w z = Ok z.
Proof. intros H. unfold chkS. by rewrite (proj2 (fitsS_spec w z) H). Qed.

Lemma chkS_inv w z r : chkS w z = Ok r → r = z ∧ - 2 ^ (w - 1) ≤ z < 2 ^ (w - 1).
Proof.
  unfold chkS. destruct (fitsS w z) eqn:E; [|done].
  intros [= <-]. split; [done|]. by apply fitsS_spec.
Qed.

(** C++ integer division truncates towards zero. *)
Lemma quot_between n d lo hi :
  0 < d → lo * d ≤ n ≤ hi * d → lo ≤ Z.quot n d ≤ hi.
Proof.
  intros Hd [Hlo Hhi].
  pose proof (Z.quot_rem n d ltac:(lia)) as Hqr.
  destruct (Z.le_gt_cases 0 n) as [Hn|Hn].
  - pose proof (Z.rem_bound_pos n d Hn Hd). nia.
  - pose proof (Z.rem_bound_pos_neg n d Hd ltac:(lia)). nia.
Qed.

Lemma quot_error n d : 0 < d → Z.abs (n - Z.quot n d * d) < d.
Proof.
  intros Hd. pose proof (Z.quot_rem n d ltac:(lia)) as Hqr.
  pose proof (Z.rem_bound_abs n d ltac:(lia)).
  replace (n - Z.quot n d * d) with (Z.rem n d) by lia. lia.
Qed.

Lemma divS_ok w a b : b ≠ 0 → - 2 ^ (w - 1) ≤ Z.quot a b < 2 ^ (w - 1) → divS w a b = Ok (Z.quot a b).
Proof. intros Hb Hq. unfold divS. rewrite (proj2 (Z.eqb_neq b 0) Hb). by apply chkS_ok. Qed.

(** ** Sums *)
Definition sumZ (l : list Z) : Z := foldr Z.add 0 l.

Lemma sumZ_cons x l : sumZ (x :: l) = x + sumZ l.
Proof. done. Qed.

Lemma sumZ_app l k : sumZ (l ++ k) = sumZ l + sumZ k.
Proof. induction l; simpl; lia. Qed.

#[export] Instance sumZ_perm : Proper ((≡ₚ) ==> (=)) sumZ.
Proof. intros l k Hp. induction Hp; simpl; lia. Qed.

Lemma sumZ_bound (b : Z) (l : list Z) :
  0 ≤ b → Forall (λ x, Z.abs x ≤ b) l → Z.abs (sumZ l) ≤ Z.of_nat (length l) * b.
Proof. intros Hb. induction 1; simpl; lia. Qed.

Lemma sumZ_nonneg l : Forall (λ x, 0 ≤ x) l → 0 ≤ sumZ l.
Proof. induction 1; simpl; lia. Qed.

Lemma sumZ_delete {A} (f : A → Z) (l : list A) i x :
  l !! i = Some x → sumZ (f <$> l) = f x + sumZ (f <$> delete i l).
Proof. intros Hi. rewrite (delete_Permutation l i x Hi) at 1. done. Qed.

Lemma sumZ_insert {A} (f : A → Z) (l : list A) i x y :
  l !! i = Some x → sumZ (f <$> <[i := y]> l) = sumZ (f <$> l) - f x + f y.
Proof.
  intros Hi. rewrite (sumZ_delete f l i x Hi), delete_take_drop.
  rewrite insert_take_drop by (by eapply lookup_lt_Some).
  rewrite !fmap_app, fmap_cons, !sumZ_app. simpl. lia.
Qed.

(** ** Arrays with a live prefix

    The fixed-capacity C arrays ([pending_], [tickers_], [orders_], ...) are
    represented by the list of their first [count_] elements: no operation of
    the program reads an element at or beyond [count_] before writing it. *)

(** [a[i] = a[--count]]: the last live element fills the hole. *)
Definition swap_remove {A} (i : nat) (l : list A) : list A :=
  match last l with
  | Some x => take (length l - 1) (<[i := x]> l)
  | None => l
  end.

Lemma swap_remove_perm {A} (i : nat) (l : list A) :
  (i < length l)%nat → swap_remove i l ≡ₚ delete i l.
Proof.
  destruct l as [|y l _] using rev_ind; [simpl; lia|].
  rewrite length_app; simpl; intros Hi. unfold swap_remove.
  rewrite last_snoc, length_app; simpl.
  replace (length l + 1 - 1)%nat with (length l) by lia.
  destruct (decide (i = length l)) as [->|Hne].
  - rewrite (insert_app_r_alt l [y] (length l)) by lia.
    rewrite Nat.sub_diag; simpl. rewrite take_app_length.
    rewrite delete_middle. by rewrite app_nil_r.
  - rewrite insert_app_l by lia.
    rewrite take_app_length' by (rewrite length_insert; done).
    destruct (lookup_lt_is_Some_2 l i ltac:(lia)) as [x Hx].
    rewrite <- (take_drop_middle l i x Hx) at 1 2.
    assert (length (take i l) = i) as Hlen by (rewrite length_take; lia).
    rewrite insert_app_r_alt by lia. rewrite Hlen, Nat.sub_diag; simpl.
    rewrite <- app_assoc; simpl.
    replace i with (length (take i l)) at 3 by done.
    rewrite delete_middle, app_assoc. by rewrite <- Permutation_cons_append, <- Permutation_middle.
Qed.

Lemma swap_remove_length {A} (i : nat) (l : list A) :
  (i < length l)%nat → length (swap_remove i l) = (length l - 1)%nat.
Proof. intros Hi. rewrite (swap_remove_perm i l Hi). by rewrite length_delete by (by apply lookup_lt_is_Some). Qed.

(** The linear scans [for (i < count) if (match) return i]. *)
Lemma list_find_app {A} (P : A → Prop) `{∀ x, Decision (P x)} (l k : list A) :
  list_find P (l ++ k) =
    match list_find P l with
    | Some r => Some r
    | None => prod_map (Nat.add (length l)) id <$> list_find P k
    end.
Proof.
  induction l as [|x l IH]; simpl; [by destruct (list_find P k) as [[]|]|].
  case_decide; [done|]. rewrite IH. destruct (list_find P l) as [[]|]; [done|].
  simpl. by destruct (list_find P k) as [[]|].
Qed.

Lemma submseteq_NoDup_inv {A} (l k : list A) : l ⊆+ k → NoDup k → NoDup l.
Proof. intros (k' & ->)%submseteq_Permutation Hnd. by apply NoDup_app in Hnd as (? & _). Qed.

Lemma submseteq_Forall {A} (P : A → Prop) (l k : list A) : l ⊆+ k → Forall P k → Forall P l.
Proof. intros (k' & ->)%submseteq_Permutation Hf. by apply Forall_app in Hf as [? _]. Qed.

(** ** Automation *)
Create HintDb alpha.
#[export] Hint Resolve wrapU_range wrapS_range : alpha.

(** Discharge the range checks of straight-line arithmetic. *)
Ltac ok_simp :=
  repeat first [ progress cbn [mbind outcome_bind] | rewrite chkS_ok by (lia || nia) ].

(** Split the boolean tests of the translated code and turn them into
    arithmetic facts. *)
Ltac bsplit :=
  repeat match goal with
  | H : (_ && _) = true |- _ => apply andb_true_iff in H as [? ?]
  | H : (_ || _) = false |- _ => apply orb_false_iff in H as [? ?]
  | H : negb _ = true |- _ => apply negb_true_iff in H
  | H : negb _ = false |- _ => apply negb_false_iff in H
  | H : (_ =? _) = true |- _ => apply Z.eqb_eq in H
  | H : (_ =? _) = false |- _ => apply Z.eqb_neq in H
  | H : (_ <=? _) = true |- _ => apply Z.leb_le in H
  | H : (_ <=? _) = false |- _ => apply Z.leb_gt in H
  | H : (_ <? _) = true |- _ => apply Z.ltb_lt in H
  | H : (_ <? _) = false |- _ => apply Z.ltb_ge in H
  | H : bool_decide _ = true |- _ => apply bool_decide_eq_true in H
  | H : bool_decide _ = false |- _ => apply bool_decide_eq_false in H
  end.
