(* ===== verification/Types.v ===== *)
(** * The domain types of [src/src/types.h]

    Scalars are [Z] values; their C++ widths are: [Price] and [Ratio] 32-bit
    signed, [Quantity] and [TickerId] 32-bit unsigned, [OrderId] and [SeqNum]
    64-bit unsigned.  Structs are records whose fields carry a prefix per
    struct; default member initialisers are the [default_*] values. *)

From S2P Require Import Prelude.

Abbreviation Price := Z (only parsing).
Abbreviation Quantity := Z (only parsing).
Abbreviation OrderId := Z (only parsing).
Abbreviation SeqNum := Z (only parsing).
Abbreviation TickerId := Z (only parsing).
Abbreviation Ratio := Z (only parsing).

Definition Price_INVALID : Price := - 2 ^ 31.
Definition Ratio_INVALID : Ratio := - 2 ^ 31.
Definition Ratio_SCALE : Ratio := 1000000.
Definition OrderId_INVALID : OrderId := 2 ^ 64 - 1.
Definition TickerId_INVALID : TickerId := 2 ^ 32 - 1.

(** Value ranges of the scalar types. *)
Definition is_price (p : Z) : Prop := - 2 ^ 31 ≤ p < 2 ^ 31.
Definition is_qty (q : Z) : Prop := 0 ≤ q < 2 ^ 32.
Definition is_ticker (t : Z) : Prop := 0 ≤ t < 2 ^ 32.
Definition is_u64 (x : Z) : Prop := 0 ≤ x < 2 ^ 64.
Definition is_s64 (x : Z) : Prop := - 2 ^ 63 ≤ x < 2 ^ 63.

(** [enum class Side : char].  The underlying type is fixed, so a cast from a
    wire byte can produce a value that is neither enumerator: [Side_raw c]. *)
Inductive Side : Type :=
| BUY
| SELL
| Side_raw (c : Z).

#[export] Instance Side_eq_dec : EqDecision Side.
Proof. solve_decision. Defined.

Definition Side_of_char (c : Z) : Side :=
  if c =? 66 then BUY else if c =? 83 then SELL else Side_raw c.

Definition char_of_Side (s : Side) : Z :=
  match s with BUY => 66 | SELL => 83 | Side_raw c => c end.

(** [side == Side::BUY] *)
Definition is_buy (s : Side) : bool := bool_decide (s = BUY).

Inductive UpdateType : Type :=
| ADD
| ADD_MPID
| EXECUTE
| CANCEL
| DELETE
| REPLACE
| SNAPSHOT_START
| SNAPSHOT_CLEAR
| SNAPSHOT_END.

#[export] Instance UpdateType_eq_dec : EqDecision UpdateType.
Proof. solve_decision. Defined.

Record MarketUpdate : Type := mkMarketUpdate {
  mu_seq_num : SeqNum;
  mu_ticker_id : TickerId;
  mu_type : UpdateType;
  mu_side : Side;
  mu_price : Price;
  mu_qty : Quantity;
  mu_order_ref : OrderId;
  mu_new_ref : OrderId
}.

#[export] Instance MarketUpdate_eq_dec : EqDecision MarketUpdate.
Proof. solve_decision. Defined.

Definition default_MarketUpdate : MarketUpdate :=
  mkMarketUpdate 0 TickerId_INVALID ADD BUY 0 0 0 0.

Inductive OrderRequestType : Type :=
| RQ_NEW
| RQ_CANCEL
| RQ_REPLACE.

#[export] Instance OrderRequestType_eq_dec : EqDecision OrderRequestType.
Proof. solve_decision. Defined.

Record OrderRequest : Type := mkOrderRequest {
  rq_type : OrderRequestType;
  rq_client_order_id : OrderId;
  rq_new_client_order_id : OrderId;
  rq_ticker_id : TickerId;
  rq_side : Side;
  rq_price : Price;
  rq_qty : Quantity;
  rq_ioc : bool
}.

#[export] Instance OrderRequest_eq_dec : EqDecision OrderRequest.
Proof. solve_decision. Defined.

Inductive ResponseStatus : Type :=
| ACCEPTED
| EXECUTED
| CANCELED
| REJECTED
| CANCEL_REJECTED.

#[export] Instance ResponseStatus_eq_dec : EqDecision ResponseStatus.
Proof. solve_decision. Defined.

Record OrderResponse : Type := mkOrderResponse {
  rs_client_order_id : OrderId;
  rs_market_order_id : OrderId;
  rs_side : Side;
  rs_price : Price;
  rs_qty : Quantity;
  rs_executed_qty : Quantity;
  rs_execution_price : Price;
  rs_canceled_qty : Quantity;
  rs_status : ResponseStatus
}.

#[export] Instance OrderResponse_eq_dec : EqDecision OrderResponse.
Proof. solve_decision. Defined.

Record Position : Type := mkPosition {
  net_qty : Z;
  realized_pnl : Z;
  unrealized_pnl : Z;
  avg_entry_price : Price;
  mark_price : Price
}.

#[export] Instance Position_eq_dec : EqDecision Position.
Proof. solve_decision. Defined.

Definition default_Position : Position :=
  mkPosition 0 0 0 Price_INVALID Price_INVALID.

Record BBO : Type := mkBBO {
  bid_price : Price;
  bid_qty : Quantity;
  ask_price : Price;
  ask_qty : Quantity
}.

#[export] Instance BBO_eq_dec : EqDecision BBO.
Proof. solve_decision. Defined.

Definition default_BBO : BBO := mkBBO Price_INVALID 0 Price_INVALID 0.

(** [namespace SnapshotControl] *)
Definition CTL_SNAPSHOT_START : Z := 0xBBBB.
Definition CTL_SNAPSHOT_CLEAR : Z := 0xCCCC.
Definition CTL_SNAPSHOT_END : Z := 0xEEEE.

(** The signed quantity of an order: [side == BUY ? qty : -qty]. *)
Definition signed_qty (s : Side) (q : Quantity) : Z := if is_buy s then q else - q.

Lemma signed_qty_sub s a b : signed_qty s (a - b) = signed_qty s a - signed_qty s b.
Proof. unfold signed_qty. destruct (is_buy s); lia. Qed.

Lemma signed_qty_abs s q : Z.abs (signed_qty s q) = Z.abs q.
Proof. unfold signed_qty. destruct (is_buy s); lia. Qed.
