(* ===== verification/OrderIdAllocator.v ===== *)
(** * [OrderIdAllocator] of [src/src/trading/order_id_allocator.h]

    One id sequence shared by every strategy slot: the slot in the high 16
    bits, a masked counter in the low 48. *)

From S2P Require Import Prelude Types.

Definition SLOT_BITS : Z := 16.
Definition COUNTER_BITS : Z := 64 - SLOT_BITS.
Definition COUNTER_MASK : Z := wrapU 64 (Z.shiftl 1 COUNTER_BITS) - 1.

Record OrderIdAllocator : Type := mkAllocator {
  slot_count_ : Z;
  counter_ : OrderId
}.

(** [explicit OrderIdAllocator(size_t slot_count)] *)
Definition OrderIdAllocator_new (slot_count : Z) : OrderIdAllocator :=
  mkAllocator slot_count 1.

(** [(static_cast<OrderId>(slot) << COUNTER_BITS) | (counter_++ & COUNTER_MASK)] *)
Definition next (slot : Z) (a : OrderIdAllocator) : OrderId * OrderIdAllocator :=
  (Z.lor (wrapU 64 (Z.shiftl slot COUNTER_BITS)) (Z.land (counter_ a) COUNTER_MASK),
   mkAllocator (slot_count_ a) (wrapU 64 (counter_ a + 1))).

Definition ownerOf (id : OrderId) (a : OrderIdAllocator) : Z :=
  let slot := Z.shiftr id COUNTER_BITS in
  if slot <? slot_count_ a then slot else slot_count_ a.

Definition peek (a : OrderIdAllocator) : OrderId := Z.land (counter_ a) COUNTER_MASK.

Definition slotCount (a : OrderIdAllocator) : Z := slot_count_ a.

(** The ids produced by a sequence of calls [next(s1); next(s2); ...]. *)
Fixpoint next_run (slots : list Z) (a : OrderIdAllocator) : list OrderId * OrderIdAllocator :=
  match slots with
  | [] => ([], a)
  | s :: slots' =>
      let '(id, a1) := next s a in
      let '(ids, a2) := next_run slots' a1 in
      (id :: ids, a2)
  end.

(** ** Arithmetic form of the encoding *)

Lemma COUNTER_MASK_ones : COUNTER_MASK = Z.ones 48.
Proof. reflexivity. Qed.

Lemma next_id_arith slot a :
  0 ≤ slot < 2 ^ 16 →
  (next slot a).1 = slot * 2 ^ 48 + counter_ a `mod` 2 ^ 48.
Proof.
  intros Hs. unfold next; simpl fst. rewrite COUNTER_MASK_ones.
  rewrite Z.land_ones by lia.
  change COUNTER_BITS with 48. rewrite Z.shiftl_mul_pow2 by lia.
  rewrite wrapU_small by lia.
  pose proof (Z.mod_pos_bound (counter_ a) (2 ^ 48) ltac:(lia)).
  rewrite <- Z.lxor_lor, <- Z.add_nocarry_lxor; [done| |];
    apply Z.bits_inj'; intros n Hn;
    rewrite Z.land_spec, Z.bits_0, <- (Z.mod_small (counter_ a `mod` 2 ^ 48) (2 ^ 48)) by lia;
    destruct (Z.lt_ge_cases n 48);
    [rewrite Z.mul_pow2_bits_low by lia; done
    |rewrite (Z.mod_pow2_bits_high _ 48) by lia; apply andb_false_r
    |rewrite Z.mul_pow2_bits_low by lia; done
    |rewrite (Z.mod_pow2_bits_high _ 48) by lia; apply andb_false_r].
Qed.

Lemma next_id_slot slot a :
  0 ≤ slot < 2 ^ 16 → Z.shiftr (next slot a).1 48 = slot.
Proof.
  intros Hs. rewrite next_id_arith by done. rewrite Z.shiftr_div_pow2 by lia.
  pose proof (Z.mod_pos_bound (counter_ a) (2 ^ 48) ltac:(lia)).
  rewrite Z.div_add_l by lia. rewrite Z.div_small; lia.
Qed.

Lemma next_id_low slot a :
  0 ≤ slot < 2 ^ 16 → (next slot a).1 `mod` 2 ^ 48 = counter_ a `mod` 2 ^ 48.
Proof.
  intros Hs. rewrite next_id_arith by done.
  rewrite Z.add_comm, Z.mod_add by lia. by apply Z.mod_mod.
Qed.

Lemma next_id_u64 slot a : 0 ≤ slot < 2 ^ 16 → is_u64 (next slot a).1.
Proof.
  intros Hs. rewrite next_id_arith by done. unfold is_u64.
  pose proof (Z.mod_pos_bound (counter_ a) (2 ^ 48) ltac:(lia)). lia.
Qed.

Lemma next_counter slot a :
  is_u64 (counter_ a) → counter_ a + 1 < 2 ^ 64 →
  counter_ (next slot a).2 = counter_ a + 1.
Proof. unfold is_u64; simpl; intros. apply wrapU_small. lia. Qed.

Lemma next_id_nonzero slot a :
  0 ≤ slot < 2 ^ 16 → 0 < counter_ a < 2 ^ 48 → 0 < (next slot a).1.
Proof.
  intros Hs Hc. rewrite next_id_arith by done.
  rewrite (Z.mod_small (counter_ a)) by lia. lia.
Qed.

(** The low bits of the [k]-th id of a run. *)
Lemma next_run_low slots a ids a' :
  Forall (λ s, 0 ≤ s < 2 ^ 16) slots →
  0 ≤ counter_ a → counter_ a + Z.of_nat (length slots) < 2 ^ 64 →
  next_run slots a = (ids, a') →
  ∀ k id, ids !! k = Some id → id `mod` 2 ^ 48 = (counter_ a + Z.of_nat k) `mod` 2 ^ 48.
Proof.
  revert a ids a'. induction slots as [|s slots IH]; intros a ids a' Hs Hc Hlen Hrun k id Hk.
  { simpl in Hrun. simplify_eq. }
  apply Forall_cons in Hs as [Hs Hs']. simpl in Hrun, Hlen.
  destruct (next_run slots _) as [ids1 a1] eqn:E. simplify_eq/=.
  destruct k as [|k]; simpl in Hk; simplify_eq.
  - rewrite Z.add_0_r. by apply (next_id_low s a).
  - eapply IH in E; [| done | | | done]; simpl;
      [rewrite E; simpl | |]; rewrite ?wrapU_small by lia; [f_equal; lia | lia | lia].
Qed.

#[export] Hint Resolve next_id_u64 next_id_nonzero : alpha.

#[global] Arguments next : simpl never.

(** ** Properties *)

(** An issued id names its owner: [ownerOf] recovers the slot from the id
    for every slot the allocator was built for, whatever its counter, and the
    id is a valid 64-bit value. *)
Theorem ownerOf_next slot a :
  0 ≤ slot < slot_count_ a → slot_count_ a ≤ 2 ^ 16 →
  ∃ id a', next slot a = (id, a') ∧ ownerOf id a' = slot ∧ is_u64 id.
Proof.
  intros Hs Hc. exists (next slot a).1, (next slot a).2. split; [by destruct (next slot a)|].
  assert (0 ≤ slot < 2 ^ 16) as Hs' by lia. split; [|by apply next_id_u64].
  unfold ownerOf. change COUNTER_BITS with 48. rewrite next_id_slot by done.
  unfold next; simpl. by rewrite (proj2 (Z.ltb_lt _ _) (proj2 Hs)).
Qed.

Lemma ownerOf_next_witness : ∃ id a', next 2 (OrderIdAllocator_new 3) = (id, a') ∧ ownerOf id a' = 2 ∧ is_u64 id.
Proof. apply (ownerOf_next 2 (OrderIdAllocator_new 3)); simpl; lia. Defined.

(** C32: No id is issued twice: any interleaving of requests by the slots, up
    to one full period of the 48-bit counter, yields pairwise distinct ids. *)
Theorem next_run_NoDup slots a :
  Forall (λ s, 0 ≤ s < 2 ^ 16) slots → 0 < counter_ a →
  Z.of_nat (length slots) ≤ 2 ^ 48 → counter_ a + Z.of_nat (length slots) < 2 ^ 64 →
  NoDup (next_run slots a).1.
Proof.
  intros Hs Hc Hlen Hmax. destruct (next_run slots a) as [ids a'] eqn:E. simpl.
  assert (length ids = length slots) as Hl.
  { clear -E. revert a ids E. induction slots as [|s slots IH]; intros a ids E; cbn [next_run] in E; [by simplify_eq|].
    destruct (next s a) as [id a1]. destruct (next_run slots a1) as [ids1 a2] eqn:E1.
    simplify_eq/=. f_equal. by eapply IH. }
  apply NoDup_alt. intros i j x Hi Hj.
  pose proof (lookup_lt_Some _ _ _ Hi). pose proof (lookup_lt_Some _ _ _ Hj).
  pose proof (next_run_low slots a ids a' Hs ltac:(lia) Hmax E i x Hi) as H1.
  pose proof (next_run_low slots a ids a' Hs ltac:(lia) Hmax E j x Hj) as H2.
  rewrite H1 in H2.
  assert ((Z.of_nat i - Z.of_nat j) `mod` 2 ^ 48 = 0) as Hm.
  { replace (Z.of_nat i - Z.of_nat j) with ((counter_ a + Z.of_nat i) - (counter_ a + Z.of_nat j)) by lia.
    rewrite Zminus_mod, H2, Z.sub_diag. done. }
  apply Z.mod_divide in Hm as [k Hk]; lia.
Qed.

Lemma next_run_NoDup_witness : NoDup (next_run [0; 1; 0; 2; 1] (OrderIdAllocator_new 3)).1.
Proof. apply next_run_NoDup; [repeat constructor|..]; vm_compute; congruence. Defined.
