(* ===== verification/PnLTracker.v ===== *)
(** * [PnLTracker] of [src/src/trading/pnl_tracker.h]

    Positions per registered ticker, with average entry price and realised and
    unrealised profit.  [__int128] intermediates are checked at 128 bits and
    [int64_t] arithmetic at 64 bits: leaving the range is undefined. *)

From S2P Require Import Prelude Types.

Record Entry : Type := mkEntry {
  e_ticker_id : TickerId;
  e_position : Position
}.

(** [entries_[0 .. count_)] *)
Record PnLTracker : Type := mkPnLTracker { entries_ : list Entry }.

Definition PnLTracker_new : PnLTracker := mkPnLTracker [].
Definition count (t : PnLTracker) : nat := length (entries_ t).

(** The scan shared by both [get] overloads: the first entry of the ticker. *)
Definition get_index (ticker_id : TickerId) (t : PnLTracker) : option nat :=
  fst <$> list_find (λ e, e_ticker_id e = ticker_id) (entries_ t).

Definition get (ticker_id : TickerId) (t : PnLTracker) : option Position :=
  e_position ∘ snd <$> list_find (λ e, e_ticker_id e = ticker_id) (entries_ t).

(** [*get(ticker_id) = p], a store through the pointer [get] returned. *)
Definition set_position (ticker_id : TickerId) (p : Position) (t : PnLTracker) : PnLTracker :=
  match get_index ticker_id t with
  | Some i => mkPnLTracker (<[i := mkEntry ticker_id p]> (entries_ t))
  | None => t
  end.

Definition registerTicker (MaxTickers : nat) (ticker_id : TickerId) (t : PnLTracker) : bool * PnLTracker :=
  match get ticker_id t with
  | Some _ => (true, t)
  | None =>
      if bool_decide (count t = MaxTickers) then (false, t)
      else (true, mkPnLTracker (entries_ t ++ [mkEntry ticker_id default_Position]))
  end.

Definition absQty (qty : Z) : outcome Z := if qty <? 0 then chkS 64 (- qty) else Ok qty.
Definition fitsInt64 (v : Z) : bool := fitsS 64 v.

Definition updateUnrealized (p : Position) : outcome (option Position) :=
  if (net_qty p =? 0) || (mark_price p =? Price_INVALID) then
    Ok (Some (mkPosition (net_qty p) (realized_pnl p) 0 (avg_entry_price p) (mark_price p)))
  else
    diff ← chkS 64 (mark_price p - avg_entry_price p);
    unrealized ← chkS 128 (net_qty p * diff);
    if negb (fitsInt64 unrealized) then Ok None
    else Ok (Some (mkPosition (net_qty p) (realized_pnl p) unrealized (avg_entry_price p) (mark_price p))).

(** The body of [onExecution] between the lookup and the final store: the new
    net quantity, realised profit and average entry price. *)
Definition execute_position (side : Side) (price : Price) (qty : Quantity) (p : Position)
    : outcome (option Position) :=
  let sq := signed_qty side qty in
  if net_qty p =? 0 then
    updateUnrealized (mkPosition sq (realized_pnl p) (unrealized_pnl p) price (mark_price p))
  else if Bool.eqb (0 <? net_qty p) (0 <? sq) then
    old_qty ← absQty (net_qty p);
    new_qty ← chkS 64 (old_qty + qty);
    weighted_price ← chkS 128 (avg_entry_price p * old_qty + price * qty);
    avg ← divS 128 weighted_price new_qty;
    net ← chkS 64 (net_qty p + sq);
    updateUnrealized (mkPosition net (realized_pnl p) (unrealized_pnl p) (wrapS 32 avg) (mark_price p))
  else
    open_qty ← absQty (net_qty p);
    let closing_qty := if open_qty <? qty then open_qty else qty in
    pnl_per_unit ← chkS 64 (if 0 <? net_qty p then price - avg_entry_price p
                            else avg_entry_price p - price);
    realized ← chkS 128 (realized_pnl p + pnl_per_unit * closing_qty);
    if negb (fitsInt64 realized) then Ok None
    else if open_qty <? qty then
      net ← chkS 64 (if is_buy side then qty - open_qty else open_qty - qty);
      updateUnrealized (mkPosition net realized (unrealized_pnl p) price (mark_price p))
    else
      net ← chkS 64 (net_qty p + sq);
      updateUnrealized (mkPosition net realized (unrealized_pnl p)
                          (if net =? 0 then Price_INVALID else avg_entry_price p) (mark_price p)).

Definition onExecution (ticker_id : TickerId) (side : Side) (price : Price) (qty : Quantity)
    (t : PnLTracker) : outcome (bool * PnLTracker) :=
  match get ticker_id t with
  | None => Ok (false, t)
  | Some current =>
      if (price =? Price_INVALID) || (qty =? 0) then Ok (false, t)
      else
        res ← execute_position side price qty current;
        match res with
        | None => Ok (false, t)
        | Some nxt => Ok (true, set_position ticker_id nxt t)
        end
  end.

Definition onMark (ticker_id : TickerId) (mark : Price) (t : PnLTracker) : outcome (bool * PnLTracker) :=
  match get ticker_id t with
  | None => Ok (false, t)
  | Some p =>
      if mark =? Price_INVALID then Ok (false, t)
      else
        res ← updateUnrealized (mkPosition (net_qty p) (realized_pnl p) (unrealized_pnl p)
                                  (avg_entry_price p) mark);
        match res with
        | None => Ok (false, t)
        | Some nxt => Ok (true, set_position ticker_id nxt t)
        end
  end.

(** The accumulation loop of [totalPnL], in [__int128]. *)
Fixpoint totalPnL_loop (l : list Entry) (total : Z) : outcome Z :=
  match l with
  | [] => Ok total
  | e :: l' =>
      t1 ← chkS 128 (total + realized_pnl (e_position e));
      t2 ← chkS 128 (t1 + unrealized_pnl (e_position e));
      totalPnL_loop l' t2
  end.

Definition totalPnL (t : PnLTracker) : outcome (option Z) :=
  total ← totalPnL_loop (entries_ t) 0;
  if negb (fitsInt64 total) then Ok None else Ok (Some total).

(** ** Specification *)

(** The unrealised profit a position must show: zero when flat or unmarked. *)
Definition unrealized_spec (p : Position) : Z :=
  if (net_qty p =? 0) || (mark_price p =? Price_INVALID) then 0
  else net_qty p * (mark_price p - avg_entry_price p).

(** Worth of a position at price [m]: realised profit plus the open quantity
    marked to [m] against its entry price. *)
Definition position_value (m : Z) (p : Position) : Z :=
  realized_pnl p + net_qty p * (m - avg_entry_price p).

Record wf_position (p : Position) : Prop := {
  wf_net : Z.abs (net_qty p) < 2 ^ 63;
  wf_realized : is_s64 (realized_pnl p);
  wf_avg : is_price (avg_entry_price p);
  wf_mark : is_price (mark_price p);
  wf_flat : net_qty p = 0 ↔ avg_entry_price p = Price_INVALID;
  wf_unrealized : unrealized_pnl p = unrealized_spec p;
  wf_unrealized_range : is_s64 (unrealized_pnl p)
}.

Definition wf_tracker (t : PnLTracker) : Prop :=
  NoDup (e_ticker_id <$> entries_ t) ∧ Forall (λ e, wf_position (e_position e)) (entries_ t).

(** ** Lemmas on positions *)

Lemma wf_default : wf_position default_Position.
Proof. split; unfold is_s64, is_price; simpl; done || (unfold Price_INVALID; lia). Qed.

Lemma fitsInt64_spec v : fitsInt64 v = true ↔ is_s64 v.
Proof. unfold fitsInt64. by rewrite fitsS_spec. Qed.

Lemma absQty_ok q : Z.abs q < 2 ^ 63 → absQty q = Ok (Z.abs q).
Proof.
  intros Hq. unfold absQty. destruct (q <? 0) eqn:E; bsplit.
  - rewrite chkS_ok by lia. f_equal. lia.
  - f_equal. lia.
Qed.

Lemma updateUnrealized_spec p :
  Z.abs (net_qty p) < 2 ^ 63 → is_price (avg_entry_price p) → is_price (mark_price p) →
  updateUnrealized p =
    Ok (if fitsInt64 (unrealized_spec p)
        then Some (mkPosition (net_qty p) (realized_pnl p) (unrealized_spec p)
                     (avg_entry_price p) (mark_price p))
        else None).
Proof.
  unfold is_price. intros Hn Ha Hm. unfold updateUnrealized, unrealized_spec.
  destruct ((net_qty p =? 0) || (mark_price p =? Price_INVALID)); [done|].
  rewrite chkS_ok by lia. cbn [mbind outcome_bind].
  rewrite chkS_ok by nia. cbn [mbind outcome_bind].
  by destruct (fitsInt64 _).
Qed.

(** Reference bookkeeping over unbounded integers: open, increase, reduce or
    flip.  [unrealized_pnl] is left for [updateUnrealized]. *)
Definition book_fill (side : Side) (price qty : Z) (p : Position) : Position :=
  let sq := signed_qty side qty in
  let n := net_qty p in
  let closed := Z.min (Z.abs n) qty in
  let realized := realized_pnl p + Z.sgn n * (price - avg_entry_price p) * closed in
  if n =? 0 then mkPosition sq (realized_pnl p) (unrealized_pnl p) price (mark_price p)
  else if 0 <? n * sq then
    mkPosition (n + sq) (realized_pnl p) (unrealized_pnl p)
      (Z.quot (avg_entry_price p * Z.abs n + price * qty) (Z.abs n + qty)) (mark_price p)
  else
    mkPosition (n + sq) realized (unrealized_pnl p)
      (if Z.abs n <? qty then price else if n + sq =? 0 then Price_INVALID else avg_entry_price p)
      (mark_price p).

(** What the truncation of the average entry price adds to the position's value:
    a fill that increases the position stores the quotient of the weighted sum
    and drops the remainder, which is smaller than the new quantity; every other
    fill is exact. *)
Definition rounding (side : Side) (price qty : Z) (p : Position) : Z :=
  if 0 <? net_qty p * signed_qty side qty
  then Z.sgn (net_qty p) * Z.rem (avg_entry_price p * Z.abs (net_qty p) + price * qty) (Z.abs (net_qty p) + qty)
  else 0.

(** The position with its unrealised profit brought up to date, and whether its
    profits fit [int64_t]. *)
Definition settled (p : Position) : Position :=
  mkPosition (net_qty p) (realized_pnl p) (unrealized_spec p) (avg_entry_price p) (mark_price p).
Definition bookable (p : Position) : bool := fitsInt64 (realized_pnl p) && fitsInt64 (unrealized_spec p).

(** What a fill does to a well-formed position, when it is accepted. *)
Definition filled (side : Side) (price qty : Z) (p p' : Position) : Prop :=
  net_qty p' = net_qty p + signed_qty side qty ∧
  avg_entry_price p' = avg_entry_price (book_fill side price qty p) ∧
  realized_pnl p' = realized_pnl (book_fill side price qty p) ∧
  mark_price p' = mark_price p ∧
  ∀ m, position_value m p' = position_value m p + signed_qty side qty * (m - price) + rounding side price qty p.

Ltac case_fits :=
  match goal with |- context [fitsInt64 ?x] => destruct (fitsInt64 x) eqn:? end.

Section Fill.
Context (side : Side) (price qty : Z) (p : Position).
Context (Hwf : wf_position p) (Hprice : is_price price) (Hvalid : price ≠ Price_INVALID).
Context (Hqty : 0 < qty < 2 ^ 32) (Hroom : Z.abs (net_qty p) + qty < 2 ^ 63).

Lemma signed_qty_cases : signed_qty side qty = qty ∧ is_buy side = true ∨
                         signed_qty side qty = - qty ∧ is_buy side = false.
Proof using Type. unfold signed_qty. destruct (is_buy side); auto. Qed.

Lemma avg_valid : net_qty p ≠ 0 → - 2 ^ 31 < avg_entry_price p < 2 ^ 31.
Proof using All.
  intros Hn. destruct Hwf as [_ _ Ha _ Hf _ _]. unfold is_price, Price_INVALID in *. lia.
Qed.

(** The weighted average stays strictly inside the price range. *)
Lemma weighted_avg_range :
  net_qty p ≠ 0 →
  - 2 ^ 31 < Z.quot (avg_entry_price p * Z.abs (net_qty p) + price * qty) (Z.abs (net_qty p) + qty) < 2 ^ 31.
Proof using All.
  intros Hn. pose proof (avg_valid Hn). unfold is_price, Price_INVALID in *.
  pose proof (quot_between (avg_entry_price p * Z.abs (net_qty p) + price * qty)
                (Z.abs (net_qty p) + qty) (- 2 ^ 31 + 1) (2 ^ 31 - 1) ltac:(lia) ltac:(nia)). lia.
Qed.

Lemma execute_position_eq :
  execute_position side price qty p =
    if fitsInt64 (realized_pnl (book_fill side price qty p))
    then updateUnrealized (book_fill side price qty p) else Ok None.
Proof using All.
  pose proof Hwf as [_ Hr Ha _ _ _ _]. apply fitsInt64_spec in Hr as Hr'.
  unfold execute_position, book_fill. cbn zeta.
  destruct (net_qty p =? 0) eqn:En; [simpl; by rewrite Hr'|]. bsplit.
  rewrite absQty_ok by lia. pose proof (weighted_avg_range En). pose proof (avg_valid En).
  unfold is_price, is_s64, Price_INVALID in *.
  destruct signed_qty_cases as [[-> Hb]|[-> Hb]].
  - replace (0 <? qty) with true by lia.
    destruct (0 <? net_qty p) eqn:Es; cbn [Bool.eqb]; bsplit.
    + replace (0 <? net_qty p * qty) with true by nia. simpl realized_pnl. rewrite Hr'.
      ok_simp. rewrite divS_ok by lia. ok_simp. by rewrite wrapS_small by lia.
    + replace (0 <? net_qty p * qty) with false by nia. simpl realized_pnl. ok_simp.
      replace (if Z.abs (net_qty p) <? qty then Z.abs (net_qty p) else qty)
        with (Z.min (Z.abs (net_qty p)) qty) by (destruct (_ <? _) eqn:?; lia).
      replace (Z.sgn (net_qty p)) with (-1) by lia. ok_simp.
      replace (-1 * (price - avg_entry_price p)) with (avg_entry_price p - price) by lia.
      rewrite Hb. destruct (Z.abs (net_qty p) <? qty) eqn:Ef; bsplit; ok_simp;
        case_fits; cbn [negb]; done || (do 2 f_equal; lia).
  - replace (0 <? - qty) with false by lia.
    destruct (0 <? net_qty p) eqn:Es; cbn [Bool.eqb]; bsplit.
    + replace (0 <? net_qty p * - qty) with false by nia. simpl realized_pnl. ok_simp.
      replace (if Z.abs (net_qty p) <? qty then Z.abs (net_qty p) else qty)
        with (Z.min (Z.abs (net_qty p)) qty) by (destruct (_ <? _) eqn:?; lia).
      replace (Z.sgn (net_qty p)) with 1 by lia. ok_simp.
      replace (1 * (price - avg_entry_price p)) with (price - avg_entry_price p) by lia.
      rewrite Hb. destruct (Z.abs (net_qty p) <? qty) eqn:Ef; bsplit; ok_simp;
        case_fits; cbn [negb]; done || (do 2 f_equal; lia).
    + replace (0 <? net_qty p * - qty) with true by nia. simpl realized_pnl. rewrite Hr'.
      ok_simp. rewrite divS_ok by lia. ok_simp. by rewrite wrapS_small by lia.
Qed.

(** The bookkeeping conserves value up to the rounding of the average. *)
Lemma book_fill_filled : filled side price qty p (book_fill side price qty p).
Proof using All.
  pose proof avg_valid as Hav. unfold filled, rounding, book_fill, position_value, is_price in *. cbn zeta.
  destruct (net_qty p =? 0) eqn:En; bsplit; [|specialize (Hav En)].
  { simpl. rewrite En. split_and!; [lia|done|done|done|]. intros m. simpl. lia. }
  destruct (0 <? net_qty p * signed_qty side qty) eqn:Es; bsplit; simpl.
  - split_and!; [done|done|done|done|]. intros m.
    pose proof (Z.quot_rem' (avg_entry_price p * Z.abs (net_qty p) + price * qty) (Z.abs (net_qty p) + qty)) as Hqr.
    set (q := Z.quot _ _) in *. set (k := Z.rem _ _) in *.
    destruct signed_qty_cases as [[E _]|[E _]]; rewrite E in *.
    + rewrite (Z.sgn_pos (net_qty p)), (Z.abs_eq (net_qty p)) in * by nia. nia.
    + rewrite (Z.sgn_neg (net_qty p)), (Z.abs_neq (net_qty p)) in * by nia. nia.
  - split_and!; [done|done|done|done|]. intros m. rewrite Z.add_0_r.
    destruct (Z.abs (net_qty p) <? qty) eqn:Ef;
      [|destruct (net_qty p + signed_qty side qty =? 0) eqn:E0]; bsplit;
      destruct signed_qty_cases as [[E _]|[E _]]; rewrite E in *;
      destruct (Z.lt_trichotomy (net_qty p) 0) as [?|[?|?]]; try lia;
      ((replace (Z.sgn (net_qty p)) with (-1) by lia) || (replace (Z.sgn (net_qty p)) with 1 by lia));
      rewrite ?Z.min_l, ?Z.min_r by lia; try nia.
Qed.

(** The rounding of one fill is smaller than the position it leaves. *)
Lemma rounding_bound : Z.abs (rounding side price qty p) ≤ Z.abs (net_qty p + signed_qty side qty).
Proof using All.
  unfold rounding. destruct (0 <? _) eqn:E; bsplit; [|lia].
  pose proof (Z.rem_bound_abs (avg_entry_price p * Z.abs (net_qty p) + price * qty) (Z.abs (net_qty p) + qty) ltac:(lia)).
  destruct signed_qty_cases as [[E' _]|[E' _]]; rewrite E' in *; nia.
Qed.

Lemma book_fill_shape :
  Z.abs (net_qty (book_fill side price qty p)) < 2 ^ 63 ∧
  is_price (avg_entry_price (book_fill side price qty p)) ∧
  mark_price (book_fill side price qty p) = mark_price p ∧
  (net_qty (book_fill side price qty p) = 0 ↔
   avg_entry_price (book_fill side price qty p) = Price_INVALID).
Proof using All.
  pose proof avg_valid as Hav. pose proof weighted_avg_range as Hwa.
  unfold book_fill, is_price, Price_INVALID in *. cbn zeta.
  destruct (net_qty p =? 0) eqn:En; bsplit; [|specialize (Hav En); specialize (Hwa En)].
  { simpl. destruct signed_qty_cases as [[-> _]|[-> _]]; lia. }
  destruct (0 <? net_qty p * signed_qty side qty) eqn:Es; bsplit; simpl.
  - destruct signed_qty_cases as [[E _]|[E _]]; rewrite E in *; split_and!; try done; nia.
  - destruct (Z.abs (net_qty p) <? qty) eqn:Ef;
      [|destruct (net_qty p + signed_qty side qty =? 0) eqn:E0]; bsplit;
      destruct signed_qty_cases as [[E _]|[E _]]; rewrite E in *; split_and!; try done; nia.
Qed.

(** A fill on a well-formed position never meets undefined behaviour.  It is
    refused exactly when the realised or the unrealised profit of the booked
    position leaves [int64_t]; otherwise the result is well formed. *)
Lemma execute_position_spec :
  returns (execute_position side price qty p) (λ r,
    match r with
    | Some p' => wf_position p' ∧ filled side price qty p p' ∧ p' = settled (book_fill side price qty p) ∧
                 bookable (book_fill side price qty p) = true
    | None => bookable (book_fill side price qty p) = false
    end).
Proof using All.
  rewrite execute_position_eq. pose proof book_fill_shape as (Hn & Ha & Hm & Hf).
  pose proof book_fill_filled as Hfill.
  destruct (fitsInt64 (realized_pnl (book_fill side price qty p))) eqn:Er.
  2:{ simpl. unfold bookable. by rewrite Er. }
  pose proof (wf_mark _ Hwf) as Hmk.
  rewrite updateUnrealized_spec by (try done; by rewrite Hm). simpl. unfold bookable. rewrite Er.
  destruct (fitsInt64 (unrealized_spec (book_fill side price qty p))) eqn:Eu; simpl; [|done].
  apply fitsInt64_spec in Er, Eu. split_and!; [|done..].
  split; simpl; try done. by rewrite Hm.
Qed.
End Fill.

(** ** Lemmas on the tracker *)

Lemma get_Some_index tid t p :
  get tid t = Some p →
  ∃ i, get_index tid t = Some i ∧ entries_ t !! i = Some (mkEntry tid p).
Proof.
  unfold get, get_index. intros ([i e] & Hf & Hp)%fmap_Some. simpl in Hp.
  exists i. rewrite Hf. split; [done|]. apply list_find_Some in Hf as (Hi & <- & _).
  rewrite Hi. by destruct e; simplify_eq/=.
Qed.

Lemma get_lookup tid t p i :
  NoDup (e_ticker_id <$> entries_ t) → entries_ t !! i = Some (mkEntry tid p) → get tid t = Some p.
Proof.
  intros Hnd Hi. unfold get.
  destruct (list_find (λ e, e_ticker_id e = tid) (entries_ t)) as [[j e]|] eqn:E.
  - apply list_find_Some in E as (Hj & He & _). simpl.
    assert (i = j) as ->.
    { eapply (NoDup_lookup (e_ticker_id <$> entries_ t) i j tid);
        [done| |]; rewrite list_lookup_fmap, ?Hi, ?Hj; simpl; congruence. }
    rewrite Hj in Hi. injection Hi as ->. done.
  - exfalso. eapply list_find_None, Forall_lookup_1 in E; [|exact Hi]. done.
Qed.

Lemma set_position_tickers tid p t :
  is_Some (get tid t) → e_ticker_id <$> entries_ (set_position tid p t) = e_ticker_id <$> entries_ t.
Proof.
  intros [q (i & Hi & Hl)%get_Some_index]. unfold set_position. rewrite Hi. simpl.
  rewrite list_fmap_insert. apply list_insert_id. by rewrite list_lookup_fmap, Hl.
Qed.

Lemma get_set_position tid p t tid' :
  NoDup (e_ticker_id <$> entries_ t) → is_Some (get tid t) →
  get tid' (set_position tid p t) = if decide (tid' = tid) then Some p else get tid' t.
Proof.
  intros Hnd Hs. pose proof (set_position_tickers tid p t Hs) as Ht.
  destruct Hs as [q Hq]. pose proof (get_Some_index _ _ _ Hq) as (i & Hi & Hl).
  assert (i < length (entries_ t))%nat as Hlt by (by eapply lookup_lt_Some).
  case_decide as Ed; subst.
  - eapply (get_lookup _ _ _ i); [by rewrite Ht|]. unfold set_position. rewrite Hi. simpl.
    by apply list_lookup_insert_eq.
  - destruct (get tid' t) as [p'|] eqn:E'.
    + apply get_Some_index in E' as (j & _ & Hj).
      eapply (get_lookup _ _ _ j); [by rewrite Ht|]. unfold set_position. rewrite Hi. simpl.
      rewrite list_lookup_insert_ne; [done|]. intros ->. simplify_eq.
    + destruct (get tid' (set_position tid p t)) as [p'|] eqn:E; [|done].
      apply get_Some_index in E as (j & _ & Hj).
      unfold set_position in Hj. rewrite Hi in Hj. simpl in Hj.
      apply list_lookup_insert_Some in Hj as [(_ & ? & _)|(_ & Hj)]; [simplify_eq|].
      by rewrite (get_lookup _ _ _ _ Hnd Hj) in E'.
Qed.

Lemma wf_tracker_get tid t p : wf_tracker t → get tid t = Some p → wf_position p.
Proof.
  intros [_ Hf] (i & _ & Hi)%get_Some_index. eapply Forall_lookup_1 in Hf; [|exact Hi]. done.
Qed.

Lemma wf_tracker_set tid t p :
  wf_tracker t → is_Some (get tid t) → wf_position p → wf_tracker (set_position tid p t).
Proof.
  intros [Hnd Hf] Hs Hp. split; [by rewrite set_position_tickers|].
  unfold set_position. destruct (get_index tid t); [|done]. by apply Forall_insert.
Qed.

Lemma wf_tracker_new : wf_tracker PnLTracker_new.
Proof. split; constructor. Qed.

(** Registering: idempotent, bounded by the capacity, flat at the start. *)
Lemma registerTicker_pnl_spec Max tid t b t' :
  wf_tracker t → (count t ≤ Max)%nat → registerTicker Max tid t = (b, t') →
  wf_tracker t' ∧ (count t' ≤ Max)%nat ∧
  (b = false → t' = t ∧ count t = Max ∧ get tid t = None) ∧
  (b = true → get tid t' = Some (default default_Position (get tid t))) ∧
  (∀ tid', tid' ≠ tid → get tid' t' = get tid' t).
Proof.
  intros Hwf Hc. unfold registerTicker. destruct (get tid t) as [p|] eqn:E.
  { intros [= <- <-]. split_and!; try done. }
  case_bool_decide as Hd; intros [= <- <-].
  { split_and!; done. }
  assert (wf_tracker (mkPnLTracker (entries_ t ++ [mkEntry tid default_Position]))) as Hwf'.
  { destruct Hwf as [Hnd Hf]. split; simpl.
    - rewrite fmap_app. simpl. apply NoDup_app. split_and!; [done| |apply NoDup_singleton].
      intros x Hx ->%list_elem_of_singleton. apply list_elem_of_fmap in Hx as ([tx px] & -> & Hx).
      apply list_elem_of_lookup in Hx as [i Hi]. simpl in E.
      by rewrite (get_lookup _ _ _ _ Hnd Hi) in E.
    - apply Forall_app; split; [done|]. apply Forall_singleton. apply wf_default. }
  split_and!; [done| |done| |].
  - unfold count in *. simpl. rewrite length_app. simpl. lia.
  - intros _. eapply (get_lookup _ _ _ (length (entries_ t))); [apply Hwf'|].
    simpl. by rewrite list_lookup_middle.
  - intros tid' Hne. unfold get. simpl. rewrite list_find_app. simpl.
    destruct (list_find _ (entries_ t)); simpl; [done|]. rewrite decide_False by (simpl; congruence). done.
Qed.

(** The behaviour of one fill, used by the properties below. *)
Lemma onExecution_spec tid side price qty t p :
  wf_tracker t → get tid t = Some p →
  is_price price → price ≠ Price_INVALID → 0 < qty < 2 ^ 32 →
  Z.abs (net_qty p) + qty < 2 ^ 63 →
  returns (onExecution tid side price qty t) (λ '(b, t'),
    wf_tracker t' ∧
    (∀ tid', tid' ≠ tid → get tid' t' = get tid' t) ∧
    b = bookable (book_fill side price qty p) ∧
    if b : bool then get tid t' = Some (settled (book_fill side price qty p)) ∧
      filled side price qty p (settled (book_fill side price qty p))
    else t' = t).
Proof.
  intros Hwf Hg Hp Hv Hq Hr. unfold onExecution. rewrite Hg.
  rewrite (proj2 (Z.eqb_neq price _) Hv). replace (qty =? 0) with false by lia. simpl.
  apply returns_bind. pose proof (wf_tracker_get _ _ _ Hwf Hg) as Hwp.
  eapply returns_mono; [by apply execute_position_spec|].
  intros [p'|]; simpl.
  - intros (Hwp' & Hfill & -> & Hbk). destruct Hwf as [Hnd Hf].
    assert (is_Some (get tid t)) as Hs by eauto. split_and!; [| |done| |done].
    + by apply wf_tracker_set.
    + intros tid' Hne. by rewrite get_set_position, decide_False.
    + by rewrite get_set_position, decide_True.
  - intros Hov. done.
Qed.

(** Net quantity of a ticker, zero when it is not registered. *)
Definition net_of (tid : TickerId) (t : PnLTracker) : Z := default 0 (net_qty <$> get tid t).

(** No registered position is near the [int64_t] limit. *)
Definition roomy (t : PnLTracker) : Prop :=
  ∀ tid p, get tid t = Some p → Z.abs (net_qty p) < 2 ^ 62.

(** [onExecution] on any response data: total, and its only effect is on the
    net quantity of its ticker. *)
Lemma onExecution_net tid side price qty t :
  wf_tracker t → roomy t → is_price price → 0 ≤ qty < 2 ^ 32 →
  returns (onExecution tid side price qty t) (λ '(b, t'),
    wf_tracker t' ∧
    if b : bool then is_Some (get tid t) ∧
      ∀ tid', net_of tid' t' = net_of tid' t + if tid =? tid' then signed_qty side qty else 0
    else t' = t).
Proof.
  intros Hwf Hroom Hp Hq. destruct (get tid t) as [p|] eqn:Hg.
  2:{ unfold onExecution. by rewrite Hg. }
  destruct ((price =? Price_INVALID) || (qty =? 0)) eqn:Eg.
  { unfold onExecution. by rewrite Hg, Eg. }
  bsplit. pose proof (Hroom _ _ Hg).
  eapply returns_mono; [apply (onExecution_spec tid side price qty t p); try done; lia|].
  intros [[] t']; [|naive_solver]. intros (Hwf' & Hoth & _ & Hg' & Hn & _). split_and!; [done|by eauto|].
  intros tid'. unfold net_of. destruct (tid =? tid') eqn:E; bsplit.
  - subst. rewrite Hg', Hg. done.
  - rewrite Hoth by done. lia.
Qed.

(** ** Properties *)

(** Fills [(side, price, qty)] on one ticker, one after the other: those that
    were accepted, and the tracker. *)
Abbreviation fill := (Side * Price * Quantity)%type.

Fixpoint run_fills (tid : TickerId) (fs : list fill) (t : PnLTracker) : outcome (list fill * PnLTracker) :=
  match fs with
  | [] => Ok ([], t)
  | (side, price, qty) :: fs' =>
      '(ok, t) ← onExecution tid side price qty t;
      '(accepted, t) ← run_fills tid fs' t;
      Ok (if (ok : bool) then (side, price, qty) :: accepted else accepted, t)
  end.

(** The same with the reference bookkeeping. *)
Fixpoint ref_fills (fs : list fill) (p : Position) : list fill * Position :=
  match fs with
  | [] => ([], p)
  | (side, price, qty) :: fs' =>
      let p' := book_fill side price qty p in
      if bookable p' then
        let '(accepted, q) := ref_fills fs' (settled p') in ((side, price, qty) :: accepted, q)
      else ref_fills fs' p
  end.

Definition cash_flow (fs : list fill) : Z := sumZ ((λ '(side, price, qty), - (signed_qty side qty * price)) <$> fs).
Definition net_flow (fs : list fill) : Z := sumZ ((λ '(side, _, qty), signed_qty side qty) <$> fs).
Definition gross_flow (fs : list fill) : Z := sumZ ((λ '(_, _, qty), qty) <$> fs).

Fixpoint total_rounding (fs : list fill) (p : Position) : Z :=
  match fs with
  | [] => 0
  | (side, price, qty) :: fs' => rounding side price qty p + total_rounding fs' (settled (book_fill side price qty p))
  end.

Definition valid_fill (f : fill) : Prop := is_price f.1.2 ∧ f.1.2 ≠ Price_INVALID ∧ 0 < f.2 < 2 ^ 32.

Lemma flow_cons side price qty fs :
  cash_flow ((side, price, qty) :: fs) = - (signed_qty side qty * price) + cash_flow fs ∧
  net_flow ((side, price, qty) :: fs) = signed_qty side qty + net_flow fs ∧
  gross_flow ((side, price, qty) :: fs) = qty + gross_flow fs.
Proof. done. Qed.

Lemma gross_flow_nonneg fs : Forall valid_fill fs → 0 ≤ gross_flow fs.
Proof.
  intros H. apply sumZ_nonneg, Forall_fmap. eapply Forall_impl; [exact H|].
  intros [[? ?] ?] (_ & _ & ?); simpl in *. lia.
Qed.

(** The code books every fill as the reference does. *)
Lemma run_fills_ref tid fs : ∀ t p,
  wf_tracker t → get tid t = Some p → Forall valid_fill fs → Z.abs (net_qty p) + gross_flow fs < 2 ^ 63 →
  ∃ t', run_fills tid fs t = Ok ((ref_fills fs p).1, t') ∧ wf_tracker t' ∧ get tid t' = Some (ref_fills fs p).2 ∧
    ∀ tid', tid' ≠ tid → get tid' t' = get tid' t.
Proof.
  induction fs as [|[[side price] qty] fs IH]; intros t p Hwf Hg Hfs Hroom; [by exists t|].
  apply Forall_cons in Hfs as [(Hp & Hv & Hq) Hfs]. simpl in Hp, Hv, Hq. pose proof (gross_flow_nonneg fs Hfs) as Hnn.
  destruct (flow_cons side price qty fs) as (_ & _ & Hgf). rewrite Hgf in Hroom. cbn [run_fills ref_fills].
  pose proof (onExecution_spec tid side price qty t p Hwf Hg Hp Hv Hq ltac:(lia)) as ([ok t1] & -> & Hwf1 & Hoth & -> & Hb)%returns_ok.
  cbn [mbind outcome_bind]. destruct (bookable _).
  - destruct Hb as [Hg1 (Hn1 & _)]. pose proof (signed_qty_abs side qty).
    destruct (IH t1 _ Hwf1 Hg1 Hfs) as (t' & -> & Hwf' & Hg' & Hoth'); [lia|].
    destruct (ref_fills fs _) as [acc q]. exists t'. split_and!; [done|done|done|]. intros tid' Hne. rewrite Hoth', Hoth by done. done.
  - subst t1. destruct (IH t p Hwf Hg Hfs ltac:(lia)) as (t' & -> & Hwf' & Hg' & Hoth').
    exists t'. split_and!; [|done|done|by auto]. by destruct (ref_fills fs p).
Qed.

(** The reference conserves value. *)
Lemma ref_fills_value fs : ∀ p, wf_position p → Forall valid_fill fs → Z.abs (net_qty p) + gross_flow fs < 2 ^ 63 →
  let '(acc, q) := ref_fills fs p in
  wf_position q ∧ net_qty q = net_qty p + net_flow acc ∧
  ∀ m, position_value m q = position_value m p + net_flow acc * m + cash_flow acc + total_rounding acc p.
Proof.
  induction fs as [|[[side price] qty] fs IH]; intros p Hwf Hfs Hroom.
  { simpl. unfold net_flow, cash_flow. simpl. split_and!; [done|lia|]. intros m. lia. }
  apply Forall_cons in Hfs as [(Hp & Hv & Hq) Hfs]. simpl in Hp, Hv, Hq. pose proof (gross_flow_nonneg fs Hfs) as Hnn.
  destruct (flow_cons side price qty fs) as (_ & _ & Hgf). rewrite Hgf in Hroom. cbn [ref_fills].
  pose proof (execute_position_spec side price qty p Hwf Hp Hv Hq ltac:(lia)) as ([p'|] & _ & Hx)%returns_ok.
  - destruct Hx as (Hwp' & (Hn & _ & _ & _ & Hval) & -> & ->). pose proof (signed_qty_abs side qty).
    specialize (IH _ Hwp' Hfs ltac:(lia)). destruct (ref_fills fs _) as [acc q]. destruct IH as (Hwq & Hnq & Hvq).
    destruct (flow_cons side price qty acc) as (Hc & Hnf & _). rewrite Hc, Hnf. cbn [total_rounding].
    split_and!; [done|lia|]. intros m. rewrite Hvq, Hval. lia.
  - rewrite Hx. apply IH; (done || lia).
Qed.

(** C8: Cash-flow identity: any sequence of fills of a registered ticker (valid
    prices, positive 32-bit quantities), from any position of a well-formed
    tracker that together with the quantity traded stays under 2^63, is booked
    without undefined behaviour exactly as the reference bookkeeping books it (a
    fill is refused exactly when a profit would leave [int64_t]) and touches no
    other ticker; and at every price [m] the realised profit plus the open
    quantity marked to [m] has moved by exactly the cash the accepted fills
    exchanged, plus their net quantity at [m], plus the remainders dropped when
    the average entry price is truncated ([total_rounding], the sum of [rounding]
    of each fill: zero unless it increases the position).  So a position that
    starts and ends flat has realised exactly the cash and those remainders. *)
Theorem run_fills_cash_flow tid fs t p :
  wf_tracker t → get tid t = Some p → Forall valid_fill fs → Z.abs (net_qty p) + gross_flow fs < 2 ^ 63 →
  let '(accepted, p') := ref_fills fs p in
  ∃ t', run_fills tid fs t = Ok (accepted, t') ∧ wf_tracker t' ∧ get tid t' = Some p' ∧
    (∀ tid', tid' ≠ tid → get tid' t' = get tid' t) ∧
    net_qty p' = net_qty p + net_flow accepted ∧
    (∀ m, position_value m p' = position_value m p + net_flow accepted * m + cash_flow accepted + total_rounding accepted p) ∧
    (net_qty p = 0 → net_qty p' = 0 →
     realized_pnl p' = realized_pnl p + cash_flow accepted + total_rounding accepted p ∧ unrealized_pnl p' = 0).
Proof.
  intros Hwf Hg Hfs Hroom. destruct (run_fills_ref tid fs t p Hwf Hg Hfs Hroom) as (t' & Hrun & Hwf' & Hg' & Hoth).
  pose proof (ref_fills_value fs p (wf_tracker_get _ _ _ Hwf Hg) Hfs Hroom) as Hv.
  destruct (ref_fills fs p) as [acc p']. destruct Hv as (Hwp' & Hn & Hval). exists t'. split_and!; try done.
  intros H0 H0'. split.
  - specialize (Hval 0). unfold position_value in Hval. rewrite H0, H0' in Hval. lia.
  - rewrite (wf_unrealized _ Hwp'). unfold unrealized_spec. by rewrite H0'.
Qed.

(** The average of the two buys is 101, the remainder of 1515 by 15 is 0; a third
    buy leaves a remainder. *)
Definition example_fills : list fill := [(BUY, 100, 10); (BUY, 103, 5); (BUY, 104, 2); (SELL, 105, 17)].

Lemma run_fills_cash_flow_witness :
  ∃ t' p', run_fills 7 example_fills (mkPnLTracker [mkEntry 7 default_Position]) = Ok (example_fills, t') ∧
    get 7 t' = Some p' ∧ net_qty p' = 0 ∧ cash_flow example_fills = 62 ∧ total_rounding example_fills default_Position = 6 ∧
    realized_pnl p' = 68.
Proof.
  pose proof (run_fills_cash_flow 7 example_fills (mkPnLTracker [mkEntry 7 default_Position]) default_Position) as H.
  destruct (ref_fills example_fills default_Position) as [acc p'] eqn:E. vm_compute in E. injection E as <- <-.
  destruct H as (t' & Hrun & _ & Hg & _ & _ & _ & Hflat).
  - split; [apply NoDup_singleton|apply Forall_singleton, wf_default].
  - reflexivity.
  - repeat constructor; unfold is_price, Price_INVALID; simpl; lia.
  - vm_compute. reflexivity.
  - eexists t', _. split; [exact Hrun|]. split; [exact Hg|]. vm_compute. auto.
Defined.

(** Sum of realised and unrealised profit over all entries. *)
Definition total_spec (t : PnLTracker) : Z :=
  sumZ ((λ e, realized_pnl (e_position e) + unrealized_pnl (e_position e)) <$> entries_ t).

Lemma totalPnL_loop_spec l acc :
  Forall (λ e, wf_position (e_position e)) l →
  Z.abs acc + Z.of_nat (length l) * 2 ^ 64 < 2 ^ 127 →
  totalPnL_loop l acc =
    Ok (acc + sumZ ((λ e, realized_pnl (e_position e) + unrealized_pnl (e_position e)) <$> l)).
Proof.
  revert acc. induction l as [|e l IH]; intros acc Hl Hb; [simpl; f_equal; lia|].
  apply Forall_cons in Hl as [[_ Hr _ _ _ _ Hu] Hl]. unfold is_s64 in *.
  simpl length in Hb. simpl totalPnL_loop. ok_simp. rewrite IH by (done || lia).
  f_equal. rewrite fmap_cons. simpl. lia.
Qed.

(** C31: Marking a ticker never has undefined behaviour, keeps the tracker well
    formed, changes no net quantity and no realised profit, and is refused
    (leaving the tracker as it was) exactly when the unrealised profit leaves
    [int64_t]; and [totalPnL] returns the exact sum of realised and unrealised
    profit over the tickers, or nothing when that sum leaves [int64_t]. *)
Theorem onMark_totalPnL_exact tid mark t p :
  wf_tracker t → get tid t = Some p → is_price mark → mark ≠ Price_INVALID →
  Z.of_nat (count t) < 2 ^ 62 →
  let marked := mkPosition (net_qty p) (realized_pnl p) (unrealized_pnl p) (avg_entry_price p) mark in
  returns (onMark tid mark t) (λ '(b, t'),
    wf_tracker t' ∧
    b = fitsInt64 (unrealized_spec marked) ∧
    (b = false → t' = t) ∧
    (b = true → get tid t' = Some (mkPosition (net_qty p) (realized_pnl p) (unrealized_spec marked)
                                     (avg_entry_price p) mark)) ∧
    totalPnL t' = Ok (if fitsInt64 (total_spec t') then Some (total_spec t') else None)).
Proof.
  intros Hwf Hg Hm Hv Hc marked.
  assert (∀ t', wf_tracker t' → Z.of_nat (count t') < 2 ^ 62 →
    totalPnL t' = Ok (if fitsInt64 (total_spec t') then Some (total_spec t') else None)) as Htot.
  { intros t' [_ Hf] Hc'. unfold totalPnL. rewrite totalPnL_loop_spec by (done || (unfold count in Hc'; lia)).
    cbn [mbind outcome_bind]. rewrite Z.add_0_l. fold (total_spec t'). by destruct (fitsInt64 _). }
  pose proof (wf_tracker_get _ _ _ Hwf Hg) as Hwp. destruct Hwp as [Hn Hr Ha Hmk Hf Hu Hur].
  assert (is_Some (get tid t)) as Hs by eauto.
  unfold onMark. rewrite Hg, (proj2 (Z.eqb_neq mark _) Hv). fold marked.
  rewrite updateUnrealized_spec by done. cbn [mbind outcome_bind].
  destruct (fitsInt64 (unrealized_spec marked)) eqn:E; simpl.
  - assert (wf_tracker (set_position tid (mkPosition (net_qty p) (realized_pnl p) (unrealized_spec marked)
       (avg_entry_price p) mark) t)) as Hwf'.
    { apply wf_tracker_set; [done|done|]. split; simpl; try done. by apply fitsInt64_spec. }
    split_and!; [done|done|done| |].
    + intros _. destruct Hwf. by rewrite get_set_position, decide_True.
    + apply Htot; [done|]. unfold count. rewrite <- (length_fmap e_ticker_id).
      rewrite set_position_tickers by done. by rewrite length_fmap.
  - split_and!; try done. by apply Htot.
Qed.

Lemma onMark_totalPnL_exact_witness :
  onMark 1 1000500 (mkPnLTracker [mkEntry 1 (mkPosition 10 5 0 1000000 Price_INVALID)]) =
    Ok (true, mkPnLTracker [mkEntry 1 (mkPosition 10 5 5000 1000000 1000500)]) ∧
  returns (onMark 1 1000500 (mkPnLTracker [mkEntry 1 (mkPosition 10 5 0 1000000 Price_INVALID)]))
    (λ '(b, t'), wf_tracker t').
Proof.
  split; [vm_compute; reflexivity|].
  eapply returns_mono;
    [apply (onMark_totalPnL_exact 1 1000500 _ (mkPosition 10 5 0 1000000 Price_INVALID))|].
  - split; [apply NoDup_singleton|apply Forall_singleton].
    split; unfold is_s64, is_price; simpl; try (vm_compute; intuition discriminate).
  - reflexivity.
  - unfold is_price. lia.
  - unfold Price_INVALID. lia.
  - vm_compute. reflexivity.
  - intros [b t'] [H _]. exact H.
Defined.
