(* ===== verification/RiskManager.v ===== *)
(** * [RiskManager] of [src/src/trading/risk_manager.h]

    Per-strategy limits: orders are checked before they reach the exchange and
    their exposure stays reserved until the exchange answers. *)

From S2P Require Import Prelude Types PnLTracker.

Inductive RiskResult : Type :=
| RISK_ACCEPTED
| TRADING_DISABLED
| INVALID_REQUEST
| UNKNOWN_TICKER
| DUPLICATE_ORDER
| PENDING_CAPACITY_EXCEEDED
| ORDER_QTY_EXCEEDED
| ORDER_NOTIONAL_EXCEEDED
| POSITION_LIMIT_EXCEEDED.

#[export] Instance RiskResult_eq_dec : EqDecision RiskResult.
Proof. solve_decision. Defined.

Record RiskLimits : Type := mkRiskLimits {
  max_abs_position : Z;
  max_order_qty : Quantity;
  max_order_notional : Z
}.

Record TickerLimits : Type := mkTickerLimits {
  tl_ticker_id : TickerId;
  tl_limits : RiskLimits
}.

Record PendingOrder : Type := mkPendingOrder {
  po_client_order_id : OrderId;
  po_ticker_id : TickerId;
  po_side : Side;
  po_reserved_qty : Quantity
}.

(** [tickers_[0 .. ticker_count_)], [pending_[0 .. pending_count_)] *)
Record RiskManager : Type := mkRiskManager {
  tickers_ : list TickerLimits;
  pending_ : list PendingOrder;
  trading_enabled_ : bool
}.

Definition RiskManager_new : RiskManager := mkRiskManager [] [] true.

Definition set_pending (l : list PendingOrder) (r : RiskManager) : RiskManager :=
  mkRiskManager (tickers_ r) l (trading_enabled_ r).

Definition pendingCount (r : RiskManager) : nat := length (pending_ r).

Section RiskManager.
Context (MaxTickers MaxPendingOrders : nat).

Definition findTicker (ticker_id : TickerId) (r : RiskManager) : option TickerLimits :=
  snd <$> list_find (λ t, tl_ticker_id t = ticker_id) (tickers_ r).

(** The index of the pending order, or [MaxPendingOrders] when there is none. *)
Definition findPendingIndex (client_order_id : OrderId) (r : RiskManager) : nat :=
  match list_find (λ p, po_client_order_id p = client_order_id) (pending_ r) with
  | Some (i, _) => i
  | None => MaxPendingOrders
  end.

Definition findPending (client_order_id : OrderId) (r : RiskManager) : option PendingOrder :=
  let index := findPendingIndex client_order_id r in
  if bool_decide (index = MaxPendingOrders) then None else pending_ r !! index.

Definition registerTicker (ticker_id : TickerId) (limits : RiskLimits) (r : RiskManager)
    : bool * RiskManager :=
  if (max_abs_position limits <? 0) || (max_order_notional limits <? 0) then (false, r)
  else match findTicker ticker_id r with
  | Some _ => (false, r)
  | None =>
      if bool_decide (length (tickers_ r) = MaxTickers) then (false, r)
      else (true, mkRiskManager (tickers_ r ++ [mkTickerLimits ticker_id limits])
                    (pending_ r) (trading_enabled_ r))
  end.

Definition disableTrading (r : RiskManager) : RiskManager :=
  mkRiskManager (tickers_ r) (pending_ r) false.
Definition enableTrading (r : RiskManager) : RiskManager :=
  mkRiskManager (tickers_ r) (pending_ r) true.
Definition tradingEnabled (r : RiskManager) : bool := trading_enabled_ r.

(** The accumulation loop of [pendingExposure], in [int64_t]. *)
Fixpoint pendingExposure_loop (ticker_id : TickerId) (l : list PendingOrder) (exposure : Z) : outcome Z :=
  match l with
  | [] => Ok exposure
  | p :: l' =>
      if negb (po_ticker_id p =? ticker_id) then pendingExposure_loop ticker_id l' exposure
      else
        e ← chkS 64 (exposure + signed_qty (po_side p) (po_reserved_qty p));
        pendingExposure_loop ticker_id l' e
  end.

Definition pendingExposure (ticker_id : TickerId) (r : RiskManager) : outcome Z :=
  pendingExposure_loop ticker_id (pending_ r) 0.

Definition canSubmit (request : OrderRequest) (position : Position) (r : RiskManager) : outcome RiskResult :=
  if negb (trading_enabled_ r) then Ok TRADING_DISABLED
  else if negb (bool_decide (rq_type request = RQ_NEW)) || (rq_client_order_id request =? 0)
       || (rq_ticker_id request =? TickerId_INVALID) || (rq_price request =? Price_INVALID)
       || (rq_price request <? 0) || (rq_qty request =? 0)
  then Ok INVALID_REQUEST
  else match findTicker (rq_ticker_id request) r with
  | None => Ok UNKNOWN_TICKER
  | Some ticker =>
      if bool_decide (is_Some (findPending (rq_client_order_id request) r)) then Ok DUPLICATE_ORDER
      else if bool_decide (length (pending_ r) = MaxPendingOrders) then Ok PENDING_CAPACITY_EXCEEDED
      else if max_order_qty (tl_limits ticker) <? rq_qty request then Ok ORDER_QTY_EXCEEDED
      else
        notional ← chkS 128 (rq_price request * rq_qty request);
        if max_order_notional (tl_limits ticker) <? notional then Ok ORDER_NOTIONAL_EXCEEDED
        else
          exposure ← pendingExposure (rq_ticker_id request) r;
          projected ← chkS 128 (net_qty position + exposure + signed_qty (rq_side request) (rq_qty request));
          let max_position := max_abs_position (tl_limits ticker) in
          if (projected <? - max_position) || (max_position <? projected) then Ok POSITION_LIMIT_EXCEEDED
          else Ok RISK_ACCEPTED
  end.

Definition onSubmitted (request : OrderRequest) (r : RiskManager) : bool * RiskManager :=
  if bool_decide (is_Some (findPending (rq_client_order_id request) r))
     || bool_decide (length (pending_ r) = MaxPendingOrders)
  then (false, r)
  else (true, set_pending (pending_ r ++ [mkPendingOrder (rq_client_order_id request) (rq_ticker_id request)
                                            (rq_side request) (rq_qty request)]) r).

Definition onReplaced (old_id new_id : OrderId) (r : RiskManager) : bool * RiskManager :=
  if (new_id =? 0) || bool_decide (is_Some (findPending new_id r)) then (false, r)
  else
    let index := findPendingIndex old_id r in
    if bool_decide (index = MaxPendingOrders) then (false, r)
    else (true, set_pending (alter (λ p, mkPendingOrder new_id (po_ticker_id p) (po_side p) (po_reserved_qty p))
                               index (pending_ r)) r).

(** [pending_[index] = pending_[--pending_count_]] *)
Definition erasePending (index : nat) (r : RiskManager) : RiskManager :=
  set_pending (swap_remove index (pending_ r)) r.

(** [pending.reserved_qty -= q; if (pending.reserved_qty == 0) erasePending(index);] *)
Definition reduceReservation (index : nat) (p : PendingOrder) (q : Quantity) (r : RiskManager) : RiskManager :=
  let left := wrapU 32 (po_reserved_qty p - q) in
  let r' := set_pending (<[index := mkPendingOrder (po_client_order_id p) (po_ticker_id p) (po_side p) left]>
                           (pending_ r)) r in
  if left =? 0 then erasePending index r' else r'.

Definition onOrderResponse (response : OrderResponse) (r : RiskManager) (pnl : PnLTracker)
    : outcome (bool * RiskManager * PnLTracker) :=
  let index := findPendingIndex (rs_client_order_id response) r in
  if bool_decide (index = MaxPendingOrders) then Ok (false, r, pnl)
  else match pending_ r !! index with
  | None => Undef
  | Some pending =>
      match rs_status response with
      | ACCEPTED | CANCEL_REJECTED => Ok (true, r, pnl)
      | EXECUTED =>
          if (rs_executed_qty response =? 0) || (po_reserved_qty pending <? rs_executed_qty response)
          then Ok (false, r, pnl)
          else
            res ← PnLTracker.onExecution (po_ticker_id pending) (po_side pending)
                    (rs_execution_price response) (rs_executed_qty response) pnl;
            if negb res.1 then Ok (false, r, res.2)
            else Ok (true, reduceReservation index pending (rs_executed_qty response) r, res.2)
      | CANCELED =>
          if (rs_canceled_qty response =? 0) || (po_reserved_qty pending <? rs_canceled_qty response)
          then Ok (false, r, pnl)
          else Ok (true, reduceReservation index pending (rs_canceled_qty response) r, pnl)
      | REJECTED => Ok (true, erasePending index r, pnl)
      end
  end.
End RiskManager.

(** ** Specification *)

(** Signed, long and short exposure of one pending order on a ticker. *)
Definition exposure_of (tid : TickerId) (p : PendingOrder) : Z :=
  if po_ticker_id p =? tid then signed_qty (po_side p) (po_reserved_qty p) else 0.
Definition long_of (tid : TickerId) (p : PendingOrder) : Z :=
  if (po_ticker_id p =? tid) && is_buy (po_side p) then po_reserved_qty p else 0.
Definition short_of (tid : TickerId) (p : PendingOrder) : Z :=
  if (po_ticker_id p =? tid) && negb (is_buy (po_side p)) then po_reserved_qty p else 0.

Definition exposure (tid : TickerId) (r : RiskManager) : Z := sumZ (exposure_of tid <$> pending_ r).
Definition long_exposure (tid : TickerId) (r : RiskManager) : Z := sumZ (long_of tid <$> pending_ r).
Definition short_exposure (tid : TickerId) (r : RiskManager) : Z := sumZ (short_of tid <$> pending_ r).

Definition wf_pending (p : PendingOrder) : Prop := 0 < po_reserved_qty p < 2 ^ 32.

(** Well-formedness for the capacities the program instantiates. *)
Record wf_risk (MaxT MaxP : nat) (r : RiskManager) : Prop := {
  wf_tickers_cap : (length (tickers_ r) ≤ MaxT)%nat;
  wf_tickers_nodup : NoDup (tl_ticker_id <$> tickers_ r);
  wf_limits : Forall (λ t, 0 ≤ max_abs_position (tl_limits t) < 2 ^ 63 ∧
                           0 ≤ max_order_notional (tl_limits t) < 2 ^ 63) (tickers_ r);
  wf_pending_cap : (length (pending_ r) ≤ MaxP)%nat;
  wf_pending_nodup : NoDup (po_client_order_id <$> pending_ r);
  wf_pending_qty : Forall wf_pending (pending_ r)
}.

(** ** Lemmas *)

Lemma exposure_split tid r : exposure tid r = long_exposure tid r - short_exposure tid r.
Proof.
  unfold exposure, long_exposure, short_exposure. induction (pending_ r) as [|p l IH]; [done|].
  rewrite !fmap_cons, !sumZ_cons, IH. unfold exposure_of, long_of, short_of, signed_qty.
  destruct (po_ticker_id p =? tid), (is_buy (po_side p)); simpl; lia.
Qed.

Lemma exposure_nonneg tid l :
  Forall wf_pending l → 0 ≤ sumZ (long_of tid <$> l) ∧ 0 ≤ sumZ (short_of tid <$> l).
Proof.
  unfold wf_pending. induction 1 as [|p l Hp Hl IH]; [simpl; lia|].
  rewrite !fmap_cons, !sumZ_cons. unfold long_of at 1, short_of at 1.
  destruct (po_ticker_id p =? tid), (is_buy (po_side p)); simpl; lia.
Qed.

Lemma pendingExposure_loop_spec tid l acc :
  Forall wf_pending l → Z.abs acc + Z.of_nat (length l) * 2 ^ 32 < 2 ^ 63 →
  pendingExposure_loop tid l acc = Ok (acc + sumZ (exposure_of tid <$> l)).
Proof.
  revert acc. induction l as [|p l IH]; intros acc Hl Hb; [simpl; f_equal; lia|].
  apply Forall_cons in Hl as [Hp Hl]. unfold wf_pending in Hp.
  simpl length in Hb. simpl pendingExposure_loop. rewrite fmap_cons, sumZ_cons. unfold exposure_of at 1.
  pose proof (signed_qty_abs (po_side p) (po_reserved_qty p)).
  destruct (po_ticker_id p =? tid); simpl negb; cbn iota; ok_simp;
    rewrite IH by (done || lia); f_equal; lia.
Qed.

Lemma pendingExposure_spec MaxT MaxP tid r :
  wf_risk MaxT MaxP r → (Z.of_nat MaxP) < 2 ^ 30 → pendingExposure tid r = Ok (exposure tid r).
Proof.
  intros [_ _ _ Hc _ Hq] Hm. unfold pendingExposure. by rewrite pendingExposure_loop_spec by (done || lia).
Qed.

Lemma exposure_bound MaxT MaxP tid r :
  wf_risk MaxT MaxP r → Z.abs (exposure tid r) ≤ Z.of_nat MaxP * 2 ^ 32.
Proof.
  intros [_ _ _ Hc _ Hq]. unfold exposure.
  pose proof (sumZ_bound (2 ^ 32) (exposure_of tid <$> pending_ r) ltac:(lia)) as Hb.
  rewrite length_fmap in Hb. etrans; [apply Hb|nia].
  apply Forall_fmap. eapply Forall_impl; [exact Hq|]. intros p Hp. unfold wf_pending in Hp. simpl.
  unfold exposure_of. destruct (_ =? _); [|lia]. rewrite signed_qty_abs. lia.
Qed.

Lemma findTicker_Some tid r t : findTicker tid r = Some t → tl_ticker_id t = tid ∧ t ∈ tickers_ r.
Proof.
  unfold findTicker. intros ([i t'] & Hf & ->)%fmap_Some.
  apply list_find_Some in Hf as (Hi & ? & _). simpl. split; [done|]. apply list_elem_of_lookup. eauto.
Qed.

Section Find.
Context (MaxP : nat) (r : RiskManager) (Hcap : (length (pending_ r) ≤ MaxP)%nat).

Lemma findPendingIndex_spec id :
  (findPendingIndex MaxP id r = MaxP ∧ id ∉ (po_client_order_id <$> pending_ r)) ∨
  (∃ p, pending_ r !! findPendingIndex MaxP id r = Some p ∧ po_client_order_id p = id ∧
        findPendingIndex MaxP id r ≠ MaxP).
Proof using All.
  unfold findPendingIndex.
  destruct (list_find (λ p, po_client_order_id p = id) (pending_ r)) as [[i p]|] eqn:E.
  - right. apply list_find_Some in E as (Hi & Hp & _). exists p. split_and!; [done..|].
    apply lookup_lt_Some in Hi. lia.
  - left. split; [done|]. apply list_find_None in E. intros (p & -> & Hp)%list_elem_of_fmap.
    rewrite Forall_forall in E. by eapply E.
Qed.

Lemma findPending_None id : findPending MaxP id r = None ↔ id ∉ (po_client_order_id <$> pending_ r).
Proof using All.
  unfold findPending.
  destruct (findPendingIndex_spec id) as [[E Hn]|(p & Hp & Hid & Hne)].
  - rewrite bool_decide_true by done. done.
  - rewrite bool_decide_false by done. rewrite Hp. split; [done|]. intros Hn. exfalso. apply Hn.
    apply list_elem_of_fmap. exists p. split; [done|]. apply list_elem_of_lookup. eauto.
Qed.
End Find.

(** Where the pending orders go when a reservation shrinks. *)
Lemma reduceReservation_perm i p q r :
  pending_ r !! i = Some p → wf_pending p → 0 < q ≤ po_reserved_qty p →
  pending_ (reduceReservation i p q r) ≡ₚ
    if decide (q = po_reserved_qty p) then delete i (pending_ r)
    else mkPendingOrder (po_client_order_id p) (po_ticker_id p) (po_side p) (po_reserved_qty p - q)
         :: delete i (pending_ r).
Proof.
  unfold wf_pending. intros Hi Hp Hq. unfold reduceReservation.
  rewrite wrapU_small by lia. pose proof (lookup_lt_Some _ _ _ Hi) as Hlt.
  case_decide as Ed.
  - replace (po_reserved_qty p - q =? 0) with true by lia. simpl.
    rewrite swap_remove_perm by (rewrite length_insert; done).
    rewrite !delete_take_drop, take_insert_ge, drop_insert_lt by lia. done.
  - replace (po_reserved_qty p - q =? 0) with false by lia. simpl.
    rewrite insert_take_drop, delete_take_drop by done. by rewrite <- Permutation_middle.
Qed.

(** A measure of pending orders that is zero on an empty reservation and
    splits a reservation additively. *)
Lemma reduceReservation_sum (f : PendingOrder → Z) i p q r :
  (∀ id t s a b, f (mkPendingOrder id t s (a - b)) = f (mkPendingOrder id t s a) - f (mkPendingOrder id t s b)) →
  pending_ r !! i = Some p → wf_pending p → 0 < q ≤ po_reserved_qty p →
  sumZ (f <$> pending_ (reduceReservation i p q r)) =
    sumZ (f <$> pending_ r) - f (mkPendingOrder (po_client_order_id p) (po_ticker_id p) (po_side p) q).
Proof.
  intros Hf Hi Hp Hq. rewrite (reduceReservation_perm i p q r Hi Hp Hq), (sumZ_delete f _ i p Hi).
  destruct p as [id t s res]. simpl in *. case_decide as Ed; [subst; lia|].
  rewrite fmap_cons. simpl. rewrite Hf. lia.
Qed.

Lemma exposure_of_sub tid id t s a b :
  exposure_of tid (mkPendingOrder id t s (a - b)) =
  exposure_of tid (mkPendingOrder id t s a) - exposure_of tid (mkPendingOrder id t s b).
Proof. unfold exposure_of; simpl. destruct (_ =? _); [apply signed_qty_sub|lia]. Qed.

Lemma long_of_sub tid id t s a b :
  long_of tid (mkPendingOrder id t s (a - b)) =
  long_of tid (mkPendingOrder id t s a) - long_of tid (mkPendingOrder id t s b).
Proof. unfold long_of; simpl. destruct (_ && _); lia. Qed.

Lemma short_of_sub tid id t s a b :
  short_of tid (mkPendingOrder id t s (a - b)) =
  short_of tid (mkPendingOrder id t s a) - short_of tid (mkPendingOrder id t s b).
Proof. unfold short_of; simpl. destruct (_ && _); lia. Qed.

(** Well-formedness is kept by replacing the pending array by one made of a
    sub-collection, possibly with a shrunk order under its own id. *)
Lemma wf_risk_shrink MaxT MaxP r i p l :
  wf_risk MaxT MaxP r → pending_ r !! i = Some p →
  (l ≡ₚ delete i (pending_ r) ∨
   ∃ q, wf_pending q ∧ po_client_order_id q = po_client_order_id p ∧ l ≡ₚ q :: delete i (pending_ r)) →
  wf_risk MaxT MaxP (set_pending l r).
Proof.
  intros [Htc Htn Hl Hc Hn Hq] Hi Hcase.
  rewrite (delete_Permutation _ _ _ Hi), fmap_cons in Hn.
  assert (length (delete i (pending_ r)) = (length (pending_ r) - 1)%nat) as Hlen
    by (rewrite length_delete by eauto; done).
  pose proof (lookup_lt_Some _ _ _ Hi) as Hlt.
  assert (Forall wf_pending (delete i (pending_ r))) as Hqd by (by apply Forall_delete).
  split; simpl; try done; destruct Hcase as [Hp|(q & Hwq & Hid & Hp)]; rewrite Hp; simpl.
  - lia.
  - lia.
  - by inversion Hn.
  - by rewrite Hid.
  - done.
  - by constructor.
Qed.

(** Quantity a response releases from the reservation of [p], and the part of
    it that becomes position. *)
Definition released (response : OrderResponse) (p : PendingOrder) : Quantity :=
  match rs_status response with
  | EXECUTED => rs_executed_qty response
  | CANCELED => rs_canceled_qty response
  | REJECTED => po_reserved_qty p
  | ACCEPTED | CANCEL_REJECTED => 0
  end.

Definition executed_part (response : OrderResponse) : Quantity :=
  match rs_status response with EXECUTED => rs_executed_qty response | _ => 0 end.

Definition with_reserved (p : PendingOrder) (q : Quantity) : PendingOrder :=
  mkPendingOrder (po_client_order_id p) (po_ticker_id p) (po_side p) q.

Definition wf_response (response : OrderResponse) : Prop :=
  is_price (rs_execution_price response) ∧ is_qty (rs_executed_qty response) ∧ is_qty (rs_canceled_qty response).

(** What an accepted response does to the reservations and the positions. *)
Definition settles (response : OrderResponse) (p : PendingOrder)
    (r : RiskManager) (pnl : PnLTracker) (r' : RiskManager) (pnl' : PnLTracker) : Prop :=
  p ∈ pending_ r ∧ po_client_order_id p = rs_client_order_id response ∧
  0 ≤ executed_part response ≤ released response p ∧ released response p ≤ po_reserved_qty p ∧
  (∀ tid, exposure tid r' = exposure tid r - exposure_of tid (with_reserved p (released response p)) ∧
          long_exposure tid r' = long_exposure tid r - long_of tid (with_reserved p (released response p)) ∧
          short_exposure tid r' = short_exposure tid r - short_of tid (with_reserved p (released response p)) ∧
          net_of tid pnl' = net_of tid pnl + exposure_of tid (with_reserved p (executed_part response))) ∧
  ∃ rest, pending_ r ≡ₚ p :: rest ∧
    pending_ r' ≡ₚ if decide (released response p = po_reserved_qty p) then rest
                   else with_reserved p (po_reserved_qty p - released response p) :: rest.

Lemma with_reserved_id p : with_reserved p (po_reserved_qty p) = p.
Proof. by destruct p. Qed.

Lemma exposure_of_zero tid p :
  exposure_of tid (with_reserved p 0) = 0 ∧ long_of tid (with_reserved p 0) = 0 ∧ short_of tid (with_reserved p 0) = 0.
Proof.
  unfold exposure_of, long_of, short_of, signed_qty. simpl.
  destruct (po_ticker_id p =? tid), (is_buy (po_side p)); done.
Qed.

Lemma reduceReservation_settles tid i p q r :
  pending_ r !! i = Some p → wf_pending p → 0 < q ≤ po_reserved_qty p →
  exposure tid (reduceReservation i p q r) = exposure tid r - exposure_of tid (with_reserved p q) ∧
  long_exposure tid (reduceReservation i p q r) = long_exposure tid r - long_of tid (with_reserved p q) ∧
  short_exposure tid (reduceReservation i p q r) = short_exposure tid r - short_of tid (with_reserved p q).
Proof.
  intros Hi Hp Hq. unfold exposure, long_exposure, short_exposure.
  rewrite !reduceReservation_sum by (done || apply exposure_of_sub || apply long_of_sub || apply short_of_sub).
  done.
Qed.

Lemma erasePending_settles tid i p r :
  pending_ r !! i = Some p →
  exposure tid (erasePending i r) = exposure tid r - exposure_of tid p ∧
  long_exposure tid (erasePending i r) = long_exposure tid r - long_of tid p ∧
  short_exposure tid (erasePending i r) = short_exposure tid r - short_of tid p.
Proof.
  intros Hi. unfold exposure, long_exposure, short_exposure. simpl.
  rewrite swap_remove_perm by (by eapply lookup_lt_Some).
  rewrite !(sumZ_delete _ (pending_ r) i p Hi). lia.
Qed.

Lemma reduceReservation_frame i p q r :
  tickers_ (reduceReservation i p q r) = tickers_ r ∧ trading_enabled_ (reduceReservation i p q r) = trading_enabled_ r.
Proof. unfold reduceReservation. by case_match. Qed.

Lemma set_pending_eta r r' :
  tickers_ r' = tickers_ r → trading_enabled_ r' = trading_enabled_ r → r' = set_pending (pending_ r') r.
Proof. destruct r, r'; simpl; intros -> ->. done. Qed.

Lemma wf_risk_reduce MaxT MaxP i p q r :
  wf_risk MaxT MaxP r → pending_ r !! i = Some p → 0 < q ≤ po_reserved_qty p →
  wf_risk MaxT MaxP (reduceReservation i p q r).
Proof.
  intros Hwf Hi Hq.
  assert (wf_pending p) as Hp by (eapply (Forall_lookup_1 wf_pending), Hi; apply Hwf).
  destruct (reduceReservation_frame i p q r) as [Ht He].
  rewrite (set_pending_eta r _ Ht He). eapply wf_risk_shrink; [done|done|].
  pose proof (reduceReservation_perm i p q r Hi Hp Hq) as Hperm.
  case_decide; [by left|right].
  exists (with_reserved p (po_reserved_qty p - q)). split_and!; [|done|exact Hperm]. unfold wf_pending in *. simpl. lia.
Qed.

Lemma wf_risk_erase MaxT MaxP i p r :
  wf_risk MaxT MaxP r → pending_ r !! i = Some p → wf_risk MaxT MaxP (erasePending i r).
Proof.
  intros Hwf Hi. eapply wf_risk_shrink; [done|done|]. left.
  apply swap_remove_perm. by eapply lookup_lt_Some.
Qed.

(** The behaviour of [onOrderResponse] on every branch. *)
Lemma onOrderResponse_settles MaxT MaxP response r pnl :
  wf_risk MaxT MaxP r → wf_tracker pnl → roomy pnl → wf_response response →
  returns (onOrderResponse MaxP response r pnl) (λ '(b, r', pnl'),
    wf_risk MaxT MaxP r' ∧ wf_tracker pnl' ∧
    tickers_ r' = tickers_ r ∧ trading_enabled_ r' = trading_enabled_ r ∧
    if b : bool then ∃ p, settles response p r pnl r' pnl' else r' = r ∧ pnl' = pnl).
Proof.
  intros Hwf Hpnl Hroom (Hxp & Hxq & Hcq). unfold onOrderResponse, is_qty in *.
  destruct (findPendingIndex_spec MaxP r (wf_pending_cap _ _ _ Hwf) (rs_client_order_id response))
    as [[E _]|(p & Hi & Hid & Hne)]; [by rewrite bool_decide_true|].
  rewrite bool_decide_false, Hi by done.
  set (i := findPendingIndex MaxP (rs_client_order_id response) r) in *.
  assert (wf_pending p) as Hp by (eapply (Forall_lookup_1 wf_pending), Hi; apply Hwf).
  assert (p ∈ pending_ r) as Hin by (apply list_elem_of_lookup; eauto).
  pose proof (delete_Permutation _ _ _ Hi) as Hrest.
  unfold wf_pending in Hp.
  assert (∃ rest, pending_ r ≡ₚ p :: rest ∧
    pending_ r ≡ₚ if decide (0 = po_reserved_qty p) then rest else with_reserved p (po_reserved_qty p - 0) :: rest)
    as Hsame.
  { exists (delete i (pending_ r)). rewrite decide_False, Z.sub_0_r, with_reserved_id by lia. done. }
  destruct (rs_status response) eqn:Est.
  - simpl. split_and!; try done. exists p. unfold settles, released, executed_part. rewrite Est.
    split_and!; try done; try lia.
    intros tid. destruct (exposure_of_zero tid p) as (-> & -> & ->). lia.
  - destruct ((rs_executed_qty response =? 0) || (po_reserved_qty p <? rs_executed_qty response)) eqn:Eg;
      [done|]. bsplit. apply returns_bind.
    eapply returns_mono; [by apply onExecution_net|]. intros [[] pnl'] (Hpnl' & Hb); simpl.
    2:{ by subst. }
    destruct (reduceReservation_frame i p (rs_executed_qty response) r).
    split_and!; try done; [apply wf_risk_reduce; (done || lia)|].
    exists p. unfold settles, released, executed_part. rewrite Est. split_and!; try done; try lia;
      [|exists (delete i (pending_ r)); split; [done|apply reduceReservation_perm; (done || lia)]].
    intros tid. destruct Hb as [_ Hb]. rewrite Hb.
    destruct (reduceReservation_settles tid i p (rs_executed_qty response) r Hi Hp ltac:(lia)) as (-> & -> & ->).
    done.
  - destruct ((rs_canceled_qty response =? 0) || (po_reserved_qty p <? rs_canceled_qty response)) eqn:Eg;
      [done|]. bsplit. simpl.
    destruct (reduceReservation_frame i p (rs_canceled_qty response) r).
    split_and!; try done; [apply wf_risk_reduce; (done || lia)|].
    exists p. unfold settles, released, executed_part. rewrite Est. split_and!; try done; try lia;
      [|exists (delete i (pending_ r)); split; [done|apply reduceReservation_perm; (done || lia)]].
    intros tid. destruct (exposure_of_zero tid p) as (-> & _).
    destruct (reduceReservation_settles tid i p (rs_canceled_qty response) r Hi Hp ltac:(lia)) as (-> & -> & ->). lia.
  - simpl. split_and!; try done; [by eapply wf_risk_erase|].
    exists p. unfold settles, released, executed_part. rewrite Est. split_and!; try done; try lia;
      [|exists (delete i (pending_ r)); split; [done|rewrite decide_True by done;
          apply swap_remove_perm; by eapply lookup_lt_Some]].
    intros tid. rewrite with_reserved_id. destruct (exposure_of_zero tid p) as (-> & _).
    destruct (erasePending_settles tid i p r Hi) as (-> & -> & ->). lia.
  - simpl. split_and!; try done. exists p. unfold settles, released, executed_part. rewrite Est.
    split_and!; try done; try lia.
    intros tid. destruct (exposure_of_zero tid p) as (-> & -> & ->). lia.
Qed.

(** The conditions under which an order is admitted. *)
Definition admissible (MaxP : nat) (rq : OrderRequest) (pos : Position) (r : RiskManager) : Prop :=
  trading_enabled_ r = true ∧
  rq_type rq = RQ_NEW ∧ rq_client_order_id rq ≠ 0 ∧ rq_ticker_id rq ≠ TickerId_INVALID ∧
  0 ≤ rq_price rq ∧ rq_qty rq ≠ 0 ∧
  rq_client_order_id rq ∉ (po_client_order_id <$> pending_ r) ∧
  (length (pending_ r) < MaxP)%nat ∧
  ∃ t, findTicker (rq_ticker_id rq) r = Some t ∧
    rq_qty rq ≤ max_order_qty (tl_limits t) ∧
    rq_price rq * rq_qty rq ≤ max_order_notional (tl_limits t) ∧
    Z.abs (net_qty pos + exposure (rq_ticker_id rq) r + signed_qty (rq_side rq) (rq_qty rq))
      ≤ max_abs_position (tl_limits t).

Definition wf_request (rq : OrderRequest) : Prop := is_price (rq_price rq) ∧ is_qty (rq_qty rq).

(** [canSubmit] always returns, and accepts exactly the admissible orders. *)
Lemma canSubmit_spec MaxT MaxP rq pos r :
  wf_risk MaxT MaxP r → Z.of_nat MaxP < 2 ^ 30 → wf_request rq → is_s64 (net_qty pos) →
  ∃ v, canSubmit MaxP rq pos r = Ok v ∧ (v = RISK_ACCEPTED ↔ admissible MaxP rq pos r).
Proof.
  intros Hwf Hm [Hp Hq] Hn. unfold is_price, is_qty, is_s64 in *. unfold canSubmit, admissible.
  pose proof (exposure_bound MaxT MaxP (rq_ticker_id rq) r Hwf) as Hexp.
  pose proof (signed_qty_abs (rq_side rq) (rq_qty rq)) as Hsq.
  destruct (trading_enabled_ r); simpl negb; cbn iota; [|eexists; split; [done|]; naive_solver].
  destruct (_ || (rq_qty rq =? 0)) eqn:Ev.
  { eexists. split; [done|]. split; [done|]. intros (_ & Ht & Hid & Htk & Hpr & Hqz & _). exfalso.
    rewrite bool_decide_true in Ev by done. unfold Price_INVALID in *. simpl in Ev.
    repeat (apply orb_true_iff in Ev as [Ev|Ev]); bsplit; lia. }
  bsplit. destruct (findTicker (rq_ticker_id rq) r) as [t|] eqn:Et; [|eexists; split; [done|]; naive_solver].
  pose proof (findPending_None MaxP r (wf_pending_cap _ _ _ Hwf) (rq_client_order_id rq)) as Hfp.
  case_bool_decide as Hdup.
  { eexists. split; [done|]. split; [done|]. intros (_ & _ & _ & _ & _ & _ & Hnd & _).
    apply Hfp in Hnd. rewrite Hnd in Hdup. by destruct Hdup. }
  case_bool_decide as Hcap; [eexists; split; [done|]; split; [done|]; lia|].
  destruct (max_order_qty (tl_limits t) <? rq_qty rq) eqn:Eq; bsplit.
  { eexists. split; [done|]. split; [done|]. intros (_ & _ & _ & _ & _ & _ & _ & _ & t' & [= <-] & ? & _). lia. }
  rewrite chkS_ok by nia. cbn [mbind outcome_bind].
  destruct (max_order_notional (tl_limits t) <? rq_price rq * rq_qty rq) eqn:En; bsplit.
  { eexists. split; [done|]. split; [done|]. intros (_ & _ & _ & _ & _ & _ & _ & _ & t' & [= <-] & _ & ? & _). lia. }
  rewrite (pendingExposure_spec MaxT MaxP) by done. cbn [mbind outcome_bind].
  rewrite chkS_ok by lia. cbn [mbind outcome_bind].
  match goal with |- context [if ?b then _ else _] => destruct b eqn:El end.
  - eexists. split; [done|]. split; [done|].
    intros (_ & _ & _ & _ & _ & _ & _ & _ & t' & [= <-] & _ & _ & ?).
    apply orb_true_iff in El as [El|El]; bsplit; lia.
  - bsplit. eexists. split; [done|]. split; [intros _|done].
    assert (rq_client_order_id rq ∉ (po_client_order_id <$> pending_ r)).
    { apply Hfp. by apply eq_None_not_Some. }
    pose proof (wf_pending_cap _ _ _ Hwf).
    split_and!; try done; [lia|]. exists t. split_and!; try done; lia.
Qed.

Lemma onSubmitted_spec MaxP rq r :
  (length (pending_ r) ≤ MaxP)%nat →
  rq_client_order_id rq ∉ (po_client_order_id <$> pending_ r) → (length (pending_ r) < MaxP)%nat →
  onSubmitted MaxP rq r =
    (true, set_pending (pending_ r ++ [mkPendingOrder (rq_client_order_id rq) (rq_ticker_id rq)
                                         (rq_side rq) (rq_qty rq)]) r).
Proof.
  intros Hcap Hn Hlt. unfold onSubmitted. apply (findPending_None MaxP r Hcap) in Hn as ->.
  rewrite bool_decide_false by (by intros []). rewrite bool_decide_false by lia. done.
Qed.

Lemma wf_risk_submit MaxT MaxP rq r :
  wf_risk MaxT MaxP r → 0 < rq_qty rq < 2 ^ 32 →
  rq_client_order_id rq ∉ (po_client_order_id <$> pending_ r) → (length (pending_ r) < MaxP)%nat →
  wf_risk MaxT MaxP (set_pending (pending_ r ++ [mkPendingOrder (rq_client_order_id rq) (rq_ticker_id rq)
                                                   (rq_side rq) (rq_qty rq)]) r).
Proof.
  intros [Htc Htn Hl Hc Hn Hq] Hqty Hfresh Hlt. split; simpl; try done.
  - rewrite length_app. simpl. lia.
  - rewrite fmap_app. apply NoDup_app. split_and!; [done| |apply NoDup_singleton].
    by intros x Hx ->%list_elem_of_singleton.
  - apply Forall_app. split; [done|]. by apply Forall_singleton.
Qed.

Lemma exposure_submit tid id t s q r :
  exposure tid (set_pending (pending_ r ++ [mkPendingOrder id t s q]) r) =
    exposure tid r + exposure_of tid (mkPendingOrder id t s q) ∧
  long_exposure tid (set_pending (pending_ r ++ [mkPendingOrder id t s q]) r) =
    long_exposure tid r + long_of tid (mkPendingOrder id t s q) ∧
  short_exposure tid (set_pending (pending_ r ++ [mkPendingOrder id t s q]) r) =
    short_exposure tid r + short_of tid (mkPendingOrder id t s q).
Proof.
  unfold exposure, long_exposure, short_exposure. simpl. rewrite !fmap_app, !sumZ_app. simpl. lia.
Qed.

(** ** Steps of a risk manager and its tracker

    A submission is an order of the strategy that passed [canSubmit] and is
    then reserved by [onSubmitted]; a response is any answer of the exchange.
    [one_sided] restricts submissions to orders with no opposite reservation
    outstanding on the same ticker. *)
Definition one_sided (rq : OrderRequest) (r : RiskManager) : Prop :=
  if is_buy (rq_side rq) then short_exposure (rq_ticker_id rq) r = 0
  else long_exposure (rq_ticker_id rq) r = 0.

Inductive risk_step (MaxP : nat) : RiskManager * PnLTracker → RiskManager * PnLTracker → Prop :=
| step_submit rq pos r r' pnl :
    wf_request rq → PnLTracker.get (rq_ticker_id rq) pnl = Some pos →
    canSubmit MaxP rq pos r = Ok RISK_ACCEPTED → one_sided rq r →
    onSubmitted MaxP rq r = (true, r') →
    risk_step MaxP (r, pnl) (r', pnl)
| step_response rs b r r' pnl pnl' :
    wf_response rs → onOrderResponse MaxP rs r pnl = Ok (b, r', pnl') →
    risk_step MaxP (r, pnl) (r', pnl').

(** Even if every reservation on one side filled and none on the other, the
    position would stay within its limit. *)
Definition within_limit (tid : TickerId) (r : RiskManager) (pnl : PnLTracker) : Prop :=
  match findTicker tid r with
  | Some t => net_of tid pnl + long_exposure tid r ≤ max_abs_position (tl_limits t) ∧
              - max_abs_position (tl_limits t) ≤ net_of tid pnl - short_exposure tid r
  | None => net_of tid pnl = 0 ∧ long_exposure tid r = 0 ∧ short_exposure tid r = 0
  end.

Record risk_inv (MaxT MaxP : nat) (s : RiskManager * PnLTracker) : Prop := {
  ri_wf : wf_risk MaxT MaxP s.1;
  ri_pnl : wf_tracker s.2;
  ri_small : Forall (λ t, max_abs_position (tl_limits t) < 2 ^ 62) (tickers_ s.1);
  ri_within : ∀ tid, within_limit tid s.1 s.2
}.

Lemma wf_risk_nonneg MaxT MaxP tid r :
  wf_risk MaxT MaxP r → 0 ≤ long_exposure tid r ∧ 0 ≤ short_exposure tid r.
Proof. intros Hwf. apply exposure_nonneg. apply Hwf. Qed.

Lemma risk_inv_roomy MaxT MaxP s : risk_inv MaxT MaxP s → roomy s.2.
Proof.
  intros [Hwf _ Hs Hw] tid p Hg. specialize (Hw tid). unfold within_limit in Hw.
  assert (net_of tid s.2 = net_qty p) as Hn by (unfold net_of; by rewrite Hg).
  pose proof (wf_risk_nonneg MaxT MaxP tid s.1 Hwf).
  destruct (findTicker tid s.1) as [t|] eqn:E; [|lia].
  apply findTicker_Some in E as [_ Hin]. rewrite Forall_forall in Hs. specialize (Hs t Hin). simpl in Hs. lia.
Qed.

(** A pending order is part of the exposure of its side. *)
Lemma pending_exposure_le tid p r :
  Forall wf_pending (pending_ r) → p ∈ pending_ r → po_ticker_id p = tid →
  0 < long_exposure tid r + short_exposure tid r.
Proof.
  intros Hq [i Hi]%list_elem_of_lookup <-. unfold long_exposure, short_exposure.
  assert (wf_pending p) as Hp by (by eapply (Forall_lookup_1 wf_pending)).
  rewrite !(sumZ_delete _ _ _ _ Hi). unfold wf_pending in Hp.
  pose proof (exposure_nonneg (po_ticker_id p) (delete i (pending_ r)) (Forall_delete _ _ _ Hq)).
  unfold long_of at 1, short_of at 1. rewrite Z.eqb_refl. destruct (is_buy (po_side p)); simpl; lia.
Qed.

Lemma within_limit_settles MaxT MaxP response p r pnl r' pnl' tid :
  wf_risk MaxT MaxP r → tickers_ r' = tickers_ r → settles response p r pnl r' pnl' →
  within_limit tid r pnl → within_limit tid r' pnl'.
Proof.
  intros Hwf Ht (Hin & _ & Hex & Hrel & Hd & _). specialize (Hd tid) as (_ & Hl & Hs & Hn).
  unfold within_limit, findTicker in *. rewrite Ht.
  pose proof (pending_exposure_le tid p r (wf_pending_qty _ _ _ Hwf) Hin) as Hpos.
  rewrite Hl, Hs, Hn. clear Hl Hs Hn.
  unfold exposure_of, long_of, short_of, signed_qty. simpl.
  destruct (po_ticker_id p =? tid) eqn:E; bsplit; simpl; [|destruct (snd <$> _); lia].
  destruct (is_buy (po_side p)); simpl; (destruct (snd <$> _); lia).
Qed.

Lemma risk_step_inv MaxT MaxP s s' :
  Z.of_nat MaxP < 2 ^ 30 → risk_inv MaxT MaxP s → risk_step MaxP s s' → risk_inv MaxT MaxP s'.
Proof.
  intros Hm Hinv Hstep. pose proof (risk_inv_roomy _ _ _ Hinv) as Hroom.
  destruct Hinv as [Hwf Hpnl Hs Hw]. destruct Hstep as [rq pos r r' pnl Hrq Hg Hcan Hside Hsub|
    rs b r r' pnl pnl' Hrs Hresp]; simpl in *.
  - assert (is_s64 (net_qty pos)) as Hpos by (specialize (Hroom _ _ Hg); unfold is_s64; lia).
    destruct (canSubmit_spec MaxT MaxP rq pos r Hwf Hm Hrq Hpos) as (v & Hv & Hadm).
    rewrite Hcan in Hv. injection Hv as <-. destruct Hadm as [Hadm _].
    destruct (Hadm eq_refl) as (_ & _ & _ & _ & _ & Hq0 & Hfresh & Hlt & t & Ht & _ & _ & Hlim).
    rewrite (onSubmitted_spec MaxP rq r (wf_pending_cap _ _ _ Hwf) Hfresh Hlt) in Hsub.
    injection Hsub as <-. destruct Hrq as [_ Hq]. unfold is_qty in Hq.
    split; simpl; try done; [apply wf_risk_submit; (done || lia)|].
    intros tid. specialize (Hw tid). unfold within_limit, findTicker in *. simpl.
    destruct (exposure_submit tid (rq_client_order_id rq) (rq_ticker_id rq) (rq_side rq) (rq_qty rq) r) as (_ & -> & ->).
    unfold long_of, short_of. simpl. rewrite exposure_split in Hlim. unfold one_sided in Hside.
    destruct (rq_ticker_id rq =? tid) eqn:Et; bsplit; simpl; [subst|by rewrite !Z.add_0_r].
    rewrite Ht in Hw |- *. assert (net_of (rq_ticker_id rq) pnl = net_qty pos) as Hn by (unfold net_of; by rewrite Hg).
    unfold signed_qty in Hlim. destruct (is_buy (rq_side rq)); simpl; lia.
  - pose proof (onOrderResponse_settles MaxT MaxP rs r pnl Hwf Hpnl Hroom Hrs) as Hr.
    rewrite Hresp in Hr. simpl in Hr. destruct Hr as (Hwf' & Hpnl' & Ht & _ & Hb).
    destruct b; [|destruct Hb as [-> ->]; split; simpl; assumption].
    destruct Hb as [p Hset]. split; simpl; try done; [by rewrite Ht|].
    intros tid. exact (within_limit_settles MaxT MaxP rs p r pnl r' pnl' tid Hwf Ht Hset (Hw tid)).
Qed.

(** ** Properties *)

(** C9: The admission check: for every well-formed manager and request,
    [canSubmit] returns without overflow and answers ACCEPTED exactly when
    trading is enabled, the request is a valid NEW order on a registered ticker
    under a fresh id, there is pending capacity, and the quantity, notional and
    projected position are within the ticker's limits.  After ACCEPTED the
    reservation by [onSubmitted] cannot fail, and it leaves the manager well
    formed with net position plus reserved exposure inside the limit. *)
Theorem canSubmit_admits_exactly MaxT MaxP rq pos r :
  wf_risk MaxT MaxP r → Z.of_nat MaxP < 2 ^ 30 → wf_request rq → is_s64 (net_qty pos) →
  ∃ v, canSubmit MaxP rq pos r = Ok v ∧
    (v = RISK_ACCEPTED ↔ admissible MaxP rq pos r) ∧
    (v = RISK_ACCEPTED → ∃ r' t, onSubmitted MaxP rq r = (true, r') ∧ wf_risk MaxT MaxP r' ∧
       findTicker (rq_ticker_id rq) r = Some t ∧
       Z.abs (net_qty pos + exposure (rq_ticker_id rq) r') ≤ max_abs_position (tl_limits t)).
Proof.
  intros Hwf Hm Hrq Hpos.
  destruct (canSubmit_spec MaxT MaxP rq pos r Hwf Hm Hrq Hpos) as (v & Hv & Hadm).
  exists v. split_and!; [done|done|]. intros Hacc. apply Hadm in Hacc.
  destruct Hacc as (_ & _ & _ & _ & _ & Hq0 & Hfresh & Hlt & t & Ht & _ & _ & Hlim).
  destruct Hrq as [_ Hq]. unfold is_qty in Hq.
  rewrite (onSubmitted_spec MaxP rq r (wf_pending_cap _ _ _ Hwf) Hfresh Hlt).
  eexists _, t. split_and!; [done|apply wf_risk_submit; (done || lia)|done|].
  destruct (exposure_submit (rq_ticker_id rq) (rq_client_order_id rq) (rq_ticker_id rq)
              (rq_side rq) (rq_qty rq) r) as (-> & _).
  unfold exposure_of; simpl. rewrite Z.eqb_refl. lia.
Qed.

Definition example_limits : RiskLimits := mkRiskLimits 100 50 100000000.
Definition example_risk : RiskManager := mkRiskManager [mkTickerLimits 1 example_limits] [] true.

Lemma example_risk_wf : wf_risk 16 64 example_risk.
Proof.
  split; simpl; try lia; try constructor; simpl; try lia; try constructor; try (apply not_elem_of_nil).
Qed.

Lemma canSubmit_admits_exactly_witness :
  canSubmit 64 (mkOrderRequest RQ_NEW 1 0 1 BUY 1000000 40 true) default_Position example_risk = Ok RISK_ACCEPTED ∧
  ∃ v, canSubmit 64 (mkOrderRequest RQ_NEW 1 0 1 BUY 1000000 40 true) default_Position example_risk = Ok v ∧
    (v = RISK_ACCEPTED → ∃ r' t, onSubmitted 64 (mkOrderRequest RQ_NEW 1 0 1 BUY 1000000 40 true) example_risk = (true, r') ∧
       wf_risk 16 64 r' ∧ findTicker 1 example_risk = Some t ∧
       Z.abs (0 + exposure 1 r') ≤ max_abs_position (tl_limits t)).
Proof.
  split; [vm_compute; reflexivity|].
  destruct (canSubmit_admits_exactly 16 64 (mkOrderRequest RQ_NEW 1 0 1 BUY 1000000 40 true) default_Position example_risk)
    as (v & H1 & _ & H3).
  - exact example_risk_wf.
  - lia.
  - unfold wf_request, is_price, is_qty. simpl. lia.
  - unfold is_s64. simpl. lia.
  - exists v. split; [exact H1|exact H3].
Defined.

(** When a response about the reservation [p] is accepted, and what the tracker
    then is. *)
Definition applies (rs : OrderResponse) (p : PendingOrder) (pnl pnl' : PnLTracker) : Prop :=
  match rs_status rs with
  | EXECUTED => 0 < rs_executed_qty rs ≤ po_reserved_qty p ∧
      PnLTracker.onExecution (po_ticker_id p) (po_side p) (rs_execution_price rs) (rs_executed_qty rs) pnl = Ok (true, pnl')
  | CANCELED => 0 < rs_canceled_qty rs ≤ po_reserved_qty p ∧ pnl' = pnl
  | ACCEPTED | CANCEL_REJECTED | REJECTED => pnl' = pnl
  end.

Lemma pending_same_id MaxT MaxP r p q :
  wf_risk MaxT MaxP r → p ∈ pending_ r → q ∈ pending_ r → po_client_order_id p = po_client_order_id q → p = q.
Proof.
  intros Hwf [i Hi]%list_elem_of_lookup [j Hj]%list_elem_of_lookup Hid.
  assert (i = j) as ->; [|congruence].
  eapply (NoDup_lookup (po_client_order_id <$> pending_ r) i j (po_client_order_id p)); [apply Hwf| |];
    rewrite list_lookup_fmap, ?Hi, ?Hj; simpl; congruence.
Qed.

Lemma onOrderResponse_applies MaxT MaxP rs r pnl b r' pnl' :
  wf_risk MaxT MaxP r → wf_response rs → onOrderResponse MaxP rs r pnl = Ok (b, r', pnl') →
  if b then ∃ p, p ∈ pending_ r ∧ po_client_order_id p = rs_client_order_id rs ∧ applies rs p pnl pnl'
  else ∀ p t, p ∈ pending_ r → po_client_order_id p = rs_client_order_id rs → ¬ applies rs p pnl t.
Proof.
  intros Hwf (_ & Hxq & Hcq). unfold onOrderResponse, is_qty in *.
  destruct (findPendingIndex_spec MaxP r (wf_pending_cap _ _ _ Hwf) (rs_client_order_id rs)) as [[E Hno]|(p & Hi & Hid & Hne)].
  { rewrite bool_decide_true by done. intros [= <- <- <-] p t Hp Hpid _. apply Hno. rewrite <- Hpid. apply list_elem_of_fmap. eauto. }
  rewrite bool_decide_false, Hi by done.
  assert (p ∈ pending_ r) as Hin by (apply list_elem_of_lookup; eauto).
  assert (∀ q, q ∈ pending_ r → po_client_order_id q = rs_client_order_id rs → q = p) as Huniq.
  { intros q Hq Hqid. eapply pending_same_id; [done..|congruence]. }
  unfold applies. destruct (rs_status rs) eqn:Est.
  - intros [= <- <- <-]. by exists p.
  - destruct (_ || _) eqn:Eg.
    { intros [= <- <- <-] q t Hq Hqid [Hr _]. rewrite (Huniq q Hq Hqid) in Hr. apply orb_true_iff in Eg as [Eg|Eg]; bsplit; lia. }
    bsplit. intros ([ok t'] & Hx & Hr)%bind_Ok_inv. destruct ok; simpl in Hr; injection Hr as <- <- <-.
    + exists p. split_and!; [done|done|lia|lia|done].
    + intros q t Hq Hqid [_ Hx']. rewrite (Huniq q Hq Hqid) in Hx'. congruence.
  - destruct (_ || _) eqn:Eg; intros [= <- <- <-].
    { intros q t Hq Hqid [Hr _]. rewrite (Huniq q Hq Hqid) in Hr. apply orb_true_iff in Eg as [Eg|Eg]; bsplit; lia. }
    bsplit. exists p. split_and!; [done|done|lia|lia|done].
  - intros [= <- <- <-]. by exists p.
  - intros [= <- <- <-]. by exists p.
Qed.

(** C10: Settling responses: whatever the exchange answers, with positions under
    2^62, [onOrderResponse] has no undefined behaviour and keeps the manager and
    the tracker well formed.  A response is accepted exactly when it belongs to a
    reservation and fits it (a fill: positive, within the reservation, and taken
    by the tracker; a cancel: positive and within the reservation).  When
    accepted, for every ticker the net position moves by exactly the executed
    quantity and the reserved exposure by exactly the released quantity, the
    reservation shrinks by the released quantity and goes when nothing is left,
    and every other reservation is as before; so a fill turns reservation into
    position one for one.  When refused, nothing changes. *)
Theorem onOrderResponse_conserves_exposure MaxT MaxP rs r pnl :
  wf_risk MaxT MaxP r → wf_tracker pnl → roomy pnl → wf_response rs →
  returns (onOrderResponse MaxP rs r pnl) (λ '(b, r', pnl'),
    wf_risk MaxT MaxP r' ∧ wf_tracker pnl' ∧
    if b : bool then
      ∃ p rest, pending_ r ≡ₚ p :: rest ∧ po_client_order_id p = rs_client_order_id rs ∧ applies rs p pnl pnl' ∧
        pending_ r' ≡ₚ (if decide (released rs p = po_reserved_qty p) then rest
                        else with_reserved p (po_reserved_qty p - released rs p) :: rest) ∧
        ∀ tid, net_of tid pnl' = net_of tid pnl + exposure_of tid (with_reserved p (executed_part rs)) ∧
               exposure tid r' = exposure tid r - exposure_of tid (with_reserved p (released rs p))
    else r' = r ∧ pnl' = pnl ∧
      ∀ p t, p ∈ pending_ r → po_client_order_id p = rs_client_order_id rs → ¬ applies rs p pnl t).
Proof.
  intros Hwf Hpnl Hroom Hrs.
  pose proof (onOrderResponse_settles MaxT MaxP rs r pnl Hwf Hpnl Hroom Hrs) as Hs.
  pose proof (onOrderResponse_applies MaxT MaxP rs r pnl) as Ha.
  destruct (onOrderResponse MaxP rs r pnl) as [[[b r'] pnl']| |]; [|done..]. specialize (Ha _ _ _ Hwf Hrs eq_refl).
  simpl in *. destruct Hs as (Hwf' & Hpnl' & _ & _ & Hb). split_and!; [done|done|].
  destruct b; [|naive_solver].
  destruct Hb as (p & Hin & Hid & _ & _ & Hd & rest & Hp1 & Hp2), Ha as (q & Hq & Hqid & Happ).
  rewrite (pending_same_id MaxT MaxP r q p Hwf Hq Hin) in Happ by congruence.
  exists p, rest. split_and!; try done. intros tid. by destruct (Hd tid) as (-> & _ & _ & ->).
Qed.

Definition example_pending : RiskManager :=
  set_pending [mkPendingOrder 1 1 BUY 40] example_risk.
Definition example_fill : OrderResponse := mkOrderResponse 1 0 BUY 0 0 25 1000000 0 EXECUTED.

Lemma example_pending_wf : wf_risk 16 64 example_pending.
Proof.
  apply (wf_risk_submit 16 64 (mkOrderRequest RQ_NEW 1 0 1 BUY 1000000 40 true) example_risk example_risk_wf).
  - simpl. lia.
  - apply not_elem_of_nil.
  - simpl. lia.
Qed.

Lemma onOrderResponse_conserves_exposure_witness :
  onOrderResponse 64 example_fill example_pending (mkPnLTracker [mkEntry 1 default_Position]) =
    Ok (true, set_pending [mkPendingOrder 1 1 BUY 15] example_risk,
        mkPnLTracker [mkEntry 1 (mkPosition 25 0 0 1000000 Price_INVALID)]) ∧
  returns (onOrderResponse 64 example_fill example_pending (mkPnLTracker [mkEntry 1 default_Position]))
    (λ '(b, r', pnl'), wf_risk 16 64 r' ∧ wf_tracker pnl').
Proof.
  split; [vm_compute; reflexivity|].
  eapply returns_mono; [apply (onOrderResponse_conserves_exposure 16 64)|].
  - exact example_pending_wf.
  - split; [apply NoDup_singleton|apply Forall_singleton, wf_default].
  - intros tid p (i & _ & Hi)%get_Some_index. destruct i; simplify_eq/=. lia.
  - unfold wf_response, is_price, is_qty. simpl. lia.
  - intros [[b r'] pnl'] (H1 & H2 & _). split; assumption.
Defined.

(** C7: Position limit: from a manager with no reservation and flat positions,
    after any sequence of one-sided admitted submissions and arbitrary
    exchange responses (fills in any order and size, cancels, rejects), the
    absolute net position of every ticker stays within its limit, and so does
    the worst case in which everything reserved on one side fills. *)
Theorem position_limit_one_sided MaxT MaxP r0 pnl0 r pnl tid t :
  Z.of_nat MaxP < 2 ^ 30 → wf_risk MaxT MaxP r0 → wf_tracker pnl0 → pending_ r0 = [] →
  (∀ tid', net_of tid' pnl0 = 0) →
  Forall (λ t', max_abs_position (tl_limits t') < 2 ^ 62) (tickers_ r0) →
  rtc (risk_step MaxP) (r0, pnl0) (r, pnl) →
  findTicker tid r = Some t →
  Z.abs (net_of tid pnl) ≤ max_abs_position (tl_limits t) ∧
  net_of tid pnl + long_exposure tid r ≤ max_abs_position (tl_limits t) ∧
  - max_abs_position (tl_limits t) ≤ net_of tid pnl - short_exposure tid r.
Proof.
  intros Hm Hwf Hpnl Hp Hflat Hs Hrun Ht.
  assert (risk_inv MaxT MaxP (r0, pnl0)) as Hinv.
  { split; simpl; try done. intros tid'. unfold within_limit, long_exposure, short_exposure.
    rewrite Hp, Hflat. simpl. destruct (findTicker tid' r0) as [t'|] eqn:E; [|done].
    apply findTicker_Some in E as [_ Hin]. pose proof (wf_limits _ _ _ Hwf) as Hl.
    rewrite Forall_forall in Hl. specialize (Hl _ Hin). simpl in Hl. lia. }
  assert (risk_inv MaxT MaxP (r, pnl)) as [Hwf' _ _ Hw].
  { clear Ht. induction Hrun as [|s1 s2 s3 Hstep _ IH]; [done|].
    apply IH. by eapply risk_step_inv. }
  specialize (Hw tid). unfold within_limit in Hw. simpl in *. rewrite Ht in Hw.
  pose proof (wf_risk_nonneg MaxT MaxP tid r Hwf'). lia.
Qed.

Lemma position_limit_one_sided_witness :
  Z.abs (net_of 1 (mkPnLTracker [mkEntry 1 (mkPosition 25 0 0 1000000 Price_INVALID)])) ≤ 100 ∧
  net_of 1 (mkPnLTracker [mkEntry 1 (mkPosition 25 0 0 1000000 Price_INVALID)])
    + long_exposure 1 (set_pending [mkPendingOrder 1 1 BUY 15] example_risk) ≤ 100.
Proof.
  destruct (position_limit_one_sided 16 64 example_risk (mkPnLTracker [mkEntry 1 default_Position])
              (set_pending [mkPendingOrder 1 1 BUY 15] example_risk)
              (mkPnLTracker [mkEntry 1 (mkPosition 25 0 0 1000000 Price_INVALID)])
              1 (mkTickerLimits 1 example_limits)) as (H1 & H2 & _).
  - lia.
  - exact example_risk_wf.
  - split; [apply NoDup_singleton|apply Forall_singleton, wf_default].
  - reflexivity.
  - intros tid. unfold net_of, get. simpl. case_decide; reflexivity.
  - apply Forall_singleton. simpl. lia.
  - eapply rtc_l; [|eapply rtc_l; [|apply rtc_refl]].
    + eapply (step_submit 64 (mkOrderRequest RQ_NEW 1 0 1 BUY 1000000 40 true) default_Position example_risk example_pending).
      * unfold wf_request, is_price, is_qty. simpl. lia.
      * reflexivity.
      * vm_compute. reflexivity.
      * reflexivity.
      * reflexivity.
    + eapply (step_response 64 example_fill true).
      * unfold wf_response, is_price, is_qty. simpl. lia.
      * vm_compute. reflexivity.
  - reflexivity.
  - split; [exact H1|exact H2].
Defined.
