(* ===== verification/QuantLink.v ===== *)
(** * Interfaces of the QuantLink submodule

    The queues and the object pool come from the QuantLink submodule, whose
    sources are not part of this repository.  They are parameters of the model:
    each class below states the operations the program calls and the behaviour
    it relies on, and the instances at the end show the laws are satisfiable. *)

From S2P Require Import Prelude.

(** ** [quantlink::SPSCQueue<T>]

    A bounded single-producer single-consumer FIFO.  [q_push] is
    [push(x) -> bool], false when the queue is full; [q_pop] is
    [pop(x) -> bool], [None] standing for false. *)
Class SPSCQueue (Q : Type → Type) : Type := {
  q_items : ∀ {A}, Q A → list A;
  q_push : ∀ {A}, A → Q A → bool * Q A;
  q_pop : ∀ {A}, Q A → option (A * Q A)
}.
#[global] Hint Mode SPSCQueue ! : typeclass_instances.

Class SPSCQueueLaws (Q : Type → Type) `{SPSCQueue Q} : Prop := {
  q_push_true : ∀ A (x : A) (q q' : Q A), q_push x q = (true, q') → q_items q' = q_items q ++ [x];
  q_push_false : ∀ A (x : A) (q q' : Q A), q_push x q = (false, q') → q_items q' = q_items q;
  q_pop_Some : ∀ A (x : A) (q q' : Q A), q_pop q = Some (x, q') → q_items q = x :: q_items q';
  q_pop_None : ∀ A (q : Q A), q_pop q = None → q_items q = []
}.

(** A bounded list queue. *)
Record BQueue (A : Type) : Type := mkBQueue { bq_cap : nat; bq_items : list A }.
Arguments mkBQueue {A} _ _.
Arguments bq_cap {A} _.
Arguments bq_items {A} _.

#[export] Instance BQueue_queue : SPSCQueue BQueue := {
  q_items := @bq_items;
  q_push A x q :=
    if bool_decide (length (bq_items q) < bq_cap q)%nat
    then (true, mkBQueue (bq_cap q) (bq_items q ++ [x])) else (false, q);
  q_pop A q :=
    match bq_items q with
    | [] => None
    | x :: l => Some (x, mkBQueue (bq_cap q) l)
    end
}.

#[export] Instance BQueue_laws : SPSCQueueLaws BQueue.
Proof.
  split; simpl; intros A.
  - intros x q q'. by case_bool_decide; intros [= <-].
  - intros x q q'. by case_bool_decide; intros [= <-].
  - intros x [c [|y l]] q'; simpl; [done|]. by intros [= <- <-].
  - intros [c [|y l]]; simpl; done.
Qed.

(** ** [quantlink::ObjectPool<T>]

    [op_allocate] hands out an address that is not live ([None] is a null
    pointer, when the pool is exhausted); [op_deallocate] makes it available
    again. *)
Class ObjectPool (P : Type) : Type := {
  op_live : P → gset positive;
  op_capacity : P → nat;
  op_new : nat → P;
  op_allocate : P → option (positive * P);
  op_deallocate : positive → P → P
}.
#[global] Hint Mode ObjectPool ! : typeclass_instances.

Class ObjectPoolLaws (P : Type) `{ObjectPool P} : Prop := {
  op_new_live : ∀ n, op_live (op_new n : P) = ∅;
  op_new_capacity : ∀ n, op_capacity (op_new n : P) = n;
  op_allocate_Some : ∀ (p : P) l p', op_allocate p = Some (l, p') →
    l ∉ op_live p ∧ op_live p' = {[l]} ∪ op_live p ∧ op_capacity p' = op_capacity p;
  op_allocate_room : ∀ p : P, (size (op_live p) < op_capacity p)%nat → is_Some (op_allocate p);
  op_deallocate_live : ∀ (p : P) l, l ∈ op_live p →
    op_live (op_deallocate l p) = op_live p ∖ {[l]} ∧ op_capacity (op_deallocate l p) = op_capacity p
}.

(** A pool that hands out the least free address. *)
Record SetPool : Type := mkSetPool { sp_cap : nat; sp_live : gset positive }.

#[export] Instance SetPool_pool : ObjectPool SetPool := {
  op_live := sp_live;
  op_capacity := sp_cap;
  op_new n := mkSetPool n ∅;
  op_allocate p :=
    if bool_decide (size (sp_live p) < sp_cap p)%nat
    then let l := fresh (sp_live p) in Some (l, mkSetPool (sp_cap p) ({[l]} ∪ sp_live p))
    else None;
  op_deallocate l p := mkSetPool (sp_cap p) (sp_live p ∖ {[l]})
}.

#[export] Instance SetPool_laws : ObjectPoolLaws SetPool.
Proof.
  split; simpl; try done.
  - intros p l p'. case_bool_decide; [|done]. intros [= <- <-]. split_and!; [apply is_fresh|done|done].
  - intros p Hp. by rewrite bool_decide_true by done.
Qed.
