(* ===== verification/OrderManager.v ===== *)
(** * [OrderManager] of [src/src/trading/order_manager.h]

    The order lifecycle of one strategy slot.  The objects behind the class's
    pointers (risk manager, tracker, outgoing queue, id allocator, callback and
    its user data) travel with it in a [Ctx]; [None] is a null pointer. *)

From S2P Require Import Prelude Types OrderIdAllocator PnLTracker RiskManager QuantLink.

Inductive OMOrderState : Type :=
| INVALID
| NOT_ACTIVE
| ACTIVE
| PARTIALLY_FILLED
| COMPLETED
| CANCELLED
| DEAD.

#[export] Instance OMOrderState_eq_dec : EqDecision OMOrderState.
Proof. solve_decision. Defined.

Record OMOrder : Type := mkOMOrder {
  om_request : OrderRequest;
  om_state : OMOrderState;
  om_is_cancel_requested : bool;
  om_is_cancel_rejected : bool;
  om_filled_qty : Quantity;
  om_avg_fill_price : Price
}.

#[export] Instance OMOrder_eq_dec : EqDecision OMOrder.
Proof. solve_decision. Defined.

(** The default member initialisers of [OMOrder], around a request. *)
Definition new_OMOrder (rq : OrderRequest) : OMOrder := mkOMOrder rq INVALID false false 0 Price_INVALID.

(** [orders_[0 .. count_)] and the cumulative counters. *)
Record OrderManager : Type := mkOrderManager {
  orders_ : list OMOrder;
  new_orders_ : Z;
  replaces_ : Z;
  cancels_ : Z;
  fills_ : Z;
  filled_qty_ : Z;
  rejected_ : Z;
  slot_ : Z
}.

Definition OrderManager_new : OrderManager := mkOrderManager [] 0 0 0 0 0 0 0.

Definition set_state (st : OMOrderState) (o : OMOrder) : OMOrder :=
  mkOMOrder (om_request o) st (om_is_cancel_requested o) (om_is_cancel_rejected o)
    (om_filled_qty o) (om_avg_fill_price o).
Definition set_cancel_requested (b : bool) (o : OMOrder) : OMOrder :=
  mkOMOrder (om_request o) (om_state o) b (om_is_cancel_rejected o) (om_filled_qty o) (om_avg_fill_price o).
Definition set_cancel_rejected (b : bool) (o : OMOrder) : OMOrder :=
  mkOMOrder (om_request o) (om_state o) (om_is_cancel_requested o) b (om_filled_qty o) (om_avg_fill_price o).
Definition set_fill (q : Quantity) (p : Price) (o : OMOrder) : OMOrder :=
  mkOMOrder (om_request o) (om_state o) (om_is_cancel_requested o) (om_is_cancel_rejected o) q p.
Definition set_request (rq : OrderRequest) (o : OMOrder) : OMOrder :=
  mkOMOrder rq (om_state o) (om_is_cancel_requested o) (om_is_cancel_rejected o)
    (om_filled_qty o) (om_avg_fill_price o).

Definition om_id (o : OMOrder) : OrderId := rq_client_order_id (om_request o).

(** Finished orders, whose slots are reused. *)
Definition is_finished (st : OMOrderState) : bool :=
  bool_decide (st = COMPLETED) || bool_decide (st = CANCELLED) || bool_decide (st = DEAD).

Definition is_live (st : OMOrderState) : bool :=
  bool_decide (st = ACTIVE) || bool_decide (st = PARTIALLY_FILLED) || bool_decide (st = NOT_ACTIVE).

Definition find (client_order_id : OrderId) (om : OrderManager) : option (nat * OMOrder) :=
  list_find (λ o, om_id o = client_order_id) (orders_ om).

Definition allocSlot (om : OrderManager) : nat :=
  match list_find (λ o, is_finished (om_state o) = true) (orders_ om) with
  | Some (i, _) => i
  | None => length (orders_ om)
  end.

Definition activeCount (om : OrderManager) : nat :=
  length (filter (λ o, is_live (om_state o) = true) (orders_ om)).

Definition orderCount (om : OrderManager) : nat := length (orders_ om).

Definition set_orders (l : list OMOrder) (om : OrderManager) : OrderManager :=
  mkOrderManager l (new_orders_ om) (replaces_ om) (cancels_ om) (fills_ om) (filled_qty_ om) (rejected_ om) (slot_ om).
Definition inc_new_orders (om : OrderManager) : OrderManager :=
  mkOrderManager (orders_ om) (wrapU 64 (new_orders_ om + 1)) (replaces_ om) (cancels_ om) (fills_ om)
    (filled_qty_ om) (rejected_ om) (slot_ om).
Definition inc_replaces (om : OrderManager) : OrderManager :=
  mkOrderManager (orders_ om) (new_orders_ om) (wrapU 64 (replaces_ om + 1)) (cancels_ om) (fills_ om)
    (filled_qty_ om) (rejected_ om) (slot_ om).
Definition inc_cancels (om : OrderManager) : OrderManager :=
  mkOrderManager (orders_ om) (new_orders_ om) (replaces_ om) (wrapU 64 (cancels_ om + 1)) (fills_ om)
    (filled_qty_ om) (rejected_ om) (slot_ om).
Definition inc_fills (q : Quantity) (om : OrderManager) : OrderManager :=
  mkOrderManager (orders_ om) (new_orders_ om) (replaces_ om) (cancels_ om) (wrapU 64 (fills_ om + 1))
    (wrapU 64 (filled_qty_ om + q)) (rejected_ om) (slot_ om).
Definition inc_rejected (om : OrderManager) : OrderManager :=
  mkOrderManager (orders_ om) (new_orders_ om) (replaces_ om) (cancels_ om) (fills_ om) (filled_qty_ om)
    (wrapU 64 (rejected_ om + 1)) (slot_ om).

(** The manager with the objects its pointers reach. *)
Record Ctx (Q : Type → Type) (U : Type) : Type := mkCtx {
  c_om : OrderManager;
  c_risk : option RiskManager;
  c_pnl : option PnLTracker;
  c_outgoing : option (Q OrderRequest);
  c_allocator : option OrderIdAllocator;
  c_callback : option (OMOrder → U → U);
  c_user : U
}.
Arguments mkCtx {Q U} _ _ _ _ _ _ _.
Arguments c_om {Q U} _.
Arguments c_risk {Q U} _.
Arguments c_pnl {Q U} _.
Arguments c_outgoing {Q U} _.
Arguments c_allocator {Q U} _.
Arguments c_callback {Q U} _.
Arguments c_user {Q U} _.

Section OrderManager.
Context {Q : Type → Type} `{SPSCQueue Q} {U : Type}.
Context (MaxPendingOrders MaxOrders : nat).
Abbreviation ctx := (Ctx Q U).

Definition on_om (f : OrderManager → OrderManager) (c : ctx) : ctx :=
  mkCtx (f (c_om c)) (c_risk c) (c_pnl c) (c_outgoing c) (c_allocator c) (c_callback c) (c_user c).
Definition set_risk (r : RiskManager) (c : ctx) : ctx :=
  mkCtx (c_om c) (Some r) (c_pnl c) (c_outgoing c) (c_allocator c) (c_callback c) (c_user c).
Definition set_pnl (p : PnLTracker) (c : ctx) : ctx :=
  mkCtx (c_om c) (c_risk c) (Some p) (c_outgoing c) (c_allocator c) (c_callback c) (c_user c).
Definition set_outgoing (q : Q OrderRequest) (c : ctx) : ctx :=
  mkCtx (c_om c) (c_risk c) (c_pnl c) (Some q) (c_allocator c) (c_callback c) (c_user c).
Definition set_allocator (a : OrderIdAllocator) (c : ctx) : ctx :=
  mkCtx (c_om c) (c_risk c) (c_pnl c) (c_outgoing c) (Some a) (c_callback c) (c_user c).

(** [orders_[i] = o] through the pointer [find] returned. *)
Definition put_order (i : nat) (o : OMOrder) : ctx → ctx :=
  on_om (λ om, set_orders (<[i := o]> (orders_ om)) om).

Definition initialize (risk : option RiskManager) (pnl : option PnLTracker) (outgoing : option (Q OrderRequest))
    (allocator : option OrderIdAllocator) (slot : Z) (callback : option (OMOrder → U → U)) (user_data : U)
    (om : OrderManager) : ctx :=
  mkCtx (mkOrderManager (orders_ om) (new_orders_ om) (replaces_ om) (cancels_ om) (fills_ om)
           (filled_qty_ om) (rejected_ om) slot)
    risk pnl outgoing allocator callback user_data.

Definition notify (o : OMOrder) (c : ctx) : ctx :=
  match c_callback c with
  | Some f => mkCtx (c_om c) (c_risk c) (c_pnl c) (c_outgoing c) (c_allocator c) (c_callback c) (f o (c_user c))
  | None => c
  end.

Definition sendNewOrder (request : OrderRequest) (position : Position) (c : ctx) : outcome (bool * ctx) :=
  match c_outgoing c, c_risk c, c_allocator c with
  | Some outgoing, Some risk, Some allocator =>
      let slot := allocSlot (c_om c) in
      if bool_decide (slot = MaxOrders) then Ok (false, c)
      else
        let '(id, allocator') := next (slot_ (c_om c)) allocator in
        let c := set_allocator allocator' c in
        let rq := mkOrderRequest (rq_type request) id 0 (rq_ticker_id request) (rq_side request)
                    (rq_price request) (rq_qty request) (rq_ioc request) in
        verdict ← canSubmit MaxPendingOrders rq position risk;
        if negb (bool_decide (verdict = RISK_ACCEPTED)) then Ok (false, on_om inc_rejected c)
        else
          let '(pushed, outgoing') := q_push rq outgoing in
          let c := set_outgoing outgoing' c in
          if negb pushed then Ok (false, c)
          else
            let '(reserved, risk') := onSubmitted MaxPendingOrders rq risk in
            let c := set_risk risk' c in
            if negb reserved then Ok (false, c)
            else
              let order := set_state NOT_ACTIVE (new_OMOrder rq) in
              let c := on_om inc_new_orders c in
              let c := on_om (λ om, set_orders (if bool_decide (slot = length (orders_ om))
                                                then orders_ om ++ [order]
                                                else <[slot := order]> (orders_ om)) om) c in
              Ok (true, notify order c)
  | _, _, _ => Ok (false, c)
  end.

Definition sendCancel (client_order_id : OrderId) (qty : Quantity) (c : ctx) : outcome (bool * ctx) :=
  match find client_order_id (c_om c) with
  | None => Ok (false, c)
  | Some (i, order) =>
      if is_finished (om_state order) || om_is_cancel_requested order then Ok (false, c)
      else
        let rq := om_request order in
        let cancel := mkOrderRequest RQ_CANCEL client_order_id 0 (rq_ticker_id rq) (rq_side rq)
                        (rq_price rq) qty (rq_ioc rq) in
        match c_outgoing c with
        | None => Ok (false, c)
        | Some outgoing =>
            let '(pushed, outgoing') := q_push cancel outgoing in
            let c := set_outgoing outgoing' c in
            if negb pushed then Ok (false, c)
            else Ok (true, put_order i (set_cancel_requested true order) (on_om inc_cancels c))
        end
  end.

Definition sendReplace (client_order_id : OrderId) (price : Price) (qty : Quantity) (c : ctx)
    : outcome (bool * ctx) :=
  match find client_order_id (c_om c) with
  | None => Ok (false, c)
  | Some (i, order) =>
      if is_finished (om_state order) || om_is_cancel_requested order then Ok (false, c)
      else match c_outgoing c, c_allocator c with
      | Some outgoing, Some allocator =>
          let '(new_id, allocator') := next (slot_ (c_om c)) allocator in
          let c := set_allocator allocator' c in
          let rq := om_request order in
          let replace := mkOrderRequest RQ_REPLACE client_order_id new_id (rq_ticker_id rq) (rq_side rq)
                           price qty (rq_ioc rq) in
          let '(pushed, outgoing') := q_push replace outgoing in
          let c := set_outgoing outgoing' c in
          if negb pushed then Ok (false, c)
          else match c_risk c with
          | None => Ok (false, c)
          | Some risk =>
              let '(rekeyed, risk') := onReplaced MaxPendingOrders client_order_id new_id risk in
              let c := set_risk risk' c in
              if negb rekeyed then Ok (false, c)
              else
                let updated := set_request (mkOrderRequest RQ_REPLACE new_id 0 (rq_ticker_id rq) (rq_side rq)
                                              price qty (rq_ioc rq)) order in
                Ok (true, put_order i updated (on_om inc_replaces c))
          end
      | _, _ => Ok (false, c)
      end
  end.

(** [risk_->onOrderResponse(response, *pnl_)]; a null [pnl_] is dereferenced. *)
Definition risk_response (response : OrderResponse) (risk : RiskManager) (c : ctx) : outcome (bool * ctx) :=
  match c_pnl c with
  | None => Undef
  | Some pnl =>
      res ← RiskManager.onOrderResponse MaxPendingOrders response risk pnl;
      Ok (res.1.1, set_pnl res.2 (set_risk res.1.2 c))
  end.

(** [avg_fill_price] after a fill: the first fill's price, then the average
    weighted by quantity, in [__int128]. *)
Definition next_avg_fill (order : OMOrder) (filled : Quantity) (response : OrderResponse) : outcome Price :=
  if filled =? rs_executed_qty response then Ok (rs_execution_price response)
  else
    weighted ← chkS 128 (om_avg_fill_price order * wrapU 32 (filled - rs_executed_qty response)
                         + rs_execution_price response * rs_executed_qty response);
    avg ← divS 128 weighted filled;
    Ok (wrapS 32 avg).

Definition onOrderResponse (response : OrderResponse) (c : ctx) : outcome (bool * ctx) :=
  match find (rs_client_order_id response) (c_om c) with
  | None => Ok (false, c)
  | Some (i, order) =>
      let st := om_state order in
      match rs_status response with
      | ACCEPTED =>
          if bool_decide (st = NOT_ACTIVE) then
            let order' := set_state ACTIVE order in Ok (true, notify order' (put_order i order' c))
          else if negb (bool_decide (st = ACTIVE)) && negb (bool_decide (st = PARTIALLY_FILLED)) then Ok (false, c)
          else Ok (true, notify order c)
      | EXECUTED =>
          if (rs_executed_qty response =? 0) || is_finished st then Ok (false, c)
          else
            let new_filled := wrapU 64 (om_filled_qty order + rs_executed_qty response) in
            if rq_qty (om_request order) <? new_filled then Ok (false, c)
            else
              res ← match c_risk c, c_pnl c with
                    | Some risk, Some _ => risk_response response risk c
                    | _, _ => Ok (false, c)
                    end;
              let '(applied, c) := res in
              if negb applied then
                let order' := set_state DEAD order in Ok (false, notify order' (put_order i order' c))
              else
                let filled := wrapU 32 new_filled in
                let c := on_om (inc_fills (rs_executed_qty response)) c in
                avg ← next_avg_fill order filled response;
                let order' := set_state (if filled =? rq_qty (om_request order) then COMPLETED else PARTIALLY_FILLED)
                                (set_fill filled avg order) in
                Ok (true, notify order' (put_order i order' c))
      | CANCELED =>
          if bool_decide (st = COMPLETED) || bool_decide (st = DEAD) then Ok (false, c)
          else
            res ← (if rs_canceled_qty response =? 0 then Ok (true, c)
                   else match c_risk c with
                        | None => Ok (false, c)
                        | Some risk => risk_response response risk c
                        end);
            let '(applied, c) := res in
            if negb applied then Ok (false, c)
            else
              let order' := set_state (if om_filled_qty order =? rq_qty (om_request order) then COMPLETED else CANCELLED)
                              (set_cancel_requested false order) in
              Ok (true, notify order' (put_order i order' c))
      | CANCEL_REJECTED =>
          if bool_decide (st = COMPLETED) || bool_decide (st = DEAD) then Ok (false, c)
          else
            let order' := set_cancel_rejected true (set_cancel_requested false order) in
            Ok (true, notify order' (put_order i order' c))
      | REJECTED =>
          res ← match c_risk c with
                | None => Ok (false, c)
                | Some risk => risk_response response risk c
                end;
          let '(applied, c) := res in
          if negb applied then Ok (false, c)
          else
            let order' := set_state DEAD order in
            Ok (true, notify order' (put_order i order' (on_om inc_rejected c)))
      end
  end.
End OrderManager.
