(* ===== verification/OrderManagerInv.v ===== *)
(** * The order manager keeps its orders, the reservations and the ids in step

    The invariant [om_ok] ties every live order to a reservation of exactly its
    unfilled quantity, and every id to the slot and to the allocator's counter.
    Each public operation is shown to return normally and to preserve it. *)

From S2P Require Import Prelude Types OrderIdAllocator PnLTracker RiskManager QuantLink OrderManager.

(** The reservation of a live order. *)
Definition reserved_for (o : OMOrder) (p : PendingOrder) : Prop :=
  po_client_order_id p = om_id o ∧
  po_ticker_id p = rq_ticker_id (om_request o) ∧
  po_side p = rq_side (om_request o) ∧
  po_reserved_qty p = rq_qty (om_request o) - om_filled_qty o.

(** An id issued by this slot before the counter reached [k]. *)
Definition issued (slot k : Z) (id : OrderId) : Prop :=
  Z.shiftr id 48 = slot ∧ 0 < id `mod` 2 ^ 48 < k.

Definition wf_order (o : OMOrder) : Prop :=
  om_state o ≠ INVALID ∧ 0 ≤ om_filled_qty o ≤ rq_qty (om_request o) ∧
  rq_qty (om_request o) < 2 ^ 32 ∧ is_price (om_avg_fill_price o) ∧
  (om_state o = COMPLETED ↔ om_filled_qty o = rq_qty (om_request o)).

Record om_ok (MaxT MaxP MaxO : nat) (om : OrderManager) (r : RiskManager) (a : OrderIdAllocator) : Prop := {
  ok_risk : wf_risk MaxT MaxP r;
  ok_cap : (length (orders_ om) ≤ MaxO)%nat;
  ok_slot : 0 ≤ slot_ om < 2 ^ 16;
  ok_counter : 0 < counter_ a < 2 ^ 48;
  ok_nodup : NoDup (om_id <$> orders_ om);
  ok_orders : Forall wf_order (orders_ om);
  ok_live : ∀ o, o ∈ orders_ om → is_live (om_state o) = true → ∃ p, p ∈ pending_ r ∧ reserved_for o p;
  ok_done : ∀ o, o ∈ orders_ om → om_state o = COMPLETED → om_id o ∉ (po_client_order_id <$> pending_ r);
  ok_issued : Forall (issued (slot_ om) (counter_ a)) (om_id <$> orders_ om);
  ok_pending_issued : Forall (issued (slot_ om) (counter_ a)) (po_client_order_id <$> pending_ r)
}.

(** All pointers set, and everything behind them in step. *)
Definition ctx_ok {Q U} (MaxT MaxP MaxO : nat) (c : Ctx Q U) : Prop :=
  ∃ r pnl a q, c_risk c = Some r ∧ c_pnl c = Some pnl ∧ c_allocator c = Some a ∧ c_outgoing c = Some q ∧
    wf_tracker pnl ∧ om_ok MaxT MaxP MaxO (c_om c) r a.

(** ** States *)

Lemma finished_or_live st : st ≠ INVALID → is_finished st = negb (is_live st).
Proof. by destruct st. Qed.

Lemma is_live_spec st : is_live st = true ↔ st = NOT_ACTIVE ∨ st = ACTIVE ∨ st = PARTIALLY_FILLED.
Proof. destruct st; naive_solver. Qed.

(** ** Lookup *)

Lemma find_Some id om i o :
  find id om = Some (i, o) → orders_ om !! i = Some o ∧ om_id o = id.
Proof. intros (Hi & Hid & _)%list_find_Some. done. Qed.

Lemma allocSlot_spec om :
  allocSlot om = length (orders_ om) ∧ Forall (λ o, is_finished (om_state o) = false) (orders_ om) ∨
  ∃ o, orders_ om !! allocSlot om = Some o ∧ is_finished (om_state o) = true.
Proof.
  unfold allocSlot. destruct (list_find _ (orders_ om)) as [[i o]|] eqn:E.
  - right. apply list_find_Some in E as (Hi & Ho & _). eauto.
  - left. split; [done|]. apply list_find_None in E. eapply Forall_impl; [exact E|].
    intros o Ho. by apply not_true_is_false.
Qed.

Lemma find_put om i o o' :
  find (om_id o) om = Some (i, o) → om_id o' = om_id o →
  find (om_id o) (set_orders (<[i := o']> (orders_ om)) om) = Some (i, o').
Proof.
  intros (Hi & _ & Hfirst)%list_find_Some Hid. apply lookup_lt_Some in Hi as Hlt.
  apply list_find_Some. simpl. split_and!; [by apply list_lookup_insert_eq|done|].
  intros j y Hj Hlt'. rewrite list_lookup_insert_ne in Hj by lia. eauto.
Qed.

(** ** Ids *)

Lemma issued_mono slot k k' id : k ≤ k' → issued slot k id → issued slot k' id.
Proof. unfold issued. intros ? [? ?]. split; [done|lia]. Qed.

Lemma next_issued slot a id a' :
  0 ≤ slot < 2 ^ 16 → 0 < counter_ a < 2 ^ 48 → next slot a = (id, a') →
  counter_ a' = counter_ a + 1 ∧ issued slot (counter_ a') id ∧ ¬ issued slot (counter_ a) id ∧ 0 < id.
Proof.
  intros Hs Hc E. assert (id = (next slot a).1) as -> by (by rewrite E).
  assert (a' = (next slot a).2) as -> by (by rewrite E).
  rewrite next_counter by (unfold is_u64; lia). unfold issued.
  rewrite next_id_slot, next_id_low, Z.mod_small by lia.
  pose proof (next_id_nonzero slot a Hs Hc). lia.
Qed.

Lemma Forall_issued_mono {A} (f : A → OrderId) slot k l :
  Forall (issued slot k) (f <$> l) → Forall (issued slot (k + 1)) (f <$> l).
Proof. intros H. eapply Forall_impl; [exact H|]. intros x. apply issued_mono. lia. Qed.

(** ** Preservation, by kind of change *)

Section Preserve.
Context (MaxT MaxP MaxO : nat).
Abbreviation om_ok := (om_ok MaxT MaxP MaxO).

(** Spending an id, and changing only counters. *)
Lemma om_ok_counter om r a a' :
  om_ok om r a → counter_ a' = counter_ a + 1 → counter_ a' < 2 ^ 48 → om_ok om r a'.
Proof.
  intros [] Hc Hlt. split; try done; rewrite ?Hc; try lia; by apply Forall_issued_mono.
Qed.

Lemma om_ok_counters om om' r a :
  om_ok om r a → orders_ om' = orders_ om → slot_ om' = slot_ om → om_ok om' r a.
Proof. intros [] Ho Hs. split; rewrite ?Ho, ?Hs; done. Qed.

(** Storing an order under its own id. *)
Lemma om_ok_put om r a i o o' :
  om_ok om r a → orders_ om !! i = Some o → om_id o' = om_id o → wf_order o' →
  (is_live (om_state o') = true → ∃ p, p ∈ pending_ r ∧ reserved_for o' p) →
  (om_state o' = COMPLETED → om_state o = COMPLETED) →
  om_ok (set_orders (<[i := o']> (orders_ om)) om) r a.
Proof.
  intros [Hr Hcap Hs Hc Hnd Hw Hl Hd Hi Hp] Hio Hid Hwo Hlive Hdone.
  assert (om_id <$> <[i := o']> (orders_ om) = om_id <$> orders_ om) as Hids.
  { rewrite list_fmap_insert. apply list_insert_id. by rewrite list_lookup_fmap, Hio, Hid. }
  split; simpl; rewrite ?Hids; try done.
  - by rewrite length_insert.
  - by apply Forall_insert.
  - intros x (j & Hj)%list_elem_of_lookup Hx.
    apply list_lookup_insert_Some in Hj as [(_ & <- & _)|(_ & Hj)]; [by apply Hlive|].
    apply Hl; [|done]. apply list_elem_of_lookup. eauto.
  - intros x (j & Hj)%list_elem_of_lookup Hx.
    apply list_lookup_insert_Some in Hj as [(_ & <- & _)|(_ & Hj)].
    + rewrite Hid. apply Hd; [apply list_elem_of_lookup; eauto|auto].
    + apply Hd; [|done]. apply list_elem_of_lookup. eauto.
Qed.

(** The reservations change only under the id of one order, which is stored
    back in the same step. *)
Lemma om_ok_risk om r r' a i o o' p rest :
  om_ok om r a → orders_ om !! i = Some o → om_id o' = om_id o → wf_order o' →
  wf_risk MaxT MaxP r' → pending_ r ≡ₚ p :: rest → po_client_order_id p = om_id o →
  (pending_ r' ≡ₚ rest ∨ ∃ p', po_client_order_id p' = om_id o ∧ pending_ r' ≡ₚ p' :: rest) →
  (is_live (om_state o') = true → ∃ p, p ∈ pending_ r' ∧ reserved_for o' p) →
  (om_state o' = COMPLETED → pending_ r' ≡ₚ rest) →
  om_ok (set_orders (<[i := o']> (orders_ om)) om) r' a.
Proof.
  intros [Hr Hcap Hs Hc Hnd Hw Hl Hd Hi Hp] Hio Hid Hwo Hwr Hperm Hpid Hcase Hlive Hdone.
  assert (om_id <$> <[i := o']> (orders_ om) = om_id <$> orders_ om) as Hids.
  { rewrite list_fmap_insert. apply list_insert_id. by rewrite list_lookup_fmap, Hio, Hid. }
  assert (∀ x, x ∈ rest → x ∈ pending_ r') as Hrest.
  { intros x Hx. destruct Hcase as [->|(p' & _ & ->)]; set_solver. }
  rewrite Hperm, fmap_cons, Forall_cons, Hpid in Hp. destruct Hp as [Hp1 Hp2].
  split; simpl; rewrite ?Hids; try done.
  - by rewrite length_insert.
  - by apply Forall_insert.
  - intros x (j & Hj)%list_elem_of_lookup Hx.
    apply list_lookup_insert_Some in Hj as [(_ & <- & _)|(Hne & Hj)]; [by apply Hlive|].
    destruct (Hl x) as (px & Hpx & Hres); [apply list_elem_of_lookup; eauto|done|].
    exists px. split; [|done]. apply Hrest. rewrite Hperm in Hpx.
    apply elem_of_cons in Hpx as [->|Hpx]; [|done]. exfalso. apply Hne.
    destruct Hres as (Hpx & _). eapply (NoDup_lookup (om_id <$> orders_ om) _ _ (om_id o)); [done|..];
      rewrite list_lookup_fmap, ?Hio, ?Hj; simpl; congruence.
  - pose proof (wf_pending_nodup _ _ _ Hr) as Hpn. rewrite Hperm, fmap_cons, NoDup_cons, Hpid in Hpn.
    intros x (j & Hj)%list_elem_of_lookup Hx.
    apply list_lookup_insert_Some in Hj as [(_ & <- & _)|(Hne & Hj)].
    + rewrite (Hdone Hx), Hid. by destruct Hpn.
    + assert (x ∈ orders_ om) as Hxin by (apply list_elem_of_lookup; eauto).
      specialize (Hd x Hxin Hx). rewrite Hperm, fmap_cons, Hpid in Hd.
      destruct Hcase as [->|(p' & Hp' & ->)]; rewrite ?fmap_cons, ?Hp'; set_solver.
  - destruct Hcase as [->|(p' & Hp' & ->)]; [done|]. rewrite fmap_cons, Forall_cons, Hp'. done.
Qed.

(** A settled response, with its order stored back. *)
Lemma om_ok_settles om r r' a i o o' rs p pnl pnl' :
  om_ok om r a → orders_ om !! i = Some o → om_id o = rs_client_order_id rs → om_id o' = om_id o → wf_order o' →
  wf_risk MaxT MaxP r' → settles rs p r pnl r' pnl' →
  (is_live (om_state o') = true → released rs p < po_reserved_qty p ∧
     reserved_for o' (with_reserved p (po_reserved_qty p - released rs p))) →
  (om_state o' = COMPLETED → released rs p = po_reserved_qty p) →
  om_ok (set_orders (<[i := o']> (orders_ om)) om) r' a.
Proof.
  intros Hok Hio Hrs Hid Hwo Hwr (_ & Hpid & _ & _ & _ & rest & Hperm & Hperm') Hlive Hdone.
  eapply (om_ok_risk om r r' a i o o' p rest); try done; [congruence|..].
  - case_decide; [by left|]. right. eexists. split; [|done]. simpl. congruence.
  - intros Hl. destruct (Hlive Hl) as [Hlt Hres]. rewrite decide_False in Hperm' by lia.
    eexists. split; [|exact Hres]. rewrite Hperm'. set_solver.
  - intros Hc. by rewrite decide_True in Hperm' by auto.
Qed.

(** The reservation of a live order is the only one under its id. *)
Lemma pending_unique r p q rest :
  wf_risk MaxT MaxP r → pending_ r ≡ₚ p :: rest → q ∈ pending_ r →
  po_client_order_id q = po_client_order_id p → q = p.
Proof.
  intros Hwf Hperm Hq Hid. eapply pending_same_id; [done..| |done]. rewrite Hperm. by left.
Qed.

Lemma onReplaced_spec old_id new_id r p rest :
  wf_risk MaxT MaxP r → pending_ r ≡ₚ p :: rest → po_client_order_id p = old_id → new_id ≠ 0 →
  new_id ∉ (po_client_order_id <$> pending_ r) →
  ∃ r', onReplaced MaxP old_id new_id r = (true, r') ∧ wf_risk MaxT MaxP r' ∧
    pending_ r' ≡ₚ mkPendingOrder new_id (po_ticker_id p) (po_side p) (po_reserved_qty p) :: rest.
Proof.
  intros Hwf Hperm Hid Hnz Hfresh. unfold onReplaced.
  pose proof (wf_pending_cap _ _ _ Hwf) as Hcap.
  apply (findPending_None MaxP r Hcap) in Hfresh as Hfp. rewrite Hfp, bool_decide_false by (by intros []).
  replace (new_id =? 0) with false by lia. simpl orb. cbn iota.
  destruct (findPendingIndex_spec MaxP r Hcap old_id) as [[_ Hn]|(p' & Hi & Hid' & Hne)].
  { exfalso. apply Hn. rewrite Hperm, fmap_cons, Hid. set_solver. }
  rewrite bool_decide_false by done. eexists. split; [done|].
  set (i := findPendingIndex MaxP old_id r) in *.
  assert (p' = p) as -> by (eapply pending_unique; [done|done|apply list_elem_of_lookup; eauto|congruence]).
  set (p1 := mkPendingOrder new_id (po_ticker_id p) (po_side p) (po_reserved_qty p)).
  assert (alter (λ p, mkPendingOrder new_id (po_ticker_id p) (po_side p) (po_reserved_qty p)) i (pending_ r)
          = <[i := p1]> (pending_ r)) as ->.
  { apply list_eq. intros j. rewrite list_lookup_alter, list_lookup_insert.
    apply lookup_lt_Some in Hi as Hlt. case_decide; [|by rewrite decide_False by naive_solver].
    subst j. by rewrite Hi, decide_True. }
  assert (<[i := p1]> (pending_ r) ≡ₚ p1 :: rest) as Hperm'.
  { apply lookup_lt_Some in Hi as Hlt.
    rewrite insert_take_drop, <- Permutation_middle, <- delete_take_drop by done.
    apply Permutation_cons; [done|]. apply (Permutation_cons_inv (a:=p)).
    by rewrite <- Hperm, <- (delete_Permutation _ _ _ Hi). }
  split; [|exact Hperm'].
  destruct Hwf as [H1 H2 H3 H4 H5 H6]. rewrite Hperm, fmap_cons in H5. apply NoDup_cons in H5 as [H5 H5'].
  rewrite Hperm, fmap_cons in Hfresh. rewrite Hperm in H6. apply Forall_cons in H6 as [H6 H6'].
  split; simpl; try done.
  - by rewrite length_insert.
  - rewrite Hperm', fmap_cons. apply NoDup_cons. split; [set_solver|done].
  - rewrite Hperm'. by constructor.
Qed.

(** Moving a live order and its reservation to a fresh id. *)
Lemma om_ok_rekey om r r' a a' i o o' p p' rest new_id :
  om_ok om r a → next (slot_ om) a = (new_id, a') → counter_ a' < 2 ^ 48 →
  orders_ om !! i = Some o → om_id o' = new_id → wf_order o' →
  wf_risk MaxT MaxP r' → pending_ r ≡ₚ p :: rest → pending_ r' ≡ₚ p' :: rest →
  po_client_order_id p = om_id o → po_client_order_id p' = new_id → reserved_for o' p' →
  om_state o' ≠ COMPLETED →
  om_ok (set_orders (<[i := o']> (orders_ om)) om) r' a'.
Proof.
  intros Hok Hnext Hlt Hio Hid Hwo Hwr Hperm Hperm' Hpid Hpid' Hres Hnc.
  pose proof Hok as [Hr Hoc Hs Hc Hnd Hw Hl Hd Hi Hp].
  destruct (next_issued _ _ _ _ Hs Hc Hnext) as (Hc' & Hiss & Hfresh & Hid0).
  assert (new_id ∉ (om_id <$> orders_ om)) as Hnin by (intros Hx; by eapply Forall_forall in Hi).
  apply Forall_issued_mono in Hi, Hp. rewrite <- Hc' in Hi, Hp.
  apply lookup_lt_Some in Hio as Hlt0.
  assert (<[i := o']> (orders_ om) ≡ₚ o' :: delete i (orders_ om)) as Ho.
  { rewrite insert_take_drop, delete_take_drop by done. by rewrite <- Permutation_middle. }
  rewrite (delete_Permutation _ _ _ Hio), fmap_cons in Hnd, Hnin, Hi.
  apply NoDup_cons in Hnd as [Hnd1 Hnd2]. apply Forall_cons in Hi as [_ Hi].
  rewrite Hperm, fmap_cons in Hp. apply Forall_cons in Hp as [_ Hp].
  split; simpl; rewrite ?Ho, ?fmap_cons; try done.
  - simpl. rewrite length_delete by eauto. lia.
  - lia.
  - rewrite Hid. apply NoDup_cons. split; [set_solver|done].
  - constructor; [done|]. by apply Forall_delete.
  - intros x. rewrite Ho. intros [->|Hx]%elem_of_cons Hlive.
    { exists p'. split; [rewrite Hperm'; set_solver|done]. }
    destruct (Hl x) as (px & Hpx & Hrx); [by eapply list_elem_of_delete_inv|done|].
    exists px. split; [|done]. rewrite Hperm'. rewrite Hperm in Hpx.
    apply elem_of_cons in Hpx as [->|Hpx]; [|set_solver]. exfalso. apply Hnd1.
    apply list_elem_of_fmap. exists x. split; [|done]. destruct Hrx as (Hrx & _). congruence.
  - intros x. rewrite Ho. intros [->|Hx]%elem_of_cons Hst; [done|].
    pose proof (Hd x (list_elem_of_delete_inv _ _ _ Hx) Hst) as Hdx. rewrite Hperm, fmap_cons in Hdx.
    rewrite Hperm', fmap_cons, Hpid'. apply not_elem_of_cons. split; [|set_solver].
    intros <-. apply Hnin. apply elem_of_cons. right. apply list_elem_of_fmap. eauto.
  - rewrite Hid. by constructor.
  - rewrite Hperm', fmap_cons, Hpid'. by constructor.
Qed.
End Preserve.

(** ** Responses *)

(** The lifecycle of [order_manager.h]: what one response may do to a state. *)
Inductive lifecycle : OMOrderState → OMOrderState → Prop :=
| lc_same st : lifecycle st st
| lc_accept : lifecycle NOT_ACTIVE ACTIVE
| lc_partial st : is_live st = true → lifecycle st PARTIALLY_FILLED
| lc_complete st : is_live st = true → lifecycle st COMPLETED
| lc_cancel st : is_live st = true → lifecycle st CANCELLED
| lc_dead st : st ≠ COMPLETED → lifecycle st DEAD.

(** What an applied response does to its order. *)
Definition response_effect (rs : OrderResponse) (o o' : OMOrder) : Prop :=
  match rs_status rs with
  | ACCEPTED => is_live (om_state o) = true ∧
      o' = set_state (if bool_decide (om_state o = NOT_ACTIVE) then ACTIVE else om_state o) o
  | EXECUTED => is_live (om_state o) = true ∧ om_request o' = om_request o ∧
      0 < rs_executed_qty rs ∧
      om_filled_qty o' = om_filled_qty o + rs_executed_qty rs ∧ om_filled_qty o' ≤ rq_qty (om_request o) ∧
      om_state o' = (if om_filled_qty o' =? rq_qty (om_request o) then COMPLETED else PARTIALLY_FILLED) ∧
      Z.abs (om_avg_fill_price o' * om_filled_qty o' -
             (om_avg_fill_price o * om_filled_qty o + rs_execution_price rs * rs_executed_qty rs))
        < om_filled_qty o' ∧
      om_is_cancel_requested o' = om_is_cancel_requested o
  | CANCELED => (is_live (om_state o) = true ∨ om_state o = CANCELLED) ∧
      o' = set_state CANCELLED (set_cancel_requested false o)
  | CANCEL_REJECTED => (is_live (om_state o) = true ∨ om_state o = CANCELLED) ∧
      o' = set_cancel_rejected true (set_cancel_requested false o)
  | REJECTED => om_state o ≠ COMPLETED ∧ o' = set_state DEAD o
  end.

Lemma response_effect_lifecycle rs o o' :
  response_effect rs o o' → lifecycle (om_state o) (om_state o').
Proof.
  unfold response_effect. destruct (rs_status rs).
  - intros (Hl & ->). simpl. case_bool_decide as E; [rewrite E|]; constructor.
  - intros (Hl & _ & _ & _ & _ & -> & _). destruct (_ =? _); by constructor.
  - intros ([Hl|Hc] & ->); simpl; [by constructor|rewrite Hc; constructor].
  - intros (Hl & ->). simpl. by constructor.
  - intros (Hl & ->). simpl. constructor.
Qed.

Lemma live_filled o : wf_order o → is_live (om_state o) = true → om_filled_qty o < rq_qty (om_request o).
Proof.
  intros (_ & Hf & _ & _ & Hiff) Hl. destruct (decide (om_filled_qty o = rq_qty (om_request o))) as [E|]; [|lia].
  apply Hiff in E. by rewrite E in Hl.
Qed.

(** The average fill price is the exact weighted average up to truncation. *)
Lemma next_avg_fill_spec o rs :
  wf_order o → is_price (rs_execution_price rs) → 0 < rs_executed_qty rs →
  om_filled_qty o + rs_executed_qty rs ≤ rq_qty (om_request o) →
  ∃ avg, next_avg_fill o (om_filled_qty o + rs_executed_qty rs) rs = Ok avg ∧ is_price avg ∧
    Z.abs (avg * (om_filled_qty o + rs_executed_qty rs) -
           (om_avg_fill_price o * om_filled_qty o + rs_execution_price rs * rs_executed_qty rs))
      < om_filled_qty o + rs_executed_qty rs.
Proof.
  intros (_ & Hf & Hq & Ha & _) Hp Hx Hle. unfold next_avg_fill, is_price in *.
  destruct (_ =? _) eqn:E; bsplit.
  { assert (om_filled_qty o = 0) as -> by lia. eexists. split; [done|]. lia. }
  rewrite Z.add_simpl_r, wrapU_small by lia. rewrite chkS_ok by nia. cbn [mbind outcome_bind].
  pose proof (quot_between (om_avg_fill_price o * om_filled_qty o + rs_execution_price rs * rs_executed_qty rs)
    (om_filled_qty o + rs_executed_qty rs) (- 2 ^ 31) (2 ^ 31 - 1) ltac:(lia) ltac:(nia)) as Hb.
  pose proof (quot_error (om_avg_fill_price o * om_filled_qty o + rs_execution_price rs * rs_executed_qty rs)
    (om_filled_qty o + rs_executed_qty rs) ltac:(lia)) as Herr.
  rewrite divS_ok by lia. cbn [mbind outcome_bind]. eexists. split; [done|].
  rewrite wrapS_small by lia. lia.
Qed.

Lemma no_net_change (side : Side) (t : TickerId) (pnl : PnLTracker) :
  ∀ tid, net_of tid pnl = net_of tid pnl + if (t =? tid) then signed_qty side 0 else 0.
Proof. intros tid. unfold signed_qty. destruct (t =? tid), (is_buy side); lia. Qed.

(** ** Operations *)

Section Operations.
Context {Q : Type → Type} `{SPSCQueueLaws Q} {U : Type}.
Context (MaxT MaxP MaxO : nat) (HMaxP : Z.of_nat MaxP < 2 ^ 30).
Implicit Types c : Ctx Q U.
Abbreviation cok := (ctx_ok MaxT MaxP MaxO).

(** One more id can be issued before the 48-bit counter wraps. *)
Definition spare_id (c : Ctx Q U) : Prop :=
  ∀ a, c_allocator c = Some a → counter_ a + 1 < 2 ^ 48.

(** What the outgoing queue holds. *)
Definition sent (c : Ctx Q U) : list OrderRequest :=
  match c_outgoing c with Some q => q_items q | None => [] end.

Definition with_id (request : OrderRequest) (id : OrderId) : OrderRequest :=
  mkOrderRequest (rq_type request) id 0 (rq_ticker_id request) (rq_side request)
    (rq_price request) (rq_qty request) (rq_ioc request).

Lemma notify_frame o c :
  c_om (notify o c) = c_om c ∧ c_risk (notify o c) = c_risk c ∧ c_pnl (notify o c) = c_pnl c ∧
  c_outgoing (notify o c) = c_outgoing c ∧ c_allocator (notify o c) = c_allocator c ∧
  c_callback (notify o c) = c_callback c.
Proof using Type. unfold notify. by destruct c as [? ? ? ? ? [] ?]. Qed.

Lemma ctx_ok_notify o c : cok c → cok (notify o c).
Proof using Type.
  destruct (notify_frame o c) as (Ho & Hr & Hp & Hq & Ha & _). unfold ctx_ok.
  by rewrite Ho, Hr, Hp, Hq, Ha.
Qed.

Lemma sent_notify o c : sent (notify o c) = sent c.
Proof using Type. unfold sent. by destruct (notify_frame o c) as (_ & _ & _ & -> & _). Qed.

(** The orders after recording a new one in the slot [allocSlot] chose. *)
Definition record_order (o : OMOrder) (om : OrderManager) : OrderManager :=
  set_orders (if bool_decide (allocSlot om = length (orders_ om)) then orders_ om ++ [o]
              else <[allocSlot om := o]> (orders_ om)) om.

Lemma om_ok_record om r a a' id rq :
  om_ok MaxT MaxP MaxO om r a → next (slot_ om) a = (id, a') → counter_ a' < 2 ^ 48 →
  allocSlot om ≠ MaxO → 0 < rq_qty rq < 2 ^ 32 → (length (pending_ r) < MaxP)%nat →
  om_ok MaxT MaxP MaxO (record_order (set_state NOT_ACTIVE (new_OMOrder (with_id rq id))) om)
    (set_pending (pending_ r ++ [mkPendingOrder id (rq_ticker_id rq) (rq_side rq) (rq_qty rq)]) r) a'.
Proof using Type.
  intros Hok Hnext Hlt Hslot Hq Hcap. pose proof Hok as [Hr Hoc Hs Hc Hnd Hw Hl Hd Hi Hp].
  destruct (next_issued _ _ _ _ Hs Hc Hnext) as (Hc' & Hiss & Hfresh & Hid0).
  set (o := set_state NOT_ACTIVE (new_OMOrder (with_id rq id))).
  assert (id ∉ (om_id <$> orders_ om)) as Hnin1 by (intros Hx; by eapply Forall_forall in Hi).
  assert (id ∉ (po_client_order_id <$> pending_ r)) as Hnin2 by (intros Hx; by eapply Forall_forall in Hp).
  apply Forall_issued_mono in Hi, Hp. rewrite <- Hc' in Hi, Hp.
  assert (∃ l, orders_ (record_order o om) ≡ₚ o :: l ∧ l ⊆+ orders_ om ∧
               (length (orders_ (record_order o om)) ≤ MaxO)%nat) as (l & Hperm & Hsub & Hlen).
  { unfold record_order. destruct (allocSlot_spec om) as [[E _]|(o0 & Ho0 & _)].
    - rewrite E, bool_decide_true by done. simpl. exists (orders_ om).
      split_and!; [by rewrite <- Permutation_cons_append|done|].
      rewrite length_app. simpl. lia.
    - apply lookup_lt_Some in Ho0 as Hlt0. rewrite bool_decide_false by lia. simpl.
      exists (delete (allocSlot om) (orders_ om)). split_and!.
      + rewrite insert_take_drop, delete_take_drop by done. by rewrite <- Permutation_middle.
      + apply submseteq_delete.
      + by rewrite length_insert. }
  assert (om_id <$> l ⊆+ om_id <$> orders_ om) as Hsub' by (by apply fmap_submseteq).
  assert (∀ x, x ∈ l → x ∈ orders_ om) as Hin by (intros x Hx; by eapply elem_of_submseteq).
  split; simpl; try done.
  - apply (wf_risk_submit MaxT MaxP (with_id rq id)); done.
  - lia.
  - rewrite Hperm, fmap_cons. apply NoDup_cons. split; [|by eapply submseteq_NoDup_inv].
    intros Hx. apply Hnin1. by eapply elem_of_submseteq.
  - rewrite Hperm. constructor; [|by eapply submseteq_Forall].
    unfold wf_order, is_price, Price_INVALID. simpl. split_and!; try done; try lia. split; [done|lia].
  - intros x. rewrite Hperm. intros [->|Hx]%elem_of_cons Hlive.
    + eexists. split; [apply elem_of_app; right; by apply list_elem_of_singleton|].
      unfold reserved_for. simpl. split_and!; (done || lia).
    + destruct (Hl x) as (p & Hpx & Hres); [auto|done|]. exists p. split; [|done].
      apply elem_of_app. by left.
  - intros x. rewrite Hperm. intros [->|Hx]%elem_of_cons Hst; [done|].
    rewrite fmap_app. simpl. specialize (Hd x (Hin x Hx) Hst).
    intros [?|Heq%list_elem_of_singleton]%elem_of_app; [done|]. apply Hnin1. rewrite <- Heq.
    apply list_elem_of_fmap. eauto.
  - rewrite Hperm, fmap_cons. constructor; [done|]. by eapply submseteq_Forall.
  - rewrite fmap_app. apply Forall_app. split; [done|]. by apply Forall_singleton.
Qed.

(** [sendNewOrder]: total, keeps the invariant, and the queue gains exactly
    the accepted request under its fresh id. *)
Lemma sendNewOrder_spec request pos c :
  cok c → spare_id c → wf_request request → is_s64 (net_qty pos) →
  returns (sendNewOrder MaxP MaxO request pos c) (λ '(b, c'),
    cok c' ∧ c_pnl c' = c_pnl c ∧
    if b : bool then ∃ a id r r', c_allocator c = Some a ∧ id = (next (slot_ (c_om c)) a).1 ∧
      c_risk c = Some r ∧ c_risk c' = Some r' ∧
      admissible MaxP (with_id request id) pos r ∧
      sent c' = sent c ++ [with_id request id] ∧
      pending_ r' = pending_ r ++ [mkPendingOrder id (rq_ticker_id request) (rq_side request) (rq_qty request)] ∧
      ∃ o i, find id (c_om c') = Some (i, o) ∧ om_state o = NOT_ACTIVE
    else sent c' = sent c ∧ c_risk c' = c_risk c ∧ orders_ (c_om c') = orders_ (c_om c)).
Proof using All.
  intros (r & pnl & a & q & Hr & Hp & Ha & Hq & Hpnl & Hok) Hspare Hrq Hpos.
  specialize (Hspare a Ha). unfold sendNewOrder. rewrite Hq, Hr, Ha.
  case_bool_decide as Hfull.
  { simpl. split_and!; try done. exists r, pnl, a, q. done. }
  destruct (next (slot_ (c_om c)) a) as [id a'] eqn:Hnext.
  pose proof (next_issued _ _ _ _ (ok_slot _ _ _ _ _ _ Hok) (ok_counter _ _ _ _ _ _ Hok) Hnext) as (Hc' & _ & _ & _).
  fold (with_id request id).
  assert (wf_request (with_id request id)) as Hrq' by done.
  destruct (canSubmit_spec MaxT MaxP (with_id request id) pos r (ok_risk _ _ _ _ _ _ Hok) HMaxP Hrq' Hpos)
    as (v & -> & Hadm). cbn [mbind outcome_bind].
  assert (om_ok MaxT MaxP MaxO (c_om c) r a') as Hok' by (eapply om_ok_counter; [exact Hok|done|lia]).
  case_bool_decide as Hv; simpl negb; cbn iota.
  2:{ simpl. split_and!; try done. exists r, pnl, a', q. split_and!; try done. by eapply om_ok_counters. }
  destruct (q_push (with_id request id) q) as [[] q'] eqn:Hpush; simpl negb; cbn iota.
  2:{ simpl. split_and!; try done.
      - exists r, pnl, a', q'. done.
      - unfold sent. simpl. rewrite Hq. by eapply q_push_false. }
  apply Hadm in Hv as Hadm'. pose proof Hadm' as (_ & _ & _ & _ & _ & Hq0 & Hfresh & Hlt & _).
  destruct Hrq as [_ Hqr]. unfold is_qty in Hqr. simpl in Hq0.
  rewrite (onSubmitted_spec MaxP (with_id request id) r (wf_pending_cap _ _ _ (ok_risk _ _ _ _ _ _ Hok)) Hfresh Hlt).
  simpl negb. cbn iota.
  pose proof (om_ok_record (c_om c) r a a' id request Hok Hnext ltac:(lia) Hfull ltac:(lia) Hlt) as Hrec.
  set (o := set_state NOT_ACTIVE (new_OMOrder (with_id request id))) in *.
  match goal with |- returns (Ok (true, notify o ?x)) _ => set (c1 := x) end.
  assert (cok c1) as Hc1.
  { eexists _, pnl, a', q'. split_and!; [reflexivity|done|done|done|done|].
    eapply om_ok_counters; [exact Hrec|done|done]. }
  cbn [returns]. split; [by apply ctx_ok_notify|]. destruct (notify_frame o c1) as (Ho & Hr1 & Hp1 & Hq1 & Ha1 & _).
  split; [by rewrite Hp1|].
  exists a, id, r, (set_pending (pending_ r ++ [mkPendingOrder id (rq_ticker_id request) (rq_side request) (rq_qty request)]) r).
  split_and!; [done|by rewrite Hnext|done|by rewrite Hr1|done| |done|].
  - unfold sent. rewrite Hq1. simpl. rewrite Hq. by apply q_push_true.
  - rewrite Ho. destruct Hc1 as (r1 & _ & a1 & _ & _ & _ & _ & _ & _ & Hok1).
    assert (o ∈ orders_ (c_om c1)) as (i & Hi)%list_elem_of_lookup.
    { subst c1. simpl. case_bool_decide; [set_solver|].
      apply list_elem_of_lookup. exists (allocSlot (c_om c)). apply list_lookup_insert_eq.
      destruct (allocSlot_spec (c_om c)) as [[]|(o0 & Ho0%lookup_lt_Some & _)]; [done|done]. }
    exists o, i. split; [|done]. apply list_find_Some. split_and!; [done|done|].
    intros j y Hj Hlt' Hy. enough (i = j) by lia.
    eapply (NoDup_lookup (om_id <$> orders_ (c_om c1)) i j id); [apply Hok1| |]; rewrite list_lookup_fmap.
    + by rewrite Hi.
    + rewrite Hj. simpl. by rewrite Hy.
Qed.

Lemma wf_order_of om r a i o : om_ok MaxT MaxP MaxO om r a → orders_ om !! i = Some o → wf_order o.
Proof using Type. intros Hok Hi. eapply Forall_lookup_1; [apply Hok|done]. Qed.

Lemma unfinished_live o : wf_order o → is_finished (om_state o) = false → is_live (om_state o) = true.
Proof using Type. intros (Hi & _) Hf. rewrite finished_or_live in Hf by done. by bsplit. Qed.

(** [sendCancel]: total, keeps the invariant; true exactly when the cancel
    of a live order without an outstanding cancel was queued. *)
Lemma sendCancel_spec id qty c :
  cok c →
  returns (sendCancel id qty c) (λ '(b, c'),
    cok c' ∧ c_pnl c' = c_pnl c ∧ c_risk c' = c_risk c ∧
    if b : bool then ∃ i o, find id (c_om c) = Some (i, o) ∧ is_live (om_state o) = true ∧
      om_is_cancel_requested o = false ∧
      sent c' = sent c ++ [mkOrderRequest RQ_CANCEL id 0 (rq_ticker_id (om_request o)) (rq_side (om_request o))
                             (rq_price (om_request o)) qty (rq_ioc (om_request o))] ∧
      find id (c_om c') = Some (i, set_cancel_requested true o)
    else sent c' = sent c ∧ orders_ (c_om c') = orders_ (c_om c)).
Proof using All.
  intros Hc. pose proof Hc as (r & pnl & a & q & Hr & Hp & Ha & Hq & Hpnl & Hok). unfold sendCancel.
  destruct (find id (c_om c)) as [[i o]|] eqn:Hf; [|done].
  apply find_Some in Hf as Hf'. destruct Hf' as [Hi Hid].
  pose proof (wf_order_of _ _ _ _ _ Hok Hi) as Hwo.
  destruct (is_finished (om_state o)) eqn:Efin; [done|].
  destruct (om_is_cancel_requested o) eqn:Ecr; [done|]. simpl orb. cbn iota. rewrite Hq.
  destruct (q_push _ q) as [[] q'] eqn:Hpush; simpl negb; cbn iota.
  2:{ simpl. split_and!; try done.
      - exists r, pnl, a, q'. done.
      - unfold sent. simpl. rewrite Hq. by eapply q_push_false. }
  pose proof (unfinished_live o Hwo Efin) as Hlive. cbn [returns]. split_and!; [|done|done|].
  - exists r, pnl, a, q'. split_and!; try done. simpl.
    apply (om_ok_put MaxT MaxP MaxO (inc_cancels (c_om c)) r a i o); try done.
    + by eapply om_ok_counters.
    + intros _. destruct (ok_live _ _ _ _ _ _ Hok o) as (p & Hp' & Hres); [|done|by exists p].
      apply list_elem_of_lookup. eauto.
  - exists i, o. split_and!; try done.
    + unfold sent. simpl. rewrite Hq. by eapply q_push_true.
    + simpl. subst id. by apply (find_put (inc_cancels (c_om c))).
Qed.

(** [sendReplace] with the quantity kept: total, keeps the invariant, and on
    success the order and its reservation live on under the fresh id. *)
Lemma sendReplace_spec id price qty c :
  cok c → spare_id c → (∀ i o, find id (c_om c) = Some (i, o) → qty = rq_qty (om_request o)) →
  returns (sendReplace MaxP id price qty c) (λ '(b, c'),
    cok c' ∧ c_pnl c' = c_pnl c ∧
    if b : bool then ∃ i o a, find id (c_om c) = Some (i, o) ∧ is_live (om_state o) = true ∧
      c_allocator c = Some a ∧
      sent c' = sent c ++ [mkOrderRequest RQ_REPLACE id (next (slot_ (c_om c)) a).1 (rq_ticker_id (om_request o))
                             (rq_side (om_request o)) price qty (rq_ioc (om_request o))]
    else sent c' = sent c ∧ c_risk c' = c_risk c ∧ orders_ (c_om c') = orders_ (c_om c)).
Proof using All.
  intros Hc Hspare Hqty. pose proof Hc as (r & pnl & a & q & Hr & Hp & Ha & Hq & Hpnl & Hok).
  specialize (Hspare a Ha). unfold sendReplace.
  destruct (find id (c_om c)) as [[i o]|] eqn:Hf; [|done].
  apply find_Some in Hf as Hf'. destruct Hf' as [Hi Hid]. specialize (Hqty _ _ eq_refl).
  pose proof (wf_order_of _ _ _ _ _ Hok Hi) as Hwo.
  destruct (is_finished (om_state o)) eqn:Efin; [done|].
  destruct (om_is_cancel_requested o) eqn:Ecr; [done|]. simpl orb. cbn iota. rewrite Hq, Ha.
  pose proof (unfinished_live o Hwo Efin) as Hlive.
  destruct (next (slot_ (c_om c)) a) as [new_id a'] eqn:Hnext.
  pose proof (next_issued _ _ _ _ (ok_slot _ _ _ _ _ _ Hok) (ok_counter _ _ _ _ _ _ Hok) Hnext)
    as (Hc' & _ & Hfresh & Hid0).
  assert (om_ok MaxT MaxP MaxO (c_om c) r a') as Hok' by (eapply om_ok_counter; [exact Hok|done|lia]).
  destruct (q_push _ q) as [[] q'] eqn:Hpush; simpl negb; cbn iota.
  2:{ simpl. split_and!; try done.
      - exists r, pnl, a', q'. done.
      - unfold sent. simpl. rewrite Hq. by eapply q_push_false. }
  simpl c_risk. rewrite Hr.
  destruct (ok_live _ _ _ _ _ _ Hok o) as (p & Hpin & Hres); [apply list_elem_of_lookup; eauto|done|].
  apply elem_of_Permutation in Hpin as [rest Hperm].
  assert (new_id ∉ (po_client_order_id <$> pending_ r)) as Hnin.
  { intros Hx. pose proof (ok_pending_issued _ _ _ _ _ _ Hok) as Hpi. by eapply Forall_forall in Hpi. }
  destruct (onReplaced_spec MaxT MaxP id new_id r p rest (ok_risk _ _ _ _ _ _ Hok) Hperm) as (r' & -> & Hwr & Hperm').
  { destruct Hres as (-> & _). done. }
  { lia. }
  { done. }
  simpl negb. cbn iota. cbn [returns]. split_and!; [|done|].
  - exists r', pnl, a', q'. split_and!; try done. simpl.
    eapply (om_ok_rekey MaxT MaxP MaxO (inc_replaces (c_om c)) r r' a a' i o); try done.
    + by eapply om_ok_counters.
    + lia.
    + destruct Hwo as (? & ? & ? & ? & ?). unfold wf_order. simpl. by subst qty.
    + by destruct Hres as (-> & _).
    + destruct Hres as (_ & Ht & Hs & Hres). unfold reserved_for. simpl. by subst qty.
    + simpl. intros Hcomp. by rewrite Hcomp in Hlive.
  - exists i, o, a. split_and!; try done.
    rewrite Hnext. unfold sent. rewrite Hq. simpl. by eapply q_push_true.
Qed.

(** [risk_response] settles the reservation under the order's id. *)
Lemma risk_response_spec rs c r pnl a q :
  c_risk c = Some r → c_pnl c = Some pnl → c_allocator c = Some a → c_outgoing c = Some q →
  wf_risk MaxT MaxP r → wf_tracker pnl → roomy pnl → wf_response rs →
  returns (risk_response MaxP rs r c) (λ '(b, c'),
    ∃ r' pnl', c' = set_pnl pnl' (set_risk r' c) ∧ wf_risk MaxT MaxP r' ∧ wf_tracker pnl' ∧
      if b : bool then ∃ p, settles rs p r pnl r' pnl' else r' = r ∧ pnl' = pnl).
Proof using Type.
  intros Hr Hp Ha Hq Hwf Hpnl Hroom Hrs. unfold risk_response. rewrite Hp. apply returns_bind.
  eapply returns_mono; [by apply (onOrderResponse_settles MaxT MaxP)|].
  intros [[b r'] pnl'] (? & ? & _ & _ & Hb). simpl. exists r', pnl'. done.
Qed.

(** The whole of [onOrderResponse]: total, keeps the invariant, and either
    applies the response to its order, or leaves the context as it was, or
    (a fill the tracker refuses) marks the order dead. *)
Definition response_post (rs : OrderResponse) (c : Ctx Q U) (b : bool) (c' : Ctx Q U) : Prop :=
  cok c' ∧ sent c' = sent c ∧ c_allocator c' = c_allocator c ∧
  if b then ∃ i o o' pnl pnl', find (rs_client_order_id rs) (c_om c) = Some (i, o) ∧
    orders_ (c_om c') = <[i := o']> (orders_ (c_om c)) ∧ om_id o' = om_id o ∧ response_effect rs o o' ∧
    c_pnl c = Some pnl ∧ c_pnl c' = Some pnl' ∧
    ∀ tid, net_of tid pnl' = net_of tid pnl +
      if (rq_ticker_id (om_request o) =? tid) then signed_qty (rq_side (om_request o)) (executed_part rs) else 0
  else c_risk c' = c_risk c ∧ c_pnl c' = c_pnl c ∧
    (orders_ (c_om c') = orders_ (c_om c) ∨
     ∃ i o, rs_status rs = EXECUTED ∧ find (rs_client_order_id rs) (c_om c) = Some (i, o) ∧
       is_live (om_state o) = true ∧ orders_ (c_om c') = <[i := set_state DEAD o]> (orders_ (c_om c))).

(** Storing an order and notifying, from a context whose manager differs
    from the original only in counters. *)
Lemma store_notify_post rs c c1 i o o' r' pnl pnl' :
  c_pnl c = Some pnl → find (rs_client_order_id rs) (c_om c) = Some (i, o) →
  om_id o' = om_id o → response_effect rs o o' →
  orders_ (c_om c1) = orders_ (c_om c) →
  c_risk c1 = Some r' → c_pnl c1 = Some pnl' → c_outgoing c1 = c_outgoing c → c_allocator c1 = c_allocator c →
  wf_tracker pnl' → is_Some (c_outgoing c) →
  (∃ a, c_allocator c = Some a ∧
    om_ok MaxT MaxP MaxO (set_orders (<[i := o']> (orders_ (c_om c1))) (c_om c1)) r' a) →
  (∀ tid, net_of tid pnl' = net_of tid pnl +
      if (rq_ticker_id (om_request o) =? tid) then signed_qty (rq_side (om_request o)) (executed_part rs) else 0) →
  response_post rs c true (notify o' (put_order i o' c1)).
Proof using Type.
  intros Hp Hf Hid Heff Hord Hr1 Hp1 Hq1 Ha1 Hwt [q Hq] (a & Ha & Hok) Hnet. unfold response_post.
  destruct (notify_frame o' (put_order i o' c1)) as (Ho & Hr & Hpn & Hqn & Han & _).
  split_and!.
  - apply ctx_ok_notify. exists r', pnl', a, q. simpl. split_and!; try done; congruence.
  - unfold sent. rewrite Hqn. simpl. by rewrite Hq1.
  - rewrite Han. done.
  - exists i, o, o', pnl, pnl'. split_and!; try done.
    + rewrite Ho. simpl. by rewrite Hord.
    + by rewrite Hpn.
Qed.

Lemma response_post_false rs c : cok c → response_post rs c false c.
Proof using Type. intros Hc. unfold response_post. split_and!; try done. by left. Qed.

(** The risk manager's answer inside [onOrderResponse], in its two cases. *)
Lemma risk_response_cases rs c r pnl a q K :
  cok c → c_risk c = Some r → c_pnl c = Some pnl → c_allocator c = Some a → c_outgoing c = Some q →
  wf_tracker pnl → om_ok MaxT MaxP MaxO (c_om c) r a → roomy pnl → wf_response rs →
  returns (K (false, c)) (λ '(b, c'), response_post rs c b c') →
  (∀ r' pnl' p, wf_risk MaxT MaxP r' → wf_tracker pnl' → settles rs p r pnl r' pnl' →
     returns (K (true, set_pnl pnl' (set_risk r' c))) (λ '(b, c'), response_post rs c b c')) →
  returns (risk_response MaxP rs r c ≫= K) (λ '(b, c'), response_post rs c b c').
Proof using Type.
  intros Hc Hr Hp Ha Hq Hpnl Hok Hroom Hrs Hfalse Htrue. apply returns_bind.
  eapply returns_mono; [by apply (risk_response_spec rs c r pnl a q Hr Hp Ha Hq (ok_risk _ _ _ _ _ _ Hok))|].
  intros [[] c'] (r' & pnl' & -> & Hwr & Hwt & Hb).
  - destruct Hb as [p Hp']. eauto.
  - destruct Hb as [-> ->]. replace (set_pnl pnl (set_risk r c)) with c; [done|].
    destruct c; simpl in *. by subst.
Qed.

Section Response.
Context (rs : OrderResponse) (c : Ctx Q U) (pnl : PnLTracker).
Context (Hc : cok c) (Hp : c_pnl c = Some pnl) (Hroom : roomy pnl) (Hrs : wf_response rs).
Abbreviation goal := (returns (onOrderResponse MaxP rs c) (λ '(b, c'), response_post rs c b c')).

Lemma found_order i o : find (rs_client_order_id rs) (c_om c) = Some (i, o) →
  orders_ (c_om c) !! i = Some o ∧ om_id o = rs_client_order_id rs ∧ wf_order o ∧
  (is_finished (om_state o) = false → is_live (om_state o) = true) ∧
  ∃ r a q, c_risk c = Some r ∧ c_allocator c = Some a ∧ c_outgoing c = Some q ∧
    om_ok MaxT MaxP MaxO (c_om c) r a ∧ wf_tracker pnl ∧
    (is_live (om_state o) = true → ∀ r' p pnl', settles rs p r pnl r' pnl' → reserved_for o p).
Proof using All.
  pose proof Hc as (r & pnl1 & a & q & Hr & Hp1 & Ha & Hq & Hpnl & Hok).
  rewrite Hp in Hp1. injection Hp1 as <-. intros [Hi Hid]%find_Some.
  pose proof (wf_order_of _ _ _ _ _ Hok Hi) as Hwo.
  split_and!; [done..|by apply unfinished_live|]. exists r, a, q. split_and!; try done.
  intros Hlive r' p pnl' (Hin & Hpid & _ & _ & _ & rest & Hperm & _).
  destruct (ok_live _ _ _ _ _ _ Hok o) as (p' & Hp' & Hres); [apply list_elem_of_lookup; eauto|done|].
  destruct Hres as (Hid' & Hres). rewrite <- (pending_unique MaxT MaxP r p p' rest); try done.
  - apply Hok.
  - congruence.
Qed.

Lemma put_order_id i o : orders_ (c_om c) !! i = Some o → put_order i o c = c.
Proof using All.
  intros Hi. destruct c as [om]. unfold put_order, on_om, set_orders. simpl in *.
  rewrite (list_insert_id _ _ _ Hi). by destruct om.
Qed.

(** A response that changes no reservation, on an unfinished order. *)
Lemma keep_reservation i o o' :
  find (rs_client_order_id rs) (c_om c) = Some (i, o) → om_request o' = om_request o →
  om_filled_qty o' = om_filled_qty o → om_avg_fill_price o' = om_avg_fill_price o →
  om_state o ≠ COMPLETED → om_state o' ≠ COMPLETED → om_state o' ≠ INVALID →
  (is_live (om_state o') = true → is_live (om_state o) = true) →
  executed_part rs = 0 → response_effect rs o o' →
  response_post rs c true (notify o' (put_order i o' c)).
Proof using All.
  intros Hf Hrq Hfill Havg Hnc Hnc' Hni Hlive Hex Heff.
  destruct (found_order i o Hf) as (Hi & Hid & Hwo & _ & r & a & q & Hr & Ha & Hq & Hok & Hpnl & _).
  eapply store_notify_post; try done.
  - unfold om_id. by rewrite Hrq.
  - exists a. split; [done|]. eapply om_ok_put; try done.
    + unfold om_id. by rewrite Hrq.
    + destruct Hwo as (_ & ? & ? & ? & ?). unfold wf_order. rewrite Hrq, Hfill, Havg. naive_solver.
    + intros Hl. destruct (ok_live _ _ _ _ _ _ Hok o) as (p & Hpi & Hres); [apply list_elem_of_lookup; eauto|auto|].
      exists p. split; [done|]. unfold reserved_for, om_id in *. by rewrite Hrq, Hfill.
  - rewrite Hex. apply no_net_change.
Qed.

Lemma response_accepted : rs_status rs = ACCEPTED → goal.
Proof using All.
  intros Est. unfold onOrderResponse.
  destruct (find _ (c_om c)) as [[i o]|] eqn:Hf; [|by apply response_post_false].
  destruct (found_order i o Hf) as (Hi & _). rewrite Est.
  assert (executed_part rs = 0) as Hex by (unfold executed_part; by rewrite Est).
  case_bool_decide as Hna.
  { apply (keep_reservation i o); try done; try (by rewrite Hna).
    unfold response_effect. by rewrite Est, Hna. }
  destruct (_ && _) eqn:Hst; [by apply response_post_false|].
  assert (is_live (om_state o) = true) as Hlive.
  { apply is_live_spec. apply andb_false_iff in Hst as [|]; bsplit; auto. }
  rewrite <- (put_order_id i o Hi) at 1. apply (keep_reservation i o); try done.
  - intros E. by rewrite E in Hlive.
  - intros E. by rewrite E in Hlive.
  - intros E. by rewrite E in Hlive.
  - unfold response_effect. rewrite Est, bool_decide_false by done. split; [done|]. by destruct o.
Qed.

Lemma response_cancel_rejected : rs_status rs = CANCEL_REJECTED → goal.
Proof using All.
  intros Est. unfold onOrderResponse.
  destruct (find _ (c_om c)) as [[i o]|] eqn:Hf; [|by apply response_post_false].
  destruct (found_order i o Hf) as (Hi & _ & Hwo & _). rewrite Est.
  destruct (_ || _) eqn:Hst; [by apply response_post_false|]. bsplit.
  assert (executed_part rs = 0) as Hex by (unfold executed_part; by rewrite Est).
  apply (keep_reservation i o); try done; [apply Hwo|]. unfold response_effect. rewrite Est. split; [|done].
  destruct Hwo as (Hni & _). by destruct (om_state o); auto.
Qed.

(** A response the risk manager settles, with the order stored back and
    [f] applied to the counters. *)
Lemma settle_reservation i o o' f r' pnl' p r :
  find (rs_client_order_id rs) (c_om c) = Some (i, o) → c_risk c = Some r →
  wf_risk MaxT MaxP r' → wf_tracker pnl' → settles rs p r pnl r' pnl' →
  om_id o' = om_id o → wf_order o' →
  (∀ om, orders_ (f om) = orders_ om ∧ slot_ (f om) = slot_ om) →
  (is_live (om_state o') = true → released rs p < po_reserved_qty p ∧
     reserved_for o' (with_reserved p (po_reserved_qty p - released rs p))) →
  (om_state o' = COMPLETED → released rs p = po_reserved_qty p) →
  executed_part rs = 0 ∨ reserved_for o p → response_effect rs o o' →
  response_post rs c true (notify o' (put_order i o' (on_om f (set_pnl pnl' (set_risk r' c))))).
Proof using All.
  intros Hf Hr0 Hwr Hwt Hset Hido Hwo' Hfo Hlive Hdone Hex Heff.
  destruct (found_order i o Hf) as (Hi & Hid & Hwo & _ & r1 & a & q & Hr & Ha & Hq & Hok & Hpnl & _).
  rewrite Hr0 in Hr. injection Hr as <-. destruct (Hfo (c_om c)) as [Hford Hfslot].
  eapply store_notify_post; try done.
  - exists a. split; [done|]. simpl.
    eapply (om_ok_settles MaxT MaxP MaxO (f (c_om c)) r r' a i o o' rs p pnl pnl'); try done.
    + by eapply om_ok_counters.
    + by rewrite Hford.
  - intros tid. destruct Hset as (_ & _ & _ & _ & Hnet & _). destruct (Hnet tid) as (_ & _ & _ & ->).
    destruct Hex as [->|(_ & Ht & Hs & _)].
    + destruct (exposure_of_zero tid p) as (-> & _). rewrite Z.add_0_r. apply no_net_change.
    + unfold exposure_of. simpl. by rewrite Ht, Hs.
Qed.

Lemma response_dead i o :
  rs_status rs = EXECUTED → find (rs_client_order_id rs) (c_om c) = Some (i, o) → is_live (om_state o) = true →
  response_post rs c false (notify (set_state DEAD o) (put_order i (set_state DEAD o) c)).
Proof using All.
  intros Est Hf Hlive.
  destruct (found_order i o Hf) as (Hi & Hid & Hwo & _ & r & a & q & Hr & Ha & Hq & Hok & Hpnl & _).
  destruct (notify_frame (set_state DEAD o) (put_order i (set_state DEAD o) c)) as (Ho & Hr1 & Hp1 & Hq1 & Ha1 & _).
  unfold response_post. split_and!.
  - apply ctx_ok_notify. exists r, pnl, a, q. simpl. split_and!; try done. eapply om_ok_put; try done.
    pose proof (live_filled o Hwo Hlive). destruct Hwo as (_ & ? & ? & ? & _).
    unfold wf_order. simpl. split_and!; try done; try lia. split; [done|lia].
  - unfold sent. by rewrite Hq1.
  - by rewrite Ha1.
  - by rewrite Hr1.
  - by rewrite Hp1.
  - right. exists i, o. split_and!; try done. by rewrite Ho.
Qed.

Lemma response_canceled : rs_status rs = CANCELED → goal.
Proof using All.
  intros Est. unfold onOrderResponse.
  destruct (find _ (c_om c)) as [[i o]|] eqn:Hf; [|by apply response_post_false].
  destruct (found_order i o Hf) as (Hi & Hid & Hwo & Hun & r & a & q & Hr & Ha & Hq & Hok & Hpnl & Hres).
  rewrite Est. destruct (_ || _) eqn:Hst; [by apply response_post_false|]. bsplit.
  assert (executed_part rs = 0) as Hex by (unfold executed_part; by rewrite Est).
  assert (om_filled_qty o ≠ rq_qty (om_request o)) as Hne by (destruct Hwo as (_ & _ & _ & _ & Hiff); tauto).
  rewrite (proj2 (Z.eqb_neq _ _) Hne).
  set (o' := set_state CANCELLED (set_cancel_requested false o)).
  assert (response_effect rs o o') as Heff.
  { unfold response_effect. rewrite Est. split; [|done]. destruct Hwo as (Hni & _). by destruct (om_state o); auto. }
  destruct (rs_canceled_qty rs =? 0) eqn:Ez.
  { apply (keep_reservation i o); done. }
  rewrite Hr. apply (risk_response_cases rs c r pnl a q); try done; [by apply response_post_false|].
  intros r' pnl' p Hwr Hwt Hset. cbn [negb returns].
  replace (set_pnl pnl' (set_risk r' c)) with (on_om id (set_pnl pnl' (set_risk r' c))) by (by destruct c).
  eapply settle_reservation; try done; [|by left].
  destruct Hwo as (Hni & ? & ? & ? & ?). unfold wf_order. simpl. split_and!; try done; lia.
Qed.

Lemma response_rejected : rs_status rs = REJECTED → goal.
Proof using All.
  intros Est. unfold onOrderResponse.
  destruct (find _ (c_om c)) as [[i o]|] eqn:Hf; [|by apply response_post_false].
  destruct (found_order i o Hf) as (Hi & Hid & Hwo & Hun & r & a & q & Hr & Ha & Hq & Hok & Hpnl & Hres).
  rewrite Est, Hr. apply (risk_response_cases rs c r pnl a q); try done; [by apply response_post_false|].
  intros r' pnl' p Hwr Hwt Hset. cbn [negb returns].
  assert (om_state o ≠ COMPLETED) as Hnc.
  { intros Hc'. destruct Hset as (Hin & Hpid & _).
    apply (ok_done _ _ _ _ _ _ Hok o); [apply list_elem_of_lookup; eauto|done|].
    apply list_elem_of_fmap. exists p. split; [congruence|done]. }
  eapply settle_reservation; try done.
  - destruct Hwo as (Hni & ? & ? & ? & ?). unfold wf_order. simpl. split_and!; try done; try lia. split; [done|tauto].
  - left. unfold executed_part. by rewrite Est.
  - unfold response_effect. by rewrite Est.
Qed.

Lemma response_executed : rs_status rs = EXECUTED → goal.
Proof using All.
  intros Est. unfold onOrderResponse.
  destruct (find _ (c_om c)) as [[i o]|] eqn:Hf; [|by apply response_post_false].
  destruct (found_order i o Hf) as (Hi & Hid & Hwo & Hun & r & a & q & Hr & Ha & Hq & Hok & Hpnl & Hres).
  rewrite Est. destruct (_ || _) eqn:Hst; [by apply response_post_false|]. bsplit.
  pose proof Hrs as (Hxp & Hxq & _). pose proof Hwo as (Hni & Hfill & Hqty & Havg & Hiff). unfold is_qty in Hxq.
  rewrite (wrapU_small 64) by lia. destruct (_ <? _) eqn:Hover; [by apply response_post_false|]. bsplit.
  rewrite Hr, Hp. apply (risk_response_cases rs c r pnl a q); try done.
  { cbn [negb returns]. apply response_dead; auto. }
  intros r' pnl' p Hwr Hwt Hset. cbn [negb]. rewrite (wrapU_small 32) by lia.
  destruct (next_avg_fill_spec o rs) as (avg & Hna & Hap & Herr); [done|done|lia|lia|].
  rewrite Hna. cbn [mbind outcome_bind returns]. pose proof (Hres (Hun ltac:(done)) _ _ _ Hset) as (Hp1 & Hp2 & Hp3 & Hp4).
  assert (released rs p = rs_executed_qty rs) as Hrel by (unfold released; by rewrite Est).
  eapply settle_reservation; try done.
  - unfold wf_order. simpl. split_and!; try done; try lia; destruct (_ =? _) eqn:E; bsplit; try done; lia.
  - simpl. rewrite Hrel. destruct (_ =? _) eqn:E; [done|]. bsplit. intros _. split; [lia|].
    unfold reserved_for, om_id. simpl. split_and!; try done. lia.
  - simpl. rewrite Hrel. destruct (_ =? _) eqn:E; [|done]. bsplit. lia.
  - right. by repeat split.
  - unfold response_effect. rewrite Est. simpl. split_and!; try done; try lia. by apply Hun.
Qed.
End Response.

Lemma onOrderResponse_spec rs c pnl :
  cok c → c_pnl c = Some pnl → roomy pnl → wf_response rs →
  returns (onOrderResponse MaxP rs c) (λ '(b, c'), response_post rs c b c').
Proof using All.
  intros Hc Hp Hroom Hrs. destruct (rs_status rs) eqn:Est.
  - by eapply response_accepted.
  - by eapply response_executed.
  - by eapply response_canceled.
  - by eapply response_rejected.
  - by eapply response_cancel_rejected.
Qed.
End Operations.
