(* ===== verification/OrderLifecycle.v ===== *)
(** * Properties of the order manager

    The public operations of [OrderManager] as steps, with the invariant of
    [OrderManagerInv] over every reachable context, the contract of each
    operation, and a concrete run in which the position passes its limit. *)

From S2P Require Import Prelude Types OrderIdAllocator PnLTracker RiskManager QuantLink OrderManager OrderManagerInv.

(** A call of the public interface. *)
Inductive om_call : Type :=
| CallNew (request : OrderRequest) (position : Position)
| CallCancel (client_order_id : OrderId) (qty : Quantity)
| CallReplace (client_order_id : OrderId) (price : Price) (qty : Quantity)
| CallResponse (response : OrderResponse).

Definition run_call {Q} `{SPSCQueue Q} {U} (MaxP MaxO : nat) (call : om_call) (c : Ctx Q U)
    : outcome (bool * Ctx Q U) :=
  match call with
  | CallNew rq pos => sendNewOrder MaxP MaxO rq pos c
  | CallCancel id q => sendCancel id q c
  | CallReplace id p q => sendReplace MaxP id p q c
  | CallResponse rs => OrderManager.onOrderResponse MaxP rs c
  end.

(** What the caller supplies: values in the range of their C++ types, ids left
    in the 48-bit sequence, positions short of the [int64_t] limits, and a
    replace that keeps the quantity. *)
Definition admissible_call {Q U} (call : om_call) (c : Ctx Q U) : Prop :=
  match call with
  | CallNew rq pos => wf_request rq ∧ is_s64 (net_qty pos) ∧ spare_id c
  | CallCancel _ q => is_qty q
  | CallReplace id p q => spare_id c ∧ ∀ i o, find id (c_om c) = Some (i, o) → q = rq_qty (om_request o)
  | CallResponse rs => wf_response rs ∧ ∀ pnl, c_pnl c = Some pnl → roomy pnl
  end.

Definition om_step {Q} `{SPSCQueue Q} {U} (MaxP MaxO : nat) (c c' : Ctx Q U) : Prop :=
  ∃ call b, admissible_call call c ∧ run_call MaxP MaxO call c = Ok (b, c').

Section Steps.
Context {Q : Type → Type} `{SPSCQueueLaws Q} {U : Type}.
Context (MaxT MaxP MaxO : nat) (HMaxP : Z.of_nat MaxP < 2 ^ 30).
Implicit Types c : Ctx Q U.

Lemma run_call_ok call c :
  ctx_ok MaxT MaxP MaxO c → admissible_call call c →
  returns (run_call MaxP MaxO call c) (λ '(_, c'), ctx_ok MaxT MaxP MaxO c').
Proof using All.
  intros Hc Hadm. destruct call as [rq pos|id q|id p q|rs]; simpl in *.
  - destruct Hadm as (Hrq & Hpos & Hsp). eapply returns_mono; [by eapply sendNewOrder_spec|].
    by intros [b c'] [? _].
  - eapply returns_mono; [by eapply sendCancel_spec|]. by intros [b c'] [? _].
  - destruct Hadm as (Hsp & Hq). eapply returns_mono; [by eapply sendReplace_spec|].
    by intros [b c'] [? _].
  - destruct Hadm as (Hrs & Hroom). pose proof Hc as (r & pnl & a & q & _ & Hp & _).
    eapply returns_mono; [by eapply onOrderResponse_spec; eauto|]. by intros [b c'] [? _].
Qed.

Lemma reachable_ok c0 c :
  ctx_ok MaxT MaxP MaxO c0 → rtc (om_step MaxP MaxO) c0 c → ctx_ok MaxT MaxP MaxO c.
Proof using All.
  intros H0' Hr. induction Hr as [|c1 c2 c3 (call & b & Hadm & Hrun) _ IH]; [done|]. apply IH.
  pose proof (run_call_ok call c1 H0' Hadm) as Hok. by rewrite Hrun in Hok.
Qed.
End Steps.

(** A manager as [TradeEngine::assignStrategy] sets it up. *)
Lemma initialize_ok {Q : Type → Type} {U : Type} MaxT MaxP MaxO risk pnl (q : Q OrderRequest) n slot cb (u : U) :
  wf_risk MaxT MaxP risk → pending_ risk = [] → wf_tracker pnl → 0 ≤ slot < 2 ^ 16 →
  ctx_ok MaxT MaxP MaxO
    (initialize (Some risk) (Some pnl) (Some q) (Some (OrderIdAllocator_new n)) slot cb u OrderManager_new).
Proof.
  intros Hr Hp Hpnl Hs. exists risk, pnl, (OrderIdAllocator_new n), q. split_and!; try done.
  split; simpl; rewrite ?Hp; try done; try lia; try constructor.
  - intros o []%elem_of_nil.
  - intros o []%elem_of_nil.
Qed.

(** ** A concrete manager *)

Definition ex_pnl : PnLTracker := (PnLTracker.registerTicker 16 1 PnLTracker_new).2.
Definition ex_ctx : Ctx BQueue (list OMOrder) :=
  initialize (Some example_risk) (Some ex_pnl) (Some (mkBQueue 8 [])) (Some (OrderIdAllocator_new 2)) 1
    (Some (λ o l, l ++ [o])) [] OrderManager_new.
Definition ex_buy (q : Quantity) : OrderRequest := mkOrderRequest RQ_NEW 0 0 1 BUY 1000 q false.
Definition ex_sell (q : Quantity) : OrderRequest := mkOrderRequest RQ_NEW 0 0 1 SELL 1000 q false.
(** The id [next] gives to slot 1 when the counter is [k]. *)
Definition ex_id (k : Z) : OrderId := 2 ^ 48 + k.
Definition ex_response (id : OrderId) (st : ResponseStatus) (xq cq : Quantity) : OrderResponse :=
  mkOrderResponse id 0 BUY 0 0 xq 1000 cq st.

Lemma ex_pnl_wf : wf_tracker ex_pnl.
Proof.
  split; simpl.
  - apply NoDup_singleton.
  - constructor; [apply wf_default|constructor].
Qed.

Lemma ex_ctx_ok : ctx_ok 16 64 256 ex_ctx.
Proof. apply initialize_ok; [apply example_risk_wf|done|apply ex_pnl_wf|lia]. Qed.

Lemma ex_pnl_roomy : roomy ex_pnl.
Proof.
  intros tid p Hg. unfold get, ex_pnl in Hg. simpl in Hg. case_decide; simplify_eq/=. lia.
Qed.

(** Run a list of calls, collecting their results. *)
Fixpoint run_calls {Q} `{SPSCQueue Q} {U} (MaxP MaxO : nat) (calls : list om_call) (c : Ctx Q U)
    : outcome (list bool * Ctx Q U) :=
  match calls with
  | [] => Ok ([], c)
  | call :: calls' =>
      '(b, c1) ← run_call MaxP MaxO call c;
      '(bs, c2) ← run_calls MaxP MaxO calls' c1;
      Ok (b :: bs, c2)
  end.

(** [ex_ctx] with a working order of 10 on the book. *)
Definition ex_working : Ctx BQueue (list OMOrder) :=
  match run_calls 64 256 [CallNew (ex_buy 10) default_Position; CallResponse (ex_response (ex_id 1) ACCEPTED 0 0)] ex_ctx with
  | Ok (_, c) => c
  | _ => ex_ctx
  end.

Lemma ex_response_wf id st xq cq : is_qty xq → is_qty cq → wf_response (ex_response id st xq cq).
Proof. intros. split_and!; [split; simpl; lia|done|done]. Qed.

Lemma ex_buy_wf q : is_qty q → wf_request (ex_buy q).
Proof. intros. split; [split; simpl; lia|done]. Qed.

Lemma ex_working_reachable : rtc (om_step 64 256) ex_ctx ex_working.
Proof.
  eapply rtc_l; [|eapply rtc_once].
  - exists (CallNew (ex_buy 10) default_Position), true. split; [|vm_compute; reflexivity].
    split_and!; [by apply ex_buy_wf|split; simpl; lia|]. intros a [= <-]. simpl. lia.
  - exists (CallResponse (ex_response (ex_id 1) ACCEPTED 0 0)), true. split; [|vm_compute; reflexivity].
    split; [by apply ex_response_wf|]. intros pnl [= <-]. apply ex_pnl_roomy.
Qed.

Lemma ex_working_ok : ctx_ok 16 64 256 ex_working.
Proof. eapply reachable_ok; [done|apply ex_ctx_ok|apply ex_working_reachable]. Qed.

(** The reservations under an id. *)
Definition reservations_of (id : OrderId) (r : RiskManager) : list PendingOrder :=
  filter (λ p, po_client_order_id p = id) (pending_ r).

Lemma reservations_none id r : id ∉ (po_client_order_id <$> pending_ r) → reservations_of id r = [].
Proof.
  intros Hn. unfold reservations_of. induction (pending_ r) as [|p l IH]; [done|]. rewrite fmap_cons in Hn.
  apply not_elem_of_cons in Hn as [Hne Hn]. rewrite filter_cons_False by congruence. by apply IH.
Qed.

Lemma reservations_unique MaxT MaxP r p id :
  wf_risk MaxT MaxP r → p ∈ pending_ r → po_client_order_id p = id → reservations_of id r = [p].
Proof.
  intros Hwf Hin <-. pose proof (wf_pending_nodup _ _ _ Hwf) as Hnd. unfold reservations_of.
  induction (pending_ r) as [|q l IH]; [by apply elem_of_nil in Hin|]. rewrite fmap_cons in Hnd.
  apply NoDup_cons in Hnd as [Hnq Hnd]. apply elem_of_cons in Hin as [->|Hin].
  - rewrite filter_cons_True by done. f_equal. by apply (reservations_none _ (mkRiskManager (tickers_ r) l (trading_enabled_ r))).
  - rewrite filter_cons_False; [by apply IH|]. intros Heq. apply Hnq. rewrite Heq. apply list_elem_of_fmap. eauto.
Qed.

(** ** Properties *)

(** C5: Every interleaving of submissions, cancels, replaces that keep the
    quantity, and exchange responses, starting from an initialised manager, runs
    without undefined behaviour; and at every point of it the recorded orders
    have distinct ids and are at most [MaxO], the reservations have distinct ids
    and are at most [MaxP], the reservations under a live order's id are exactly
    one, of its unfilled (and positive) quantity on its own ticker and side, and
    a completed order has none. *)
Theorem order_manager_reachable_safe {Q : Type → Type} `{SPSCQueueLaws Q} {U} MaxT MaxP MaxO risk pnl
    (q : Q OrderRequest) n slot cb (u : U) c :
  Z.of_nat MaxP < 2 ^ 30 → wf_risk MaxT MaxP risk → pending_ risk = [] → wf_tracker pnl → 0 ≤ slot < 2 ^ 16 →
  rtc (om_step MaxP MaxO)
    (initialize (Some risk) (Some pnl) (Some q) (Some (OrderIdAllocator_new n)) slot cb u OrderManager_new) c →
  (∀ call, admissible_call call c → ∃ b c', run_call MaxP MaxO call c = Ok (b, c')) ∧
  ∃ r, c_risk c = Some r ∧ NoDup (om_id <$> orders_ (c_om c)) ∧ (orderCount (c_om c) ≤ MaxO)%nat ∧
    NoDup (po_client_order_id <$> pending_ r) ∧ (length (pending_ r) ≤ MaxP)%nat ∧
    ∀ o, o ∈ orders_ (c_om c) →
      (is_live (om_state o) = true → ∃ p, reservations_of (om_id o) r = [p] ∧ reserved_for o p ∧ 0 < po_reserved_qty p) ∧
      (om_state o = COMPLETED → reservations_of (om_id o) r = []).
Proof.
  intros HM Hr Hp Hpnl Hs Hreach.
  assert (ctx_ok MaxT MaxP MaxO c) as Hok.
  { eapply reachable_ok; [done| |exact Hreach]. by apply initialize_ok. }
  split.
  - intros call Hadm. pose proof (run_call_ok MaxT MaxP MaxO HM call c Hok Hadm) as Hrun.
    apply returns_ok in Hrun as ([b c'] & ? & _). eauto.
  - destruct Hok as (r & _ & a & _ & Hr' & _ & _ & _ & _ & [Hwr Hcap _ _ Hnd _ Hl Hd _ _]).
    exists r. split_and!; [done..|apply Hwr|apply Hwr|]. intros o Ho. split.
    + intros Hlive. destruct (Hl o Ho Hlive) as (p & Hin & Hres). exists p. split_and!; [|done|].
      * eapply reservations_unique; [done..|]. by destruct Hres as (-> & _).
      * pose proof (wf_pending_qty _ _ _ Hwr) as Hq. rewrite Forall_forall in Hq. by apply Hq.
    + intros Hc. apply reservations_none. auto.
Qed.

Lemma order_manager_reachable_safe_witness :
  rtc (om_step 64 256) ex_ctx ex_working ∧ orderCount (c_om ex_working) = 1%nat ∧
    ∃ b c', run_call 64 256 (CallCancel (ex_id 1) 5) ex_working = Ok (b, c').
Proof.
  split_and!; [exact ex_working_reachable|reflexivity|].
  apply (order_manager_reachable_safe 16 64 256 example_risk ex_pnl (mkBQueue 8 []) 2 1
    (Some (λ o l, l ++ [o])) [] ex_working ltac:(done) example_risk_wf eq_refl ex_pnl_wf ltac:(lia) ex_working_reachable).
  vm_compute. split; congruence.
Defined.

(** C11: [sendNewOrder] is all or nothing: on [true] the request, under a fresh
    non-zero id of this slot, passed every risk limit, is the one element added
    to the gateway queue, is reserved in full, and is recorded NOT_ACTIVE; on
    [false] neither the queue nor the reservations nor the orders changed. *)
Theorem sendNewOrder_all_or_nothing {Q : Type → Type} `{SPSCQueueLaws Q} {U} MaxT MaxP MaxO request pos (c : Ctx Q U) :
  Z.of_nat MaxP < 2 ^ 30 → ctx_ok MaxT MaxP MaxO c → spare_id c → wf_request request → is_s64 (net_qty pos) →
  ∃ b c', sendNewOrder MaxP MaxO request pos c = Ok (b, c') ∧
    if b : bool then ∃ a id r r', c_allocator c = Some a ∧ id = (next (slot_ (c_om c)) a).1 ∧ 0 < id ∧
      id ∉ (om_id <$> orders_ (c_om c)) ∧
      c_risk c = Some r ∧ c_risk c' = Some r' ∧ admissible MaxP (with_id request id) pos r ∧
      sent c' = sent c ++ [with_id request id] ∧
      pending_ r' = pending_ r ++ [mkPendingOrder id (rq_ticker_id request) (rq_side request) (rq_qty request)] ∧
      ∃ o i, find id (c_om c') = Some (i, o) ∧ om_state o = NOT_ACTIVE
    else sent c' = sent c ∧ c_risk c' = c_risk c ∧ orders_ (c_om c') = orders_ (c_om c).
Proof.
  intros HM Hok Hsp Hrq Hpos.
  pose proof (sendNewOrder_spec MaxT MaxP MaxO HM request pos c Hok Hsp Hrq Hpos) as Hspec.
  apply returns_ok in Hspec as ([b c'] & Hrun & _ & _ & Hb). exists b, c'. split; [done|].
  destruct b; [|done]. destruct Hb as (a & id & r & r' & Ha & Hid & Hb).
  destruct Hok as (r0 & _ & a0 & _ & _ & _ & Ha0 & _ & _ & Hom). rewrite Ha in Ha0. injection Ha0 as <-.
  destruct (next_issued (slot_ (c_om c)) a id (next (slot_ (c_om c)) a).2) as (_ & _ & Hni & Hpos').
  { exact (ok_slot _ _ _ _ _ _ Hom). }
  { exact (ok_counter _ _ _ _ _ _ Hom). }
  { rewrite Hid. by destruct (next (slot_ (c_om c)) a). }
  exists a, id, r, r'. split_and!; try done; try apply Hb. intros Hin.
  pose proof (ok_issued _ _ _ _ _ _ Hom) as Hiss. by eapply Forall_forall in Hiss.
Qed.

Lemma sendNewOrder_all_or_nothing_witness :
  ∃ b c', sendNewOrder 64 256 (ex_buy 10) default_Position ex_working = Ok (b, c') ∧ b = true ∧
    sent c' = sent ex_working ++ [with_id (ex_buy 10) (ex_id 2)].
Proof.
  destruct (sendNewOrder_all_or_nothing 16 64 256 (ex_buy 10) default_Position ex_working) as (b & c' & Hrun & Hb).
  - done.
  - exact ex_working_ok.
  - intros a Ha. vm_compute in Ha. injection Ha as <-. simpl. lia.
  - by apply ex_buy_wf.
  - split; simpl; lia.
  - exists b, c'. assert (b = true) as -> by (vm_compute in Hrun; congruence). split_and!; [done|done|].
    destruct Hb as (a & id & r & r' & Ha & -> & _ & _ & _ & _ & _ & Hs & _).
    vm_compute in Ha. injection Ha as <-. exact Hs.
Defined.

(** C6: [onOrderResponse] on every response: it returns, never touches the
    outgoing queue or the id sequence, and when it answers [true] exactly the
    addressed order changed, along the documented lifecycle (so COMPLETED is
    final and DEAD stays DEAD), by the status's effect; fills never exceed the
    order, the average fill price is the exact weighted average up to
    truncation, and the net position moved by exactly the executed quantity.
    When it answers [false] positions and reservations are untouched and at most
    the order of a refused fill was marked DEAD. *)
Theorem onOrderResponse_contract {Q : Type → Type} `{SPSCQueueLaws Q} {U} MaxT MaxP MaxO rs (c : Ctx Q U) pnl :
  Z.of_nat MaxP < 2 ^ 30 → ctx_ok MaxT MaxP MaxO c → c_pnl c = Some pnl → roomy pnl → wf_response rs →
  ∃ b c', OrderManager.onOrderResponse MaxP rs c = Ok (b, c') ∧ sent c' = sent c ∧ c_allocator c' = c_allocator c ∧
    if b : bool then ∃ i o o' pnl', find (rs_client_order_id rs) (c_om c) = Some (i, o) ∧
      orders_ (c_om c') = <[i := o']> (orders_ (c_om c)) ∧
      response_effect rs o o' ∧ lifecycle (om_state o) (om_state o') ∧
      c_pnl c' = Some pnl' ∧
      ∀ tid, net_of tid pnl' = net_of tid pnl +
        if (rq_ticker_id (om_request o) =? tid) then signed_qty (rq_side (om_request o)) (executed_part rs) else 0
    else c_risk c' = c_risk c ∧ c_pnl c' = c_pnl c ∧
      (orders_ (c_om c') = orders_ (c_om c) ∨
       ∃ i o, rs_status rs = EXECUTED ∧ find (rs_client_order_id rs) (c_om c) = Some (i, o) ∧
         is_live (om_state o) = true ∧ orders_ (c_om c') = <[i := set_state DEAD o]> (orders_ (c_om c))).
Proof.
  intros HM Hok Hp Hroom Hrs.
  pose proof (onOrderResponse_spec MaxT MaxP MaxO HM rs c pnl Hok Hp Hroom Hrs) as Hspec.
  apply returns_ok in Hspec as ([b c'] & Hrun & _ & Hs & Ha & Hb). exists b, c'. split_and!; try done.
  destruct b; [|done]. destruct Hb as (i & o & o' & pnl0 & pnl' & Hf & Ho & _ & Heff & Hp0 & Hp' & Hnet).
  rewrite Hp in Hp0. injection Hp0 as <-. exists i, o, o', pnl'. split_and!; try done.
  by eapply response_effect_lifecycle.
Qed.

Lemma onOrderResponse_contract_witness :
  ∃ c' pnl', OrderManager.onOrderResponse 64 (ex_response (ex_id 1) EXECUTED 4 0) ex_working = Ok (true, c') ∧
    c_pnl c' = Some pnl' ∧ net_of 1 pnl' = 4.
Proof.
  destruct (onOrderResponse_contract 16 64 256 (ex_response (ex_id 1) EXECUTED 4 0) ex_working ex_pnl)
    as (b & c' & Hrun & _ & _ & Hb).
  - done.
  - exact ex_working_ok.
  - reflexivity.
  - exact ex_pnl_roomy.
  - by apply ex_response_wf.
  - assert (b = true) as -> by (vm_compute in Hrun; congruence).
    destruct Hb as (i & o & o' & pnl' & Hf & _ & _ & _ & Hp' & Hnet). exists c', pnl'. split_and!; try done.
    vm_compute in Hf. injection Hf as <- <-. rewrite Hnet. reflexivity.
Defined.

(** The position limit is not a bound on the position: reservations of
    opposite sides cancel out in [pendingExposure], so with a limit of 100 three
    buys of 50 and one sell of 50 are all accepted, and when the buys fill
    first the position is 150. *)
Theorem netting_exceeds_limit :
  ∃ c pnl, run_calls 64 256
      [CallNew (ex_buy 50) default_Position; CallNew (ex_buy 50) default_Position;
       CallNew (ex_sell 50) default_Position; CallNew (ex_buy 50) default_Position;
       CallResponse (ex_response (ex_id 1) EXECUTED 50 0); CallResponse (ex_response (ex_id 2) EXECUTED 50 0);
       CallResponse (ex_response (ex_id 4) EXECUTED 50 0)] ex_ctx
    = Ok ([true; true; true; true; true; true; true], c) ∧
    c_pnl c = Some pnl ∧ net_of 1 pnl = 150 ∧ max_abs_position example_limits = 100.
Proof. eexists _, _. split; [vm_compute; reflexivity|]. split; [reflexivity|]. by split. Qed.
