(* ===== verification/CancelProtocol.v ===== *)
(** * Cancels are sent once

    Along any sequence of calls to the order manager, at most one cancel of an
    order is outstanding: until the exchange answers it, no second one is sent. *)

From S2P Require Import Prelude Types OrderIdAllocator PnLTracker RiskManager QuantLink OrderManager OrderManagerInv OrderLifecycle.

Section Cancels.
Context {Q : Type → Type} `{SPSCQueueLaws Q} {U : Type}.
Context (MaxT MaxP MaxO : nat) (HMaxP : Z.of_nat MaxP < 2 ^ 30) (id : OrderId).
Implicit Types c : Ctx Q U.

(** The cancels of the order queued so far. *)
Definition is_cancel (rq : OrderRequest) : Prop := rq_type rq = RQ_CANCEL ∧ rq_client_order_id rq = id.
Definition cancels_sent c : nat := length (filter is_cancel (sent c)).

(** The exchange's answers to a cancel of the order. *)
Definition answers (call : om_call) : bool :=
  match call with
  | CallResponse rs => (rs_client_order_id rs =? id) &&
      (bool_decide (rs_status rs = CANCELED) || bool_decide (rs_status rs = CANCEL_REJECTED))
  | _ => false
  end.

(** Any call but an answer. *)
Definition unanswered_step c c' : Prop :=
  ∃ call b, admissible_call call c ∧ answers call = false ∧ run_call MaxP MaxO call c = Ok (b, c').

(** No cancel can be sent: the id will not be issued again, and the order under
    it, if there is one, has a cancel outstanding or is finished. *)
Definition spent_in (l : list OMOrder) : Prop :=
  ∀ o, o ∈ l → om_id o = id → om_is_cancel_requested o = true ∨ is_finished (om_state o) = true.
Definition spent c : Prop :=
  (∃ a, c_allocator c = Some a ∧ id `mod` 2 ^ 48 < counter_ a) ∧ spent_in (orders_ (c_om c)).

Lemma spent_insert l i o o' : spent_in l → l !! i = Some o →
  (om_id o' = id → om_id o = id ∧ (om_is_cancel_requested o = true ∨ is_finished (om_state o) = true →
     om_is_cancel_requested o' = true ∨ is_finished (om_state o') = true)) →
  spent_in (<[i := o']> l).
Proof using All.
  intros Hs Hi Ho x Hx Hid. apply list_elem_of_lookup in Hx as [j Hj].
  apply list_lookup_insert_Some in Hj as [(<- & <- & _)|(_ & Hj)].
  - destruct (Ho Hid) as [Hid' Himp]. apply Himp, Hs; [apply list_elem_of_lookup; eauto|done].
  - apply Hs; [apply list_elem_of_lookup; eauto|done].
Qed.

Lemma cancels_app c c' new : sent c' = sent c ++ new → Forall (λ rq, ¬ is_cancel rq) new → cancels_sent c' = cancels_sent c.
Proof using All.
  intros Hs Hn. unfold cancels_sent. rewrite Hs, filter_app, length_app.
  replace (filter is_cancel new) with (@nil OrderRequest); [simpl; lia|]. symmetry.
  clear Hs. induction Hn as [|rq new Hr _ IH]; [done|]. by rewrite filter_cons_False.
Qed.

(** ** The operations, one by one *)

(** A fresh id is not an old one. *)
Lemma fresh_not_old slot a : 0 ≤ slot < 2 ^ 16 → 0 < counter_ a < 2 ^ 48 → id `mod` 2 ^ 48 < counter_ a → (next slot a).1 ≠ id.
Proof using All. intros Hs Hc Hold <-. rewrite next_id_low in Hold by lia. rewrite Z.mod_small in Hold; lia. Qed.

Lemma record_elem slot (l : list OMOrder) o x :
  x ∈ (if bool_decide (slot = length l) then l ++ [o] else <[slot := o]> l) → x ∈ l ∨ x = o.
Proof using All.
  case_bool_decide; [intros [?|?%list_elem_of_singleton]%elem_of_app; auto|].
  intros [j Hj]%list_elem_of_lookup. apply list_lookup_insert_Some in Hj as [(_ & <- & _)|(_ & Hj)]; [auto|].
  left. apply list_elem_of_lookup. eauto.
Qed.

(** Spending an id: the counter moves on. *)
Definition advanced (a a' : OrderIdAllocator) : Prop := counter_ a ≤ counter_ a'.

Lemma next_advanced slot a : 0 ≤ slot < 2 ^ 16 → 0 < counter_ a < 2 ^ 48 → advanced a (next slot a).2.
Proof using All.
  intros Hs Hc. destruct (next slot a) as [i a'] eqn:E. destruct (next_issued slot a i a' Hs Hc E) as (Hn & _).
  unfold advanced. simpl. lia.
Qed.

Ltac same_orders := intros [= <- <-]; simpl; split; [eexists; split; [eassumption || reflexivity|by auto]|by auto].

Lemma sendNewOrder_orders rq pos c b c' a : c_allocator c = Some a → sendNewOrder MaxP MaxO rq pos c = Ok (b, c') →
  (∃ a', c_allocator c' = Some a' ∧ (a' = a ∨ a' = (next (slot_ (c_om c)) a).2)) ∧
  ∀ x, x ∈ orders_ (c_om c') → x ∈ orders_ (c_om c) ∨ om_id x = (next (slot_ (c_om c)) a).1.
Proof using All.
  intros Ha. unfold sendNewOrder. rewrite Ha. destruct (c_outgoing c) as [q|]; [|same_orders].
  destruct (c_risk c) as [r|]; [|same_orders]. case_bool_decide; [same_orders|].
  destruct (next _ a) as [i a'] eqn:Hn. intros (v & _ & Hr)%bind_Ok_inv. revert Hr.
  destruct (negb _); [same_orders|]. destruct (q_push _ q) as [pushed q'].
  destruct pushed; simpl negb; cbv iota; [|same_orders].
  destruct (onSubmitted _ _ _) as [ok r']. destruct ok; simpl negb; cbv iota; [|same_orders].
  intros [= <- <-]. match goal with |- context [notify ?o ?x] => destruct (notify_frame o x) as (Ho & _ & _ & _ & Hal & _) end.
  rewrite Ho, Hal. simpl. split; [by eauto|]. intros x [Hx| ->]%record_elem; auto.
Qed.

Lemma ctx_allocator c : ctx_ok MaxT MaxP MaxO c →
  ∃ a, c_allocator c = Some a ∧ 0 ≤ slot_ (c_om c) < 2 ^ 16 ∧ 0 < counter_ a < 2 ^ 48.
Proof using All. intros (r & pnl & a & q & _ & _ & Ha & _ & _ & Hom). exists a. split; [done|]. split; apply Hom. Qed.

Lemma new_order_spent rq pos c b c' :
  ctx_ok MaxT MaxP MaxO c → admissible_call (CallNew rq pos) c → sendNewOrder MaxP MaxO rq pos c = Ok (b, c') →
  cancels_sent c' = cancels_sent c ∧ (spent c → spent c').
Proof using All.
  intros Hok (Hrq & Hpos & Hsp) Hrun. destruct (ctx_allocator c Hok) as (a & Ha & Hsl & Hcnt). split.
  - pose proof (sendNewOrder_spec MaxT MaxP MaxO HMaxP rq pos c Hok Hsp Hrq Hpos) as Hs. rewrite Hrun in Hs.
    destruct Hs as (_ & _ & Hs). destruct b.
    + destruct Hs as (? & i & ? & ? & _ & _ & _ & _ & Hadm & Hs & _). eapply cancels_app; [exact Hs|]. apply Forall_singleton.
      destruct Hadm as (_ & Hty & _). unfold is_cancel. rewrite Hty. by intros [].
    + destruct Hs as (Hs & _). by apply (cancels_app _ _ []); [rewrite app_nil_r|].
  - intros [(a0 & Ha0 & Hold) Hin]. rewrite Ha in Ha0. injection Ha0 as <-.
    destruct (sendNewOrder_orders _ _ _ _ _ _ Ha Hrun) as [(a' & Ha' & Hcase) Ho]. split.
    + exists a'. split; [done|]. pose proof (next_advanced _ a Hsl Hcnt) as Hadv. unfold advanced in Hadv. destruct Hcase as [-> | ->]; lia.
    + intros x Hx Hid. destruct (Ho x Hx) as [Hx'|Hnew]; [by apply Hin|]. by destruct (fresh_not_old _ a Hsl Hcnt Hold); congruence.
Qed.

(** The order found under the id. *)
Lemma find_spent c i o : find id (c_om c) = Some (i, o) → spent c → is_finished (om_state o) || om_is_cancel_requested o = true.
Proof using All.
  intros [Hi Hid]%find_Some [_ Hs]. destruct (Hs o) as [-> | ->]; [apply list_elem_of_lookup; eauto|done|by rewrite orb_true_r|done].
Qed.

Lemma cancel_spent id' qty c b c' : ctx_ok MaxT MaxP MaxO c → sendCancel id' qty c = Ok (b, c') →
  (cancels_sent c' = cancels_sent c ∧ (spent c → spent c')) ∨ (cancels_sent c' = S (cancels_sent c) ∧ ¬ spent c ∧ spent c').
Proof using All.
  intros Hok Hrun. pose proof (sendCancel_spec MaxT MaxP MaxO HMaxP id' qty c Hok) as Hs. rewrite Hrun in Hs.
  destruct (ctx_allocator c Hok) as (a & Ha & Hsl & Hcnt).
  assert (c_allocator c' = c_allocator c) as Hal.
  { revert Hrun. unfold sendCancel. destruct (find _ _) as [[i o]|]; [|by intros [= <- <-]]. destruct (_ || _); [by intros [= <- <-]|].
    destruct (c_outgoing c); [|by intros [= <- <-]]. destruct (q_push _ _) as [[] ?]; by intros [= <- <-]. }
  destruct Hs as (_ & _ & _ & Hs). destruct b.
  2:{ left. destruct Hs as [Hs Ho]. split; [by apply (cancels_app _ _ []); [rewrite app_nil_r|]|]. unfold spent. by rewrite Hal, Ho. }
  destruct Hs as (i & o & Hf & Hlive & Hcr & Hsent & Hf').
  pose proof (find_Some _ _ _ _ Hf) as [Hi Hid]. pose proof (find_Some _ _ _ _ Hf') as [Hi' Hid'].
  assert (orders_ (c_om c') = <[i := set_cancel_requested true o]> (orders_ (c_om c))) as Hord.
  { revert Hrun. unfold sendCancel. rewrite Hf. destruct (_ || _); [by intros [= ? ?]|]. destruct (c_outgoing c); [|by intros [= ? ?]].
    destruct (q_push _ _) as [[] ?]; [by intros [= <-]|by intros [= ? ?]]. }
  destruct (decide (id' = id)) as [->|Hne].
  - right. assert (is_cancel (mkOrderRequest RQ_CANCEL id 0 (rq_ticker_id (om_request o)) (rq_side (om_request o))
                    (rq_price (om_request o)) qty (rq_ioc (om_request o)))) as Hc by done.
    split_and!.
    + unfold cancels_sent. rewrite Hsent, filter_app, length_app, filter_cons_True by done. simpl. lia.
    + intros Hs. pose proof (find_spent c i o Hf Hs) as Hb. rewrite Hcr, orb_false_r in Hb.
      destruct (om_state o); done.
    + split.
      * exists a. rewrite Hal. split; [done|]. destruct Hok as (? & ? & a0 & ? & _ & _ & Ha0 & _ & _ & Hom).
        rewrite Ha in Ha0. injection Ha0 as <-. pose proof (ok_issued _ _ _ _ _ _ Hom) as Hiss. rewrite Forall_forall in Hiss.
        destruct (Hiss id) as [_ Hlow]; [|lia]. rewrite <- Hid. apply list_elem_of_fmap. exists o. split; [done|]. apply list_elem_of_lookup. eauto.
      * intros x Hx Hxid. rewrite Hord in Hx. apply list_elem_of_lookup in Hx as [j Hj].
        apply list_lookup_insert_Some in Hj as [(<- & <- & _)|(Hj' & Hj)]; [by left|]. exfalso. apply Hj'.
        destruct Hok as (? & ? & ? & ? & _ & _ & _ & _ & _ & Hom).
        eapply (NoDup_lookup (om_id <$> orders_ (c_om c)) i j id); [apply Hom| |]; rewrite list_lookup_fmap, ?Hi, ?Hj; simpl; congruence.
  - left. split.
    + eapply cancels_app; [exact Hsent|]. apply Forall_singleton. intros [_ Hx]. by simpl in Hx.
    + intros [Hall Hin]. split; [by rewrite Hal|]. rewrite Hord. eapply spent_insert; [done..|]. intros E. exfalso. apply Hne.
      rewrite <- Hid. exact E.
Qed.

Lemma sendReplace_orders id' price qty c b c' a : c_allocator c = Some a → sendReplace MaxP id' price qty c = Ok (b, c') →
  (∃ a', c_allocator c' = Some a' ∧ (a' = a ∨ a' = (next (slot_ (c_om c)) a).2)) ∧
  (orders_ (c_om c') = orders_ (c_om c) ∨
   ∃ i o o', orders_ (c_om c) !! i = Some o ∧ om_id o' = (next (slot_ (c_om c)) a).1 ∧ orders_ (c_om c') = <[i := o']> (orders_ (c_om c))).
Proof using All.
  intros Ha. unfold sendReplace. rewrite Ha. destruct (find _ _) as [[i o]|] eqn:Hf; [|same_orders].
  destruct (_ || _); [same_orders|]. destruct (c_outgoing c); [|same_orders]. destruct (next _ a) as [n a'] eqn:Hn.
  destruct (q_push _ _) as [[] q']; simpl negb; cbv iota; [|same_orders]. simpl c_risk. destruct (c_risk c) as [r|]; [|same_orders].
  destruct (onReplaced _ _ _ _) as [[] r']; simpl negb; cbv iota; [|same_orders].
  apply find_Some in Hf as [Hi _]. intros [= <- <-]. simpl. split; [by eauto|]. right. eexists i, o, _. split_and!; [done| |done]. done.
Qed.

Lemma replace_spent id' price qty c b c' :
  ctx_ok MaxT MaxP MaxO c → admissible_call (CallReplace id' price qty) c → sendReplace MaxP id' price qty c = Ok (b, c') →
  cancels_sent c' = cancels_sent c ∧ (spent c → spent c').
Proof using All.
  intros Hok (Hsp & Hq) Hrun. destruct (ctx_allocator c Hok) as (a & Ha & Hsl & Hcnt). split.
  - pose proof (sendReplace_spec MaxT MaxP MaxO HMaxP id' price qty c Hok Hsp Hq) as Hs. rewrite Hrun in Hs.
    destruct Hs as (_ & _ & Hs). destruct b.
    + destruct Hs as (i & o & ? & _ & _ & _ & Hs). eapply cancels_app; [exact Hs|]. apply Forall_singleton. by intros [].
    + destruct Hs as (Hs & _). by apply (cancels_app _ _ []); [rewrite app_nil_r|].
  - intros [(a0 & Ha0 & Hold) Hin]. rewrite Ha in Ha0. injection Ha0 as <-.
    destruct (sendReplace_orders _ _ _ _ _ _ _ Ha Hrun) as [(a' & Ha' & Hcase) Ho]. split.
    + exists a'. split; [done|]. pose proof (next_advanced _ a Hsl Hcnt) as Hadv. unfold advanced in Hadv. destruct Hcase as [-> | ->]; lia.
    + destruct Ho as [->|(i & o & o' & Hi & Hid & ->)]; [done|]. eapply spent_insert; [done..|]. intros E.
      by destruct (fresh_not_old _ a Hsl Hcnt Hold); congruence.
Qed.

(** A response that does not answer the cancel leaves it outstanding. *)
Lemma effect_keeps rs o o' : (rs_status rs = CANCELED ∨ rs_status rs = CANCEL_REJECTED → False) → response_effect rs o o' →
  om_is_cancel_requested o = true ∨ is_finished (om_state o) = true → om_is_cancel_requested o' = true ∨ is_finished (om_state o') = true.
Proof using All.
  intros Hn Heff Hs. unfold response_effect in Heff. destruct (rs_status rs); try (exfalso; by auto).
  - destruct Heff as (Hl & ->). simpl. destruct Hs as [|Hf]; [by left|]. by destruct (om_state o).
  - destruct Heff as (Hl & _ & _ & _ & _ & _ & _ & Hcr). destruct Hs as [|Hf]; [left; congruence|]. by destruct (om_state o).
  - destruct Heff as (_ & ->). by right.
Qed.

Lemma response_spent rs c b c' :
  ctx_ok MaxT MaxP MaxO c → admissible_call (CallResponse rs) c → answers (CallResponse rs) = false →
  OrderManager.onOrderResponse MaxP rs c = Ok (b, c') → cancels_sent c' = cancels_sent c ∧ (spent c → spent c').
Proof using All.
  intros Hok (Hrs & Hroom) Hans Hrun. pose proof Hok as (r & pnl & a & q & _ & Hp & _).
  pose proof (onOrderResponse_spec MaxT MaxP MaxO HMaxP rs c pnl Hok Hp (Hroom _ Hp) Hrs) as Hs. rewrite Hrun in Hs.
  destruct Hs as (_ & Hsent & Hal & Hb). split; [by apply (cancels_app _ _ []); [rewrite app_nil_r|]|].
  intros [Hold Hin]. split; [by rewrite Hal|]. destruct b.
  - destruct Hb as (i & o & o' & _ & _ & Hf & -> & Hid & Heff & _). apply find_Some in Hf as [Hi Hfid].
    eapply spent_insert; [done..|]. intros E. split; [congruence|]. apply (effect_keeps rs); [|done].
    simpl in Hans. assert (rs_client_order_id rs = id) as Hrid by congruence. rewrite Hrid, Z.eqb_refl in Hans. simpl in Hans.
    intros [Hc|Hc]; rewrite Hc in Hans; done.
  - destruct Hb as (_ & _ & [->|(i & o & _ & Hf & _ & ->)]); [done|]. apply find_Some in Hf as [Hi _].
    eapply spent_insert; [done..|]. intros E. split; [exact E|]. by right.
Qed.

Lemma call_spent call b c c' :
  ctx_ok MaxT MaxP MaxO c → admissible_call call c → answers call = false → run_call MaxP MaxO call c = Ok (b, c') →
  (cancels_sent c' = cancels_sent c ∧ (spent c → spent c')) ∨ (cancels_sent c' = S (cancels_sent c) ∧ ¬ spent c ∧ spent c').
Proof using All.
  intros Hok Hadm Hans Hrun. destruct call as [rq pos|id' q|id' p q|rs].
  - left. by eapply new_order_spent.
  - by eapply cancel_spent.
  - left. by eapply replace_spent.
  - left. by eapply response_spent.
Qed.

Lemma unanswered_ok c c' : ctx_ok MaxT MaxP MaxO c → unanswered_step c c' → ctx_ok MaxT MaxP MaxO c'.
Proof using All.
  intros Hok (call & b & Hadm & _ & Hrun). pose proof (run_call_ok MaxT MaxP MaxO HMaxP call c Hok Hadm) as Hr. by rewrite Hrun in Hr.
Qed.

Lemma unanswered_cancels c c' : rtc unanswered_step c c' → ctx_ok MaxT MaxP MaxO c →
  ctx_ok MaxT MaxP MaxO c' ∧ (cancels_sent c' ≤ cancels_sent c + 1)%nat ∧ (spent c → cancels_sent c' = cancels_sent c).
Proof using All.
  induction 1 as [c|c c1 c' Hstep _ IH]; intros Hok; [split_and!; (done || lia)|].
  destruct (IH (unanswered_ok _ _ Hok Hstep)) as (Hok' & Hle & Hsp).
  destruct Hstep as (call & b & Hadm & Hans & Hrun).
  destruct (call_spent call b c c1 Hok Hadm Hans Hrun) as [[Heq Himp]|(Heq & Hns & Hs1)].
  - rewrite Heq in *. split_and!; auto.
  - rewrite (Hsp Hs1), Heq. split_and!; [done|lia|done].
Qed.

Lemma unanswered_mono c c' : rtc unanswered_step c c' → ctx_ok MaxT MaxP MaxO c → (cancels_sent c ≤ cancels_sent c')%nat.
Proof using All.
  induction 1 as [c|c c1 c' Hstep _ IH]; intros Hok; [done|]. etrans; [|apply IH; by eapply unanswered_ok].
  destruct Hstep as (call & b & Hadm & Hans & Hrun).
  destruct (call_spent call b c c1 Hok Hadm Hans Hrun) as [[-> _]|(-> & _)]; lia.
Qed.

Lemma sendCancel_counted qty c c' : sendCancel id qty c = Ok (true, c') → ctx_ok MaxT MaxP MaxO c → cancels_sent c' = S (cancels_sent c).
Proof using All.
  intros Hrun Hok. pose proof (sendCancel_spec MaxT MaxP MaxO HMaxP id qty c Hok) as Hs. rewrite Hrun in Hs.
  destruct Hs as (_ & _ & _ & i & o & _ & _ & _ & Hs & _). unfold cancels_sent.
  rewrite Hs, filter_app, length_app, filter_cons_True by done. simpl. lia.
Qed.
End Cancels.

(** C33: A cancel is outstanding at most once: along any sequence of submissions,
    cancels, quantity-keeping replaces and exchange responses in which the
    exchange has not answered a cancel of the order (no CANCELED and no
    CANCEL_REJECTED response under its id), at most one cancel of it is queued,
    whatever else happens to it (it may be accepted, filled, rejected, or its
    slot reused).  At the end [sendCancel] answers [true] only if none was queued
    on the way, for a live order without an outstanding cancel, and then queues
    exactly that cancel; when it answers [false] neither the queue nor the orders
    change. *)
Theorem cancel_outstanding_once {Q : Type → Type} `{SPSCQueueLaws Q} {U} MaxT MaxP MaxO id qty (c c' : Ctx Q U) :
  Z.of_nat MaxP < 2 ^ 30 → is_qty qty → ctx_ok MaxT MaxP MaxO c → rtc (unanswered_step MaxP MaxO id) c c' →
  (cancels_sent id c' ≤ cancels_sent id c + 1)%nat ∧
  ∃ b c'', sendCancel id qty c' = Ok (b, c'') ∧
    if b : bool then cancels_sent id c' = cancels_sent id c ∧
      ∃ i o, find id (c_om c') = Some (i, o) ∧ is_live (om_state o) = true ∧ om_is_cancel_requested o = false ∧
        sent c'' = sent c' ++ [mkOrderRequest RQ_CANCEL id 0 (rq_ticker_id (om_request o)) (rq_side (om_request o))
                                 (rq_price (om_request o)) qty (rq_ioc (om_request o))]
    else sent c'' = sent c' ∧ orders_ (c_om c'') = orders_ (c_om c').
Proof.
  intros HM Hq Hok Hrun. destruct (unanswered_cancels MaxT MaxP MaxO HM id c c' Hrun Hok) as (Hok' & Hle & _). split; [done|].
  pose proof (sendCancel_spec MaxT MaxP MaxO HM id qty c' Hok') as ([b c''] & Hs & _ & _ & _ & Hb)%returns_ok.
  exists b, c''. split; [done|]. destruct b; [|done]. destruct Hb as (i & o & Hf & Hl & Hcr & Hsent & _). split; [|by exists i, o].
  assert (rtc (unanswered_step MaxP MaxO id) c c'') as Hrun'.
  { eapply rtc_r; [exact Hrun|]. by exists (CallCancel id qty), true. }
  destruct (unanswered_cancels MaxT MaxP MaxO HM id c c'' Hrun' Hok) as (_ & Hle' & _).
  pose proof (sendCancel_counted MaxT MaxP MaxO HM id qty c' c'' Hs Hok') as Hcnt.
  pose proof (unanswered_mono MaxT MaxP MaxO HM id c c' Hrun Hok). lia.
Qed.

(** A cancel, a fill and another cancel, which is refused. *)
Definition ex_cancelled (calls : list om_call) : Ctx BQueue (list OMOrder) :=
  match run_calls 64 256 calls ex_working with Ok (_, c) => c | _ => ex_working end.
Definition ex_cancel_calls : list om_call := [CallCancel (ex_id 1) 10; CallResponse (ex_response (ex_id 1) EXECUTED 4 0)].

Lemma ex_cancelled_run : rtc (unanswered_step 64 256 (ex_id 1)) ex_working (ex_cancelled ex_cancel_calls).
Proof.
  eapply rtc_l; [|eapply rtc_once].
  - exists (CallCancel (ex_id 1) 10), true. split_and!; [by vm_compute|done|vm_compute; reflexivity].
  - exists (CallResponse (ex_response (ex_id 1) EXECUTED 4 0)), true. split; [|split; [done|vm_compute; reflexivity]].
    split; [by apply ex_response_wf|]. intros pnl [= <-]. apply ex_pnl_roomy.
Qed.

Lemma cancel_outstanding_once_witness :
  cancels_sent (ex_id 1) (ex_cancelled ex_cancel_calls) = 1%nat ∧
  ∃ c'', sendCancel (ex_id 1) 6 (ex_cancelled ex_cancel_calls) = Ok (false, c'').
Proof.
  split; [reflexivity|].
  destruct (cancel_outstanding_once 16 64 256 (ex_id 1) 6 ex_working (ex_cancelled ex_cancel_calls))
    as (_ & b & c'' & Hs & Hb).
  - done.
  - split; lia.
  - exact ex_working_ok.
  - exact ex_cancelled_run.
  - exists c''. destruct b; [|exact Hs]. destruct Hb as [Hb _]. vm_compute in Hb. discriminate.
Defined.
