(* ===== verification/ResponseFaults.v ===== *)
(** * Where orders and reservations come apart

    Two general facts about responses of the exchange that the order manager
    does not expect: a cancel of a part of an order, and a fill of an order that
    was enlarged by a replace. *)

From S2P Require Import Prelude Types OrderIdAllocator PnLTracker RiskManager QuantLink OrderManager OrderManagerInv OrderLifecycle.

Lemma find_rekeyed om i o o' :
  orders_ om !! i = Some o → om_id o' ∉ (om_id <$> orders_ om) →
  find (om_id o') (set_orders (<[i := o']> (orders_ om)) om) = Some (i, o').
Proof.
  intros Hi Hn. apply lookup_lt_Some in Hi as Hlt. apply list_find_Some. simpl. split_and!; [by apply list_lookup_insert_eq|done|].
  intros j y Hj Hlt' Hy. rewrite list_lookup_insert_ne in Hj by lia. apply Hn. rewrite <- Hy. apply list_elem_of_fmap.
  exists y. split; [done|]. apply list_elem_of_lookup. eauto.
Qed.

(** The replace of an order and the order it leaves. *)
Definition replace_of (o : OMOrder) (new_id : OrderId) (price : Price) (qty : Quantity) : OrderRequest :=
  mkOrderRequest RQ_REPLACE (om_id o) new_id (rq_ticker_id (om_request o)) (rq_side (om_request o)) price qty (rq_ioc (om_request o)).
Definition replaced (o : OMOrder) (new_id : OrderId) (price : Price) (qty : Quantity) : OMOrder :=
  set_request (mkOrderRequest RQ_REPLACE new_id 0 (rq_ticker_id (om_request o)) (rq_side (om_request o)) price qty
                 (rq_ioc (om_request o))) o.

Section Faults.
Context {Q : Type → Type} `{SPSCQueueLaws Q} {U : Type}.
Context (MaxT MaxP MaxO : nat) (HMaxP : Z.of_nat MaxP < 2 ^ 30).
Implicit Types c : Ctx Q U.

(** The risk manager's answer, when it is decided by [applies]. *)
Lemma risk_accepts rs r pnl p t :
  wf_risk MaxT MaxP r → wf_tracker pnl → roomy pnl → wf_response rs → p ∈ pending_ r →
  po_client_order_id p = rs_client_order_id rs → applies rs p pnl t →
  ∃ r' pnl', RiskManager.onOrderResponse MaxP rs r pnl = Ok (true, r', pnl') ∧ wf_risk MaxT MaxP r' ∧ settles rs p r pnl r' pnl'.
Proof using All.
  intros Hwf Hpnl Hroom Hrs Hin Hid Happ.
  pose proof (onOrderResponse_settles MaxT MaxP rs r pnl Hwf Hpnl Hroom Hrs) as ([[b r'] pnl'] & Hr & Hwf' & _ & _ & _ & Hb)%returns_ok.
  pose proof (onOrderResponse_applies MaxT MaxP rs r pnl b r' pnl' Hwf Hrs Hr) as Ha. destruct b; [|by destruct (Ha p t Hin Hid)].
  exists r', pnl'. split_and!; [done|done|]. destruct Hb as (q & Hq). pose proof Hq as (Hqin & Hqid & _).
  by rewrite (pending_same_id MaxT MaxP r p q Hwf Hin Hqin) by congruence.
Qed.

Lemma risk_refuses rs r pnl p :
  wf_risk MaxT MaxP r → wf_tracker pnl → roomy pnl → wf_response rs → p ∈ pending_ r →
  po_client_order_id p = rs_client_order_id rs → (∀ t, ¬ applies rs p pnl t) →
  RiskManager.onOrderResponse MaxP rs r pnl = Ok (false, r, pnl).
Proof using All.
  intros Hwf Hpnl Hroom Hrs Hin Hid Happ.
  pose proof (onOrderResponse_settles MaxT MaxP rs r pnl Hwf Hpnl Hroom Hrs) as ([[b r'] pnl'] & Hr & _ & _ & _ & _ & Hb)%returns_ok.
  pose proof (onOrderResponse_applies MaxT MaxP rs r pnl b r' pnl' Hwf Hrs Hr) as Ha. destruct b; [|by destruct Hb as [-> ->]].
  destruct Ha as (q & Hqin & Hqid & Hq). rewrite (pending_same_id MaxT MaxP r q p Hwf Hqin Hin) in Hq by congruence. by destruct (Happ pnl').
Qed.

(** The order under an id and its reservation. *)
Lemma live_reservation c id i o : ctx_ok MaxT MaxP MaxO c → find id (c_om c) = Some (i, o) → is_live (om_state o) = true →
  ∃ r pnl a q p, c_risk c = Some r ∧ c_pnl c = Some pnl ∧ c_allocator c = Some a ∧ c_outgoing c = Some q ∧ wf_tracker pnl ∧
    om_ok MaxT MaxP MaxO (c_om c) r a ∧ p ∈ pending_ r ∧ reserved_for o p ∧ orders_ (c_om c) !! i = Some o ∧ om_id o = id.
Proof using All.
  intros (r & pnl & a & q & Hr & Hp & Ha & Hq & Hpnl & Hom) [Hi Hid]%find_Some Hl.
  destruct (ok_live _ _ _ _ _ _ Hom o) as (p & Hin & Hres); [apply list_elem_of_lookup; eauto|done|].
  exists r, pnl, a, q, p. by split_and!.
Qed.

Lemma partial_cancel_run rs c pnl i o :
  ctx_ok MaxT MaxP MaxO c → c_pnl c = Some pnl → roomy pnl → wf_response rs → rs_status rs = CANCELED →
  find (rs_client_order_id rs) (c_om c) = Some (i, o) → is_live (om_state o) = true →
  0 < rs_canceled_qty rs < rq_qty (om_request o) - om_filled_qty o →
  ∃ c' r' p, OrderManager.onOrderResponse MaxP rs c = Ok (true, c') ∧
    find (rs_client_order_id rs) (c_om c') = Some (i, set_state CANCELLED (set_cancel_requested false o)) ∧
    c_pnl c' = Some pnl ∧ c_risk c' = Some r' ∧ reservations_of (rs_client_order_id rs) r' = [p] ∧
    po_reserved_qty p = rq_qty (om_request o) - om_filled_qty o - rs_canceled_qty rs.
Proof using All.
  intros Hok Hp Hroom Hrs Hst Hf Hl Hc.
  destruct (live_reservation c _ i o Hok Hf Hl) as (r & pnl0 & a & q & p & Hr & Hp0 & Ha & Hq & Hpnl & Hom & Hin & (Hid1 & Ht & Hsd & Hqty) & Hi & Hid).
  rewrite Hp in Hp0. injection Hp0 as <-. pose proof (ok_risk _ _ _ _ _ _ Hom) as Hwr.
  destruct (risk_accepts rs r pnl p pnl Hwr Hpnl Hroom Hrs Hin) as (r' & pnl' & Hrun & Hwr' & Hset); [congruence|unfold applies; rewrite Hst; split; [lia|done]|].
  pose proof (onOrderResponse_applies MaxT MaxP rs r pnl true r' pnl' Hwr Hrs Hrun) as (p0 & _ & _ & Happ). unfold applies in Happ.
  rewrite Hst in Happ. destruct Happ as [_ ->]. unfold OrderManager.onOrderResponse. rewrite Hf, Hst.
  rewrite (bool_decide_false (om_state o = COMPLETED)), (bool_decide_false (om_state o = DEAD)) by (intros E; by rewrite E in Hl). cbn [orb].
  rewrite (proj2 (Z.eqb_neq (rs_canceled_qty rs) 0)), (proj2 (Z.eqb_neq (om_filled_qty o) _)) by lia.
  rewrite Hr. unfold risk_response. rewrite Hp, Hrun. cbn [mbind outcome_bind fst snd negb].
  set (o' := set_state CANCELLED (set_cancel_requested false o)).
  match goal with |- context [notify o' ?x] => destruct (notify_frame o' x) as (Ho' & Hr1 & Hp1 & _) end.
  destruct Hset as (_ & _ & _ & _ & _ & rest & Hperm & Hperm'). unfold released in Hperm'. rewrite Hst, decide_False in Hperm' by lia.
  eexists _, r', (with_reserved p (po_reserved_qty p - rs_canceled_qty rs)). split; [done|]. split_and!.
  - rewrite Ho'. simpl. rewrite <- Hid. apply find_put; [by rewrite Hid|done].
  - by rewrite Hp1.
  - by rewrite Hr1.
  - eapply reservations_unique; [done| |simpl; congruence]. rewrite Hperm'. by left.
  - simpl. lia.
Qed.

(** C37: A partial cancel strands the rest of its order.  In every consistent
    context with positions under 2^62, a CANCELED response for less than the
    unfilled quantity of a live order is accepted: the order becomes CANCELLED,
    the rest of its quantity stays reserved, and fills of that rest which the
    exchange reports next, any number of them, are refused and leave everything
    as it is, so that positions miss them. *)
Theorem partial_cancel_strands rs c pnl i o :
  ctx_ok MaxT MaxP MaxO c → c_pnl c = Some pnl → roomy pnl → wf_response rs → rs_status rs = CANCELED →
  find (rs_client_order_id rs) (c_om c) = Some (i, o) → is_live (om_state o) = true →
  0 < rs_canceled_qty rs < rq_qty (om_request o) - om_filled_qty o →
  ∃ c' r' p o', OrderManager.onOrderResponse MaxP rs c = Ok (true, c') ∧
    find (rs_client_order_id rs) (c_om c') = Some (i, o') ∧ om_state o' = CANCELLED ∧
    c_risk c' = Some r' ∧ reservations_of (rs_client_order_id rs) r' = [p] ∧
    po_reserved_qty p = rq_qty (om_request o) - om_filled_qty o - rs_canceled_qty rs ∧
    ∀ rs', rs_client_order_id rs' = rs_client_order_id rs → rs_status rs' = EXECUTED →
      OrderManager.onOrderResponse MaxP rs' c' = Ok (false, c').
Proof using All.
  intros Hok Hp Hroom Hrs Hst Hf Hl Hc.
  destruct (partial_cancel_run rs c pnl i o Hok Hp Hroom Hrs Hst Hf Hl Hc) as (c' & r' & p & Hrun & Hf' & _ & Hr & Hres & Hq).
  eexists c', r', p, _. split_and!; [done..|]. intros rs' Hid Hst'. unfold OrderManager.onOrderResponse. rewrite Hid, Hf', Hst'.
  by rewrite orb_true_r.
Qed.

(** ** A replace that changes the quantity *)

Lemma sendReplace_run price qty c i o a q :
  ctx_ok MaxT MaxP MaxO c → c_allocator c = Some a → c_outgoing c = Some q → find (om_id o) (c_om c) = Some (i, o) →
  is_live (om_state o) = true → om_is_cancel_requested o = false →
  let new_id := (next (slot_ (c_om c)) a).1 in
  (q_push (replace_of o new_id price qty) q).1 = true →
  ∃ c' r' p, sendReplace MaxP (om_id o) price qty c = Ok (true, c') ∧ sent c' = sent c ++ [replace_of o new_id price qty] ∧
    find new_id (c_om c') = Some (i, replaced o new_id price qty) ∧ c_pnl c' = c_pnl c ∧
    c_risk c' = Some r' ∧ wf_risk MaxT MaxP r' ∧ reservations_of new_id r' = [p] ∧
    po_reserved_qty p = rq_qty (om_request o) - om_filled_qty o.
Proof using All.
  intros Hok Ha Hq Hf Hl Hcr new_id Hpush.
  destruct (live_reservation c _ i o Hok Hf Hl) as (r & pnl & a0 & q0 & p & Hr & Hp & Ha0 & Hq0 & Hpnl & Hom & Hin & (Hid1 & Ht & Hsd & Hqty) & Hi & _).
  rewrite Ha in Ha0. injection Ha0 as <-. unfold sendReplace. rewrite Hf.
  replace (is_finished (om_state o)) with false by (by destruct (om_state o)).
  rewrite Hcr, Hq, Ha. cbn [orb]. subst new_id. destruct (next (slot_ (c_om c)) a) as [new_id a'] eqn:Hnext. cbn [fst] in *.
  pose proof (next_issued _ _ _ _ (ok_slot _ _ _ _ _ _ Hom) (ok_counter _ _ _ _ _ _ Hom) Hnext) as (_ & _ & Hfresh & Hpos).
  destruct (q_push (replace_of o new_id price qty) q) as [b q'] eqn:Hpu. cbn [fst] in Hpush. subst b. unfold replace_of in Hpu at 1.
  rewrite Hpu. cbn [negb set_outgoing set_allocator c_risk]. rewrite Hr.
  pose proof Hin as [rest Hperm]%elem_of_Permutation.
  destruct (onReplaced_spec MaxT MaxP (om_id o) new_id r p rest (ok_risk _ _ _ _ _ _ Hom) Hperm Hid1) as (r' & -> & Hwr & Hperm'); [lia| |].
  { intros Hx. pose proof (ok_pending_issued _ _ _ _ _ _ Hom) as Hpi. by eapply Forall_forall in Hpi. }
  cbn [negb]. eexists _, r', _. split; [done|]. split_and!.
  - unfold sent. rewrite Hq. by eapply q_push_true.
  - change new_id with (om_id (replaced o new_id price qty)) at 1. apply (find_rekeyed (inc_replaces (c_om c)) i o); [done|].
    intros Hx. pose proof (ok_issued _ _ _ _ _ _ Hom) as Hpi. by eapply Forall_forall in Hpi.
  - done.
  - done.
  - done.
  - eapply reservations_unique; [done| |]; [rewrite Hperm'; by left|done].
  - done.
Qed.

(** C38: A replace that enlarges an order desynchronises it from its
    reservation.  In every consistent context with positions under 2^62,
    [sendReplace] of a live order without an outstanding cancel to any price and
    quantity is queued whenever the gateway queue has room, with no check of a
    risk limit, and moves the reservation of the old unfilled quantity to the new
    id; a fill that follows, of more than that quantity but within the enlarged
    order, is answered [false], leaves positions and reservations as they were,
    and marks the order DEAD. *)
Theorem resizing_replace_desyncs price qty c pnl i o a q :
  ctx_ok MaxT MaxP MaxO c → c_pnl c = Some pnl → roomy pnl → c_allocator c = Some a → c_outgoing c = Some q →
  find (om_id o) (c_om c) = Some (i, o) → is_live (om_state o) = true → om_is_cancel_requested o = false →
  let new_id := (next (slot_ (c_om c)) a).1 in
  (q_push (replace_of o new_id price qty) q).1 = true →
  ∃ c' r' p, sendReplace MaxP (om_id o) price qty c = Ok (true, c') ∧ sent c' = sent c ++ [replace_of o new_id price qty] ∧
    c_risk c' = Some r' ∧ reservations_of new_id r' = [p] ∧ po_reserved_qty p = rq_qty (om_request o) - om_filled_qty o ∧
    ∀ rs, wf_response rs → rs_status rs = EXECUTED → rs_client_order_id rs = new_id →
      rq_qty (om_request o) - om_filled_qty o < rs_executed_qty rs ≤ qty - om_filled_qty o →
      ∃ c'' o'', OrderManager.onOrderResponse MaxP rs c' = Ok (false, c'') ∧ c_risk c'' = Some r' ∧ c_pnl c'' = Some pnl ∧
        find new_id (c_om c'') = Some (i, o'') ∧ om_state o'' = DEAD.
Proof using All.
  intros Hok Hp Hroom Ha Hq Hf Hl Hcr new_id Hpush.
  destruct (sendReplace_run price qty c i o a q Hok Ha Hq Hf Hl Hcr Hpush) as (c' & r' & p & Hrun & Hs & Hf' & Hp' & Hr' & Hwr & Hres & Hpq).
  fold new_id in Hs, Hf', Hres. exists c', r', p. split_and!; [done..|]. intros rs Hrs Hst Hid Hx.
  assert (p ∈ pending_ r' ∧ po_client_order_id p = new_id) as [Hin Hpid].
  { assert (p ∈ reservations_of new_id r') as Hm by (rewrite Hres; by left). unfold reservations_of in Hm.
    apply list_elem_of_filter in Hm. tauto. }
  destruct Hok as (r0 & pnl0 & a0 & q0 & _ & Hp0 & _ & _ & Hpnl & Hom). rewrite Hp in Hp0. injection Hp0 as <-.
  apply find_Some in Hf as [Hi _]. pose proof (wf_order_of MaxT MaxP MaxO _ _ _ _ _ Hom Hi) as (_ & Hfq & Hrq & _).
  pose proof Hrs as (_ & Hxq & _). unfold is_qty in Hxq.
  assert (RiskManager.onOrderResponse MaxP rs r' pnl = Ok (false, r', pnl)) as Hrisk.
  { apply (risk_refuses rs r' pnl p); try done; [congruence|]. intros t. unfold applies. rewrite Hst. lia. }
  unfold OrderManager.onOrderResponse. rewrite Hid, Hf', Hst. rewrite (proj2 (Z.eqb_neq (rs_executed_qty rs) 0)) by lia.
  cbn [replaced om_state set_request om_request rq_qty om_filled_qty orb]. replace (is_finished (om_state o)) with false by (by destruct (om_state o)).
  rewrite (wrapU_small 64) by lia. rewrite (proj2 (Z.ltb_ge _ _)) by lia. rewrite Hr', Hp', Hp. unfold risk_response.
  rewrite Hp', Hp, Hrisk. cbn [mbind outcome_bind fst snd negb]. set (o'' := set_state DEAD (replaced o new_id price qty)).
  match goal with |- context [notify o'' ?x] => destruct (notify_frame o'' x) as (Ho' & Hr1 & Hp1 & _) end.
  eexists _, o''. split; [done|]. split_and!; [by rewrite Hr1|by rewrite Hp1| |done]. rewrite Ho'. exact (find_put _ i (replaced o new_id price qty) o'' Hf' eq_refl).
Qed.
End Faults.

(** ** On a working order of 10 *)

Lemma partial_cancel_strands_witness :
  ∃ c', OrderManager.onOrderResponse 64 (ex_response (ex_id 1) CANCELED 0 4) ex_working = Ok (true, c') ∧
    OrderManager.onOrderResponse 64 (ex_response (ex_id 1) EXECUTED 6 0) c' = Ok (false, c').
Proof.
  assert (find (ex_id 1) (c_om ex_working) = Some (0%nat, set_state ACTIVE (new_OMOrder (with_id (ex_buy 10) (ex_id 1))))) as Hf.
  { vm_compute. reflexivity. }
  destruct (partial_cancel_strands 16 64 256 ltac:(done) (ex_response (ex_id 1) CANCELED 0 4) ex_working ex_pnl 0 _
    ex_working_ok eq_refl ex_pnl_roomy ltac:(by apply ex_response_wf) eq_refl Hf eq_refl ltac:(done))
    as (c' & r' & p & o' & Hrun & _ & _ & _ & _ & _ & Hlater).
  exists c'. split; [exact Hrun|]. by apply Hlater.
Defined.

Definition ex_order : OMOrder := set_state ACTIVE (new_OMOrder (with_id (ex_buy 10) (ex_id 1))).
Definition ex_outgoing : BQueue OrderRequest := mkBQueue 8 [with_id (ex_buy 10) (ex_id 1)].

Lemma resizing_replace_desyncs_witness :
  ∃ c' c'', sendReplace 64 (ex_id 1) 1000 500 ex_working = Ok (true, c') ∧
    sent c' = sent ex_working ++ [mkOrderRequest RQ_REPLACE (ex_id 1) (ex_id 2) 1 BUY 1000 500 false] ∧
    max_order_qty example_limits = 50 ∧
    OrderManager.onOrderResponse 64 (ex_response (ex_id 2) EXECUTED 500 0) c' = Ok (false, c'') ∧ c_pnl c'' = Some ex_pnl.
Proof.
  assert (find (om_id ex_order) (c_om ex_working) = Some (0%nat, ex_order)) as Hf by (vm_compute; reflexivity).
  destruct (resizing_replace_desyncs 16 64 256 ltac:(done) 1000 500 ex_working ex_pnl 0 ex_order
    (mkAllocator 2 2) ex_outgoing ex_working_ok eq_refl ex_pnl_roomy eq_refl eq_refl Hf eq_refl eq_refl eq_refl)
    as (c' & r' & p & Hrun & Hs & _ & _ & _ & Hfill).
  destruct (Hfill (ex_response (ex_id 2) EXECUTED 500 0)) as (c'' & o'' & Hx & _ & Hp & _); [by apply ex_response_wf|done..|].
  exists c', c''. split_and!; [exact Hrun|exact Hs|done|exact Hx|exact Hp].
Defined.
