(* ===== verification/MarketOrderBook.v ===== *)
(** * [MarketOrderBook] of [src/src/market_order_book.{h,cpp}]

    The limit order book of one ticker, at the level of its pointers.  Order
    nodes live in a heap at addresses the object pool hands out; a freed
    node leaves the heap, so that touching it is [Undef].  The price levels are
    the nodes of the two [std::map]s: such a node does not move while its key
    is present, so a [PriceLevel*] is the side of its map and its key, and it
    dangles once the key is erased.  [level_pool_] and the logger are never
    used by the class. *)

From stdpp Require Import sorting.
From S2P Require Import Prelude Types QuantLink.

Abbreviation loc := positive (only parsing).

Record BookOrder : Type := mkBookOrder {
  bo_order_ref : OrderId;
  bo_qty : Quantity;
  bo_next : option loc;
  bo_prev : option loc
}.

Record PriceLevel : Type := mkPriceLevel {
  pl_price : Price;
  pl_total_qty : Quantity;
  pl_head : option loc;
  pl_tail : option loc
}.

(** [true]: a level of [bids_]; [false]: of [asks_]. *)
Definition LevelPtr : Type := bool * Price.

Record OrderLocation : Type := mkOrderLocation {
  ol_side : Side;
  ol_level : LevelPtr;
  ol_order : loc
}.

#[export] Instance BookOrder_eq_dec : EqDecision BookOrder.
Proof. solve_decision. Defined.
#[export] Instance PriceLevel_eq_dec : EqDecision PriceLevel.
Proof. solve_decision. Defined.
#[export] Instance OrderLocation_eq_dec : EqDecision OrderLocation.
Proof. solve_decision. Defined.

Record MarketOrderBook (P : Type) : Type := mkBook {
  ticker_id_ : TickerId;
  bids_ : gmap Price PriceLevel;
  asks_ : gmap Price PriceLevel;
  order_index_ : gmap OrderId OrderLocation;
  bbo_ : BBO;
  best_bid_ : option LevelPtr;
  best_ask_ : option LevelPtr;
  order_pool_ : P;
  heap_ : gmap loc BookOrder;
  in_snapshot_ : bool
}.
Arguments mkBook {P} _ _ _ _ _ _ _ _ _ _.
Arguments ticker_id_ {P} _.
Arguments bids_ {P} _.
Arguments asks_ {P} _.
Arguments order_index_ {P} _.
Arguments bbo_ {P} _.
Arguments best_bid_ {P} _.
Arguments best_ask_ {P} _.
Arguments order_pool_ {P} _.
Arguments heap_ {P} _.
Arguments in_snapshot_ {P} _.

Definition set_next (n : option loc) (o : BookOrder) : BookOrder :=
  mkBookOrder (bo_order_ref o) (bo_qty o) n (bo_prev o).
Definition set_prev (p : option loc) (o : BookOrder) : BookOrder :=
  mkBookOrder (bo_order_ref o) (bo_qty o) (bo_next o) p.
Definition set_ref_qty (ref : OrderId) (q : Quantity) (o : BookOrder) : BookOrder :=
  mkBookOrder ref q (bo_next o) (bo_prev o).
Definition set_head (h : option loc) (l : PriceLevel) : PriceLevel :=
  mkPriceLevel (pl_price l) (pl_total_qty l) h (pl_tail l).
Definition set_tail (t : option loc) (l : PriceLevel) : PriceLevel :=
  mkPriceLevel (pl_price l) (pl_total_qty l) (pl_head l) t.
Definition set_total (q : Quantity) (l : PriceLevel) : PriceLevel :=
  mkPriceLevel (pl_price l) q (pl_head l) (pl_tail l).

(** Keys in the iteration order of the two maps: [std::greater] for the bids,
    [std::less] for the asks. *)
Definition bid_keys (m : gmap Price PriceLevel) : list Price := merge_sort (flip Z.le) (map_to_list m).*1.
Definition ask_keys (m : gmap Price PriceLevel) : list Price := merge_sort Z.le (map_to_list m).*1.

Section Book.
Context {P : Type} `{ObjectPool P}.
Abbreviation book := (MarketOrderBook P).

Definition MarketOrderBook_new (ticker_id : TickerId) (pool_size : nat) : book :=
  mkBook ticker_id ∅ ∅ ∅ default_BBO None None (op_new pool_size) ∅ false.

(** ** Memory accesses *)
Definition levels (bid : bool) (b : book) : gmap Price PriceLevel := if bid then bids_ b else asks_ b.
Definition set_levels (bid : bool) (m : gmap Price PriceLevel) (b : book) : book :=
  mkBook (ticker_id_ b) (if bid then m else bids_ b) (if bid then asks_ b else m) (order_index_ b) (bbo_ b)
    (best_bid_ b) (best_ask_ b) (order_pool_ b) (heap_ b) (in_snapshot_ b).
Definition set_heap (h : gmap loc BookOrder) (b : book) : book :=
  mkBook (ticker_id_ b) (bids_ b) (asks_ b) (order_index_ b) (bbo_ b) (best_bid_ b) (best_ask_ b)
    (order_pool_ b) h (in_snapshot_ b).
Definition set_pool (p : P) (b : book) : book :=
  mkBook (ticker_id_ b) (bids_ b) (asks_ b) (order_index_ b) (bbo_ b) (best_bid_ b) (best_ask_ b)
    p (heap_ b) (in_snapshot_ b).
Definition set_index (m : gmap OrderId OrderLocation) (b : book) : book :=
  mkBook (ticker_id_ b) (bids_ b) (asks_ b) m (bbo_ b) (best_bid_ b) (best_ask_ b)
    (order_pool_ b) (heap_ b) (in_snapshot_ b).
Definition set_best (bbo : BBO) (bid ask : option LevelPtr) (b : book) : book :=
  mkBook (ticker_id_ b) (bids_ b) (asks_ b) (order_index_ b) bbo bid ask
    (order_pool_ b) (heap_ b) (in_snapshot_ b).
Definition set_in_snapshot (s : bool) (b : book) : book :=
  mkBook (ticker_id_ b) (bids_ b) (asks_ b) (order_index_ b) (bbo_ b) (best_bid_ b) (best_ask_ b)
    (order_pool_ b) (heap_ b) s.

Definition deref {A} (x : option A) : outcome A := match x with Some a => Ok a | None => Undef end.

Definition read_level (lp : LevelPtr) (b : book) : outcome PriceLevel := deref (levels lp.1 b !! lp.2).
Definition write_level (lp : LevelPtr) (l : PriceLevel) (b : book) : book :=
  set_levels lp.1 (<[lp.2 := l]> (levels lp.1 b)) b.
Definition read_order (o : loc) (b : book) : outcome BookOrder := deref (heap_ b !! o).
Definition write_order (o : loc) (x : BookOrder) (b : book) : book := set_heap (<[o := x]> (heap_ b)) b.

(** Read-modify-write of one field through a pointer. *)
Definition modify_level (lp : LevelPtr) (f : PriceLevel → PriceLevel) (b : book) : outcome book :=
  l ← read_level lp b; Ok (write_level lp (f l) b).
Definition modify_order (o : loc) (f : BookOrder → BookOrder) (b : book) : outcome book :=
  x ← read_order o b; Ok (write_order o (f x) b).

(** ** Levels and nodes *)
Definition getOrCreateLevel (side : Side) (price : Price) (b : book) : LevelPtr * book :=
  let bid := is_buy side in
  ((bid, price),
   match levels bid b !! price with
   | Some _ => b
   | None => set_levels bid (<[price := mkPriceLevel price 0 None None]> (levels bid b)) b
   end).

Definition allocateOrder (order_ref : OrderId) (qty : Quantity) (b : book) : outcome (loc * book) :=
  '(o, pool) ← deref (op_allocate (order_pool_ b));
  Ok (o, write_order o (mkBookOrder order_ref qty None None) (set_pool pool b)).

Definition deallocateOrder (o : loc) (b : book) : outcome book :=
  _ ← read_order o b;
  Ok (set_heap (delete o (heap_ b)) (set_pool (op_deallocate o (order_pool_ b)) b)).

Definition linkOrder (lp : LevelPtr) (o : loc) (b : book) : outcome book :=
  level ← read_level lp b;
  b ← match pl_head level with
      | None => modify_level lp (λ l, set_tail (Some o) (set_head (Some o) l)) b
      | Some _ =>
          b ← modify_order o (set_prev (pl_tail level)) b;
          tail ← deref (pl_tail level);
          b ← modify_order tail (set_next (Some o)) b;
          modify_level lp (set_tail (Some o)) b
      end;
  order ← read_order o b;
  modify_level lp (λ l, set_total (wrapU 32 (pl_total_qty l + bo_qty order)) l) b.

Definition unlinkOrder (lp : LevelPtr) (o : loc) (b : book) : outcome book :=
  order ← read_order o b;
  b ← match bo_prev order with
      | Some prev => modify_order prev (set_next (bo_next order)) b
      | None => modify_level lp (set_head (bo_next order)) b
      end;
  order ← read_order o b;
  b ← match bo_next order with
      | Some next => modify_order next (set_prev (bo_prev order)) b
      | None => modify_level lp (set_tail (bo_prev order)) b
      end;
  order ← read_order o b;
  modify_level lp (λ l, set_total (wrapU 32 (pl_total_qty l - bo_qty order)) l) b.

(** [begin()->second] of the two maps. *)
Definition best_level (bid : bool) (b : book) : option (LevelPtr * PriceLevel) :=
  match (if bid then bid_keys else ask_keys) (levels bid b) with
  | k :: _ => (λ l, ((bid, k), l)) <$> levels bid b !! k
  | [] => None
  end.

Definition updateBBO (b : book) : book :=
  let bid := best_level true b in
  let ask := best_level false b in
  set_best
    (mkBBO (default Price_INVALID (pl_price ∘ snd <$> bid)) (default 0 (pl_total_qty ∘ snd <$> bid))
           (default Price_INVALID (pl_price ∘ snd <$> ask)) (default 0 (pl_total_qty ∘ snd <$> ask)))
    (fst <$> bid) (fst <$> ask) b.

(** [if (level->head == nullptr) map.erase(level->price)]; the map is chosen
    by the order's recorded side. *)
Definition eraseEmptyLevel (side : Side) (lp : LevelPtr) (b : book) : outcome book :=
  level ← read_level lp b;
  match pl_head level with
  | Some _ => Ok b
  | None => Ok (set_levels (is_buy side) (delete (pl_price level) (levels (is_buy side) b)) b)
  end.

(** ** Changes to resting orders *)
Definition eraseOrder (order_ref : OrderId) (b : book) : outcome (bool * book) :=
  match order_index_ b !! order_ref with
  | None => Ok (false, b)
  | Some location =>
      b ← unlinkOrder (ol_level location) (ol_order location) b;
      b ← deallocateOrder (ol_order location) b;
      b ← eraseEmptyLevel (ol_side location) (ol_level location) b;
      Ok (true, set_index (delete order_ref (order_index_ b)) b)
  end.

Definition reduceOrder (update : MarketUpdate) (b : book) : outcome (bool * book) :=
  match order_index_ b !! mu_order_ref update with
  | None => Ok (false, b)
  | Some location =>
      order ← read_order (ol_order location) b;
      if bo_qty order <=? mu_qty update then eraseOrder (mu_order_ref update) b
      else
        b ← modify_order (ol_order location)
              (λ o, set_ref_qty (bo_order_ref o) (wrapU 32 (bo_qty o - mu_qty update)) o) b;
        b ← modify_level (ol_level location)
              (λ l, set_total (wrapU 32 (pl_total_qty l - mu_qty update)) l) b;
        Ok (true, b)
  end.

Definition replaceOrder (update : MarketUpdate) (b : book) : outcome (bool * book) :=
  match order_index_ b !! mu_order_ref update with
  | None => Ok (false, b)
  | Some location =>
      if bool_decide (is_Some (order_index_ b !! mu_new_ref update)) then Ok (false, b)
      else
        b ← unlinkOrder (ol_level location) (ol_order location) b;
        b ← eraseEmptyLevel (ol_side location) (ol_level location) b;
        let '(new_level, b) := getOrCreateLevel (mu_side update) (mu_price update) b in
        b ← modify_order (ol_order location) (set_ref_qty (mu_new_ref update) (mu_qty update)) b;
        b ← linkOrder new_level (ol_order location) b;
        Ok (true, set_index (<[mu_new_ref update := mkOrderLocation (mu_side update) new_level (ol_order location)]>
                               (delete (mu_order_ref update) (order_index_ b))) b)
  end.

(** ** Clearing and snapshots *)

(** [while (order) { next = order->next; deallocate(order); order = next; }].
    Every iteration frees a node, so [S (size heap)] rounds are enough. *)
Fixpoint free_orders (fuel : nat) (order : option loc) (b : book) : outcome book :=
  match order with
  | None => Ok b
  | Some o =>
      match fuel with
      | O => Undef
      | S fuel' =>
          x ← read_order o b;
          b ← deallocateOrder o b;
          free_orders fuel' (bo_next x) b
      end
  end.

Fixpoint free_levels (bid : bool) (keys : list Price) (b : book) : outcome book :=
  match keys with
  | [] => Ok b
  | k :: keys' =>
      level ← read_level (bid, k) b;
      b ← free_orders (S (size (heap_ b))) (pl_head level) b;
      free_levels bid keys' b
  end.

Definition clear (b : book) : outcome book :=
  b ← free_levels true (bid_keys (bids_ b)) b;
  b ← free_levels false (ask_keys (asks_ b)) b;
  Ok (set_best default_BBO None None (set_index ∅ (set_levels false ∅ (set_levels true ∅ b)))).

Definition onSnapshotStart (last_inc_seq_num : SeqNum) (b : book) : outcome book :=
  b ← clear b; Ok (set_in_snapshot true b).
Definition onSnapshotClear (b : book) : outcome book := clear b.
Definition onSnapshotEnd (b : book) : book := updateBBO (set_in_snapshot false b).

(** ** Dispatch *)
Definition addOrder (update : MarketUpdate) (b : book) : outcome book :=
  if bool_decide (is_Some (order_index_ b !! mu_order_ref update)) then Ok b
  else
    let '(level, b) := getOrCreateLevel (mu_side update) (mu_price update) b in
    '(order, b) ← allocateOrder (mu_order_ref update) (mu_qty update) b;
    b ← linkOrder level order b;
    Ok (updateBBO (set_index (<[mu_order_ref update := mkOrderLocation (mu_side update) level order]>
                                (order_index_ b)) b)).

(** [if (op(update)) updateBBO();] *)
Definition refresh (r : outcome (bool * book)) : outcome book :=
  '(changed, b) ← r; Ok (if (changed : bool) then updateBBO b else b).

Definition applyUpdate (update : MarketUpdate) (b : book) : outcome book :=
  match mu_type update with
  | SNAPSHOT_START => onSnapshotStart (mu_order_ref update) b
  | SNAPSHOT_CLEAR => if mu_ticker_id update =? ticker_id_ b then onSnapshotClear b else Ok b
  | SNAPSHOT_END => Ok (onSnapshotEnd b)
  | ty =>
      if negb (mu_ticker_id update =? ticker_id_ b) then Ok b
      else match ty with
      | ADD | ADD_MPID => addOrder update b
      | DELETE => refresh (eraseOrder (mu_order_ref update) b)
      | CANCEL | EXECUTE => refresh (reduceOrder update b)
      | REPLACE => refresh (replaceOrder update b)
      | _ => Ok b
      end
  end.

Definition getBBO (b : book) : BBO := bbo_ b.
Definition empty (b : book) : bool := bool_decide (bids_ b = ∅) && bool_decide (asks_ b = ∅).
Definition trackedOrders (b : book) : nat := size (order_index_ b).
Definition bidLevels (b : book) : nat := size (bids_ b).
Definition askLevels (b : book) : nat := size (asks_ b).

Fixpoint applyUpdates (us : list MarketUpdate) (b : book) : outcome book :=
  match us with
  | [] => Ok b
  | u :: us' => b ← applyUpdate u b; applyUpdates us' b
  end.
End Book.
