(* ===== verification/BookRep.v ===== *)
(** * Representation of the order book

    What the pointers of [MarketOrderBook] mean: every price level is a doubly
    linked list of the orders resting at its price, oldest first.  The lemmas
    give the effect of each pointer operation on that reading. *)

From S2P Require Import Prelude Types QuantLink MarketOrderBook.

(** A resting order, as the exchange knows it. *)
Record Resting : Type := mkResting {
  r_ref : OrderId;
  r_side : Side;
  r_price : Price;
  r_qty : Quantity
}.

#[export] Instance Resting_eq_dec : EqDecision Resting.
Proof. solve_decision. Defined.

(** The level an order rests at. *)
Definition lp_of (x : Resting) : LevelPtr := (is_buy (r_side x), r_price x).

(** ** Linked segments *)

(** [chain h prev l nxt]: the nodes of [l] are linked in order, the first back
    to [prev] and the last on to [nxt]. *)
Fixpoint chain (h : gmap loc BookOrder) (prev : option loc) (l : list (loc * Resting)) (nxt : option loc) : Prop :=
  match l with
  | [] => True
  | (a, x) :: l' =>
      h !! a = Some (mkBookOrder (r_ref x) (r_qty x) (match l' with [] => nxt | (b, _) :: _ => Some b end) prev) ∧
      chain h (Some a) l' nxt
  end.

Definition first_addr (l : list (loc * Resting)) (d : option loc) : option loc :=
  match l with [] => d | (a, _) :: _ => Some a end.
Definition last_addr (l : list (loc * Resting)) (d : option loc) : option loc :=
  match last l with None => d | Some (a, _) => Some a end.

Lemma last_addr_snoc l a x d : last_addr (l ++ [(a, x)]) d = Some a.
Proof. unfold last_addr. by rewrite last_snoc. Qed.

Lemma last_addr_cons a x l d : last_addr ((a, x) :: l) d = last_addr l (Some a).
Proof. unfold last_addr. rewrite last_cons. by destruct (last l) as [[]|]. Qed.

Lemma last_addr_app l1 l2 d : last_addr (l1 ++ l2) d = last_addr l2 (last_addr l1 d).
Proof. unfold last_addr. rewrite last_app. by destruct (last l2) as [[]|], (last l1) as [[]|]. Qed.

Lemma first_addr_app l1 l2 d : first_addr (l1 ++ l2) d = first_addr l1 (first_addr l2 d).
Proof. by destruct l1 as [|[] ?]. Qed.

Lemma chain_cons h prev a x l nxt :
  chain h prev ((a, x) :: l) nxt ↔
  h !! a = Some (mkBookOrder (r_ref x) (r_qty x) (first_addr l nxt) prev) ∧ chain h (Some a) l nxt.
Proof. done. Qed.

Lemma chain_app h prev l1 l2 nxt :
  chain h prev (l1 ++ l2) nxt ↔ chain h prev l1 (first_addr l2 nxt) ∧ chain h (last_addr l1 prev) l2 nxt.
Proof.
  revert prev. induction l1 as [|[a x] l1 IH]; intros prev; [simpl; tauto|].
  rewrite <- app_comm_cons, !chain_cons, IH, last_addr_cons, first_addr_app. tauto.
Qed.

Lemma chain_frame h h' prev l nxt :
  (∀ a, a ∈ l.*1 → h' !! a = h !! a) → chain h prev l nxt → chain h' prev l nxt.
Proof.
  revert prev. induction l as [|[a x] l IH]; intros prev Heq; [done|]. rewrite !chain_cons. intros [Ha Hl]. split.
  - rewrite Heq; [done|]. apply elem_of_cons. by left.
  - apply IH; [|done]. intros c Hc. apply Heq. apply elem_of_cons. by right.
Qed.

Lemma chain_dom h prev l nxt a : chain h prev l nxt → a ∈ l.*1 → is_Some (h !! a).
Proof.
  revert prev. induction l as [|[c x] l IH]; intros prev; [by intros _ []%elem_of_nil|].
  rewrite chain_cons. intros [Hc Hl] [->|Ha]%elem_of_cons; eauto.
Qed.

(** [tail->next = n] *)
Lemma chain_set_next h prev l c y nxt n :
  NoDup (l ++ [(c, y)]).*1 → chain h prev (l ++ [(c, y)]) nxt →
  ∃ nd, h !! c = Some nd ∧ bo_order_ref nd = r_ref y ∧ bo_qty nd = r_qty y ∧
    chain (<[c := set_next n nd]> h) prev (l ++ [(c, y)]) n.
Proof.
  rewrite fmap_app, NoDup_app. intros (_ & Hnin & _). rewrite chain_app, chain_cons. intros (Hl & Hc & _).
  eexists. split_and!; [exact Hc|done|done|]. rewrite chain_app, chain_cons. split_and!; [|by rewrite lookup_insert_eq|done].
  eapply chain_frame; [|exact Hl]. intros a Ha. apply lookup_insert_ne. intros ->.
  apply (Hnin _ Ha). by apply list_elem_of_singleton.
Qed.

(** [head->prev = p] *)
Lemma chain_set_prev h prev c y l nxt p :
  NoDup ((c, y) :: l).*1 → chain h prev ((c, y) :: l) nxt →
  ∃ nd, h !! c = Some nd ∧ bo_order_ref nd = r_ref y ∧ bo_qty nd = r_qty y ∧
    chain (<[c := set_prev p nd]> h) p ((c, y) :: l) nxt.
Proof.
  intros Hnd. rewrite fmap_cons in Hnd. apply NoDup_cons in Hnd as [Hnin _]. rewrite chain_cons. intros (Hc & Hl).
  eexists. split_and!; [exact Hc|done|done|]. rewrite chain_cons. split; [by rewrite lookup_insert_eq|].
  eapply chain_frame; [|exact Hl]. intros a Ha. apply lookup_insert_ne. intros ->. by apply Hnin.
Qed.

(** ** Levels *)

Definition queue_qty (l : list (loc * Resting)) : Z := sumZ (r_qty ∘ snd <$> l).

(** The level structure of a queue. *)
Definition level_of (p : Price) (l : list (loc * Resting)) : PriceLevel :=
  mkPriceLevel p (wrapU 32 (queue_qty l)) (first_addr l None) (last_addr l None).

Lemma queue_qty_app l k : queue_qty (l ++ k) = queue_qty l + queue_qty k.
Proof. unfold queue_qty. by rewrite fmap_app, sumZ_app. Qed.

Lemma queue_qty_cons a x l : queue_qty ((a, x) :: l) = r_qty x + queue_qty l.
Proof. done. Qed.

Lemma level_set_head p l h : set_head h (level_of p l) = mkPriceLevel p (wrapU 32 (queue_qty l)) h (last_addr l None).
Proof. done. Qed.

Lemma wrapU_add_idemp w a b : wrapU w (wrapU w a + b) = wrapU w (a + b).
Proof. unfold wrapU. apply Zplus_mod_idemp_l. Qed.
Lemma wrapU_sub_idemp w a b : wrapU w (wrapU w a - b) = wrapU w (a - b).
Proof. unfold wrapU. apply Zminus_mod_idemp_l. Qed.

(** The orders resting at a level, oldest first. *)
Definition queue (lp : LevelPtr) (G : list (loc * Resting)) : list (loc * Resting) :=
  filter (λ ax, lp_of ax.2 = lp) G.

Lemma queue_app lp G1 G2 : queue lp (G1 ++ G2) = queue lp G1 ++ queue lp G2.
Proof. apply filter_app. Qed.

Lemma queue_cons_eq lp a x G : lp_of x = lp → queue lp ((a, x) :: G) = (a, x) :: queue lp G.
Proof. intros Hx. unfold queue. by rewrite filter_cons_True. Qed.

Lemma queue_cons_ne lp a x G : lp_of x ≠ lp → queue lp ((a, x) :: G) = queue lp G.
Proof. intros Hx. unfold queue. by rewrite filter_cons_False. Qed.

Lemma queue_sub lp G : queue lp G ⊆+ G.
Proof. apply sublist_submseteq, sublist_filter. Qed.

Lemma queue_addrs lp G a : a ∈ (queue lp G).*1 → a ∈ G.*1.
Proof. intros Ha. eapply elem_of_submseteq; [exact Ha|]. apply fmap_submseteq, queue_sub. Qed.

Lemma queue_NoDup lp G : NoDup G.*1 → NoDup (queue lp G).*1.
Proof. intros Hnd. eapply submseteq_NoDup_inv; [|exact Hnd]. apply fmap_submseteq, queue_sub. Qed.

Lemma queue_disjoint lp lp' G c :
  NoDup G.*1 → lp ≠ lp' → c ∈ (queue lp G).*1 → c ∉ (queue lp' G).*1.
Proof.
  intros Hnd Hne H1 H2.
  apply list_elem_of_fmap in H1 as ([c1 x1] & E1 & I1). apply list_elem_of_fmap in H2 as ([c2 x2] & E2 & I2).
  simpl in *. subst c1 c2. apply list_elem_of_filter in I1 as [L1 I1], I2 as [L2 I2]. simpl in *. apply Hne.
  apply list_elem_of_lookup in I1 as [i Hi], I2 as [j Hj].
  assert (i = j) as ->; [|congruence].
  eapply (NoDup_lookup G.*1); [done|..]; rewrite list_lookup_fmap, ?Hi, ?Hj; done.
Qed.

(** The level stored for a queue: absent exactly when nobody rests there. *)
Definition level_rep (h : gmap loc BookOrder) (p : Price) (l : list (loc * Resting)) (lvl : option PriceLevel) : Prop :=
  match lvl with
  | None => l = []
  | Some v => l ≠ [] ∧ v = level_of p l ∧ chain h None l None
  end.

Section Rep.
Context {P : Type} `{ObjectPoolLaws P}.
Implicit Types b : MarketOrderBook P.

Definition level_at (lp : LevelPtr) (b : MarketOrderBook P) : option PriceLevel := levels lp.1 b !! lp.2.

Definition levels_ok (G : list (loc * Resting)) (b : MarketOrderBook P) : Prop :=
  ∀ lp, level_rep (heap_ b) lp.2 (queue lp G) (level_at lp b).

(** As [levels_ok], but the level [lp] is present, perhaps empty. *)
Definition levels_at (lp : LevelPtr) (G : list (loc * Resting)) (b : MarketOrderBook P) : Prop :=
  (∀ lp', lp' ≠ lp → level_rep (heap_ b) lp'.2 (queue lp' G) (level_at lp' b)) ∧
  level_at lp b = Some (level_of lp.2 (queue lp G)) ∧ chain (heap_ b) None (queue lp G) None.

(** Everything but the heap and the levels. *)
Definition same_rest (b b' : MarketOrderBook P) : Prop :=
  ticker_id_ b' = ticker_id_ b ∧ order_index_ b' = order_index_ b ∧ bbo_ b' = bbo_ b ∧
  best_bid_ b' = best_bid_ b ∧ best_ask_ b' = best_ask_ b ∧ in_snapshot_ b' = in_snapshot_ b.

Lemma level_at_write lp v b : level_at lp (write_level lp v b) = Some v.
Proof using Type. destruct lp as [[] p]; unfold level_at; simpl; by rewrite lookup_insert_eq. Qed.

Lemma level_at_write_ne lp lp' v b : lp' ≠ lp → level_at lp' (write_level lp v b) = level_at lp' b.
Proof using Type.
  destruct lp as [[] p], lp' as [[] p']; unfold level_at; simpl; intros Hne; try done;
    apply lookup_insert_ne; congruence.
Qed.

Lemma heap_write_level lp v b : heap_ (write_level lp v b) = heap_ b.
Proof using Type. done. Qed.

Lemma level_at_set_heap lp h b : level_at lp (set_heap h b) = level_at lp b.
Proof using Type. by destruct lp as [[] p]. Qed.

Lemma write_level_twice lp v v' b : write_level lp v' (write_level lp v b) = write_level lp v' b.
Proof using Type.
  destruct lp as [[] p]; unfold write_level, set_levels; simpl; by rewrite insert_insert_eq.
Qed.

Lemma write_level_set_heap lp v h b : set_heap h (write_level lp v b) = write_level lp v (set_heap h b).
Proof using Type. by destruct lp as [[] p]. Qed.

Lemma set_heap_twice h h' b : set_heap h' (set_heap h b) = set_heap h' b.
Proof using Type. done. Qed.

Lemma modify_level_eq lp f b v : level_at lp b = Some v → modify_level lp f b = Ok (write_level lp (f v) b).
Proof using Type. unfold level_at, modify_level, read_level. by intros ->. Qed.

Lemma modify_order_eq o f b x : heap_ b !! o = Some x → modify_order o f b = Ok (set_heap (<[o := f x]> (heap_ b)) b).
Proof using Type. unfold modify_order, read_order. by intros ->. Qed.

Lemma read_order_eq o b x : heap_ b !! o = Some x → read_order o b = Ok x.
Proof using Type. unfold read_order. by intros ->. Qed.

Lemma write_level_id lp v b : level_at lp b = Some v → write_level lp v b = b.
Proof using Type.
  unfold level_at, write_level, set_levels. destruct lp as [[] p], b; simpl; intros Hv; by rewrite insert_id.
Qed.

(** ** Unlinking and linking *)

Section Pointers.
Context (lp : LevelPtr) (a : loc) (x : Resting) (l1 l2 : list (loc * Resting)).
Context (b : MarketOrderBook P).
Context (Hnd : NoDup (l1 ++ (a, x) :: l2).*1).
Context (Hch : chain (heap_ b) None (l1 ++ (a, x) :: l2) None).
Context (Hlv : level_at lp b = Some (level_of lp.2 (l1 ++ (a, x) :: l2))).
Abbreviation node := (mkBookOrder (r_ref x) (r_qty x) (first_addr l2 None) (last_addr l1 None)).

Lemma unlink_facts :
  chain (heap_ b) None l1 (Some a) ∧ heap_ b !! a = Some node ∧ chain (heap_ b) (Some a) l2 None ∧
  NoDup l1.*1 ∧ NoDup l2.*1 ∧ a ∉ l1.*1 ∧ a ∉ l2.*1 ∧ (∀ c, c ∈ l1.*1 → c ∉ l2.*1).
Proof using All.
  rewrite chain_app, chain_cons in Hch. destruct Hch as (H1 & H2 & H3).
  rewrite fmap_app, fmap_cons, NoDup_app, NoDup_cons in Hnd. destruct Hnd as (N1 & N2 & N3 & N4).
  split_and!; try done; simpl in *; set_solver.
Qed.

(** [order->prev->next = order->next], or [level->head = order->next]. *)
Lemma unlink_prev :
  ∃ h1, match last_addr l1 None with
        | Some prev => modify_order prev (set_next (first_addr l2 None)) b
        | None => modify_level lp (set_head (first_addr l2 None)) b
        end = Ok (write_level lp (set_head (first_addr (l1 ++ l2) None) (level_of lp.2 (l1 ++ (a, x) :: l2)))
                    (set_heap h1 b)) ∧
    chain h1 None l1 (first_addr l2 None) ∧ (∀ c, c ∉ l1.*1 → h1 !! c = heap_ b !! c) ∧ dom h1 = dom (heap_ b).
Proof using All.
  destruct unlink_facts as (C1 & Ha & C2 & N1 & _). destruct l1 as [|[c y] l0 _] eqn:El using rev_ind.
  - exists (heap_ b). split_and!; try done. simpl. rewrite (modify_level_eq _ _ _ _ Hlv). by destruct b.
  - rewrite last_addr_snoc. destruct (chain_set_next _ _ _ _ _ _ (first_addr l2 None) N1 C1) as (nd & Hc & Hr & Hq & C1').
    exists (<[c := set_next (first_addr l2 None) nd]> (heap_ b)). split_and!; [|exact C1'| |].
    + rewrite (modify_order_eq _ _ _ _ Hc). f_equal. symmetry. apply write_level_id.
      rewrite level_at_set_heap, Hlv. unfold set_head, level_of. simpl. rewrite !first_addr_app. simpl.
      by destruct l0 as [|[] ?].
    + intros d Hd. apply lookup_insert_ne. intros ->. apply Hd. rewrite fmap_app. set_solver.
    + apply dom_insert_lookup_L. eauto.
Qed.

(** [order->next->prev = order->prev], or [level->tail = order->prev]. *)
Lemma unlink_next h1 v :
  chain h1 None l1 (first_addr l2 None) → (∀ c, c ∉ l1.*1 → h1 !! c = heap_ b !! c) →
  pl_tail v = last_addr (l1 ++ (a, x) :: l2) None →
  ∃ h2, match first_addr l2 None with
        | Some next => modify_order next (set_prev (last_addr l1 None)) (write_level lp v (set_heap h1 b))
        | None => modify_level lp (set_tail (last_addr l1 None)) (write_level lp v (set_heap h1 b))
        end = Ok (write_level lp (set_tail (last_addr (l1 ++ l2) None) v) (set_heap h2 b)) ∧
    chain h2 None (l1 ++ l2) None ∧ (∀ c, c ∉ (l1 ++ l2).*1 → h2 !! c = heap_ b !! c) ∧ dom h2 = dom h1.
Proof using All.
  intros C1 Hf1 Ht. destruct unlink_facts as (_ & Ha & C2 & _ & N2 & _ & _ & Hdisj).
  assert (chain h1 (Some a) l2 None) as C2'.
  { eapply chain_frame; [|exact C2]. intros c Hc. apply Hf1. intros Hc1. by eapply Hdisj. }
  destruct l2 as [|[d z] l2'] eqn:El.
  - exists h1. simpl. rewrite (modify_level_eq _ _ _ _ (level_at_write _ _ _)), write_level_twice, app_nil_r.
    split_and!; try done.
  - destruct (chain_set_prev _ _ _ _ _ _ (last_addr l1 None) N2 C2') as (nd & Hd & Hr & Hq & C2'').
    exists (<[d := set_prev (last_addr l1 None) nd]> h1). split_and!.
    + assert (set_tail (last_addr (l1 ++ (d, z) :: l2') None) v = v) as ->.
      { destruct v as [vp vt vh vl]. unfold set_tail. simpl in *. f_equal.
        by rewrite Ht, !last_addr_app, !last_addr_cons. }
      simpl. rewrite (modify_order_eq _ _ _ nd) by done. by rewrite write_level_set_heap, set_heap_twice.
    + rewrite chain_app. split; [|exact C2'']. eapply chain_frame; [|exact C1].
      intros c Hc. apply lookup_insert_ne. intros <-. apply (Hdisj d Hc). apply elem_of_cons. by left.
    + intros c Hc. rewrite fmap_app, not_elem_of_app in Hc. destruct Hc as [Hc1 Hc2].
      rewrite lookup_insert_ne; [by apply Hf1|]. intros <-. apply Hc2. apply elem_of_cons. by left.
    + apply dom_insert_lookup_L. eauto.
Qed.

Lemma unlinkOrder_spec :
  ∃ h', unlinkOrder lp a b = Ok (write_level lp (level_of lp.2 (l1 ++ l2)) (set_heap h' b)) ∧
    chain h' None (l1 ++ l2) None ∧ (∀ c, c ∉ (l1 ++ l2).*1 → h' !! c = heap_ b !! c) ∧
    dom h' = dom (heap_ b).
Proof using All.
  destruct unlink_facts as (_ & Ha & _ & _ & _ & Ha1 & Ha2 & _).
  destruct unlink_prev as (h1 & E1 & C1 & Hf1 & D1).
  set (v1 := set_head _ _) in E1.
  destruct (unlink_next h1 v1 C1 Hf1 eq_refl) as (h2 & E2 & C2 & Hf2 & D2).
  exists h2. split_and!; [|done|done|congruence]. unfold unlinkOrder.
  rewrite (read_order_eq _ _ _ Ha). cbn [mbind outcome_bind bo_prev bo_next]. rewrite E1. cbn [mbind outcome_bind].
  rewrite (read_order_eq _ _ node) by (simpl; by rewrite Hf1). cbn [mbind outcome_bind bo_prev bo_next].
  rewrite E2. cbn [mbind outcome_bind].
  rewrite (read_order_eq _ _ node).
  2:{ simpl. rewrite Hf2; [done|]. by rewrite fmap_app, not_elem_of_app. }
  cbn [mbind outcome_bind bo_qty].
  rewrite (modify_level_eq _ _ _ _ (level_at_write _ _ _)), write_level_twice. do 2 f_equal.
  subst v1. unfold set_total, set_tail, set_head, level_of. simpl. f_equal.
  rewrite wrapU_sub_idemp, !queue_qty_app, queue_qty_cons. f_equal. lia.
Qed.
End Pointers.

(** A node with a clear [next] is appended; its [prev] is overwritten unless
    the level was empty. *)
Lemma linkOrder_spec lp a x l b pv :
  a ∉ l.*1 → NoDup l.*1 → chain (heap_ b) None l None → level_at lp b = Some (level_of lp.2 l) →
  heap_ b !! a = Some (mkBookOrder (r_ref x) (r_qty x) None pv) → (l = [] → pv = None) →
  ∃ h', linkOrder lp a b = Ok (write_level lp (level_of lp.2 (l ++ [(a, x)])) (set_heap h' b)) ∧
    chain h' None (l ++ [(a, x)]) None ∧ (∀ c, c ∉ (l ++ [(a, x)]).*1 → h' !! c = heap_ b !! c) ∧
    dom h' = dom (heap_ b).
Proof using All.
  intros Hnin Hnd Hch Hlv Ha Hpv. unfold linkOrder.
  assert (read_level lp b = Ok (level_of lp.2 l)) as Hrd by (unfold read_level; unfold level_at in Hlv; by rewrite Hlv).
  rewrite Hrd. cbn [mbind outcome_bind]. clear Hrd. destruct l as [|[c y] l0 _] using rev_ind.
  - rewrite Hpv in Ha by done. exists (heap_ b). split_and!; try done. simpl.
    rewrite (modify_level_eq _ _ _ _ Hlv). cbn [mbind outcome_bind].
    erewrite (read_order_eq a (write_level _ _ _)); [|exact Ha]. cbn [mbind outcome_bind].
    rewrite (modify_level_eq _ _ _ _ (level_at_write _ _ _)), write_level_twice.
    replace (set_total _ _) with (level_of lp.2 [(a, x)]); [by destruct b|].
    unfold level_of, set_total, queue_qty. simpl. f_equal. by rewrite Z.add_0_r.
  - destruct (chain_set_next _ _ _ _ _ _ (Some a) Hnd Hch) as (nd & Hc & Hr & Hq & C1).
    assert (c ≠ a) as Hca by (intros ->; apply Hnin; rewrite fmap_app; set_solver).
    set (na := mkBookOrder (r_ref x) (r_qty x) None (Some c)).
    set (h' := <[c := set_next (Some a) nd]> (<[a := na]> (heap_ b))).
    assert (h' !! a = Some na) as Ha' by (unfold h'; rewrite lookup_insert_ne by done; by rewrite lookup_insert_eq).
    exists h'. split_and!.
    + assert (pl_head (level_of lp.2 (l0 ++ [(c, y)])) ≠ None) as Hh by (simpl; by destruct l0 as [|[] ?]).
      destruct (pl_head _) as [hd|] eqn:Eh; [clear Hh|done]. simpl pl_tail. rewrite last_addr_snoc.
      rewrite (modify_order_eq _ _ _ _ Ha). cbn [mbind outcome_bind deref].
      rewrite (modify_order_eq _ _ _ nd) by (simpl; by rewrite lookup_insert_ne). cbn [mbind outcome_bind].
      rewrite set_heap_twice. change (<[c := _]> _) with h'.
      rewrite (modify_level_eq _ _ _ (level_of lp.2 (l0 ++ [(c, y)]))) by (by rewrite level_at_set_heap).
      cbn [mbind outcome_bind]. rewrite (read_order_eq _ _ na) by done. cbn [mbind outcome_bind].
      rewrite (modify_level_eq _ _ _ _ (level_at_write _ _ _)), write_level_twice. do 2 f_equal.
      unfold set_total, set_tail, level_of. simpl.
      rewrite wrapU_add_idemp, last_addr_snoc, !first_addr_app, !queue_qty_app.
      do 2 f_equal. unfold queue_qty. simpl. lia.
    + rewrite chain_app, chain_cons, last_addr_snoc. split_and!; [|done|done].
      eapply chain_frame; [|exact C1]. intros d Hd. unfold h'. destruct (decide (d = c)) as [->|].
      * by rewrite !lookup_insert_eq.
      * rewrite !lookup_insert_ne; try done. intros <-. done.
    + intros d Hd. unfold h'. rewrite !fmap_app in Hd. simpl in Hd.
      rewrite !lookup_insert_ne; [done| |]; intros <-; apply Hd; set_solver.
    + unfold h'. rewrite dom_insert_lookup_L, dom_insert_lookup_L; [done|eauto|].
      rewrite lookup_insert_ne; eauto.
Qed.

(** ** Effects on the whole book *)

Definition frame (b b' : MarketOrderBook P) : Prop :=
  same_rest b b' ∧ order_pool_ b' = order_pool_ b ∧ dom (heap_ b') = dom (heap_ b).

(** Writing one level and a heap that agrees outside its queue keeps the
    other levels. *)
Lemma levels_write lp G G' b h' v :
  levels_ok G b → chain h' None (queue lp G') None → v = level_of lp.2 (queue lp G') →
  (∀ c, c ∉ (queue lp G').*1 → h' !! c = heap_ b !! c) →
  (∀ lp', lp' ≠ lp → queue lp' G' = queue lp' G) → NoDup G'.*1 →
  levels_at lp G' (write_level lp v (set_heap h' b)).
Proof using All.
  intros Hok Hch -> Hh Hq Hnd. split_and!; [|by rewrite level_at_write|by rewrite heap_write_level].
  intros lp' Hne. rewrite level_at_write_ne, level_at_set_heap, (Hq lp' Hne) by done. simpl. specialize (Hok lp').
  destruct (level_at lp' b) as [v|]; [|done]. destruct Hok as (Hne' & -> & Hc). split_and!; try done.
  eapply chain_frame; [|exact Hc]. intros c Hc'. apply Hh. rewrite <- (Hq lp' Hne) in Hc'. by eapply queue_disjoint.
Qed.

Lemma queue_remove lp G1 a x G2 :
  lp_of x ≠ lp → queue lp (G1 ++ (a, x) :: G2) = queue lp (G1 ++ G2).
Proof using Type. intros Hx. by rewrite !queue_app, queue_cons_ne. Qed.

Lemma queue_split a x G1 G2 :
  queue (lp_of x) (G1 ++ (a, x) :: G2) = queue (lp_of x) G1 ++ (a, x) :: queue (lp_of x) G2.
Proof using Type. by rewrite queue_app, queue_cons_eq. Qed.

Lemma NoDup_remove_addr (G1 : list (loc * Resting)) a x G2 :
  NoDup (G1 ++ (a, x) :: G2).*1 → NoDup (G1 ++ G2).*1 ∧ a ∉ (G1 ++ G2).*1.
Proof using Type.
  rewrite !fmap_app, fmap_cons. simpl. rewrite <- Permutation_middle, NoDup_cons. tauto.
Qed.

(** The level of a resting order. *)
Lemma levels_ok_at G1 a x G2 b :
  levels_ok (G1 ++ (a, x) :: G2) b →
  level_at (lp_of x) b = Some (level_of (lp_of x).2 (queue (lp_of x) (G1 ++ (a, x) :: G2))) ∧
  chain (heap_ b) None (queue (lp_of x) (G1 ++ (a, x) :: G2)) None.
Proof using Type.
  intros Hok. specialize (Hok (lp_of x)). rewrite queue_split in *. destruct (level_at _ b) as [v|].
  - by destruct Hok as (_ & -> & ?).
  - simpl in Hok. by destruct (queue (lp_of x) G1).
Qed.

Lemma unlink_levels G1 a x G2 b :
  levels_ok (G1 ++ (a, x) :: G2) b → NoDup (G1 ++ (a, x) :: G2).*1 →
  ∃ b', unlinkOrder (lp_of x) a b = Ok b' ∧ levels_at (lp_of x) (G1 ++ G2) b' ∧ frame b b' ∧
    heap_ b' !! a = Some (mkBookOrder (r_ref x) (r_qty x) (first_addr (queue (lp_of x) G2) None)
                            (last_addr (queue (lp_of x) G1) None)).
Proof using All.
  intros Hok Hnd. destruct (levels_ok_at _ _ _ _ _ Hok) as [Hl Hc]. rewrite queue_split in Hl, Hc.
  pose proof (queue_NoDup (lp_of x) _ Hnd) as Hndq. rewrite queue_split in Hndq.
  destruct (NoDup_remove_addr _ _ _ _ Hnd) as [Hnd' Ha].
  destruct (unlinkOrder_spec _ _ _ _ _ _ Hndq Hc Hl) as (h' & Hrun & Hch & Hf & Hd).
  destruct (unlink_facts _ _ _ _ _ _ Hndq Hc Hl) as (_ & Hnode & _).
  rewrite <- queue_app in *. eexists. split_and!; [exact Hrun| |by split_and!|].
  - eapply levels_write; try done. intros lp' Hne. by rewrite queue_remove.
  - simpl. rewrite Hf; [done|]. intros Hin. by apply queue_addrs in Hin.
Qed.

Lemma link_levels G a x b pv :
  levels_at (lp_of x) G b → NoDup G.*1 → a ∉ G.*1 →
  heap_ b !! a = Some (mkBookOrder (r_ref x) (r_qty x) None pv) → (queue (lp_of x) G = [] → pv = None) →
  ∃ b', linkOrder (lp_of x) a b = Ok b' ∧ levels_ok (G ++ [(a, x)]) b' ∧ frame b b'.
Proof using All.
  intros (Hoth & Hl & Hc) Hnd Ha Hnode Hpv.
  destruct (linkOrder_spec (lp_of x) a x (queue (lp_of x) G) b pv) as (h' & Hrun & Hch & Hf & Hd); try done.
  { intros Hin. by apply queue_addrs in Hin. }
  { by apply queue_NoDup. }
  eexists. split_and!; [exact Hrun| |by split_and!].
  assert (queue (lp_of x) (G ++ [(a, x)]) = queue (lp_of x) G ++ [(a, x)]) as Hq.
  { rewrite queue_app. f_equal. by rewrite queue_cons_eq. }
  intros lp. destruct (decide (lp = lp_of x)) as [->|Hne].
  - rewrite level_at_write. simpl. rewrite Hq. split_and!; [by destruct (queue (lp_of x) G)|done|done].
  - rewrite level_at_write_ne, level_at_set_heap, queue_app, queue_cons_ne, app_nil_r by done. simpl.
    specialize (Hoth lp Hne). destruct (level_at lp b) as [v|]; [|done]. destruct Hoth as (Hne' & -> & Hc').
    split_and!; try done. eapply chain_frame; [|exact Hc']. intros c Hcin. apply Hf. rewrite fmap_app.
    intros [Hcq|Hca%list_elem_of_singleton]%elem_of_app.
    + by eapply (queue_disjoint lp (lp_of x) G).
    + simpl in Hca. subst c. apply Ha. by eapply queue_addrs.
Qed.

(** Changing the heap outside the book. *)
Lemma levels_at_frame lp G b h :
  levels_at lp G b → (∀ c, c ∈ G.*1 → h !! c = heap_ b !! c) → levels_at lp G (set_heap h b).
Proof using Type.
  intros (Hoth & Hl & Hc) Hh.
  assert (∀ lp' p l, chain (heap_ b) p (queue lp' G) l → chain h p (queue lp' G) l) as Hfr.
  { intros lp' pv nx. apply chain_frame. intros c Hcin. apply Hh. by eapply queue_addrs. }
  split_and!; simpl; [|by rewrite level_at_set_heap|auto].
  intros lp' Hne. rewrite level_at_set_heap. specialize (Hoth lp' Hne).
  destruct (level_at lp' b); [|done]. destruct Hoth as (? & ? & ?). by split_and!; auto.
Qed.

Lemma levels_at_weaken lp G b : levels_ok G b → queue lp G ≠ [] → levels_at lp G b.
Proof using Type.
  intros Hok Hq. split; [by intros lp' _; apply Hok|]. specialize (Hok lp).
  destruct (level_at lp b); [|done]. by destruct Hok as (_ & -> & ?).
Qed.

(** [if (level->head == nullptr) map.erase(level->price)] restores the rule
    that empty levels are absent. *)
Lemma eraseEmptyLevel_levels side lp G b :
  levels_at lp G b → is_buy side = lp.1 →
  ∃ b', eraseEmptyLevel side lp b = Ok b' ∧ levels_ok G b' ∧ frame b b' ∧ heap_ b' = heap_ b.
Proof using Type.
  intros (Hoth & Hl & Hc) Hside. unfold eraseEmptyLevel, read_level. unfold level_at in Hl. rewrite Hl.
  cbn [deref mbind outcome_bind pl_head level_of]. destruct (queue lp G) as [|[c y] l] eqn:Eq; simpl.
  - eexists. split_and!; [done| |done|done].
    intros lp'. destruct (decide (lp' = lp)) as [->|Hne].
    + unfold level_at. rewrite Hside, Eq. destruct lp as [[] p]; simpl; by rewrite lookup_delete_eq.
    + specialize (Hoth lp' Hne). unfold level_at in *. rewrite Hside.
      destruct lp as [[] p], lp' as [[] p']; simpl in *; try done; rewrite lookup_delete_ne; congruence.
  - eexists. split_and!; [done| |done|done]. intros lp'. destruct (decide (lp' = lp)) as [->|Hne]; [|auto].
    unfold level_at. rewrite Hl, Eq. done.
Qed.

Lemma getOrCreateLevel_levels side price G b lp b' :
  levels_ok G b → getOrCreateLevel side price b = (lp, b') →
  lp = (is_buy side, price) ∧ levels_at lp G b' ∧ frame b b' ∧ heap_ b' = heap_ b.
Proof using Type.
  intros Hok [= <- <-]. set (lp := (is_buy side, price)). pose proof (Hok lp) as Hlp. unfold level_at in Hlp. simpl in Hlp.
  destruct (levels (is_buy side) b !! price) as [v|] eqn:El.
  - split_and!; try done; unfold lp in *; (split; [by intros lp' _; apply Hok|]);
      unfold level_at; simpl; rewrite El; by destruct Hlp as (_ & -> & ?).
  - change (set_levels _ _ b) with (write_level lp (mkPriceLevel price 0 None None) b). split_and!; try done.
    split_and!.
    + intros lp' Hne. rewrite level_at_write_ne by done. apply Hok.
    + rewrite level_at_write, Hlp. done.
    + by rewrite Hlp.
Qed.

Lemma levels_at_full lp G b : levels_at lp G b → queue lp G ≠ [] → levels_ok G b.
Proof using Type.
  intros (Hoth & Hl & Hc) Hq lp'. destruct (decide (lp' = lp)) as [->|Hne]; [|auto]. by rewrite Hl.
Qed.

Definition with_qty (q : Quantity) (x : Resting) : Resting := mkResting (r_ref x) (r_side x) (r_price x) q.

(** A partial execution or cancel: the node keeps its place in the queue. *)
Lemma reduce_levels G1 a x G2 b q :
  levels_ok (G1 ++ (a, x) :: G2) b → NoDup (G1 ++ (a, x) :: G2).*1 → 0 ≤ q < r_qty x → r_qty x < 2 ^ 32 →
  ∃ b1 b', modify_order a (λ o, set_ref_qty (bo_order_ref o) (wrapU 32 (bo_qty o - q)) o) b = Ok b1 ∧
    modify_level (lp_of x) (λ l, set_total (wrapU 32 (pl_total_qty l - q)) l) b1 = Ok b' ∧
    levels_ok (G1 ++ (a, with_qty (r_qty x - q) x) :: G2) b' ∧ frame b b'.
Proof using All.
  intros Hok Hnd Hq Hqx. destruct (levels_ok_at _ _ _ _ _ Hok) as [Hl Hc].
  set (x' := with_qty (r_qty x - q) x). assert (lp_of x' = lp_of x) as Hlp by done.
  pose proof (queue_NoDup (lp_of x) _ Hnd) as Hndq. rewrite queue_split in Hl, Hc, Hndq.
  destruct (unlink_facts _ _ _ _ _ _ Hndq Hc Hl) as (C1 & Ha & C2 & _ & _ & Ha1 & Ha2 & _).
  pose proof (queue_split a x' G1 G2) as Hq'. rewrite Hlp in Hq'.
  eexists _, _. split_and!; [apply (modify_order_eq _ _ _ _ Ha)|apply (modify_level_eq _ _ (set_heap _ b) _ Hl)|
    |by split_and!; [| |apply dom_insert_lookup_L; eauto]].
  apply (levels_at_full (lp_of x)); [|rewrite Hq'; by destruct (queue (lp_of x) G1)].
  eapply levels_write; [exact Hok|..]; rewrite ?Hq'.
  - rewrite chain_app, chain_cons. split_and!.
    + eapply chain_frame; [|exact C1]. intros c Hcin. apply lookup_insert_ne. by intros <-.
    + rewrite lookup_insert_eq. unfold set_ref_qty. simpl. by rewrite wrapU_small by lia.
    + eapply chain_frame; [|exact C2]. intros c Hcin. apply lookup_insert_ne. by intros <-.
  - unfold set_total, level_of. simpl. rewrite wrapU_sub_idemp, !first_addr_app, !last_addr_app, !last_addr_cons.
    f_equal. rewrite !queue_qty_app, !queue_qty_cons. f_equal. simpl. lia.
  - intros c Hcin. apply lookup_insert_ne. intros <-. apply Hcin. rewrite fmap_app, fmap_cons. set_solver.
  - intros lp' Hne. rewrite !queue_app, !queue_cons_ne by congruence. done.
  - rewrite fmap_app, fmap_cons in *. done.
Qed.

(** ** Freeing *)

(** [b'] is [b] with the nodes of [S] given back to the pool. *)
Definition freed (S : gset loc) (b b' : MarketOrderBook P) : Prop :=
  ∃ h p, b' = set_heap h (set_pool p b) ∧
    (∀ c, h !! c = if decide (c ∈ S) then None else heap_ b !! c) ∧
    op_live p = op_live (order_pool_ b) ∖ S ∧ op_capacity p = op_capacity (order_pool_ b).

Lemma freed_trans S T b b1 b2 : freed S b b1 → freed T b1 b2 → freed (S ∪ T) b b2.
Proof using All.
  intros (h1 & p1 & -> & Hh1 & Hl1 & Hc1) (h2 & p2 & -> & Hh2 & Hl2 & Hc2). exists h2, p2. split_and!; [done| | |].
  - intros c. rewrite Hh2. simpl. rewrite Hh1. repeat case_decide; try done; set_solver.
  - rewrite Hl2. simpl. rewrite Hl1. set_solver.
  - rewrite Hc2. done.
Qed.

Lemma freed_empty b : freed ∅ b b.
Proof using All.
  exists (heap_ b), (order_pool_ b). split_and!; [by destruct b| |set_solver|done].
  intros c. by rewrite decide_False by set_solver.
Qed.

Lemma free_orders_spec fuel prev l b :
  chain (heap_ b) prev l None → NoDup l.*1 → (length l ≤ fuel)%nat → list_to_set l.*1 ⊆ op_live (order_pool_ b) →
  ∃ b', free_orders fuel (first_addr l None) b = Ok b' ∧ freed (list_to_set l.*1) b b'.
Proof using All.
  revert fuel prev b. induction l as [|[a x] l IH]; intros fuel prev b Hch Hnd Hlen Hlive.
  { exists b. split; [by destruct fuel|]. apply freed_empty. }
  destruct fuel as [|fuel]; [simpl in Hlen; lia|]. rewrite chain_cons in Hch. destruct Hch as [Ha Hch].
  simpl in Hnd, Hlive, Hlen. apply NoDup_cons in Hnd as [Hnin Hnd].
  destruct (op_deallocate_live (order_pool_ b) a) as [Hl Hc]; [set_solver|].
  set (b1 := set_heap (delete a (heap_ b)) (set_pool (op_deallocate a (order_pool_ b)) b)).
  assert (freed {[a]} b b1) as Hf1.
  { eexists _, _. split_and!; [done| |done|done]. intros c. case_decide as Hca.
    - apply elem_of_singleton in Hca as ->. apply lookup_delete_eq.
    - apply lookup_delete_ne. set_solver. }
  destruct (IH fuel (Some a) b1) as (b' & Hrun & Hf).
  { eapply chain_frame; [|exact Hch]. intros c Hcin. apply lookup_delete_ne. by intros <-. }
  { done. } { lia. } { simpl. rewrite Hl. set_solver. }
  exists b'. split; [|simpl; by eapply freed_trans].
  cbn [free_orders first_addr]. rewrite (read_order_eq _ _ _ Ha). cbn [mbind outcome_bind bo_next].
  unfold deallocateOrder. rewrite (read_order_eq _ _ _ Ha). exact Hrun.
Qed.
End Rep.
