(* ===== verification/BookRefine.v ===== *)
(** * The order book implements time-priority queues

    The specification of [MarketOrderBook] is a list of resting orders in order
    of arrival.  [refines] says that the pointer structure represents such a
    list, and each operation is shown to simulate its specification. *)

From stdpp Require Import sorting.
From S2P Require Import Prelude Types QuantLink MarketOrderBook BookRep.

(** ** Specification *)

Definition known (ref : OrderId) (L : list Resting) : bool := bool_decide (ref ∈ (r_ref <$> L)).

(** The orders at one price, oldest first. *)
Definition at_level (lp : LevelPtr) (L : list Resting) : list Resting := filter (λ x, lp_of x = lp) L.

Fixpoint spec_remove (ref : OrderId) (L : list Resting) : list Resting :=
  match L with
  | [] => []
  | x :: L' => if r_ref x =? ref then L' else x :: spec_remove ref L'
  end.

(** A partial reduction keeps the order's place; a full one removes it. *)
Fixpoint spec_reduce (ref : OrderId) (q : Quantity) (L : list Resting) : list Resting :=
  match L with
  | [] => []
  | x :: L' =>
      if r_ref x =? ref then (if r_qty x <=? q then L' else with_qty (r_qty x - q) x :: L')
      else x :: spec_reduce ref q L'
  end.

Definition spec_add (ref : OrderId) (u : MarketUpdate) (L : list Resting) : list Resting :=
  L ++ [mkResting ref (mu_side u) (mu_price u) (mu_qty u)].

Definition spec_apply (tid : TickerId) (u : MarketUpdate) (L : list Resting) : list Resting :=
  match mu_type u with
  | SNAPSHOT_START => []
  | SNAPSHOT_CLEAR => if mu_ticker_id u =? tid then [] else L
  | SNAPSHOT_END => L
  | ty =>
      if negb (mu_ticker_id u =? tid) then L
      else match ty with
      | ADD | ADD_MPID => if known (mu_order_ref u) L then L else spec_add (mu_order_ref u) u L
      | DELETE => spec_remove (mu_order_ref u) L
      | CANCEL | EXECUTE => spec_reduce (mu_order_ref u) (mu_qty u) L
      | REPLACE =>
          if known (mu_order_ref u) L && negb (known (mu_new_ref u) L)
          then spec_add (mu_new_ref u) u (spec_remove (mu_order_ref u) L)
          else L
      | _ => L
      end
  end.

(** A replace that [replaceOrder] handles: it does not reset the [next] and
    [prev] of the moved node, so the order must be the youngest of its level
    and, if it is not alone there, must join a level that has orders. *)
Definition clean_replace (u : MarketUpdate) (L : list Resting) : bool :=
  match list_find (λ x, r_ref x = mu_order_ref u) L with
  | None => true
  | Some (i, x) =>
      let older := take i L in
      let younger := drop (S i) L in
      bool_decide (at_level (lp_of x) younger = []) &&
      (bool_decide (at_level (lp_of x) older = []) ||
       negb (bool_decide (at_level (is_buy (mu_side u), mu_price u) (older ++ younger) = [])))
  end.

Definition is_replace (u : MarketUpdate) : bool := bool_decide (mu_type u = REPLACE).
Definition is_add (u : MarketUpdate) : bool := bool_decide (mu_type u = ADD) || bool_decide (mu_type u = ADD_MPID).

(** [p] and [q] are the best price on a side and the quantity resting there. *)
Definition best_quote (bid : bool) (L : list Resting) (p : Price) (q : Quantity) : Prop :=
  (¬ (∃ x, x ∈ L ∧ is_buy (r_side x) = bid) ∧ p = Price_INVALID ∧ q = 0) ∨
  ((∃ x, x ∈ L ∧ lp_of x = (bid, p)) ∧
   (∀ x, x ∈ L → is_buy (r_side x) = bid → if bid then r_price x ≤ p else p ≤ r_price x) ∧
   q = wrapU 32 (sumZ (r_qty <$> at_level (bid, p) L))).

Definition is_bbo (L : list Resting) (v : BBO) : Prop :=
  best_quote true L (bid_price v) (bid_qty v) ∧ best_quote false L (ask_price v) (ask_qty v).

(** ** The specification on split lists *)

Lemma known_split ref L1 x L2 : r_ref x = ref → known ref (L1 ++ x :: L2) = true.
Proof. intros <-. apply bool_decide_true. rewrite fmap_app, fmap_cons. set_solver. Qed.

Section Split.
Context (ref : OrderId) (L1 L2 : list Resting) (x : Resting).
Context (Hx : r_ref x = ref) (Hnin : ref ∉ (r_ref <$> L1)).

Lemma spec_remove_split : spec_remove ref (L1 ++ x :: L2) = L1 ++ L2.
Proof using All.
  induction L1 as [|y l IH]; simpl in *; [by rewrite Hx, Z.eqb_refl|].
  destruct (r_ref y =? ref) eqn:E; bsplit; [set_solver|]. f_equal. apply IH. set_solver.
Qed.

Lemma spec_reduce_split q :
  spec_reduce ref q (L1 ++ x :: L2) =
    if r_qty x <=? q then L1 ++ L2 else L1 ++ with_qty (r_qty x - q) x :: L2.
Proof using All.
  induction L1 as [|y l IH]; simpl in *; [by rewrite Hx, Z.eqb_refl|].
  destruct (r_ref y =? ref) eqn:E; bsplit; [set_solver|]. rewrite IH by set_solver. by destruct (r_qty x <=? q).
Qed.

Lemma list_find_split :
  list_find (λ y, r_ref y = ref) (L1 ++ x :: L2) = Some (length L1, x).
Proof using All.
  apply list_find_Some. split_and!; [by rewrite list_lookup_middle|done|].
  intros j y Hj Hlt Hy. rewrite lookup_app_l in Hj by done. apply Hnin. rewrite <- Hy.
  apply list_elem_of_fmap. exists y. split; [done|]. apply list_elem_of_lookup. eauto.
Qed.
End Split.

Lemma spec_remove_absent ref L : known ref L = false → spec_remove ref L = L.
Proof.
  unfold known. intros Hk. bsplit. induction L as [|y l IH]; [done|]. simpl in *.
  destruct (r_ref y =? ref) eqn:E; bsplit; [set_solver|]. f_equal. apply IH. set_solver.
Qed.

Lemma spec_reduce_absent ref q L : known ref L = false → spec_reduce ref q L = L.
Proof.
  unfold known. intros Hk. bsplit. induction L as [|y l IH]; [done|]. simpl in *.
  destruct (r_ref y =? ref) eqn:E; bsplit; [set_solver|]. f_equal. apply IH. set_solver.
Qed.

Lemma queue_at_level lp G : (queue lp G).*2 = at_level lp G.*2.
Proof.
  unfold queue, at_level. induction G as [|[a x] G IH]; [done|]. rewrite fmap_cons, !filter_cons. cbn [snd].
  destruct (decide (lp_of x = lp)); [rewrite fmap_cons; cbn [snd]; f_equal|]; apply IH.
Qed.

(** ** Keys of the price maps *)

Definition keys (bid : bool) (m : gmap Price PriceLevel) : list Price := if bid then bid_keys m else ask_keys m.

Lemma keys_Permutation bid m : keys bid m ≡ₚ (map_to_list m).*1.
Proof. destruct bid; apply merge_sort_Permutation. Qed.

Lemma elem_of_keys bid m k : k ∈ keys bid m ↔ is_Some (m !! k).
Proof.
  rewrite keys_Permutation, list_elem_of_fmap. split.
  - intros ([k' v] & -> & Hin%elem_of_map_to_list). eauto.
  - intros [v Hv]. exists (k, v). split; [done|]. by apply elem_of_map_to_list.
Qed.

Lemma NoDup_keys bid m : NoDup (keys bid m).
Proof. rewrite keys_Permutation. apply NoDup_fst_map_to_list. Qed.

(** The first key is the best price. *)
Lemma keys_best bid m k ks :
  keys bid m = k :: ks → ∀ k', is_Some (m !! k') → if bid then k' ≤ k else k ≤ k'.
Proof.
  intros Hk k' Hin. apply (elem_of_keys bid) in Hin. rewrite Hk in Hin.
  apply elem_of_cons in Hin as [->|Hin]; [by destruct bid|].
  destruct bid; simpl in Hk; unfold bid_keys, ask_keys in Hk.
  - assert (Transitive (flip Z.le)) by (intros ?; unfold flip; lia).
    assert (Total (flip Z.le)) by (intros ?; unfold flip; lia).
    pose proof (StronglySorted_merge_sort (flip Z.le) (map_to_list m).*1) as Hs. rewrite Hk in Hs.
    apply StronglySorted_inv in Hs as [_ Hs]. rewrite Forall_forall in Hs. by apply Hs.
  - pose proof (StronglySorted_merge_sort Z.le (map_to_list m).*1) as Hs. rewrite Hk in Hs.
    apply StronglySorted_inv in Hs as [_ Hs]. rewrite Forall_forall in Hs. by apply Hs.
Qed.

(** ** The index *)

(** The index maps each reference to where its order rests. *)
Definition index_ok (G : list (loc * Resting)) (m : gmap OrderId OrderLocation) : Prop :=
  ∀ ref l, m !! ref = Some l ↔
    ∃ a x, (a, x) ∈ G ∧ r_ref x = ref ∧ l = mkOrderLocation (r_side x) (lp_of x) a.

Lemma elem_of_refs (G : list (loc * Resting)) a x : (a, x) ∈ G → r_ref x ∈ (r_ref <$> G.*2).
Proof. intros Hin. apply list_elem_of_fmap. exists x. split; [done|]. apply list_elem_of_fmap. by exists (a, x). Qed.

Lemma index_remove G1 a x G2 m :
  index_ok (G1 ++ (a, x) :: G2) m → r_ref x ∉ (r_ref <$> (G1 ++ G2).*2) →
  index_ok (G1 ++ G2) (delete (r_ref x) m).
Proof.
  intros Hok Hnin ref l. rewrite lookup_delete_Some, (Hok ref l). split.
  - intros (Hne & c & y & Hin & Hy & ->). exists c, y. split_and!; try done.
    apply elem_of_app in Hin as [?|[[= -> ->]|?]%elem_of_cons]; [apply elem_of_app; auto|done|apply elem_of_app; auto].
  - intros (c & y & Hin & Hy & ->). split.
    + intros E. apply Hnin. rewrite E, <- Hy. by eapply elem_of_refs.
    + exists c, y. split_and!; try done. set_solver.
Qed.

Lemma index_add G a x m :
  index_ok G m → r_ref x ∉ (r_ref <$> G.*2) →
  index_ok (G ++ [(a, x)]) (<[r_ref x := mkOrderLocation (r_side x) (lp_of x) a]> m).
Proof.
  intros Hok Hnin ref l. rewrite lookup_insert_Some. split.
  - intros [[<- <-]|[Hne (c & y & Hin & Hy & ->)%Hok]].
    + exists a, x. split_and!; try done. apply elem_of_app. right. by apply list_elem_of_singleton.
    + exists c, y. split_and!; try done. apply elem_of_app. by left.
  - intros (c & y & [Hin|[= -> ->]%list_elem_of_singleton]%elem_of_app & Hy & ->); [right|by left].
    split; [|apply Hok; eauto]. intros E. apply Hnin. rewrite E, <- Hy. by eapply elem_of_refs.
Qed.

Lemma index_with_qty G1 a x G2 q m :
  index_ok (G1 ++ (a, x) :: G2) m → index_ok (G1 ++ (a, with_qty q x) :: G2) m.
Proof.
  intros Hok ref l. rewrite (Hok ref l). split; intros (c & y & Hin & Hy & ->);
    (apply elem_of_app in Hin as [?|[[= -> ->]|?]%elem_of_cons];
      [exists c, y| |exists c, y]; [split_and!; (done || set_solver)| |split_and!; (done || set_solver)]).
  - exists a, (with_qty q x). split_and!; try done. set_solver.
  - exists a, x. split_and!; try done. set_solver.
Qed.

(** ** The representation *)

Section Refine.
Context {P : Type} `{ObjectPoolLaws P}.
Implicit Types (b : MarketOrderBook P) (G : list (loc * Resting)).

Record rep (G : list (loc * Resting)) (b : MarketOrderBook P) : Prop := {
  rp_addr : NoDup G.*1;
  rp_ref : NoDup (r_ref <$> G.*2);
  rp_qty : Forall (λ x, is_qty (r_qty x)) G.*2;
  rp_index : index_ok G (order_index_ b);
  rp_levels : levels_ok G b;
  rp_live : op_live (order_pool_ b) = list_to_set G.*1;
  rp_heap : dom (heap_ b) = list_to_set G.*1
}.

(** [b] represents the book [L], and its cached best quotes are current. *)
Definition refines (b : MarketOrderBook P) (L : list Resting) : Prop :=
  ∃ G, G.*2 = L ∧ rep G b ∧ updateBBO b = b.

Lemma index_known G b ref : rep G b → is_Some (order_index_ b !! ref) ↔ known ref G.*2 = true.
Proof using Type.
  intros Hr. unfold known. rewrite bool_decide_eq_true. split.
  - intros [l Hl]. apply (rp_index _ _ Hr) in Hl as (a & x & Hin & <- & _).
    apply list_elem_of_fmap. exists x. split; [done|]. apply list_elem_of_fmap. by exists (a, x).
  - intros (x & -> & Hx)%list_elem_of_fmap. apply list_elem_of_fmap in Hx as ([a x'] & Heq & Hin). simpl in Heq. subst x'.
    eexists. apply (rp_index _ _ Hr). eauto.
Qed.

(** A tracked reference, located in the list. *)
Lemma index_split G b ref l :
  rep G b → order_index_ b !! ref = Some l →
  ∃ G1 a x G2, G = G1 ++ (a, x) :: G2 ∧ r_ref x = ref ∧ l = mkOrderLocation (r_side x) (lp_of x) a ∧
    ref ∉ (r_ref <$> G1.*2) ∧ ref ∉ (r_ref <$> G2.*2).
Proof using Type.
  intros Hr Hl. apply (rp_index _ _ Hr) in Hl as (a & x & Hin & Hx & ->).
  apply list_elem_of_split in Hin as (G1 & G2 & ->). exists G1, a, x, G2. split_and!; try done;
    pose proof (rp_ref _ _ Hr) as Hnd; rewrite !fmap_app, !fmap_cons in Hnd; simpl in Hnd; rewrite Hx in Hnd;
    rewrite <- Permutation_middle, NoDup_cons in Hnd; destruct Hnd as [Hnin _]; rewrite not_elem_of_app in Hnin; tauto.
Qed.

Lemma index_None G b ref : rep G b → order_index_ b !! ref = None → ref ∉ (r_ref <$> G.*2) ∧ known ref G.*2 = false.
Proof using Type.
  intros Hr Hn. destruct (known ref G.*2) eqn:Hk.
  - apply (index_known _ _ _ Hr) in Hk as [l Hl]. congruence.
  - split; [|done]. unfold known in Hk. by bsplit.
Qed.

(** ** Adding *)

Lemma rep_size G b : rep G b → size (op_live (order_pool_ b)) = length G.
Proof using Type. intros Hr. rewrite (rp_live _ _ Hr), size_list_to_set, length_fmap by apply Hr. done. Qed.

Lemma addOrder_rep G b u :
  rep G b → is_qty (mu_qty u) → order_index_ b !! mu_order_ref u = None →
  (length G < op_capacity (order_pool_ b))%nat →
  ∃ a b', addOrder u b = Ok (updateBBO b') ∧
    rep (G ++ [(a, mkResting (mu_order_ref u) (mu_side u) (mu_price u) (mu_qty u))]) b' ∧
    ticker_id_ b' = ticker_id_ b ∧ in_snapshot_ b' = in_snapshot_ b ∧
    op_capacity (order_pool_ b') = op_capacity (order_pool_ b).
Proof using All.
  intros Hr Hq Hidx Hcap. set (x := mkResting _ _ _ _). unfold addOrder.
  rewrite bool_decide_false by (rewrite Hidx; by intros []).
  destruct (getOrCreateLevel (mu_side u) (mu_price u) b) as [lp b1] eqn:Egc.
  destruct (getOrCreateLevel_levels _ _ _ _ _ _ (rp_levels _ _ Hr) Egc) as (-> & Hlv & (Hsr & Hpool & _) & Hheap).
  change (is_buy (mu_side u), mu_price u) with (lp_of x) in *.
  unfold allocateOrder. rewrite Hpool.
  destruct (op_allocate_room (order_pool_ b)) as [[a p'] Halloc]; [rewrite (rep_size _ _ Hr); done|].
  rewrite Halloc. cbn [deref mbind outcome_bind].
  destruct (op_allocate_Some _ _ _ Halloc) as (Hnlive & Hlive' & Hcap').
  assert (a ∉ G.*1) as Ha by (rewrite (rp_live _ _ Hr) in Hnlive; set_solver).
  set (b2 := write_order a _ (set_pool p' b1)).
  assert (levels_at (lp_of x) G b2) as Hlv2.
  { subst b2. unfold write_order. change (levels_at (lp_of x) G (set_heap (<[a := mkBookOrder (mu_order_ref u) (mu_qty u) None None]> (heap_ b1)) b1)).
    apply levels_at_frame; [done|]. intros c Hc. apply lookup_insert_ne. by intros <-. }
  destruct (link_levels G a x b2 None Hlv2 (rp_addr _ _ Hr) Ha) as (b3 & Hlink & Hlv3 & (Hsr3 & Hpool3 & Hdom3)).
  { subst b2. simpl. by rewrite lookup_insert_eq. } { done. }
  rewrite Hlink. cbn [mbind outcome_bind]. destruct Hsr as (Ht & Hix & _ & _ & _ & Hs).
  destruct Hsr3 as (Ht3 & Hix3 & _ & _ & _ & Hs3).
  eexists a, _. split; [reflexivity|]. simpl. rewrite Hix3, Ht3, Hs3, Hpool3. subst b2. simpl. rewrite Ht, Hs, Hix.
  split_and!; try done. destruct (index_None _ _ _ Hr Hidx) as [Hnref _].
  split; simpl; rewrite ?fmap_app; simpl.
  - apply NoDup_app. split_and!; [apply Hr|set_solver|apply NoDup_singleton].
  - apply NoDup_app. split_and!; [apply Hr|set_solver|apply NoDup_singleton].
  - apply Forall_app. split; [apply Hr|]. by apply Forall_singleton.
  - apply (index_add G a x); [apply Hr|done].
  - exact Hlv3.
  - rewrite Hpool3. simpl. rewrite Hlive', (rp_live _ _ Hr), list_to_set_app_L. simpl. set_solver.
  - rewrite Hdom3. simpl. rewrite dom_insert_L, Hheap, (rp_heap _ _ Hr), list_to_set_app_L. simpl. set_solver.
Qed.

(** ** Removing *)

(** What an operation on resting orders leaves alone. *)
Definition same_identity (b b' : MarketOrderBook P) : Prop :=
  ticker_id_ b' = ticker_id_ b ∧ in_snapshot_ b' = in_snapshot_ b ∧
  op_capacity (order_pool_ b') = op_capacity (order_pool_ b).

Section Resting.
Context (G1 G2 : list (loc * Resting)) (a : loc) (x : Resting) (b : MarketOrderBook P).
Context (Hr : rep (G1 ++ (a, x) :: G2) b).

Lemma rep_lists :
  NoDup (G1 ++ G2).*1 ∧ a ∉ (G1 ++ G2).*1 ∧ NoDup (r_ref <$> (G1 ++ G2).*2) ∧
  r_ref x ∉ (r_ref <$> (G1 ++ G2).*2) ∧ Forall (λ x, is_qty (r_qty x)) (G1 ++ G2).*2 ∧ is_qty (r_qty x).
Proof using All.
  destruct (NoDup_remove_addr _ _ _ _ (rp_addr _ _ Hr)) as [N1 N2].
  pose proof (rp_ref _ _ Hr) as N3. pose proof (rp_qty _ _ Hr) as N4.
  rewrite !fmap_app, !fmap_cons in N3. simpl in N3. rewrite <- Permutation_middle, NoDup_cons in N3.
  rewrite fmap_app, fmap_cons in N4. simpl in N4. rewrite <- Permutation_middle, Forall_cons in N4.
  rewrite !fmap_app. rewrite !fmap_app in N1, N2. tauto.
Qed.

Lemma rep_lookup : order_index_ b !! r_ref x = Some (mkOrderLocation (r_side x) (lp_of x) a).
Proof using All. apply (rp_index _ _ Hr). exists a, x. split_and!; try done. set_solver. Qed.

Lemma rep_addrs : list_to_set (G1 ++ (a, x) :: G2).*1 =@{gset loc} {[a]} ∪ list_to_set (G1 ++ G2).*1.
Proof using All. rewrite !fmap_app, !list_to_set_app_L, fmap_cons. simpl. set_solver. Qed.

Lemma eraseOrder_rep :
  ∃ b', eraseOrder (r_ref x) b = Ok (true, b') ∧ rep (G1 ++ G2) b' ∧ same_identity b b'.
Proof using All.
  destruct rep_lists as (N1 & Na & N2 & Nr & NQ & _). unfold eraseOrder. rewrite rep_lookup. cbn [ol_level ol_order ol_side].
  destruct (unlink_levels _ _ _ _ _ (rp_levels _ _ Hr) (rp_addr _ _ Hr)) as (b1 & -> & Hlv1 & (Hsr1 & Hp1 & Hd1) & Hn1).
  cbn [mbind outcome_bind]. unfold deallocateOrder. rewrite (read_order_eq _ _ _ Hn1). cbn [mbind outcome_bind].
  set (b2 := set_heap _ _).
  assert (levels_at (lp_of x) (G1 ++ G2) b2) as Hlv2.
  { change (levels_at (lp_of x) (G1 ++ G2) (set_heap (delete a (heap_ b1)) b1)).
    apply levels_at_frame; [done|]. intros c Hc. apply lookup_delete_ne. by intros <-. }
  destruct (eraseEmptyLevel_levels (r_side x) _ _ _ Hlv2 eq_refl) as (b3 & -> & Hlv3 & (Hsr3 & Hp3 & Hd3) & _).
  cbn [mbind outcome_bind]. eexists. split; [reflexivity|].
  destruct Hsr1 as (Ht1 & Hix1 & _ & _ & _ & Hs1), Hsr3 as (Ht3 & Hix3 & _ & _ & _ & Hs3).
  destruct (op_deallocate_live (order_pool_ b) a) as [Hlive Hcap].
  { rewrite (rp_live _ _ Hr), rep_addrs. set_solver. }
  split.
  - split; simpl; try done.
    + rewrite Hix3. simpl. rewrite Hix1. apply index_remove with (a := a); [apply Hr|done].
    + rewrite Hp3. simpl. rewrite Hp1, Hlive, (rp_live _ _ Hr), rep_addrs. set_solver.
    + rewrite Hd3. simpl. rewrite dom_delete_L, Hd1, (rp_heap _ _ Hr), rep_addrs. set_solver.
  - unfold same_identity. simpl. rewrite Ht3, Hs3, Hp3. simpl. rewrite Ht1, Hs1, Hp1. done.
Qed.

Lemma reduceOrder_rep u :
  mu_order_ref u = r_ref x → is_qty (mu_qty u) →
  ∃ b' G', reduceOrder u b = Ok (true, b') ∧ rep G' b' ∧ same_identity b b' ∧
    G'.*2 = if r_qty x <=? mu_qty u then (G1 ++ G2).*2 else G1.*2 ++ with_qty (r_qty x - mu_qty u) x :: G2.*2.
Proof using All.
  intros Hu Hq. destruct rep_lists as (_ & _ & _ & _ & NQ & Nx). unfold is_qty in Hq, Nx.
  unfold reduceOrder. rewrite Hu, rep_lookup. cbn [ol_level ol_order ol_side].
  destruct (levels_ok_at _ _ _ _ _ (rp_levels _ _ Hr)) as [Hl Hc].
  pose proof (queue_NoDup (lp_of x) _ (rp_addr _ _ Hr)) as Hndq. rewrite queue_split in Hl, Hc, Hndq.
  destruct (unlink_facts _ _ _ _ _ _ Hndq Hc Hl) as (_ & Ha & _).
  rewrite (read_order_eq _ _ _ Ha). cbn [mbind outcome_bind bo_qty].
  destruct (r_qty x <=? mu_qty u) eqn:E; bsplit.
  { destruct eraseOrder_rep as (b' & -> & Hrep & Hid). eauto 10. }
  destruct (reduce_levels G1 a x G2 b (mu_qty u)) as (b1 & b2 & -> & Hrun & Hlv & (Hsr & Hp & Hd));
    [apply Hr|apply Hr|lia|lia|].
  cbn [mbind outcome_bind]. rewrite Hrun. cbn [mbind outcome_bind].
  destruct Hsr as (Ht & Hix & _ & _ & _ & Hs).
  exists b2, (G1 ++ (a, with_qty (r_qty x - mu_qty u) x) :: G2). split_and!; [done| | |by rewrite fmap_app].
  - pose proof Hr as [R1 R2 R3 R4 R5 R6 R7]. rewrite !fmap_app, !fmap_cons in *. simpl in *.
    split; rewrite ?fmap_app, ?fmap_cons; simpl; try done; rewrite ?Hp, ?Hd, ?Hix; try done.
    + rewrite <- Permutation_middle. constructor; [|done]. unfold is_qty. simpl. lia.
    + by eapply index_with_qty.
  - unfold same_identity. by rewrite Ht, Hs, Hp.
Qed.

Lemma replaceOrder_rep u :
  mu_order_ref u = r_ref x → is_qty (mu_qty u) → order_index_ b !! mu_new_ref u = None →
  queue (lp_of x) G2 = [] →
  queue (lp_of x) G1 = [] ∨ queue (is_buy (mu_side u), mu_price u) (G1 ++ G2) ≠ [] →
  ∃ b', replaceOrder u b = Ok (true, b') ∧ same_identity b b' ∧
    rep ((G1 ++ G2) ++ [(a, mkResting (mu_new_ref u) (mu_side u) (mu_price u) (mu_qty u))]) b'.
Proof using All.
  intros Hu Hq Hnew Hlast Hclean. set (y := mkResting _ _ _ _).
  destruct rep_lists as (N1 & Na & N2 & Nr & NQ & _).
  unfold replaceOrder. rewrite Hu, rep_lookup. cbn [ol_level ol_order ol_side].
  rewrite bool_decide_false by (rewrite Hnew; by intros []).
  destruct (unlink_levels _ _ _ _ _ (rp_levels _ _ Hr) (rp_addr _ _ Hr)) as (b1 & -> & Hlv1 & (Hsr1 & Hp1 & Hd1) & Hn1).
  rewrite Hlast in Hn1. simpl in Hn1. cbn [mbind outcome_bind].
  destruct (eraseEmptyLevel_levels (r_side x) _ _ _ Hlv1 eq_refl) as (b2 & -> & Hlv2 & (Hsr2 & Hp2 & Hd2) & Hh2).
  cbn [mbind outcome_bind]. destruct (getOrCreateLevel _ _ b2) as [lp b3] eqn:Egc.
  destruct (getOrCreateLevel_levels _ _ _ _ _ _ Hlv2 Egc) as (-> & Hlv3 & (Hsr3 & Hp3 & Hd3) & Hh3).
  change (is_buy (mu_side u), mu_price u) with (lp_of y) in *.
  erewrite (modify_order_eq a) by (rewrite Hh3, Hh2; exact Hn1). cbn [mbind outcome_bind]. set (b4 := set_heap _ b3).
  assert (levels_at (lp_of y) (G1 ++ G2) b4) as Hlv4.
  { apply levels_at_frame; [done|]. intros c Hc. apply lookup_insert_ne. by intros <-. }
  destruct (link_levels (G1 ++ G2) a y b4 (last_addr (queue (lp_of x) G1) None)) as (b5 & -> & Hlv5 & (Hsr5 & Hp5 & Hd5)); try done.
  { subst b4. simpl. by rewrite lookup_insert_eq. }
  { intros Hnil. destruct Hclean as [->|Hne]; [done|]. by rewrite Hnil in Hne. }
  cbn [mbind outcome_bind]. eexists. split; [reflexivity|].
  assert (dom (heap_ b4) = dom (heap_ b)) as Hd4.
  { subst b4. simpl. rewrite dom_insert_lookup_L; [congruence|]. rewrite Hh3, Hh2. eauto. }
  destruct Hsr1 as (Ht1 & Hix1 & _ & _ & _ & Hs1), Hsr2 as (Ht2 & Hix2 & _ & _ & _ & Hs2).
  destruct Hsr3 as (Ht3 & Hix3 & _ & _ & _ & Hs3), Hsr5 as (Ht5 & Hix5 & _ & _ & _ & Hs5).
  assert (order_pool_ b5 = order_pool_ b) as Hp by (rewrite Hp5; subst b4; simpl; congruence).
  assert (order_index_ b5 = order_index_ b) as Hix by (rewrite Hix5; subst b4; simpl; congruence).
  split.
  { unfold same_identity. simpl. rewrite Hp, Ht5, Hs5. subst b4. simpl. split_and!; congruence. }
  destruct (index_None _ _ _ Hr Hnew) as [Hnref _].
  assert (mu_new_ref u ∉ (r_ref <$> (G1 ++ G2).*2)) as Hnref'.
  { rewrite !fmap_app, !fmap_cons in Hnref. rewrite !fmap_app. simpl in Hnref. set_solver. }
  split; simpl; rewrite ?Hp, ?Hd5, ?Hd4, ?Hix; try done.
  - rewrite fmap_app. apply NoDup_app. split_and!; [done|set_solver|apply NoDup_singleton].
  - rewrite !(fmap_app _ (G1 ++ G2)), fmap_app. apply NoDup_app. split_and!; [done|set_solver|apply NoDup_singleton].
  - rewrite (fmap_app _ (G1 ++ G2)). apply Forall_app. split; [done|]. by apply Forall_singleton.
  - apply (index_add _ a y); [|done]. eapply index_remove; [apply Hr|done].
  - rewrite (rp_live _ _ Hr), rep_addrs, (fmap_app _ (G1 ++ G2)), list_to_set_app_L. simpl. set_solver.
  - rewrite (rp_heap _ _ Hr), rep_addrs, (fmap_app _ (G1 ++ G2)), list_to_set_app_L. simpl. set_solver.
Qed.
End Resting.

(** ** Clearing *)

(** The levels [ks] are intact and their nodes are live. *)
Definition freeable (G : list (loc * Resting)) (bid : bool) (ks : list Price) (b : MarketOrderBook P) : Prop :=
  ∀ k, k ∈ ks → ∃ v, levels bid b !! k = Some v ∧ pl_head v = first_addr (queue (bid, k) G) None ∧
    chain (heap_ b) None (queue (bid, k) G) None ∧ list_to_set (queue (bid, k) G).*1 ⊆ op_live (order_pool_ b).

Definition nodes_at (G : list (loc * Resting)) (bid : bool) (ks : list Price) : gset loc :=
  list_to_set (ks ≫= λ k, (queue (bid, k) G).*1).

Lemma freeable_freed G bid ks b b1 S :
  freeable G bid ks b → freed S b b1 →
  (∀ k c, k ∈ ks → c ∈ (queue (bid, k) G).*1 → c ∉ S) → freeable G bid ks b1.
Proof using All.
  intros Hf (h & p & -> & Hh & Hl & _) Hdisj k Hk. destruct (Hf k Hk) as (v & Hv & Hhd & Hc & Hlive).
  exists v. split_and!; [by destruct bid|done| |].
  - simpl. eapply chain_frame; [|exact Hc]. intros c Hcin. rewrite Hh, decide_False; eauto.
  - simpl. rewrite Hl. intros c Hcin. apply elem_of_difference. split; [by apply Hlive|].
    apply elem_of_list_to_set in Hcin. eauto.
Qed.

Lemma chain_length h prev l nxt : chain h prev l nxt → NoDup l.*1 → (length l ≤ size h)%nat.
Proof using All.
  intros Hc Hnd. rewrite <- size_dom, <- (length_fmap fst), <- (size_list_to_set (C := gset loc)) by done.
  apply subseteq_size. intros a Ha%elem_of_list_to_set. apply elem_of_dom. by eapply chain_dom.
Qed.

Lemma free_levels_spec G bid ks b :
  NoDup G.*1 → NoDup ks → freeable G bid ks b →
  ∃ b', free_levels bid ks b = Ok b' ∧ freed (nodes_at G bid ks) b b'.
Proof using All.
  intros Hnd. revert b. induction ks as [|k ks IH]; intros b Hks Hf.
  { exists b. split; [done|]. apply freed_empty. }
  apply NoDup_cons in Hks as [Hk Hks]. destruct (Hf k) as (v & Hv & Hhd & Hc & Hlive); [set_solver|].
  destruct (free_orders_spec (S (size (heap_ b))) None (queue (bid, k) G) b) as (b1 & Hrun & Hf1); try done.
  { by apply queue_NoDup. }
  { pose proof (chain_length _ _ _ _ Hc (queue_NoDup _ _ Hnd)). lia. }
  destruct (IH b1) as (b' & Hrun' & Hf2); [done| |].
  { eapply freeable_freed; [|exact Hf1|].
    - intros k' Hk'. apply Hf. set_solver.
    - intros k' c Hk' Hcin. rewrite elem_of_list_to_set. intros Hc2.
      eapply (queue_disjoint (bid, k') (bid, k) G); try done. congruence. }
  exists b'. split.
  - cbn [free_levels]. unfold read_level. cbn [fst snd]. rewrite Hv. cbn [deref mbind outcome_bind].
    rewrite Hhd, Hrun. exact Hrun'.
  - unfold nodes_at. rewrite bind_cons, list_to_set_app_L. by eapply freed_trans.
Qed.

Lemma rep_freeable G b bid : rep G b → freeable G bid (keys bid (levels bid b)) b.
Proof using All.
  intros Hr k [v Hv]%elem_of_keys. pose proof (rp_levels _ _ Hr (bid, k)) as Hl. unfold level_at in Hl. simpl in Hl.
  rewrite Hv in Hl. destruct Hl as (_ & -> & Hc). eexists. split_and!; [exact Hv|done|done|].
  rewrite (rp_live _ _ Hr). intros c. rewrite !elem_of_list_to_set. apply queue_addrs.
Qed.

(** Every node rests at a level of one of the two maps. *)
Lemma rep_nodes G b :
  rep G b → nodes_at G true (keys true (bids_ b)) ∪ nodes_at G false (keys false (asks_ b)) = list_to_set G.*1.
Proof using All.
  intros Hr. apply set_eq. intros c. unfold nodes_at. rewrite elem_of_union, !elem_of_list_to_set, !list_elem_of_bind. split.
  - intros [(k & Hin & _)|(k & Hin & _)]; by eapply queue_addrs.
  - intros ([a x] & -> & Hin)%list_elem_of_fmap.
    apply list_elem_of_split in Hin as (G1 & G2 & ->). simpl.
    destruct (levels_ok_at _ _ _ _ _ (rp_levels _ _ Hr)) as [Hl _]. unfold level_at in Hl.
    assert (a ∈ (queue (lp_of x) (G1 ++ (a, x) :: G2)).*1) as Hq by (rewrite queue_split, fmap_app; simpl; set_solver).
    unfold lp_of in Hq, Hl. simpl in Hl. destruct (is_buy (r_side x)); [left|right]; exists (r_price x).
    + split; [done|]. apply (elem_of_keys true). eauto.
    + split; [done|]. apply (elem_of_keys false). eauto.
Qed.

Lemma rep_nil b :
  bids_ b = ∅ → asks_ b = ∅ → order_index_ b = ∅ → heap_ b = ∅ → op_live (order_pool_ b) = ∅ → rep [] b.
Proof using Type.
  intros Hb Ha Hi Hh Hl. split; simpl; try constructor; rewrite ?Hi, ?Hh, ?Hl; try done.
  - by intros (a & x & []%elem_of_nil & _).
  - unfold levels_ok, level_at. intros [[] p]; simpl; by rewrite ?Hb, ?Ha, lookup_empty.
Qed.

Lemma clear_rep G b :
  rep G b →
  ∃ b', clear b = Ok b' ∧ rep [] b' ∧ updateBBO b' = b' ∧ bbo_ b' = default_BBO ∧
    same_identity b b'.
Proof using All.
  intros Hr. unfold clear.
  destruct (free_levels_spec G true (keys true (bids_ b)) b) as (b1 & Hrun1 & Hf1);
    [apply Hr|apply NoDup_keys|by apply (rep_freeable G b true)|].
  change (bid_keys (bids_ b)) with (keys true (bids_ b)). rewrite Hrun1. cbn [mbind outcome_bind].
  assert (asks_ b1 = asks_ b) as Hasks by (by destruct Hf1 as (h & p & -> & _)).
  destruct (free_levels_spec G false (keys false (asks_ b)) b1) as (b2 & Hrun2 & Hf2);
    [apply Hr|apply NoDup_keys| |].
  { eapply freeable_freed; [by apply (rep_freeable G b false)|exact Hf1|].
    intros k c Hk Hc. unfold nodes_at. rewrite elem_of_list_to_set, list_elem_of_bind. intros (k' & Hc' & _).
    by eapply (queue_disjoint (true, k') (false, k) G); [apply Hr|..]. }
  change (ask_keys (asks_ b1)) with (keys false (asks_ b1)). rewrite Hasks, Hrun2. cbn [mbind outcome_bind].
  pose proof (freed_trans _ _ _ _ _ Hf1 Hf2) as (h & p & -> & Hh & Hl & Hc).
  rewrite (rep_nodes G b Hr) in Hh, Hl. eexists. split; [reflexivity|]. split_and!; try done.
  apply rep_nil; try done; simpl.
  - apply map_empty. intros c. rewrite Hh. case_decide as Hin; [done|].
    apply not_elem_of_dom. by rewrite (rp_heap _ _ Hr).
  - rewrite Hl, (rp_live _ _ Hr). set_solver.
Qed.

(** ** Best quotes *)

Lemma rep_updateBBO G b : rep G b → rep G (updateBBO b).
Proof using Type. intros []. by split. Qed.

Lemma updateBBO_idemp b : updateBBO (updateBBO b) = updateBBO b.
Proof using Type. done. Qed.

Lemma best_level_quote G b bid :
  levels_ok G b →
  best_quote bid G.*2 (default Price_INVALID (pl_price ∘ snd <$> best_level bid b))
    (default 0 (pl_total_qty ∘ snd <$> best_level bid b)).
Proof using All.
  intros Hok.
  replace (best_level bid b) with (match keys bid (levels bid b) with
    | k :: _ => (λ l, ((bid, k), l)) <$> levels bid b !! k | [] => None end) by (by destruct bid).
  destruct (keys bid (levels bid b)) as [|k ks] eqn:Ek.
  - left. split_and!; [|done|done]. intros (x & Hin & Hx).
    apply list_elem_of_fmap in Hin as ([a x'] & -> & Hin). simpl in Hx.
    apply list_elem_of_split in Hin as (G1 & G2 & ->). destruct (levels_ok_at _ _ _ _ _ Hok) as [Hl _].
    unfold level_at, lp_of in Hl. simpl in Hl. rewrite Hx in Hl.
    assert (r_price x' ∈ keys bid (levels bid b)) as Hin by (apply elem_of_keys; eauto).
    rewrite Ek in Hin. by apply elem_of_nil in Hin.
  - assert (is_Some (levels bid b !! k)) as [v Hv] by (apply (elem_of_keys bid); rewrite Ek; set_solver).
    pose proof (Hok (bid, k)) as Hk. unfold level_at in Hk. simpl in Hk. rewrite Hv in Hk. destruct Hk as (Hne & -> & _).
    right. rewrite Hv. simpl. split_and!.
    + destruct (queue (bid, k) G) as [|[a x] l] eqn:Eq; [done|].
      assert ((a, x) ∈ queue (bid, k) G) as Hin by (rewrite Eq; set_solver).
      apply list_elem_of_filter in Hin as [Hx Hin]. exists x. split; [|done]. apply list_elem_of_fmap. by exists (a, x).
    + intros x Hin Hx. apply list_elem_of_fmap in Hin as ([a x'] & -> & Hin). simpl in *.
      apply list_elem_of_split in Hin as (G1 & G2 & ->). destruct (levels_ok_at _ _ _ _ _ Hok) as [Hl _].
      unfold level_at, lp_of in Hl. simpl in Hl. rewrite Hx in Hl.
      eapply (keys_best bid _ _ _ Ek). eauto.
    + rewrite <- queue_at_level. unfold queue_qty. by rewrite <- list_fmap_compose.
Qed.

(** ** Simulation *)

(** What [applyUpdate] relies on. *)
Definition update_ok (cap : nat) (u : MarketUpdate) (L : list Resting) : bool :=
  fitsU 32 (mu_qty u) && (negb (is_replace u) || clean_replace u L) &&
  (negb (is_add u) || bool_decide (length L < cap)%nat).

Definition simulates (b : MarketOrderBook P) (r : outcome (MarketOrderBook P)) (L : list Resting) : Prop :=
  ∃ b', r = Ok b' ∧ refines b' L ∧ ticker_id_ b' = ticker_id_ b ∧
    op_capacity (order_pool_ b') = op_capacity (order_pool_ b).

Lemma simulates_same b L : refines b L → simulates b (Ok b) L.
Proof using Type. intros Hr. by exists b. Qed.

Lemma simulates_rep b b' G L : rep G b' → same_identity b b' → G.*2 = L → simulates b (Ok (updateBBO b')) L.
Proof using Type.
  intros Hr (Ht & _ & Hc) <-. exists (updateBBO b'). split_and!; try done.
  exists G. split_and!; [done|by apply rep_updateBBO|done].
Qed.

Lemma add_sim b L u :
  refines b L → is_qty (mu_qty u) → (length L < op_capacity (order_pool_ b))%nat →
  simulates b (addOrder u b) (if known (mu_order_ref u) L then L else spec_add (mu_order_ref u) u L).
Proof using All.
  intros (G & <- & Hr & Hb) Hq Hcap. destruct (order_index_ b !! mu_order_ref u) as [l|] eqn:Ei.
  - rewrite (proj1 (index_known _ _ _ Hr)) by eauto. unfold addOrder. rewrite Ei, bool_decide_true by done.
    apply simulates_same. by exists G.
  - destruct (index_None _ _ _ Hr Ei) as [_ ->]. rewrite length_fmap in Hcap.
    destruct (addOrder_rep G b u Hr Hq Ei Hcap) as (a & b' & -> & Hr' & Hid). eapply simulates_rep; [done|done|].
    by rewrite fmap_app.
Qed.

Lemma erase_sim b L ref : refines b L → simulates b (refresh (eraseOrder ref b)) (spec_remove ref L).
Proof using All.
  intros (G & <- & Hr & Hb). destruct (order_index_ b !! ref) as [l|] eqn:Ei.
  - destruct (index_split _ _ _ _ Hr Ei) as (G1 & a & x & G2 & -> & <- & -> & Hn1 & Hn2).
    destruct (eraseOrder_rep G1 G2 a x b Hr) as (b' & -> & Hr' & Hid). eapply simulates_rep; [done|done|].
    rewrite !fmap_app, fmap_cons. by rewrite spec_remove_split.
  - destruct (index_None _ _ _ Hr Ei) as [_ Hk]. rewrite spec_remove_absent by done.
    unfold eraseOrder. rewrite Ei. apply simulates_same. by exists G.
Qed.

Lemma reduce_sim b L u :
  refines b L → is_qty (mu_qty u) →
  simulates b (refresh (reduceOrder u b)) (spec_reduce (mu_order_ref u) (mu_qty u) L).
Proof using All.
  intros (G & <- & Hr & Hb) Hq. destruct (order_index_ b !! mu_order_ref u) as [l|] eqn:Ei.
  - destruct (index_split _ _ _ _ Hr Ei) as (G1 & a & x & G2 & -> & Hx & -> & Hn1 & Hn2).
    destruct (reduceOrder_rep G1 G2 a x b Hr u) as (b' & G' & -> & Hr' & Hid & HG'); [done|done|].
    eapply simulates_rep; [done|done|]. rewrite HG', !fmap_app, fmap_cons. by rewrite spec_reduce_split.
  - destruct (index_None _ _ _ Hr Ei) as [_ Hk]. rewrite spec_reduce_absent by done.
    unfold reduceOrder. rewrite Ei. apply simulates_same. by exists G.
Qed.

Lemma queue_nil lp G : at_level lp G.*2 = [] ↔ queue lp G = [].
Proof using Type. rewrite <- queue_at_level. split; [apply fmap_nil_inv|by intros ->]. Qed.

Lemma replace_sim b L u :
  refines b L → is_qty (mu_qty u) → clean_replace u L = true →
  simulates b (refresh (replaceOrder u b))
    (if known (mu_order_ref u) L && negb (known (mu_new_ref u) L)
     then spec_add (mu_new_ref u) u (spec_remove (mu_order_ref u) L) else L).
Proof using All.
  intros (G & <- & Hr & Hb) Hq Hclean.
  destruct (order_index_ b !! mu_order_ref u) as [l|] eqn:Ei.
  2:{ destruct (index_None _ _ _ Hr Ei) as [_ ->]. unfold replaceOrder. rewrite Ei. apply simulates_same. by exists G. }
  rewrite (proj1 (index_known _ _ _ Hr)) by eauto. destruct (order_index_ b !! mu_new_ref u) as [l'|] eqn:En.
  { rewrite (proj1 (index_known _ _ _ Hr)) by eauto. unfold replaceOrder. rewrite Ei, En, bool_decide_true by done.
    apply simulates_same. by exists G. }
  destruct (index_None _ _ _ Hr En) as [_ ->].
  destruct (index_split _ _ _ _ Hr Ei) as (G1 & a & x & G2 & -> & Hx & -> & Hn1 & Hn2).
  rewrite !fmap_app, fmap_cons in *. simpl fmap in Hclean. cbn [snd] in *.
  unfold clean_replace in Hclean. rewrite (list_find_split _ _ _ _ Hx Hn1), take_app_length in Hclean.
  replace (drop (S (length G1.*2)) (G1.*2 ++ x :: G2.*2)) with G2.*2 in Hclean
    by (by rewrite cons_middle, app_assoc, drop_app_length' by (rewrite length_app; simpl; lia)).
  rewrite <- fmap_app in Hclean. bsplit. rewrite queue_nil in *.
  destruct (replaceOrder_rep G1 G2 a x b Hr u) as (b' & -> & Hid & Hr'); try done.
  { apply orb_true_iff in H2 as [Hl|Hn]; bsplit; rewrite queue_nil in *; auto. }
  eapply simulates_rep; [done|done|]. rewrite spec_remove_split by done. unfold spec_add. by rewrite !fmap_app.
Qed.

Lemma clear_sim b L : refines b L → simulates b (clear b) [].
Proof using All.
  intros (G & <- & Hr & Hb). destruct (clear_rep G b Hr) as (b' & -> & Hr' & Hbbo & _ & (Ht & _ & Hc)).
  exists b'. split_and!; try done. by exists [].
Qed.

Lemma applyUpdate_sim b L u :
  refines b L → update_ok (op_capacity (order_pool_ b)) u L = true →
  simulates b (applyUpdate u b) (spec_apply (ticker_id_ b) u L).
Proof using All.
  intros Hr Hok. unfold update_ok in Hok. bsplit. apply fitsU_spec in H1 as Hq. fold (is_qty (mu_qty u)) in Hq.
  unfold is_add, is_replace in *. unfold applyUpdate, spec_apply. destruct (mu_type u); simpl in *;
    try (destruct (mu_ticker_id u =? ticker_id_ b); simpl; [|by apply simulates_same]); bsplit.
  - by apply add_sim.
  - by apply add_sim.
  - by apply reduce_sim.
  - by apply reduce_sim.
  - by apply erase_sim.
  - by apply replace_sim.
  - unfold onSnapshotStart. destruct (clear_sim b L Hr) as (b' & -> & (G & HG & Hr' & Hb') & Ht & Hc).
    exists (set_in_snapshot true b'). split_and!; try done. exists G. split_and!; try done.
    + destruct Hr'. by split.
    + change (set_in_snapshot true (updateBBO b') = set_in_snapshot true b'). by rewrite Hb'.
  - by apply (clear_sim b L).
  - unfold onSnapshotEnd. destruct Hr as (G & HG & Hr' & Hb'). eexists. split_and!; [done| |done|done].
    exists G. split_and!; try done. destruct Hr'. by split.
Qed.
End Refine.
