(* ===== verification/BookProperties.v ===== *)
(** * Properties of the order book

    The refinement over whole feeds, price-time priority, the completeness of
    [clear], and the one update the pointer code gets wrong. *)

From S2P Require Import Prelude Types QuantLink MarketOrderBook BookRep BookRefine.

(** ** The snapshot flag

    Only the snapshot messages touch [in_snapshot_]. *)

Section SnapshotFlag.
Context {P : Type} `{ObjectPool P}.
Implicit Types b : MarketOrderBook P.

Definition flag_kept (f : MarketOrderBook P → outcome (MarketOrderBook P)) : Prop :=
  ∀ b b', f b = Ok b' → in_snapshot_ b' = in_snapshot_ b.

(** Run a book operation backwards to its elementary steps. *)
Ltac inv_run :=
  repeat match goal with
  | H : _ ≫= _ = Ok _ |- _ => apply bind_Ok_inv in H as (? & ? & ?)
  | H : Ok _ = Ok _ |- _ => injection H as H; subst
  | H : (match ?x with _ => _ end) = Ok _ |- _ => destruct x eqn:?; try discriminate
  | H : (let '(_, _) := ?x in _) = Ok _ |- _ => destruct x eqn:?
  end.

Lemma modify_level_flag lp f : flag_kept (modify_level lp f).
Proof using Type. intros b b' Hr. unfold modify_level in Hr. by inv_run. Qed.

Lemma modify_order_flag o f : flag_kept (modify_order o f).
Proof using Type. intros b b' Hr. unfold modify_order in Hr. by inv_run. Qed.

Lemma deallocateOrder_flag o : flag_kept (deallocateOrder o).
Proof using Type. intros b b' Hr. unfold deallocateOrder in Hr. by inv_run. Qed.

Lemma eraseEmptyLevel_flag side lp : flag_kept (eraseEmptyLevel side lp).
Proof using Type. intros b b' Hr. unfold eraseEmptyLevel in Hr. by inv_run. Qed.

(** Chain the elementary steps' flags. *)
Ltac flags :=
  repeat match goal with
  | H : modify_level _ _ _ = Ok _ |- _ => apply modify_level_flag in H
  | H : modify_order _ _ _ = Ok _ |- _ => apply modify_order_flag in H
  | H : deallocateOrder _ _ = Ok _ |- _ => apply deallocateOrder_flag in H
  | H : eraseEmptyLevel _ _ _ = Ok _ |- _ => apply eraseEmptyLevel_flag in H
  end; cbn [in_snapshot_ updateBBO set_best set_index write_order set_heap set_pool set_levels] in *; try congruence.

Lemma linkOrder_flag lp o : flag_kept (linkOrder lp o).
Proof using Type. intros b b' Hr. unfold linkOrder in Hr. inv_run; flags. Qed.

Lemma unlinkOrder_flag lp o : flag_kept (unlinkOrder lp o).
Proof using Type. intros b b' Hr. unfold unlinkOrder in Hr. inv_run; flags. Qed.

Lemma getOrCreateLevel_flag side price b lp b' :
  getOrCreateLevel side price b = (lp, b') → in_snapshot_ b' = in_snapshot_ b.
Proof using Type. unfold getOrCreateLevel. intros [= _ <-]. by destruct (levels _ _ !! _). Qed.

Lemma eraseOrder_flag ref b r b' : eraseOrder ref b = Ok (r, b') → in_snapshot_ b' = in_snapshot_ b.
Proof using Type.
  unfold eraseOrder. intros Hr. inv_run; simplify_eq; [|done].
  match goal with H : unlinkOrder _ _ _ = _ |- _ => apply unlinkOrder_flag in H end. flags.
Qed.

Lemma reduceOrder_flag u b r b' : reduceOrder u b = Ok (r, b') → in_snapshot_ b' = in_snapshot_ b.
Proof using Type.
  unfold reduceOrder. intros Hr. inv_run; simplify_eq; flags; by eapply eraseOrder_flag.
Qed.

Lemma replaceOrder_flag u b r b' : replaceOrder u b = Ok (r, b') → in_snapshot_ b' = in_snapshot_ b.
Proof using Type.
  unfold replaceOrder. intros Hr. inv_run; simplify_eq; try done.
  match goal with H : getOrCreateLevel _ _ _ = _ |- _ => apply getOrCreateLevel_flag in H end.
  match goal with H : linkOrder _ _ _ = _ |- _ => apply linkOrder_flag in H end.
  match goal with H : unlinkOrder _ _ _ = _ |- _ => apply unlinkOrder_flag in H end. flags.
Qed.

Lemma addOrder_flag u : flag_kept (addOrder u).
Proof using Type.
  intros b b' Hr. unfold addOrder, allocateOrder in Hr. inv_run; simplify_eq; [done|].
  match goal with H : getOrCreateLevel _ _ _ = _ |- _ => apply getOrCreateLevel_flag in H end.
  match goal with H : linkOrder _ _ _ = _ |- _ => apply linkOrder_flag in H end. flags.
Qed.

Lemma free_orders_flag fuel : ∀ o, flag_kept (free_orders fuel o).
Proof using Type.
  induction fuel as [|fuel IH]; intros [o|] b b' Hr; simpl in Hr; inv_run; try done.
  match goal with H : free_orders _ _ _ = _ |- _ => apply IH in H end. flags.
Qed.

Lemma free_levels_flag bid keys : flag_kept (free_levels bid keys).
Proof using Type.
  induction keys as [|k keys IH]; intros b b' Hr; cbn [free_levels] in Hr; inv_run; [done|].
  match goal with H : free_orders _ _ _ = _ |- _ => apply free_orders_flag in H end.
  match goal with H : free_levels _ _ _ = _ |- _ => apply IH in H end. congruence.
Qed.

Lemma clear_flag : flag_kept clear.
Proof using Type.
  intros b b' Hr. unfold clear in Hr. inv_run.
  repeat match goal with H : free_levels _ _ _ = _ |- _ => apply free_levels_flag in H end. flags.
Qed.

Definition next_flag (ty : UpdateType) (s : bool) : bool :=
  match ty with SNAPSHOT_START => true | SNAPSHOT_END => false | _ => s end.

Lemma applyUpdate_flag u b b' : applyUpdate u b = Ok b' → in_snapshot_ b' = next_flag (mu_type u) (in_snapshot_ b).
Proof using Type.
  unfold applyUpdate, onSnapshotStart, onSnapshotClear, onSnapshotEnd, refresh, next_flag. intros Hr.
  destruct (mu_type u); inv_run; simplify_eq; try done;
    repeat match goal with b : bool |- _ => destruct b end;
    eauto using clear_flag, addOrder_flag, reduceOrder_flag, eraseOrder_flag, replaceOrder_flag;
    try (by eapply clear_flag); try (by eapply addOrder_flag); cbn [updateBBO set_best in_snapshot_];
    by eauto using reduceOrder_flag, eraseOrder_flag, replaceOrder_flag.
Qed.
End SnapshotFlag.

(** ** Feeds *)

(** A feed the book can take: quantities in range, clean replaces, and never
    more resting orders than pool slots. *)
Fixpoint feed_ok (cap : nat) (tid : TickerId) (us : list MarketUpdate) (L : list Resting) : bool :=
  match us with
  | [] => true
  | u :: us' => update_ok cap u L && feed_ok cap tid us' (spec_apply tid u L)
  end.

Definition spec_run (tid : TickerId) (us : list MarketUpdate) (L : list Resting) : list Resting :=
  fold_left (λ L u, spec_apply tid u L) us L.

Lemma new_refines {P} `{ObjectPoolLaws P} tid n : refines (MarketOrderBook_new tid n : MarketOrderBook P) [].
Proof. exists []. split_and!; try done. apply rep_nil; try done. apply op_new_live. Qed.

Lemma applyUpdates_sim {P} `{ObjectPoolLaws P} us (b : MarketOrderBook P) L :
  refines b L → feed_ok (op_capacity (order_pool_ b)) (ticker_id_ b) us L = true →
  simulates b (applyUpdates us b) (spec_run (ticker_id_ b) us L).
Proof.
  revert b L. induction us as [|u us IH]; intros b L Hr Hok; [by apply simulates_same|].
  simpl in Hok. bsplit. destruct (applyUpdate_sim b L u) as (b1 & Hrun & Hr1 & Ht1 & Hc1); try done.
  destruct (IH b1 (spec_apply (ticker_id_ b) u L)) as (b2 & Hrun2 & Hr2 & Ht2 & Hc2); [done|congruence|].
  exists b2. cbn [applyUpdates]. rewrite Hrun. cbn [mbind outcome_bind]. rewrite Ht1 in Hr2.
  split_and!; [done|done|congruence|congruence].
Qed.

Lemma refines_bbo {P} `{ObjectPoolLaws P} (b : MarketOrderBook P) L : refines b L → is_bbo L (getBBO b).
Proof.
  intros (G & <- & Hr & Hb). unfold getBBO. rewrite <- Hb.
  split; simpl; apply best_level_quote; apply Hr.
Qed.

Lemma refines_tracked {P} `{ObjectPoolLaws P} (b : MarketOrderBook P) L : refines b L → trackedOrders b = length L.
Proof.
  intros (G & <- & Hr & _). unfold trackedOrders. rewrite <- size_dom.
  assert (dom (order_index_ b) = list_to_set (r_ref <$> G.*2)) as ->.
  { apply set_eq. intros ref. rewrite elem_of_dom, (index_known _ _ _ Hr), elem_of_list_to_set. apply bool_decide_eq_true. }
  rewrite size_list_to_set by apply Hr. by rewrite !length_fmap.
Qed.

(** C4: The pointer-based book refines the time-priority specification: any
    feed of adds, executions, cancels, deletes, snapshots and clean replaces
    that fits the pool runs without a null, dangling or double-freed pointer
    from an empty book, tracks exactly the specified orders, and the cached
    [getBBO] is the best bid and ask with the total quantity resting there. *)
Theorem book_refines_spec {P} `{ObjectPoolLaws P} tid n us :
  feed_ok n tid us [] = true →
  ∃ b : MarketOrderBook P, applyUpdates us (MarketOrderBook_new tid n) = Ok b ∧
    refines b (spec_run tid us []) ∧ trackedOrders b = length (spec_run tid us []) ∧
    is_bbo (spec_run tid us []) (getBBO b).
Proof.
  intros Hok. destruct (applyUpdates_sim us (MarketOrderBook_new tid n : MarketOrderBook P) [])
    as (b & Hrun & Hr & _ & _); [apply new_refines|simpl; by rewrite op_new_capacity|].
  exists b. split_and!; try done; [by apply refines_tracked|by apply refines_bbo].
Qed.

Definition ex_update (ty : UpdateType) (s : Side) (p : Price) (q : Quantity) (ref new : OrderId) : MarketUpdate :=
  mkMarketUpdate 0 1 ty s p q ref new.
Definition ex_feed : list MarketUpdate :=
  [ex_update ADD BUY 100 5 1 0; ex_update ADD_MPID BUY 100 7 2 0; ex_update ADD SELL 103 4 3 0;
   ex_update ADD BUY 101 9 4 0; ex_update EXECUTE BUY 0 4 4 0; ex_update REPLACE BUY 100 6 4 5;
   ex_update CANCEL BUY 0 5 1 0].

Lemma book_refines_spec_witness :
  ∃ b : MarketOrderBook SetPool, applyUpdates ex_feed (MarketOrderBook_new 1 8) = Ok b ∧
    refines b [mkResting 2 BUY 100 7; mkResting 3 SELL 103 4; mkResting 5 BUY 100 6] ∧
    getBBO b = mkBBO 100 13 103 4.
Proof.
  destruct (book_refines_spec (P := SetPool) 1 8 ex_feed) as (b & Hrun & Hr & _ & _); [vm_compute; reflexivity|].
  exists b. split_and!; [exact Hrun|exact Hr|]. vm_compute in Hrun. injection Hrun as <-. reflexivity.
Defined.

(** The orders met from [o] along [next]. *)
Fixpoint walk (fuel : nat) (h : gmap loc BookOrder) (o : option loc) : option (list (OrderId * Quantity)) :=
  match o, fuel with
  | None, _ => Some []
  | Some _, O => None
  | Some a, S fuel' =>
      x ← h !! a; cons (bo_order_ref x, bo_qty x) <$> walk fuel' h (bo_next x)
  end.

Lemma walk_chain fuel h prev l :
  chain h prev l None → (length l ≤ fuel)%nat →
  walk fuel h (first_addr l None) = Some ((λ x, (r_ref x, r_qty x)) <$> l.*2).
Proof.
  revert fuel prev. induction l as [|[a x] l IH]; intros fuel prev Hc Hlen; [by destruct fuel|].
  destruct fuel as [|fuel]; [simpl in Hlen; lia|]. rewrite chain_cons in Hc. destruct Hc as [Ha Hc].
  cbn [first_addr walk]. rewrite Ha. cbn [mbind option_bind bo_next bo_order_ref bo_qty].
  rewrite (IH fuel (Some a) Hc) by (simpl in Hlen; lia). done.
Qed.

(** The queue of a price: what a walk from the level's head meets. *)
Definition level_orders {P} (bid : bool) (p : Price) (b : MarketOrderBook P) : option (list (OrderId * Quantity)) :=
  match levels bid b !! p with
  | Some v => walk (size (heap_ b)) (heap_ b) (pl_head v)
  | None => Some []
  end.
Definition resting_orders (bid : bool) (p : Price) (L : list Resting) : list (OrderId * Quantity) :=
  (λ x, (r_ref x, r_qty x)) <$> at_level (bid, p) L.

Lemma refines_level {P} `{ObjectPoolLaws P} (b : MarketOrderBook P) L bid p : refines b L →
  level_orders bid p b = Some (resting_orders bid p L) ∧ (is_Some (levels bid b !! p) ↔ resting_orders bid p L ≠ []).
Proof.
  intros (G & <- & Hr & _). pose proof (rp_levels _ _ Hr (bid, p)) as Hl. unfold level_at in Hl. simpl in Hl.
  unfold level_orders, resting_orders. rewrite <- queue_at_level. destruct (levels bid b !! p) as [v|].
  - destruct Hl as (Hne & -> & Hc). split.
    + simpl. eapply walk_chain; [done|]. eapply chain_length; [done|]. apply queue_NoDup, Hr.
    + split; [|by eauto]. intros _ Hnil. apply Hne. by apply fmap_nil_inv, fmap_nil_inv in Hnil.
  - simpl in Hl. rewrite Hl. split; [done|]. split; [by intros []|done].
Qed.

(** An accepted add, in the reference book. *)
Lemma resting_orders_snoc bid p ref u L : resting_orders bid p (spec_add ref u L) = resting_orders bid p L ++
    (if bool_decide ((is_buy (mu_side u), mu_price u) = (bid, p)) then [(ref, mu_qty u)] else []).
Proof.
  unfold resting_orders, spec_add, at_level. rewrite filter_app, fmap_app, filter_cons. f_equal.
  case_decide as E; [by rewrite (bool_decide_true _ E)|by rewrite (bool_decide_false _ E)].
Qed.

Lemma spec_apply_add tid u L : is_add u = true → mu_ticker_id u = tid → known (mu_order_ref u) L = false →
  spec_apply tid u L = spec_add (mu_order_ref u) u L.
Proof. intros Ha Ht Hk. unfold spec_apply, is_add in *. rewrite Ht, Z.eqb_refl, Hk. by destruct (mu_type u). Qed.

(** C29: Price-time priority, over whole feeds.  After any feed the book can take
    (as for the refinement), walking a level from its head along [next] meets
    exactly the orders of the reference book at that price, in order of arrival,
    with their current quantities, and a price with no orders has no level; and
    a further add of a new order leaves every walk as it was, except that the
    order is met last at its own price. *)
Theorem level_is_fifo {P} `{ObjectPoolLaws P} tid n us :
  feed_ok n tid us [] = true →
  ∃ b : MarketOrderBook P, applyUpdates us (MarketOrderBook_new tid n) = Ok b ∧
    (∀ bid p, level_orders bid p b = Some (resting_orders bid p (spec_run tid us [])) ∧
       (is_Some (levels bid b !! p) ↔ resting_orders bid p (spec_run tid us []) ≠ [])) ∧
    ∀ u, is_add u = true → mu_ticker_id u = tid → known (mu_order_ref u) (spec_run tid us []) = false →
      update_ok n u (spec_run tid us []) = true →
      ∃ b', applyUpdate u b = Ok b' ∧ ∀ bid p, ∃ l, level_orders bid p b = Some l ∧
        level_orders bid p b' = Some (l ++ if bool_decide ((is_buy (mu_side u), mu_price u) = (bid, p))
                                           then [(mu_order_ref u, mu_qty u)] else []).
Proof.
  intros Hok. destruct (applyUpdates_sim us (MarketOrderBook_new tid n : MarketOrderBook P) [])
    as (b & Hrun & Hr & Ht & Hc); [apply new_refines|simpl; by rewrite op_new_capacity|].
  cbn [ticker_id_ order_pool_ MarketOrderBook_new] in Hr, Ht, Hc. rewrite op_new_capacity in Hc.
  exists b. split_and!; [done|intros bid p; by apply refines_level|]. intros u Ha Hu Hk Hok'.
  destruct (applyUpdate_sim b _ u Hr) as (b' & Hrun' & Hr' & _); [by rewrite Hc|]. exists b'. split; [done|]. intros bid p.
  destruct (refines_level _ _ bid p Hr) as [Hl _], (refines_level _ _ bid p Hr') as [Hl' _]. eexists. split; [exact Hl|].
  rewrite Hl', Ht. by rewrite spec_apply_add, resting_orders_snoc.
Qed.

Lemma level_is_fifo_witness :
  ∃ b b' : MarketOrderBook SetPool, applyUpdates ex_feed (MarketOrderBook_new 1 8) = Ok b ∧
    level_orders true 100 b = Some [(2, 7); (5, 6)] ∧ applyUpdate (ex_update ADD BUY 100 8 9 0) b = Ok b' ∧
    level_orders true 100 b' = Some [(2, 7); (5, 6); (9, 8)].
Proof.
  destruct (level_is_fifo (P := SetPool) 1 8 ex_feed) as (b & Hrun & Hl & Hadd); [vm_compute; reflexivity|].
  destruct (Hadd (ex_update ADD BUY 100 8 9 0)) as (b' & Hrun' & Hl'); [reflexivity..|].
  exists b, b'. destruct (Hl true 100) as [H100 _], (Hl' true 100) as (l & Hl1 & Hl2).
  rewrite H100 in Hl1. injection Hl1 as <-. split_and!; [exact Hrun|exact H100|exact Hrun'|exact Hl2].
Defined.

(** C30: [clear] (and with it the start of a snapshot) empties the book: it
    terminates, returns every node to the pool exactly once, and leaves no
    level, no tracked order and an invalid BBO. *)
Theorem clear_returns_every_node {P} `{ObjectPoolLaws P} (b : MarketOrderBook P) L :
  refines b L →
  ∃ b', clear b = Ok b' ∧ refines b' [] ∧ op_live (order_pool_ b') = ∅ ∧ empty b' = true ∧
    trackedOrders b' = 0%nat ∧ getBBO b' = default_BBO.
Proof.
  intros (G & <- & Hr & _). destruct (clear_rep G b Hr) as (b' & Hrun & Hr' & Hb & Hbbo & _).
  assert (refines b' []) as Href by (by exists []).
  assert (∀ bid, levels bid b' = ∅) as Hlv.
  { intros bid. apply map_empty. intros p. pose proof (rp_levels _ _ Hr' (bid, p)) as Hl. unfold level_at in Hl. simpl in Hl.
    by destruct (levels bid b' !! p) as [v|]; [destruct Hl|]. }
  exists b'. split_and!; try done.
  - by rewrite (rp_live _ _ Hr').
  - unfold empty. rewrite (Hlv true : bids_ b' = ∅), (Hlv false : asks_ b' = ∅). by rewrite bool_decide_true.
  - by rewrite (refines_tracked _ _ Href).
Qed.

Lemma clear_returns_every_node_witness :
  ∃ b b' : MarketOrderBook SetPool, applyUpdates ex_feed (MarketOrderBook_new 1 8) = Ok b ∧ clear b = Ok b' ∧
    trackedOrders b = 3%nat ∧ op_live (order_pool_ b') = ∅.
Proof.
  destruct (applyUpdates_sim ex_feed (MarketOrderBook_new 1 8 : MarketOrderBook SetPool) [])
    as (b & Hrun & Hr & _ & _); [apply new_refines|vm_compute; reflexivity|].
  destruct (clear_returns_every_node b _ Hr) as (b' & Hrun' & _ & Hl & _).
  exists b, b'. split_and!; [exact Hrun|exact Hrun'|exact (refines_tracked _ _ Hr)|exact Hl].
Defined.

(** A replace of an order that has a younger one behind it corrupts the
    book: [replaceOrder] leaves the moved node's [next] pointing into the old
    level.  After the moved order is deleted its level survives, so the
    best bid is a price at which nobody rests, with quantity zero; and
    a snapshot that clears the book in between frees the younger order twice. *)
Theorem replace_corrupts_book :
  let adds := [ex_update ADD BUY 100 5 1 0; ex_update ADD BUY 100 7 2 0; ex_update REPLACE BUY 101 5 1 3] in
  (∃ b : MarketOrderBook SetPool,
    applyUpdates (adds ++ [ex_update DELETE BUY 0 0 3 0]) (MarketOrderBook_new 1 8) = Ok b ∧
    spec_run 1 (adds ++ [ex_update DELETE BUY 0 0 3 0]) [] = [mkResting 2 BUY 100 7] ∧
    getBBO b = mkBBO 101 0 Price_INVALID 0) ∧
  applyUpdates (adds ++ [ex_update SNAPSHOT_START BUY 0 0 0 0])
    (MarketOrderBook_new 1 8 : MarketOrderBook SetPool) = Undef.
Proof.
  split.
  - eexists. split; [vm_compute; reflexivity|]. by split.
  - vm_compute. reflexivity.
Qed.
