(* ===== verification/Features.v ===== *)
(** * The features of [src/src/trading/features]

    Each feature is a small state updated on every market update from the
    ticker's book; [FeatureEngine] is their product, updated in order.  The
    [FeaturePlugin] concept is a class.  The arithmetic is that of the C++
    types: overflow of [int32_t] or [int64_t] is [Undef]. *)

From S2P Require Import Prelude Types QuantLink MarketOrderBook.

(** [concept FeaturePlugin], with the default state of the feature. *)
Class FeaturePlugin (P F : Type) : Type := {
  feature_init : F;
  feature_onMarketUpdate : MarketUpdate → MarketOrderBook P → F → outcome F
}.

(** ** [MktPriceFeature]: the microprice *)
Record MktPriceFeature : Type := mkMktPrice { price_ : Price }.

Definition mkt_price_of (bbo : BBO) : outcome Price :=
  if (bid_price bbo =? Price_INVALID) || (ask_price bbo =? Price_INVALID) ||
     (bid_qty bbo =? 0) || (ask_qty bbo =? 0) then Ok Price_INVALID
  else
    a ← chkS 64 (ask_price bbo * bid_qty bbo);
    b ← chkS 64 (bid_price bbo * ask_qty bbo);
    n ← chkS 64 (a + b);
    d ← chkS 64 (bid_qty bbo + ask_qty bbo);
    q ← divS 64 n d;
    Ok (wrapS 32 q).

#[export] Instance MktPriceFeature_plugin P : FeaturePlugin P MktPriceFeature := {
  feature_init := mkMktPrice Price_INVALID;
  feature_onMarketUpdate _ book _ := p ← mkt_price_of (getBBO book); Ok (mkMktPrice p)
}.

(** ** [SpreadFeature] *)
Record SpreadFeature : Type := mkSpread { spread_ : Price }.

Definition spread_of (bbo : BBO) : outcome Price :=
  if (bid_price bbo =? Price_INVALID) || (ask_price bbo =? Price_INVALID) then Ok Price_INVALID
  else chkS 32 (ask_price bbo - bid_price bbo).

#[export] Instance SpreadFeature_plugin P : FeaturePlugin P SpreadFeature := {
  feature_init := mkSpread Price_INVALID;
  feature_onMarketUpdate _ book _ := s ← spread_of (getBBO book); Ok (mkSpread s)
}.

(** ** [OrderBookImbalanceFeature] *)
Record OrderBookImbalanceFeature : Type := mkImbalance { imbalance_ : Ratio }.

Definition imbalance_of (bbo : BBO) : outcome Ratio :=
  total ← chkS 64 (bid_qty bbo + ask_qty bbo);
  if (bid_price bbo =? Price_INVALID) || (ask_price bbo =? Price_INVALID) || (total =? 0) then Ok Ratio_INVALID
  else
    d ← chkS 64 (bid_qty bbo - ask_qty bbo);
    n ← chkS 64 (d * Ratio_SCALE);
    q ← divS 64 n total;
    Ok (wrapS 32 q).

#[export] Instance OrderBookImbalanceFeature_plugin P : FeaturePlugin P OrderBookImbalanceFeature := {
  feature_init := mkImbalance Ratio_INVALID;
  feature_onMarketUpdate _ book _ := r ← imbalance_of (getBBO book); Ok (mkImbalance r)
}.

(** ** [AggTradeRatioFeature]: an execution against a resting sell is a buy *)
Record AggTradeRatioFeature : Type := mkAggTrade { buy_qty_ : Z; sell_qty_ : Z }.

Definition agg_onMarketUpdate (update : MarketUpdate) (f : AggTradeRatioFeature) : outcome AggTradeRatioFeature :=
  if negb (bool_decide (mu_type update = EXECUTE)) then Ok f
  else if bool_decide (mu_side update = SELL) then
    b ← chkS 64 (buy_qty_ f + mu_qty update); Ok (mkAggTrade b (sell_qty_ f))
  else
    s ← chkS 64 (sell_qty_ f + mu_qty update); Ok (mkAggTrade (buy_qty_ f) s).

#[export] Instance AggTradeRatioFeature_plugin P : FeaturePlugin P AggTradeRatioFeature := {
  feature_init := mkAggTrade 0 0;
  feature_onMarketUpdate update _ f := agg_onMarketUpdate update f
}.

Definition agg_value (f : AggTradeRatioFeature) : outcome Ratio :=
  total ← chkS 64 (buy_qty_ f + sell_qty_ f);
  if total =? 0 then Ok Ratio_INVALID
  else
    n ← chkS 64 (buy_qty_ f * Ratio_SCALE);
    q ← divS 64 n total;
    Ok (wrapS 32 q).

Definition agg_reset (f : AggTradeRatioFeature) : AggTradeRatioFeature := mkAggTrade 0 0.

(** ** [FeatureEngine<A, B, ...>]: the fold of [onMarketUpdate] over the bases *)
#[export] Instance FeatureEngine_cons P A B `{FeaturePlugin P A} `{FeaturePlugin P B} : FeaturePlugin P (A * B) := {
  feature_init := (feature_init, feature_init);
  feature_onMarketUpdate update book f :=
    a ← feature_onMarketUpdate update book f.1;
    b ← feature_onMarketUpdate update book f.2;
    Ok (a, b)
}.

(** [T& get<T>()] *)
Class HasFeature (F T : Type) : Type := feature_get : F → T.
#[export] Instance HasFeature_here A : HasFeature A A := id.
#[export] Instance HasFeature_fst A B T `{HasFeature A T} : HasFeature (A * B) T | 2 := λ f, feature_get f.1.
#[export] Instance HasFeature_snd A B T `{HasFeature B T} : HasFeature (A * B) T | 3 := λ f, feature_get f.2.

(** [TradingFeatures] of [main.cpp]. *)
Definition TradingFeatures : Type :=
  MktPriceFeature * (SpreadFeature * (OrderBookImbalanceFeature * AggTradeRatioFeature)).

(** ** Lemmas *)

(** A quote both of whose sides are present. *)
Definition two_sided (bbo : BBO) : Prop := bid_price bbo ≠ Price_INVALID ∧ ask_price bbo ≠ Price_INVALID.

Definition wf_bbo (bbo : BBO) : Prop :=
  is_price (bid_price bbo) ∧ is_price (ask_price bbo) ∧ is_qty (bid_qty bbo) ∧ is_qty (ask_qty bbo).

Lemma mkt_price_spec bbo :
  wf_bbo bbo → bid_qty bbo + ask_qty bbo ≤ 2 ^ 32 →
  ∃ p, mkt_price_of bbo = Ok p ∧ is_price p ∧
    (two_sided bbo → 0 < bid_qty bbo → 0 < ask_qty bbo →
      Z.min (bid_price bbo) (ask_price bbo) ≤ p ≤ Z.max (bid_price bbo) (ask_price bbo) ∧
      Z.abs (p * (bid_qty bbo + ask_qty bbo) - (ask_price bbo * bid_qty bbo + bid_price bbo * ask_qty bbo))
        < bid_qty bbo + ask_qty bbo).
Proof.
  intros (Hb & Ha & Hbq & Haq) Hsum. unfold is_price, is_qty, two_sided in *. unfold mkt_price_of.
  destruct (_ || _) eqn:E.
  { exists Price_INVALID. split_and!; [done|unfold Price_INVALID; lia..|].
    intros (H1 & H2) H3 H4. exfalso. apply orb_true_iff in E as [E|E]; [|bsplit; lia].
    apply orb_true_iff in E as [E|E]; [|bsplit; lia]. apply orb_true_iff in E as [E|E]; bsplit; lia. }
  bsplit. set (a := ask_price bbo) in *. set (b := bid_price bbo) in *.
  set (n := bid_qty bbo) in *. set (m := ask_qty bbo) in *.
  assert (- 2 ^ 31 * n ≤ a * n ≤ (2 ^ 31 - 1) * n) by nia.
  assert (- 2 ^ 31 * m ≤ b * m ≤ (2 ^ 31 - 1) * m) by nia.
  ok_simp.
  pose proof (quot_between (a * n + b * m) (n + m) (Z.min b a) (Z.max b a) ltac:(lia) ltac:(nia)) as Hq.
  pose proof (quot_error (a * n + b * m) (n + m) ltac:(lia)) as He.
  rewrite divS_ok by lia. cbn [mbind outcome_bind]. eexists. split; [done|].
  rewrite wrapS_small by lia. split_and!; [lia..|]. intros _ _ _. lia.
Qed.

Lemma imbalance_spec bbo :
  wf_bbo bbo →
  ∃ r, imbalance_of bbo = Ok r ∧ is_price r ∧
    (r ≠ Ratio_INVALID → two_sided bbo ∧ 0 < bid_qty bbo + ask_qty bbo) ∧
    (two_sided bbo → 0 < bid_qty bbo + ask_qty bbo →
      - Ratio_SCALE ≤ r ≤ Ratio_SCALE ∧
      Z.abs (r * (bid_qty bbo + ask_qty bbo) - (bid_qty bbo - ask_qty bbo) * Ratio_SCALE) < bid_qty bbo + ask_qty bbo).
Proof.
  intros (Hb & Ha & Hbq & Haq). unfold is_price, is_qty, two_sided in *. unfold imbalance_of.
  rewrite (chkS_ok 64 (bid_qty bbo + ask_qty bbo)) by lia. cbn [mbind outcome_bind]. destruct (_ || _) eqn:E.
  { exists Ratio_INVALID. split_and!; [done|unfold Ratio_INVALID; lia|unfold Ratio_INVALID; lia|done|].
    intros (H1 & H2) H3. exfalso. apply orb_true_iff in E as [E|E]; [|bsplit; lia].
    apply orb_true_iff in E as [E|E]; bsplit; lia. }
  bsplit. unfold Ratio_SCALE. ok_simp.
  pose proof (quot_between ((bid_qty bbo - ask_qty bbo) * 1000000) (bid_qty bbo + ask_qty bbo) (- 1000000) 1000000
    ltac:(lia) ltac:(lia)) as Hq.
  pose proof (quot_error ((bid_qty bbo - ask_qty bbo) * 1000000) (bid_qty bbo + ask_qty bbo) ltac:(lia)) as He.
  rewrite divS_ok by lia. cbn [mbind outcome_bind]. eexists. split; [done|].
  rewrite wrapS_small by lia. split_and!; try lia; auto.
Qed.

Lemma spread_spec bbo :
  0 ≤ bid_price bbo < 2 ^ 31 → 0 ≤ ask_price bbo < 2 ^ 31 → spread_of bbo = Ok (ask_price bbo - bid_price bbo).
Proof.
  intros Hb Ha. unfold spread_of, Price_INVALID.
  replace (bid_price bbo =? - 2 ^ 31) with false by lia. replace (ask_price bbo =? - 2 ^ 31) with false by lia.
  apply chkS_ok. lia.
Qed.

Definition wf_agg (bound : Z) (f : AggTradeRatioFeature) : Prop :=
  0 ≤ buy_qty_ f ∧ 0 ≤ sell_qty_ f ∧ buy_qty_ f + sell_qty_ f ≤ bound.

Lemma agg_update_spec bound u f :
  wf_agg bound f → is_qty (mu_qty u) → bound + mu_qty u < 2 ^ 63 →
  ∃ f', agg_onMarketUpdate u f = Ok f' ∧ wf_agg (bound + mu_qty u) f'.
Proof.
  unfold wf_agg, is_qty, agg_onMarketUpdate. intros (Hb & Hs & Hsum) Hq Hbound.
  destruct (negb _); [eexists; split; [done|lia]|]. case_bool_decide; ok_simp; eexists; (split; [done|simpl; lia]).
Qed.

Lemma agg_value_spec f :
  wf_agg (2 ^ 63 / Ratio_SCALE - 1) f →
  ∃ r, agg_value f = Ok r ∧ is_price r ∧
    (0 < buy_qty_ f + sell_qty_ f → 0 ≤ r ≤ Ratio_SCALE ∧
       0 ≤ buy_qty_ f * Ratio_SCALE - r * (buy_qty_ f + sell_qty_ f) < buy_qty_ f + sell_qty_ f).
Proof.
  unfold wf_agg, agg_value, is_price. change (2 ^ 63 / Ratio_SCALE - 1) with 9223372036853. unfold Ratio_SCALE.
  intros (Hb & Hs & Hsum). rewrite (chkS_ok 64 (buy_qty_ f + sell_qty_ f)) by lia. cbn [mbind outcome_bind].
  destruct (_ =? 0) eqn:E; bsplit.
  { exists Ratio_INVALID. unfold Ratio_INVALID. split_and!; [done|lia..|lia]. }
  rewrite chkS_ok by lia. cbn [mbind outcome_bind].
  pose proof (quot_between (buy_qty_ f * 1000000) (buy_qty_ f + sell_qty_ f) 0 1000000 ltac:(lia) ltac:(lia)) as Hq.
  pose proof (Z.quot_rem (buy_qty_ f * 1000000) (buy_qty_ f + sell_qty_ f) ltac:(lia)) as Hr.
  pose proof (Z.rem_bound_pos (buy_qty_ f * 1000000) (buy_qty_ f + sell_qty_ f) ltac:(lia) ltac:(lia)) as Hr'.
  rewrite divS_ok by lia. cbn [mbind outcome_bind]. eexists. split; [done|].
  rewrite wrapS_small by lia. split_and!; lia.
Qed.

(** ** What the engine relies on *)

(** A quote of ordinary size: absent or non-negative prices, and at most 2^32
    shares at the best bid and ask together. *)
Definition quote_ok (bbo : BBO) : Prop :=
  wf_bbo bbo ∧ bid_qty bbo + ask_qty bbo ≤ 2 ^ 32 ∧
  (bid_price bbo = Price_INVALID ∨ 0 ≤ bid_price bbo) ∧ (ask_price bbo = Price_INVALID ∨ 0 ≤ ask_price bbo).

(** [feature_ok n f]: [f] can take [n] more updates without overflow. *)
Class FeatureLaws (P F : Type) `{FeaturePlugin P F} `{HasFeature F MktPriceFeature} (feature_ok : Z → F → Prop) : Prop := {
  feature_init_ok : ∀ n, 0 ≤ n < 2 ^ 30 → feature_ok n feature_init;
  feature_ok_mono : ∀ n f, 0 ≤ n → feature_ok (n + 1) f → feature_ok n f;
  feature_update_ok : ∀ n f u (book : MarketOrderBook P),
    0 ≤ n → feature_ok (n + 1) f → is_qty (mu_qty u) → quote_ok (getBBO book) →
    returns (feature_onMarketUpdate u book f) (λ f', feature_ok n f' ∧ is_price (price_ (feature_get f')))
}.

Definition trading_features_ok (n : Z) (f : TradingFeatures) : Prop :=
  let a := f.2.2.2 in 0 ≤ buy_qty_ a ∧ 0 ≤ sell_qty_ a ∧ buy_qty_ a + sell_qty_ a + n * 2 ^ 32 < 2 ^ 63.

Lemma spread_of_ok bbo : quote_ok bbo → ∃ s, spread_of bbo = Ok s.
Proof.
  intros ((Hb & Ha & _) & _ & Hb' & Ha'). unfold spread_of, is_price, Price_INVALID in *. destruct (_ || _) eqn:E; [eauto|].
  bsplit. rewrite chkS_ok by lia. eauto.
Qed.

#[export] Instance TradingFeatures_laws P : FeatureLaws P TradingFeatures trading_features_ok.
Proof.
  split.
  - intros n Hn. unfold trading_features_ok. simpl. lia.
  - intros n [m [s [i a]]] Hn. unfold trading_features_ok. simpl. lia.
  - intros n [m [s [i [b q]]]] u book Hn (Hb & Hs & Hsum) Hq Hquote. simpl in Hb, Hs, Hsum.
    pose proof Hquote as (Hwf & Hqty & _). unfold feature_onMarketUpdate. simpl.
    destruct (mkt_price_spec _ Hwf Hqty) as (p & -> & Hp & _). cbn [mbind outcome_bind].
    destruct (spread_of_ok _ Hquote) as (sp & ->). cbn [mbind outcome_bind].
    destruct (imbalance_spec _ Hwf) as (r & -> & _). cbn [mbind outcome_bind].
    destruct (agg_update_spec (b + q) u (mkAggTrade b q)) as (f' & -> & Hf').
    { unfold wf_agg. simpl. lia. } { done. } { unfold is_qty in Hq. lia. }
    cbn [mbind outcome_bind returns]. split; [|done]. unfold trading_features_ok, wf_agg, is_qty in *. simpl. lia.
Qed.

(** ** Properties *)

(** C35: The quote features compute what they are named for: for any two-sided
    quote with non-negative prices and at most 2^32 shares in total the
    microprice lies between bid and ask and equals the opposite-size weighted
    average up to truncation, the imbalance lies in [[-SCALE, SCALE]] and is
    exact up to truncation, and the spread is the difference of the prices; none
    of them overflows. *)
Theorem quote_features_exact bbo :
  wf_bbo bbo → two_sided bbo → bid_qty bbo + ask_qty bbo ≤ 2 ^ 32 → 0 < bid_qty bbo → 0 < ask_qty bbo →
  0 ≤ bid_price bbo → 0 ≤ ask_price bbo →
  ∃ p r, mkt_price_of bbo = Ok p ∧ imbalance_of bbo = Ok r ∧ spread_of bbo = Ok (ask_price bbo - bid_price bbo) ∧
    Z.min (bid_price bbo) (ask_price bbo) ≤ p ≤ Z.max (bid_price bbo) (ask_price bbo) ∧
    Z.abs (p * (bid_qty bbo + ask_qty bbo) - (ask_price bbo * bid_qty bbo + bid_price bbo * ask_qty bbo))
      < bid_qty bbo + ask_qty bbo ∧
    - Ratio_SCALE ≤ r ≤ Ratio_SCALE ∧
    Z.abs (r * (bid_qty bbo + ask_qty bbo) - (bid_qty bbo - ask_qty bbo) * Ratio_SCALE) < bid_qty bbo + ask_qty bbo.
Proof.
  intros Hwf Hts Hsum Hb Ha Hbp Hap.
  destruct (mkt_price_spec bbo Hwf Hsum) as (p & Hp & _ & Hp'). destruct (Hp' Hts Hb Ha) as [Hp1 Hp2].
  destruct (imbalance_spec bbo Hwf) as (r & Hr & _ & _ & Hr'). destruct (Hr' Hts ltac:(lia)) as [Hr1 Hr2].
  exists p, r. split_and!; try done; try lia.
  destruct Hwf as (H1 & H2 & _). unfold is_price in *. apply spread_spec; lia.
Qed.

Lemma quote_features_exact_witness :
  ∃ p r, mkt_price_of (mkBBO 1000000 300 1000200 100) = Ok p ∧ imbalance_of (mkBBO 1000000 300 1000200 100) = Ok r ∧
    1000000 ≤ p ≤ 1000200.
Proof.
  destruct (quote_features_exact (mkBBO 1000000 300 1000200 100)) as (p & r & Hp & Hr & _ & Hb & _);
    try (unfold wf_bbo, two_sided, is_price, is_qty, Price_INVALID; simpl; lia).
  exists p, r. split_and!; [exact Hp|exact Hr|simpl in Hb; lia..].
Defined.

(** Executions seen by the trade-ratio feature. *)
Fixpoint agg_run (us : list MarketUpdate) (f : AggTradeRatioFeature) : outcome AggTradeRatioFeature :=
  match us with
  | [] => Ok f
  | u :: us' => f ← agg_onMarketUpdate u f; agg_run us' f
  end.

(** The quantity an update traded with a buying (selling) aggressor. *)
Definition traded_by (aggressor_buys : bool) (u : MarketUpdate) : Z :=
  if bool_decide (mu_type u = EXECUTE) && Bool.eqb (bool_decide (mu_side u = SELL)) aggressor_buys then mu_qty u else 0.
Definition traded (aggressor_buys : bool) (us : list MarketUpdate) : Z := sumZ (traded_by aggressor_buys <$> us).

Lemma traded_by_nonneg d u : is_qty (mu_qty u) → 0 ≤ traded_by d u.
Proof. unfold is_qty, traded_by. intros Hu. destruct (_ && _); lia. Qed.

Lemma traded_nonneg d us : Forall (λ u, is_qty (mu_qty u)) us → 0 ≤ traded d us.
Proof.
  intros Hq. apply sumZ_nonneg, Forall_fmap. eapply Forall_impl; [exact Hq|]. intros u Hu.
  by apply traded_by_nonneg.
Qed.

Lemma agg_update_exact u f :
  is_qty (mu_qty u) → 0 ≤ buy_qty_ f → 0 ≤ sell_qty_ f →
  buy_qty_ f + traded_by true u < 2 ^ 63 → sell_qty_ f + traded_by false u < 2 ^ 63 →
  agg_onMarketUpdate u f = Ok (mkAggTrade (buy_qty_ f + traded_by true u) (sell_qty_ f + traded_by false u)).
Proof.
  unfold agg_onMarketUpdate, traded_by, is_qty. intros Hq Hb Hs. destruct f as [b s].
  destruct (bool_decide (mu_type u = EXECUTE)), (bool_decide (mu_side u = SELL)); simpl in *; intros Hb' Hs';
    rewrite ?Z.add_0_r, ?chkS_ok by lia; done.
Qed.

Lemma agg_run_spec us f :
  Forall (λ u, is_qty (mu_qty u)) us → 0 ≤ buy_qty_ f → 0 ≤ sell_qty_ f →
  buy_qty_ f + traded true us < 2 ^ 63 → sell_qty_ f + traded false us < 2 ^ 63 →
  agg_run us f = Ok (mkAggTrade (buy_qty_ f + traded true us) (sell_qty_ f + traded false us)).
Proof.
  intros Hq. revert f. induction Hq as [|u us Hu Hus IH]; intros f Hb Hs Hb' Hs'.
  { unfold traded. simpl. rewrite !Z.add_0_r. by destruct f. }
  assert (∀ d, traded d (u :: us) = traded_by d u + traded d us) as Hc by done. rewrite !Hc in *.
  pose proof (traded_nonneg true us Hus). pose proof (traded_nonneg false us Hus).
  pose proof (traded_by_nonneg true u Hu). pose proof (traded_by_nonneg false u Hu).
  cbn [agg_run]. rewrite agg_update_exact by (done || lia). cbn [mbind outcome_bind].
  rewrite IH by (cbn [buy_qty_ sell_qty_]; lia). cbn [buy_qty_ sell_qty_]. by rewrite !Z.add_assoc.
Qed.

(** C36: The aggressive trade ratio over any sequence of updates is the share of
    the executed quantity that traded against resting sells, in millionths
    rounded down, as long as the executed total stays below 9.2 * 10^12. *)
Theorem agg_trade_ratio_exact us :
  Forall (λ u, is_qty (mu_qty u)) us → 0 < traded true us + traded false us →
  traded true us + traded false us < 2 ^ 63 / Ratio_SCALE →
  ∃ f r, agg_run us (mkAggTrade 0 0) = Ok f ∧ agg_value f = Ok r ∧ 0 ≤ r ≤ Ratio_SCALE ∧
    0 ≤ traded true us * Ratio_SCALE - r * (traded true us + traded false us) < traded true us + traded false us.
Proof.
  intros Hq Hpos Hmax.
  pose proof (traded_nonneg true us Hq). pose proof (traded_nonneg false us Hq). assert (2 ^ 63 / Ratio_SCALE < 2 ^ 63) by (vm_compute; reflexivity).
  rewrite agg_run_spec; simpl; try done; try lia.
  destruct (agg_value_spec (mkAggTrade (0 + traded true us) (0 + traded false us))) as (r & Hr & _ & Hr').
  { split_and!; simpl; lia. }
  simpl in Hr'. destruct Hr' as [Hr1 Hr2]; [lia|]. eexists _, r. split_and!; [done|done|lia..].
Qed.

Lemma agg_trade_ratio_exact_witness :
  ∃ f r, agg_run [mkMarketUpdate 1 1 EXECUTE SELL 0 30 7 0; mkMarketUpdate 2 1 EXECUTE BUY 0 10 8 0] (mkAggTrade 0 0) = Ok f ∧
    agg_value f = Ok r ∧ 0 ≤ r ≤ Ratio_SCALE.
Proof.
  destruct (agg_trade_ratio_exact [mkMarketUpdate 1 1 EXECUTE SELL 0 30 7 0; mkMarketUpdate 2 1 EXECUTE BUY 0 10 8 0])
    as (f & r & Hf & Hr & Hb & _).
  - repeat constructor; unfold is_qty; simpl; lia.
  - vm_compute. reflexivity.
  - vm_compute. reflexivity.
  - exists f, r. split_and!; [exact Hf|exact Hr|lia..].
Defined.

(** The microprice overflows [int64_t] on quotes the book can produce: with
    prices near the top of their range and both sides near 2^32 shares the
    weighted sum leaves the 64-bit range. *)
Theorem mkt_price_overflows :
  ∃ bbo, wf_bbo bbo ∧ two_sided bbo ∧ bid_price bbo ≤ ask_price bbo ∧ mkt_price_of bbo = Undef.
Proof.
  exists (mkBBO (2 ^ 31 - 2) (2 ^ 32 - 1) (2 ^ 31 - 1) (2 ^ 32 - 1)).
  unfold wf_bbo, two_sided, is_price, is_qty, Price_INVALID. simpl bid_price. simpl ask_price. simpl bid_qty. simpl ask_qty.
  split_and!; try lia. vm_compute. reflexivity.
Qed.
