(* ===== verification/Strategy.v ===== *)
(** * Strategies: [src/src/trading/strategy.h]

    The [Strategy] concept as a class, and [LiquidityTaker].  A strategy object
    is the user data of its slot's order manager (the engine's forwarder calls
    its [onOrderUpdate]), so its state is the [c_user] of the context: an order
    update that arrives while a hook is sending is seen by the hook. *)

From S2P Require Import Prelude Types OrderIdAllocator PnLTracker RiskManager QuantLink OrderManager OrderManagerInv.
From S2P Require Import OrderLifecycle MarketOrderBook Features.

Record IocSignalConfig : Type := mkIocSignalConfig {
  order_qty : Quantity;
  entry_imbalance : Ratio
}.

(** Per-ticker state handed to the hooks.  The book is shared and owned by the
    engine: [en_book] is its place in the engine's ticker registry. *)
Record Entry (F : Type) : Type := mkStrategyEntry {
  en_ticker_id : TickerId;
  en_book : nat;
  en_features : option F
}.
Arguments mkStrategyEntry {F} _ _ _.
Arguments en_ticker_id {F} _.
Arguments en_book {F} _.
Arguments en_features {F} _.

(** [concept Strategy]: the hooks return the number of orders submitted.  They
    read their entry and its book and act through the order manager. *)
Class Strategy (P : Type) (Q : Type → Type) (F S : Type) : Type := {
  onBookUpdate : Entry F → MarketOrderBook P → MarketUpdate → Ctx Q S → outcome (Z * Ctx Q S);
  onTrade : Entry F → MarketOrderBook P → MarketUpdate → Ctx Q S → outcome (Z * Ctx Q S);
  onOrderUpdate : OMOrder → S → S
}.

(** A request for ticker [tid] that the gateway can send. *)
Definition request_ready (tid : TickerId) (rq : OrderRequest) : Prop :=
  rq_ticker_id rq = tid ∧ is_u64 (rq_client_order_id rq) ∧ is_u64 (rq_new_client_order_id rq) ∧
  (rq_side rq = BUY ∨ rq_side rq = SELL) ∧ is_price (rq_price rq) ∧ is_qty (rq_qty rq) ∧
  match rq_type rq with
  | RQ_NEW => tid ≠ TickerId_INVALID ∧ 0 ≤ rq_price rq
  | RQ_CANCEL => True
  | RQ_REPLACE => rq_new_client_order_id rq ≠ 0 ∧ 0 ≤ rq_price rq
  end.

(** What the engine may rely on: from a consistent order manager with ids to
    spare, a hook returns, keeps it consistent, spends at most one id, keeps
    the slot number, the positions and the strategy's own invariant, and queues
    only requests for its entry's ticker that the gateway can send. *)
Definition hook_safe {Q S} `{SPSCQueue Q} (strategy_ok : S → Prop) (MaxT MaxP MaxO : nat) (tid : TickerId)
    (c : Ctx Q S) (r : outcome (Z * Ctx Q S)) : Prop :=
  returns r (λ '(n, c'), 0 ≤ n ≤ 1 ∧ ctx_ok MaxT MaxP MaxO c' ∧ slot_ (c_om c') = slot_ (c_om c) ∧
    c_pnl c' = c_pnl c ∧ c_callback c' = c_callback c ∧ strategy_ok (c_user c') ∧
    (∃ new, sent c' = sent c ++ new ∧ Forall (request_ready tid) new) ∧
    ∃ a a', c_allocator c = Some a ∧ c_allocator c' = Some a' ∧
      slot_count_ a' = slot_count_ a ∧ counter_ a ≤ counter_ a' ≤ counter_ a + 1).

(** The order-update callback keeps the strategy's invariant. *)
Definition callback_ok {Q S} (strategy_ok : S → Prop) (c : Ctx Q S) : Prop :=
  ∀ f, c_callback c = Some f → ∀ o s, strategy_ok s → strategy_ok (f o s).

Class StrategyLaws (P : Type) (Q : Type → Type) (F S : Type) `{Strategy P Q F S} `{SPSCQueue Q}
    (strategy_ok : S → Prop) (MaxT MaxP MaxO : nat) : Prop := {
  onBookUpdate_safe : ∀ entry book u (c : Ctx Q S),
    ctx_ok MaxT MaxP MaxO c → spare_id c → strategy_ok (c_user c) → callback_ok strategy_ok c →
    is_Some (en_features entry) →
    (∀ pnl, c_pnl c = Some pnl → roomy pnl) →
    is_price (bid_price (getBBO book)) → is_price (ask_price (getBBO book)) →
    hook_safe strategy_ok MaxT MaxP MaxO (en_ticker_id entry) c (onBookUpdate entry book u c);
  onTrade_safe : ∀ entry book u (c : Ctx Q S),
    ctx_ok MaxT MaxP MaxO c → spare_id c → strategy_ok (c_user c) → callback_ok strategy_ok c →
    is_Some (en_features entry) →
    (∀ pnl, c_pnl c = Some pnl → roomy pnl) →
    is_price (bid_price (getBBO book)) → is_price (ask_price (getBBO book)) →
    hook_safe strategy_ok MaxT MaxP MaxO (en_ticker_id entry) c (onTrade entry book u c)
}.

(** ** [LiquidityTaker] *)

Section LiquidityTaker.
Context {P : Type} {Q : Type → Type} `{SPSCQueue Q} {F : Type} `{HasFeature F OrderBookImbalanceFeature}.
Context (MaxPendingOrders MaxOrders : nat).

(** Which side and price the signal asks for. *)
Definition signal (config : IocSignalConfig) (imbalance : Ratio) (bbo : BBO) : outcome (option (Side * Price)) :=
  if (imbalance =? Ratio_INVALID) || (order_qty config =? 0) then Ok None
  else if entry_imbalance config <=? imbalance then Ok (Some (BUY, ask_price bbo))
  else
    low ← chkS 32 (- entry_imbalance config);
    Ok (if imbalance <=? low then Some (SELL, bid_price bbo) else None).

Definition ioc_request (ticker_id : TickerId) (side : Side) (price : Price) (qty : Quantity) : OrderRequest :=
  mkOrderRequest RQ_NEW 0 0 ticker_id side price qty true.

Definition evaluate (entry : Entry F) (book : MarketOrderBook P) (c : Ctx Q IocSignalConfig)
    : outcome (Z * Ctx Q IocSignalConfig) :=
  features ← deref (en_features entry);
  let config := c_user c in
  sig ← signal config (imbalance_ (feature_get features)) (getBBO book);
  match sig with
  | None => Ok (0, c)
  | Some (side, price) =>
      pnl ← deref (c_pnl c);
      match PnLTracker.get (en_ticker_id entry) pnl with
      | None => Ok (0, c)
      | Some position =>
          if price =? Price_INVALID then Ok (0, c)
          else
            '(sent, c) ← sendNewOrder MaxPendingOrders MaxOrders
                           (ioc_request (en_ticker_id entry) side price (order_qty config)) position c;
            Ok (if (sent : bool) then 1 else 0, c)
      end
  end.

#[export] Instance LiquidityTaker_strategy : Strategy P Q F IocSignalConfig := {
  onBookUpdate entry book _ c := evaluate entry book c;
  onTrade entry book _ c := evaluate entry book c;
  onOrderUpdate _ s := s
}.
End LiquidityTaker.

(** ** Lemmas *)

Definition wf_config (config : IocSignalConfig) : Prop :=
  is_qty (order_qty config) ∧ - 2 ^ 31 < entry_imbalance config < 2 ^ 31.

(** When the signal fires, and how. *)
Definition fires (config : IocSignalConfig) (imbalance : Ratio) (bbo : BBO) (side : Side) (price : Price) : Prop :=
  imbalance ≠ Ratio_INVALID ∧ 0 < order_qty config ∧
  (entry_imbalance config ≤ imbalance ∧ side = BUY ∧ price = ask_price bbo ∨
   imbalance < entry_imbalance config ∧ imbalance ≤ - entry_imbalance config ∧ side = SELL ∧ price = bid_price bbo).

Lemma signal_spec config imbalance bbo :
  wf_config config →
  ∃ s, signal config imbalance bbo = Ok s ∧ ∀ side price, s = Some (side, price) ↔ fires config imbalance bbo side price.
Proof.
  intros [Hq He]. unfold signal, fires, is_qty in *. destruct (_ || _) eqn:E.
  { eexists. split; [done|]. intros. split; [done|]. intros (H1 & H2 & _). apply orb_true_iff in E as [E|E]; bsplit; lia. }
  bsplit. destruct (_ <=? _) eqn:E1; bsplit.
  { eexists. split; [done|]. intros. split; [intros [= <- <-]; split_and!; [done|lia|auto]|naive_solver lia]. }
  rewrite chkS_ok by lia. cbn [mbind outcome_bind]. eexists. split; [done|]. intros.
  destruct (imbalance <=? _) eqn:E2; bsplit.
  - split; [intros [= <- <-]; split_and!; [done|lia|auto]|naive_solver lia].
  - split; [done|naive_solver lia].
Qed.

(** What a submission leaves alone besides the orders. *)
Lemma sendNewOrder_frame {Q : Type → Type} `{SPSCQueue Q} {U} MaxP MaxO request pos (c c' : Ctx Q U) a b :
  c_allocator c = Some a → 0 < counter_ a < 2 ^ 48 → sendNewOrder MaxP MaxO request pos c = Ok (b, c') →
  slot_ (c_om c') = slot_ (c_om c) ∧ c_callback c' = c_callback c ∧ c_pnl c' = c_pnl c ∧
  (c_user c' = c_user c ∨ ∃ f o, c_callback c = Some f ∧ c_user c' = f o (c_user c)) ∧
  ∃ a', c_allocator c' = Some a' ∧ slot_count_ a' = slot_count_ a ∧ counter_ a ≤ counter_ a' ≤ counter_ a + 1.
Proof.
  intros Ha Hcnt. unfold sendNewOrder. rewrite Ha.
  assert (∀ c1 : Ctx Q U, c1 = c → slot_ (c_om c1) = slot_ (c_om c) ∧ c_callback c1 = c_callback c ∧ c_pnl c1 = c_pnl c ∧
    (c_user c1 = c_user c ∨ ∃ f o, c_callback c = Some f ∧ c_user c1 = f o (c_user c)) ∧
    ∃ a', c_allocator c1 = Some a' ∧ slot_count_ a' = slot_count_ a ∧ counter_ a ≤ counter_ a' ≤ counter_ a + 1) as Hsame.
  { intros c1 ->. split_and!; [done|done|done|by left|]. exists a. split_and!; (done || lia). }
  destruct (c_outgoing c) as [q|]; [|intros [= <- <-]; by apply Hsame].
  destruct (c_risk c) as [r|]; [|intros [= <- <-]; by apply Hsame].
  case_bool_decide; [intros [= <- <-]; by apply Hsame|].
  destruct (next (slot_ (c_om c)) a) as [id a'] eqn:Hn.
  assert (slot_count_ a' = slot_count_ a ∧ counter_ a' = counter_ a + 1) as [Hsc Hcc].
  { pose proof (next_counter (slot_ (c_om c)) a) as Hc. rewrite Hn in Hc. simpl in Hc.
    split; [by injection Hn as <- <-|]. apply Hc; unfold is_u64; lia. }
  destruct (canSubmit _ _ _ _) as [v| |]; [|done..]. cbn [mbind outcome_bind].
  destruct (negb _); [intros [= <- <-]; simpl; split_and!; [done|done|done|by left|exists a'; split_and!; (done || lia)]|].
  destruct (q_push _ q) as [[] q']; simpl negb; cbn iota;
    [|intros [= <- <-]; simpl; split_and!; [done|done|done|by left|exists a'; split_and!; (done || lia)]].
  destruct (onSubmitted _ _ _) as [[] r']; simpl negb; cbn iota;
    [|intros [= <- <-]; simpl; split_and!; [done|done|done|by left|exists a'; split_and!; (done || lia)]].
  intros [= <- <-].
  match goal with |- context [notify ?o ?x] => destruct (notify_frame o x) as (Ho & _ & Hpn & _ & Hal & Hcb) end.
  rewrite Ho, Hal, Hcb, Hpn. simpl. split_and!; [done|done|done| |exists a'; split_and!; (done || lia)].
  unfold notify. simpl. destruct (c_callback c) as [f|]; [right; eauto|by left].
Qed.

Section Taker.
Context {P : Type} {Q : Type → Type} `{SPSCQueueLaws Q} {F : Type} `{HasFeature F OrderBookImbalanceFeature}.
Context (MaxT MaxP MaxO : nat) (HMaxP : Z.of_nat MaxP < 2 ^ 30).
Implicit Types (c : Ctx Q IocSignalConfig) (book : MarketOrderBook P).

(** The hook on every branch. *)
Lemma evaluate_spec (entry : Entry F) book c pnl f :
  ctx_ok MaxT MaxP MaxO c → spare_id c → c_pnl c = Some pnl → roomy pnl → wf_config (c_user c) →
  en_features entry = Some f →
  is_price (bid_price (getBBO book)) → is_price (ask_price (getBBO book)) →
  returns (evaluate MaxP MaxO entry book c) (λ '(n, c'),
    ctx_ok MaxT MaxP MaxO c' ∧
    (n = 0 ∧ sent c' = sent c ∨
     n = 1 ∧ ∃ side price id pos, fires (c_user c) (imbalance_ (feature_get f)) (getBBO book) side price ∧
       price ≠ Price_INVALID ∧ PnLTracker.get (en_ticker_id entry) pnl = Some pos ∧
       sent c' = sent c ++ [with_id (ioc_request (en_ticker_id entry) side price (order_qty (c_user c))) id] ∧
       request_ready (en_ticker_id entry) (with_id (ioc_request (en_ticker_id entry) side price (order_qty (c_user c))) id))).
Proof using All.
  intros Hok Hsp Hp Hroom Hcfg Hf Hb Ha. unfold evaluate. rewrite Hf. cbn [deref mbind outcome_bind].
  destruct (signal_spec (c_user c) (imbalance_ (feature_get f)) (getBBO book) Hcfg) as (s & -> & Hs).
  cbn [mbind outcome_bind]. destruct s as [[side price]|]; [|split; [done|by left]].
  specialize (Hs side price) as [Hs _]. specialize (Hs eq_refl). rewrite Hp. cbn [deref mbind outcome_bind].
  destruct (PnLTracker.get _ pnl) as [pos|] eqn:Hg; [|split; [done|by left]].
  destruct (price =? Price_INVALID) eqn:Ep; bsplit; [split; [done|by left]|].
  assert (is_price price) as Hprice.
  { destruct Hs as (_ & _ & [(_ & _ & ->)|(_ & _ & _ & ->)]); done. }
  apply returns_bind. eapply returns_mono.
  { eapply (sendNewOrder_spec MaxT MaxP MaxO HMaxP); try done.
    - split; [done|]. apply Hcfg.
    - specialize (Hroom _ _ Hg). unfold is_s64. lia. }
  intros [[] c'] (Hok' & _ & Hb').
  - simpl. split; [done|]. right. split; [done|]. destruct Hb' as (a & id & r & r' & Hal & Hid & _ & _ & Hadm & Hsent & _).
    exists side, price, id, pos. split_and!; try done.
    destruct Hok as (? & ? & a0 & ? & _ & _ & Ha0 & _ & _ & Hom). rewrite Hal in Ha0. injection Ha0 as <-.
    destruct Hadm as (_ & _ & _ & Htk & Hpr & _). cbn [with_id ioc_request rq_ticker_id rq_price] in Htk, Hpr.
    split_and!; try done; simpl.
    + rewrite Hid. apply next_id_u64, (ok_slot _ _ _ _ _ _ Hom).
    + destruct Hs as (_ & _ & [(_ & -> & _)|(_ & _ & -> & _)]); auto.
    + apply Hcfg.
  - simpl. split; [done|]. left. by destruct Hb' as [? _].
Qed.

(** The signal asks for an order that can be submitted. *)
Definition acts (entry : Entry F) book c (f : F) (pnl : PnLTracker) (side : Side) (price : Price) (pos : Position) : Prop :=
  fires (c_user c) (imbalance_ (feature_get f)) (getBBO book) side price ∧ price ≠ Price_INVALID ∧
  PnLTracker.get (en_ticker_id entry) pnl = Some pos.

Lemma evaluate_acts (entry : Entry F) book c f pnl side price pos :
  en_features entry = Some f → c_pnl c = Some pnl → wf_config (c_user c) → acts entry book c f pnl side price pos →
  evaluate MaxP MaxO entry book c =
    ('(sent, c') ← sendNewOrder MaxP MaxO (ioc_request (en_ticker_id entry) side price (order_qty (c_user c))) pos c;
     Ok (if (sent : bool) then 1 else 0, c')).
Proof using Type.
  intros Hf Hp Hcfg (Hfire & Hpr & Hg). unfold evaluate. rewrite Hf. cbn [deref mbind outcome_bind].
  destruct (signal_spec (c_user c) (imbalance_ (feature_get f)) (getBBO book) Hcfg) as (s & -> & Hs).
  apply Hs in Hfire as ->. cbn [mbind outcome_bind]. rewrite Hp. cbn [deref mbind outcome_bind].
  by rewrite Hg, (proj2 (Z.eqb_neq _ _) Hpr).
Qed.

Lemma evaluate_idle (entry : Entry F) book c f pnl :
  en_features entry = Some f → c_pnl c = Some pnl → wf_config (c_user c) →
  (∀ side price pos, ¬ acts entry book c f pnl side price pos) → evaluate MaxP MaxO entry book c = Ok (0, c).
Proof using Type.
  intros Hf Hp Hcfg Hno. unfold evaluate. rewrite Hf. cbn [deref mbind outcome_bind].
  destruct (signal_spec (c_user c) (imbalance_ (feature_get f)) (getBBO book) Hcfg) as (s & -> & Hs).
  cbn [mbind outcome_bind]. destruct s as [[side price]|]; [|done]. rewrite Hp. cbn [deref mbind outcome_bind].
  destruct (PnLTracker.get _ pnl) as [pos|] eqn:Hg; [|done]. destruct (price =? Price_INVALID) eqn:E; [done|]. bsplit.
  destruct (Hno side price pos). split_and!; [by apply Hs|done|done].
Qed.

Lemma evaluate_safe (entry : Entry F) book c :
  ctx_ok MaxT MaxP MaxO c → spare_id c → wf_config (c_user c) → callback_ok wf_config c → is_Some (en_features entry) →
  (∀ pnl, c_pnl c = Some pnl → roomy pnl) →
  is_price (bid_price (getBBO book)) → is_price (ask_price (getBBO book)) →
  hook_safe wf_config MaxT MaxP MaxO (en_ticker_id entry) c (evaluate MaxP MaxO entry book c).
Proof using All.
  intros Hok Hsp Hcfg Hcb [f Hf] Hroom Hb Ha. pose proof Hok as (r & pnl & a & q & Hr & Hp & Hal & _ & _ & Hom).
  pose proof (ok_counter _ _ _ _ _ _ Hom) as Hcnt.
  pose proof (evaluate_spec entry book c pnl f Hok Hsp Hp (Hroom _ Hp) Hcfg Hf Hb Ha) as Hspec.
  unfold hook_safe. apply returns_ok in Hspec as ([n c'] & Hrun & Hok' & Hn). rewrite Hrun. simpl.
  split; [lia|]. split; [done|].
  assert (c' = c ∨ ∃ rq pos b, sendNewOrder MaxP MaxO rq pos c = Ok (b, c')) as Hcase.
  { revert Hrun. unfold evaluate. rewrite Hf. cbn [deref mbind outcome_bind].
    destruct (signal _ _ _) as [s| |]; [|done..]. cbn [mbind outcome_bind].
    destruct s as [[side price]|]; [|intros [= <- <-]; by left]. rewrite Hp. cbn [deref mbind outcome_bind].
    destruct (PnLTracker.get _ pnl) as [pos|]; [|intros [= <- <-]; by left].
    destruct (price =? _); [intros [= <- <-]; by left|].
    destruct (sendNewOrder _ _ _ _ _) as [[b c1]| |] eqn:Hs; [|done..]. intros [= <- <-]. eauto. }
  assert (∃ new, sent c' = sent c ++ new ∧ Forall (request_ready (en_ticker_id entry)) new) as Hnew.
  { destruct Hn as [(_ & Hn)|(_ & side & price & id & pos & _ & _ & _ & Hn & Hready)]; [exists []; by rewrite app_nil_r|].
    eexists. split; [exact Hn|]. by apply Forall_singleton. }
  destruct Hcase as [->|(rq & pos & b & Hs)].
  - do 4 (split; [done|]). split; [exact Hnew|]. exists a, a. split_and!; (done || lia).
  - destruct (sendNewOrder_frame _ _ _ _ _ _ _ _ Hal Hcnt Hs) as (H2 & H3 & H4 & Hu & a' & H5 & H6 & H7).
    do 3 (split; [done|]). split; [destruct Hu as [->|(g & o & Hg & ->)]; [done|by eapply Hcb]|].
    split; [exact Hnew|]. exists a, a'. done.
Qed.

#[export] Instance LiquidityTaker_laws :
  StrategyLaws P Q F IocSignalConfig (H := LiquidityTaker_strategy MaxP MaxO) wf_config MaxT MaxP MaxO.
Proof using All.
  split; intros entry book u c; intros; by apply evaluate_safe.
Qed.
End Taker.

(** ** Properties *)

(** C34: [LiquidityTaker] on every book or trade update trades exactly on its
    signal.  From a consistent order manager with ids to spare, positions under
    2^62 and a configuration in range, it returns and keeps the order manager
    consistent.  When the
    imbalance is at or above the threshold (a buy at the ask) or at or below its
    negative (a sell at the bid), that price is valid and the ticker has a
    position, the result is exactly that of submitting one IOC order of the
    configured quantity there: one order is counted and added to the gateway
    queue if the order manager accepts it, none if it refuses it (which leaves
    the queue, the reservations and the orders as they were).  In every other
    case nothing at all changes. *)
Theorem liquidity_taker_signal {P : Type} {Q : Type → Type} `{SPSCQueueLaws Q} {F : Type}
    `{HasFeature F OrderBookImbalanceFeature} MaxT MaxP MaxO (entry : Entry F) (book : MarketOrderBook P)
    (u : MarketUpdate) (c : Ctx Q IocSignalConfig) pnl f :
  Z.of_nat MaxP < 2 ^ 30 →
  ctx_ok MaxT MaxP MaxO c → spare_id c → c_pnl c = Some pnl → roomy pnl → wf_config (c_user c) →
  en_features entry = Some f →
  is_price (bid_price (getBBO book)) → is_price (ask_price (getBBO book)) →
  ∃ n c', onBookUpdate (Strategy := LiquidityTaker_strategy MaxP MaxO) entry book u c = Ok (n, c') ∧
    onTrade (Strategy := LiquidityTaker_strategy MaxP MaxO) entry book u c = Ok (n, c') ∧
    ctx_ok MaxT MaxP MaxO c' ∧
    (∀ side price pos, acts entry book c f pnl side price pos →
      let order := ioc_request (en_ticker_id entry) side price (order_qty (c_user c)) in
      ∃ accepted, sendNewOrder MaxP MaxO order pos c = Ok (accepted, c') ∧
        if accepted : bool then n = 1 ∧ ∃ id, sent c' = sent c ++ [with_id order id]
        else n = 0 ∧ sent c' = sent c ∧ c_risk c' = c_risk c ∧ orders_ (c_om c') = orders_ (c_om c)) ∧
    ((∀ side price pos, ¬ acts entry book c f pnl side price pos) → n = 0 ∧ c' = c).
Proof.
  intros HM Hok Hsp Hp Hroom Hcfg Hf Hb Ha.
  pose proof (evaluate_spec MaxT MaxP MaxO HM entry book c pnl f Hok Hsp Hp Hroom Hcfg Hf Hb Ha) as Hspec.
  apply returns_ok in Hspec as ([n c'] & Hrun & Hok' & _). exists n, c'. split_and!; [done|done|done|..].
  - intros side price pos Hact order. pose proof (evaluate_acts MaxP MaxO entry book c f pnl side price pos Hf Hp Hcfg Hact) as He.
    rewrite Hrun in He. destruct (sendNewOrder MaxP MaxO _ pos c) as [[b c1]| |] eqn:Hs; [|done..]. injection He as -> ->.
    exists b. split; [done|]. destruct Hact as (Hfire & _ & Hg).
    pose proof (sendNewOrder_spec MaxT MaxP MaxO HM order pos c Hok Hsp) as Hsn. fold order in Hs. rewrite Hs in Hsn.
    destruct Hsn as (_ & _ & Hb').
    + split; [|apply Hcfg]. destruct Hfire as (_ & _ & [(_ & _ & ->)|(_ & _ & _ & ->)]); done.
    + specialize (Hroom _ _ Hg). unfold is_s64. lia.
    + destruct b; [|done]. split; [done|]. destruct Hb' as (a & id & r & r' & _ & _ & _ & _ & _ & Hsent & _). by exists id.
  - intros Hno. rewrite (evaluate_idle MaxP MaxO entry book c f pnl Hf Hp Hcfg Hno) in Hrun. by injection Hrun as <- <-.
Qed.

Definition ex_taker : Ctx BQueue IocSignalConfig :=
  initialize (Some example_risk) (Some ex_pnl) (Some (mkBQueue 8 [])) (Some (OrderIdAllocator_new 1)) 0
    (Some (λ _ s, s)) (mkIocSignalConfig 10 300000) OrderManager_new.
Definition ex_book : MarketOrderBook SetPool :=
  match applyUpdates [mkMarketUpdate 1 1 ADD BUY 1000 30 1 0; mkMarketUpdate 2 1 ADD SELL 1001 10 2 0]
          (MarketOrderBook_new 1 8) with
  | Ok b => b
  | _ => MarketOrderBook_new 1 8
  end.
Definition ex_entry : Entry OrderBookImbalanceFeature := mkStrategyEntry 1 0 (Some (mkImbalance 500000)).

Lemma liquidity_taker_signal_witness :
  ∃ n c', onBookUpdate (Strategy := LiquidityTaker_strategy 64 256) ex_entry ex_book default_MarketUpdate ex_taker = Ok (n, c') ∧
    n = 1 ∧ sent c' = [mkOrderRequest RQ_NEW 1 0 1 BUY 1001 10 true].
Proof.
  assert (getBBO ex_book = mkBBO 1000 30 1001 10) as Hbbo by (vm_compute; reflexivity).
  destruct (liquidity_taker_signal 16 64 256 ex_entry ex_book default_MarketUpdate ex_taker ex_pnl (mkImbalance 500000))
    as (n & c' & Hrun & _ & _ & Hact & _).
  - done.
  - apply initialize_ok; [apply example_risk_wf|done|apply ex_pnl_wf|lia].
  - intros a [= <-]. simpl. lia.
  - done.
  - apply ex_pnl_roomy.
  - split; [split; simpl; lia|simpl; lia].
  - done.
  - rewrite Hbbo. split; simpl; lia.
  - rewrite Hbbo. split; simpl; lia.
  - destruct (Hact BUY 1001 default_Position) as ([] & Hs & Hb).
    + split; [|split; [done|reflexivity]]. rewrite Hbbo.
      split; [vm_compute; discriminate|]. split; [vm_compute; reflexivity|]. left. split; [vm_compute; discriminate|]. by split.
    + destruct Hb as [-> _]. exists 1, c'. split_and!; [exact Hrun|done|].
      vm_compute in Hs. injection Hs as <-. reflexivity.
    + vm_compute in Hs. discriminate.
Defined.
