(* ===== verification/TradeEngine.v ===== *)
(** * [TradeEngine] of [src/src/trading/trade_engine.h]

    One event loop over shared per-ticker books and several strategy slots.
    The id allocator and the request queue are shared by the slots: running a
    slot loads them into its context and stores them back.  The queues are the
    non-null objects the constructor receives; the arrays [slots_], [entries_]
    and [tickers_] are their live prefixes. *)

From S2P Require Import Prelude Types OrderIdAllocator PnLTracker RiskManager QuantLink OrderManager.
From S2P Require Import MarketOrderBook Features Strategy.

Record StrategyRunResult : Type := mkRunResult {
  market_updates : Z;
  responses : Z;
  orders_submitted : Z;
  rejected_responses : Z
}.

Definition StrategyRunResult_new : StrategyRunResult := mkRunResult 0 0 0 0.
Definition inc_market_updates (r : StrategyRunResult) : StrategyRunResult :=
  mkRunResult (wrapU 64 (market_updates r + 1)) (responses r) (orders_submitted r) (rejected_responses r).
Definition inc_responses (r : StrategyRunResult) : StrategyRunResult :=
  mkRunResult (market_updates r) (wrapU 64 (responses r + 1)) (orders_submitted r) (rejected_responses r).
Definition add_orders (n : Z) (r : StrategyRunResult) : StrategyRunResult :=
  mkRunResult (market_updates r) (responses r) (wrapU 64 (orders_submitted r + n)) (rejected_responses r).
Definition inc_rejected_responses (r : StrategyRunResult) : StrategyRunResult :=
  mkRunResult (market_updates r) (responses r) (orders_submitted r) (wrapU 64 (rejected_responses r + 1)).

Record TickerBook (P : Type) : Type := mkTickerBook {
  tb_ticker_id : TickerId;
  tb_book : MarketOrderBook P
}.
Arguments mkTickerBook {P} _ _.
Arguments tb_ticker_id {P} _.
Arguments tb_book {P} _.

Record Slot (F S : Type) : Type := mkSlot {
  sl_strategy : S;
  sl_pnl : PnLTracker;
  sl_risk : RiskManager;
  sl_om : OrderManager;
  sl_entries : list (Entry F)
}.
Arguments mkSlot {F S} _ _ _ _ _.
Arguments sl_strategy {F S} _.
Arguments sl_pnl {F S} _.
Arguments sl_risk {F S} _.
Arguments sl_om {F S} _.
Arguments sl_entries {F S} _.

Record TradeEngine (P : Type) (Q : Type → Type) (F S : Type) : Type := mkEngine {
  market_updates_ : Q MarketUpdate;
  order_requests_ : Q OrderRequest;
  order_responses_ : Q OrderResponse;
  allocator_ : OrderIdAllocator;
  slots_ : list (Slot F S);
  tickers_ : list (TickerBook P);
  book_pool_size_ : nat
}.
Arguments mkEngine {P Q F S} _ _ _ _ _ _ _.
Arguments market_updates_ {P Q F S} _.
Arguments order_requests_ {P Q F S} _.
Arguments order_responses_ {P Q F S} _.
Arguments allocator_ {P Q F S} _.
Arguments slots_ {P Q F S} _.
Arguments tickers_ {P Q F S} _.
Arguments book_pool_size_ {P Q F S} _.

Section TradeEngine.
Context {P : Type} `{ObjectPool P} {Q : Type → Type} `{SPSCQueue Q}.
Context {F : Type} `{FeaturePlugin P F} `{HasFeature F MktPriceFeature}.
Context {S : Type} `{Strategy P Q F S}.
Context (MaxSlots MaxTickers MaxPendingOrders MaxOrders : nat).
Abbreviation engine := (TradeEngine P Q F S).

Definition set_market_updates (q : Q MarketUpdate) (e : engine) : engine :=
  mkEngine q (order_requests_ e) (order_responses_ e) (allocator_ e) (slots_ e) (tickers_ e) (book_pool_size_ e).
Definition set_order_responses (q : Q OrderResponse) (e : engine) : engine :=
  mkEngine (market_updates_ e) (order_requests_ e) q (allocator_ e) (slots_ e) (tickers_ e) (book_pool_size_ e).
Definition set_slot (i : nat) (s : Slot F S) (e : engine) : engine :=
  mkEngine (market_updates_ e) (order_requests_ e) (order_responses_ e) (allocator_ e) (<[i := s]> (slots_ e))
    (tickers_ e) (book_pool_size_ e).
Definition set_tickers (l : list (TickerBook P)) (e : engine) : engine :=
  mkEngine (market_updates_ e) (order_requests_ e) (order_responses_ e) (allocator_ e) (slots_ e) l (book_pool_size_ e).

Definition slotCount (e : engine) : nat := length (slots_ e).
Definition bookCount (e : engine) : nat := length (tickers_ e).

(** ** Contexts of the slots *)

(** [onOrderUpdateForwarder]: the slot's strategy hears of its orders. *)
Definition onOrderUpdateForwarder (order : OMOrder) (s : S) : S := onOrderUpdate order s.

Definition slot_ctx (e : engine) (s : Slot F S) : Ctx Q S :=
  mkCtx (sl_om s) (Some (sl_risk s)) (Some (sl_pnl s)) (Some (order_requests_ e)) (Some (allocator_ e))
    (Some onOrderUpdateForwarder) (sl_strategy s).

(** Store a context back into slot [i] and the shared objects. *)
Definition put_ctx (i : nat) (s : Slot F S) (c : Ctx Q S) (e : engine) : engine :=
  mkEngine (market_updates_ e) (default (order_requests_ e) (c_outgoing c)) (order_responses_ e)
    (default (allocator_ e) (c_allocator c))
    (<[i := mkSlot (c_user c) (default (sl_pnl s) (c_pnl c)) (default (sl_risk s) (c_risk c)) (c_om c) (sl_entries s)]>
       (slots_ e))
    (tickers_ e) (book_pool_size_ e).

(** ** Construction and registration *)

Definition new_slot (strategy : S) (i : nat) : Slot F S :=
  mkSlot strategy PnLTracker_new RiskManager_new
    (mkOrderManager [] 0 0 0 0 0 0 (Z.of_nat i)) [].

Definition TradeEngine_new (md : Q MarketUpdate) (req : Q OrderRequest) (resp : Q OrderResponse)
    (strategy : S) (slot_count : nat) (book_pool_size : nat) : engine :=
  mkEngine md req resp (OrderIdAllocator_new (Z.of_nat slot_count))
    (new_slot strategy <$> seq 0 (if bool_decide (slot_count < MaxSlots)%nat then slot_count else MaxSlots))
    [] book_pool_size.

Definition findTicker (ticker_id : TickerId) (e : engine) : option (nat * TickerBook P) :=
  list_find (λ t, tb_ticker_id t = ticker_id) (tickers_ e).

Definition findOrCreateTicker (ticker_id : TickerId) (e : engine) : option nat * engine :=
  match findTicker ticker_id e with
  | Some (i, _) => (Some i, e)
  | None =>
      if bool_decide (bookCount e = MaxTickers) then (None, e)
      else (Some (bookCount e),
            set_tickers (tickers_ e ++ [mkTickerBook ticker_id (MarketOrderBook_new ticker_id (book_pool_size_ e))]) e)
  end.

Definition findEntry (s : Slot F S) (ticker_id : TickerId) : option (nat * Entry F) :=
  list_find (λ x, en_ticker_id x = ticker_id) (sl_entries s).

Definition registerTicker (slot : nat) (ticker_id : TickerId) (limits : RiskLimits) (e : engine) : outcome (bool * engine) :=
  if bool_decide (MaxSlots ≤ slot)%nat || bool_decide (slotCount e ≤ slot)%nat then Ok (false, e)
  else
    s ← deref (slots_ e !! slot);
    if bool_decide (is_Some (findEntry s ticker_id)) || bool_decide (length (sl_entries s) = MaxTickers) then Ok (false, e)
    else
      match findOrCreateTicker ticker_id e with
      | (None, e) => Ok (false, e)
      | (Some book, e) =>
          let '(ok1, pnl) := PnLTracker.registerTicker MaxTickers ticker_id (sl_pnl s) in
          let s := mkSlot (sl_strategy s) pnl (sl_risk s) (sl_om s) (sl_entries s) in
          if negb ok1 then Ok (false, set_slot slot s e)
          else
            let '(ok2, risk) := RiskManager.registerTicker MaxTickers ticker_id limits (sl_risk s) in
            let s := mkSlot (sl_strategy s) pnl risk (sl_om s) (sl_entries s) in
            if negb ok2 then Ok (false, set_slot slot s e)
            else Ok (true, set_slot slot (mkSlot (sl_strategy s) pnl risk (sl_om s)
                             (sl_entries s ++ [mkStrategyEntry ticker_id book (Some feature_init)])) e)
      end.

Definition setStrategy (slot : nat) (strategy : S) (e : engine) : engine :=
  if bool_decide (slot < MaxSlots)%nat && bool_decide (slot < slotCount e)%nat then
    match slots_ e !! slot with
    | Some s => set_slot slot (mkSlot strategy (sl_pnl s) (sl_risk s) (sl_om s) (sl_entries s)) e
    | None => e
    end
  else e.

(** ** Responses *)

Definition processResponse (response : OrderResponse) (e : engine) (result : StrategyRunResult)
    : outcome (engine * StrategyRunResult) :=
  let result := inc_responses result in
  let slot := ownerOf (rs_client_order_id response) (allocator_ e) in
  if slot <? Z.of_nat (slotCount e) then
    s ← deref (slots_ e !! Z.to_nat slot);
    '(handled, c) ← OrderManager.onOrderResponse MaxPendingOrders response (slot_ctx e s);
    Ok (put_ctx (Z.to_nat slot) s c e, if (handled : bool) then result else inc_rejected_responses result)
  else Ok (e, inc_rejected_responses result).

(** [while (order_responses_->pop(response))]; the fuel is the number of
    queued responses. *)
Fixpoint drainResponses_loop (fuel : nat) (e : engine) (result : StrategyRunResult)
    : outcome (engine * StrategyRunResult) :=
  match fuel with
  | O => Ok (e, result)
  | Datatypes.S fuel' =>
      match q_pop (order_responses_ e) with
      | None => Ok (e, result)
      | Some (response, q) =>
          '(e, result) ← processResponse response (set_order_responses q e) result;
          drainResponses_loop fuel' e result
      end
  end.

Definition drainResponses (e : engine) (result : StrategyRunResult) : outcome (engine * StrategyRunResult) :=
  drainResponses_loop (length (q_items (order_responses_ e))) e result.

(** ** Market updates *)

Definition processSlotUpdate (i : nat) (ticker_id : TickerId) (update : MarketUpdate) (in_snapshot : bool)
    (e : engine) (result : StrategyRunResult) : outcome (engine * StrategyRunResult) :=
  s ← deref (slots_ e !! i);
  match findEntry s ticker_id with
  | None => Ok (e, result)
  | Some (k, entry) =>
      ticker ← deref (tickers_ e !! en_book entry);
      let book := tb_book ticker in
      f ← deref (en_features entry);
      f ← feature_onMarketUpdate update book f;
      let entry := mkStrategyEntry (en_ticker_id entry) (en_book entry) (Some f) in
      let entries := <[k := entry]> (sl_entries s) in
      let mark := price_ (feature_get f) in
      pnl ← (if mark =? Price_INVALID then Ok (sl_pnl s)
             else '(_, pnl) ← onMark ticker_id mark (sl_pnl s); Ok pnl);
      let s := mkSlot (sl_strategy s) pnl (sl_risk s) (sl_om s) entries in
      if in_snapshot then Ok (set_slot i s e, result)
      else
        '(n, c) ← (if bool_decide (mu_type update = EXECUTE) then onTrade entry book update (slot_ctx e s)
                   else onBookUpdate entry book update (slot_ctx e s));
        Ok (put_ctx i s c e, add_orders n result)
  end.

(** [for (i < slot_count_) processSlotUpdate(slots_[i], ...)] *)
Fixpoint processSlots (idx : list nat) (ticker_id : TickerId) (update : MarketUpdate) (in_snapshot : bool)
    (e : engine) (result : StrategyRunResult) : outcome (engine * StrategyRunResult) :=
  match idx with
  | [] => Ok (e, result)
  | i :: idx' =>
      '(e, result) ← processSlotUpdate i ticker_id update in_snapshot e result;
      processSlots idx' ticker_id update in_snapshot e result
  end.

Definition processBookUpdate (t : nat) (update : MarketUpdate) (e : engine) (result : StrategyRunResult)
    : outcome (engine * StrategyRunResult) :=
  ticker ← deref (tickers_ e !! t);
  book ← applyUpdate update (tb_book ticker);
  let e := set_tickers (<[t := mkTickerBook (tb_ticker_id ticker) book]> (tickers_ e)) e in
  processSlots (seq 0 (slotCount e)) (tb_ticker_id ticker) update (in_snapshot_ book) e result.

(** [for (i < book_count_) processBookUpdate(tickers_[i], ...)] *)
Fixpoint processBooks (ts : list nat) (update : MarketUpdate) (e : engine) (result : StrategyRunResult)
    : outcome (engine * StrategyRunResult) :=
  match ts with
  | [] => Ok (e, result)
  | t :: ts' =>
      '(e, result) ← processBookUpdate t update e result;
      processBooks ts' update e result
  end.

Definition is_snapshot_control (ty : UpdateType) : bool :=
  match ty with SNAPSHOT_START | SNAPSHOT_CLEAR | SNAPSHOT_END => true | _ => false end.

Definition processMarketUpdate (update : MarketUpdate) (e : engine) (result : StrategyRunResult)
    : outcome (engine * StrategyRunResult) :=
  let result := inc_market_updates result in
  if is_snapshot_control (mu_type update) then processBooks (seq 0 (bookCount e)) update e result
  else match findTicker (mu_ticker_id update) e with
       | Some (t, _) => processBookUpdate t update e result
       | None => Ok (e, result)
       end.

Fixpoint drainMarketUpdates_loop (fuel : nat) (e : engine) (result : StrategyRunResult)
    : outcome (engine * StrategyRunResult) :=
  match fuel with
  | O => Ok (e, result)
  | Datatypes.S fuel' =>
      match q_pop (market_updates_ e) with
      | None => Ok (e, result)
      | Some (update, q) =>
          '(e, result) ← processMarketUpdate update (set_market_updates q e) result;
          drainMarketUpdates_loop fuel' e result
      end
  end.

Definition drainMarketUpdates (e : engine) (result : StrategyRunResult) : outcome (engine * StrategyRunResult) :=
  drainMarketUpdates_loop (length (q_items (market_updates_ e))) e result.

Definition runOnce (e : engine) : outcome (engine * StrategyRunResult) :=
  '(e, result) ← drainResponses e StrategyRunResult_new;
  drainMarketUpdates e result.

(** [run()]: one element per iteration of the thread loop, the value of the
    sync gate it read ([None]: no gate was given). *)
Fixpoint run (gates : list (option bool)) (e : engine) : outcome engine :=
  match gates with
  | [] => Ok e
  | Some false :: gates' => run gates' e
  | _ :: gates' => '(e, _) ← runOnce e; run gates' e
  end.

(** [const MarketOrderBook* book(ticker_id)] *)
Definition book (ticker_id : TickerId) (e : engine) : option (MarketOrderBook P) :=
  tb_book ∘ snd <$> findTicker ticker_id e.

(** [Features* features(slot, ticker_id)] *)
Definition features (slot : nat) (ticker_id : TickerId) (e : engine) : option F :=
  if bool_decide (MaxSlots ≤ slot)%nat || bool_decide (slotCount e ≤ slot)%nat then None
  else s ← slots_ e !! slot; '(_, x) ← findEntry s ticker_id; en_features x.
End TradeEngine.
