(* ===== verification/EngineInv.v ===== *)
(** * The trade engine keeps its slots and books in step

    The invariant of [TradeEngine]: every slot's order manager is consistent
    with the shared id sequence, every entry points at the book of its ticker,
    and the books refine their specifications.  Each handler of the event loop
    is shown to return and to preserve it. *)

From S2P Require Import Prelude Types OrderIdAllocator PnLTracker RiskManager QuantLink OrderManager OrderManagerInv.
From S2P Require Import OrderLifecycle MarketOrderBook BookRep BookRefine BookProperties Features Strategy TradeEngine.

(** ** Positions *)

(** No net position is larger than [B]. *)
Definition net_le (B : Z) (t : PnLTracker) : Prop := ∀ tid, Z.abs (net_of tid t) ≤ B.

Lemma net_le_roomy B t : net_le B t → B < 2 ^ 62 → roomy t.
Proof. intros Hn HB tid p Hg. specialize (Hn tid). unfold net_of in Hn. rewrite Hg in Hn. simpl in Hn. lia. Qed.

Lemma onMark_keeps tid mark t :
  wf_tracker t → is_price mark →
  returns (onMark tid mark t) (λ '(_, t'), wf_tracker t' ∧ ∀ tid', net_of tid' t' = net_of tid' t).
Proof.
  intros Hwf Hm. unfold onMark. destruct (get tid t) as [p|] eqn:Hg; [|done].
  destruct (mark =? Price_INVALID); [done|].
  pose proof (wf_tracker_get _ _ _ Hwf Hg) as [Hn Hr Ha Hmk Hf Hu Hur].
  rewrite updateUnrealized_spec by done. cbn [mbind outcome_bind].
  destruct (fitsInt64 _) eqn:E; [|done]. simpl. assert (is_Some (get tid t)) as Hs by eauto. split.
  - apply wf_tracker_set; [done|done|]. split; simpl; try done. by apply fitsInt64_spec.
  - intros tid'. unfold net_of. rewrite get_set_position by (done || apply Hwf). case_decide; [subst|done]. by rewrite Hg.
Qed.

Lemma executed_part_range rs : wf_response rs → 0 ≤ executed_part rs < 2 ^ 32.
Proof. intros (_ & Hx & _). unfold executed_part, is_qty in *. destruct (rs_status rs); lia. Qed.

Lemma response_post_net {Q : Type → Type} `{SPSCQueue Q} {U} MaxT MaxP MaxO B rs (c c' : Ctx Q U) b pnl :
  wf_response rs → response_post MaxT MaxP MaxO rs c b c' → c_pnl c = Some pnl → net_le B pnl →
  ∃ pnl', c_pnl c' = Some pnl' ∧ net_le (B + 2 ^ 32) pnl'.
Proof.
  intros Hrs (_ & _ & _ & Hb) Hp Hn. pose proof (executed_part_range rs Hrs) as Hx. destruct b.
  - destruct Hb as (i & o & o' & pnl0 & pnl' & _ & _ & _ & _ & Hp0 & Hp' & Hnet).
    rewrite Hp in Hp0. injection Hp0 as <-. exists pnl'. split; [done|]. intros tid. rewrite Hnet. specialize (Hn tid).
    destruct (_ =? tid); [|lia]. pose proof (signed_qty_abs (rq_side (om_request o)) (executed_part rs)). lia.
  - destruct Hb as (_ & Hp' & _). exists pnl. split; [congruence|]. intros tid. specialize (Hn tid). lia.
Qed.
(** What the response handler leaves alone besides the orders. *)
Definition quiet_user {Q U} (c c' : Ctx Q U) : Prop :=
  slot_ (c_om c') = slot_ (c_om c) ∧
  (c_user c' = c_user c ∨ ∃ f o, c_callback c = Some f ∧ c_user c' = f o (c_user c)).

Lemma quiet_notify {Q U} (o : OMOrder) (c c1 : Ctx Q U) :
  slot_ (c_om c1) = slot_ (c_om c) → c_user c1 = c_user c → c_callback c1 = c_callback c → quiet_user c (notify o c1).
Proof.
  intros Hs Hu Hc. unfold quiet_user, notify. rewrite Hc. destruct (c_callback c) as [f|] eqn:Ec; simpl.
  - split; [done|]. right. exists f, o. by rewrite Hu.
  - split; [done|]. by left.
Qed.

Lemma risk_response_frame {Q U} MaxP rs r (c c1 : Ctx Q U) b :
  risk_response MaxP rs r c = Ok (b, c1) → c_om c1 = c_om c ∧ c_user c1 = c_user c ∧ c_callback c1 = c_callback c.
Proof.
  unfold risk_response. destruct (c_pnl c); [|done]. destruct (RiskManager.onOrderResponse _ _ _ _) as [[[b' r'] pnl']| |]; [|done..].
  by intros [= <- <-].
Qed.

Lemma onOrderResponse_frame {Q U} MaxP rs (c c' : Ctx Q U) b :
  OrderManager.onOrderResponse MaxP rs c = Ok (b, c') → quiet_user c c'.
Proof.
  unfold OrderManager.onOrderResponse. intros Hrun.
  assert (quiet_user c c) as Hsame by (split; [done|by left]).
  repeat (first
    [ progress simplify_eq/=
    | done
    | apply quiet_notify; simpl; congruence
    | split; [congruence|left; congruence]
    | case_match
    | match goal with
      | H : (_ ≫= _) = Ok _ |- _ => apply bind_Ok_inv in H as (? & ? & ?)
      | p : bool * Ctx _ _ |- _ => destruct p
      | H : risk_response _ _ _ _ = Ok _ |- _ => apply risk_response_frame in H as (? & ? & ?)
      end ]).
Qed.

(** ** Ids *)

Lemma om_ok_mono MaxT MaxP MaxO om r a a' :
  om_ok MaxT MaxP MaxO om r a → counter_ a ≤ counter_ a' < 2 ^ 48 → om_ok MaxT MaxP MaxO om r a'.
Proof.
  intros [] Hc. split; try done; try lia; (eapply Forall_impl; [eassumption|]); intros id; apply issued_mono; lia.
Qed.

Lemma issued_owner slot k id a : issued slot k id → 0 ≤ slot < slot_count_ a → ownerOf id a = slot.
Proof.
  intros [Hs _] Hlt. unfold ownerOf. change COUNTER_BITS with 48. rewrite Hs.
  by rewrite (proj2 (Z.ltb_lt _ _) (proj2 Hlt)).
Qed.

Lemma ownerOf_nonneg id a : 0 ≤ id → 0 ≤ slot_count_ a → 0 ≤ ownerOf id a.
Proof.
  intros Hid Ha. unfold ownerOf. change COUNTER_BITS with 48. rewrite Z.shiftr_div_pow2 by lia.
  destruct (_ <? _); [|lia]. apply Z.div_pos; lia.
Qed.

(** ** Quotes of a book *)

(** Resting orders with non-negative prices, 2^32 shares at most in total. *)
Definition moderate (L : list Resting) : Prop :=
  Forall (λ x, 0 ≤ r_price x < 2 ^ 31 ∧ 0 ≤ r_qty x) L ∧ sumZ (r_qty <$> L) ≤ 2 ^ 32.

Lemma at_level_sums lp1 lp2 L :
  lp1 ≠ lp2 → Forall (λ x, 0 ≤ r_price x < 2 ^ 31 ∧ 0 ≤ r_qty x) L →
  0 ≤ sumZ (r_qty <$> at_level lp1 L) ∧ 0 ≤ sumZ (r_qty <$> at_level lp2 L) ∧
  sumZ (r_qty <$> at_level lp1 L) + sumZ (r_qty <$> at_level lp2 L) ≤ sumZ (r_qty <$> L).
Proof.
  intros Hne. unfold at_level. induction 1 as [|x L Hx HL IH]; [done|]. rewrite !filter_cons.
  destruct (decide (lp_of x = lp1)) as [H1|H1], (decide (lp_of x = lp2)) as [H2|H2];
    [congruence|..]; rewrite ?fmap_cons, ?sumZ_cons; lia.
Qed.

Lemma best_quote_moderate bid L p q :
  best_quote bid L p q → moderate L →
  (p = Price_INVALID ∧ q = 0) ∨ (0 ≤ p < 2 ^ 31 ∧ 0 ≤ q < 2 ^ 32 ∧ q ≤ sumZ (r_qty <$> at_level (bid, p) L)).
Proof.
  intros [(_ & -> & ->)|((x & Hx & Hlp) & _ & ->)] [HL Hsum]; [by left|]. right.
  rewrite Forall_forall in HL. pose proof (HL x Hx) as [Hp _]. unfold lp_of in Hlp. injection Hlp as _ <-.
  destruct (at_level_sums (bid, r_price x) (negb bid, r_price x) L) as (H1 & _ & _);
    [by destruct bid|by apply Forall_forall|].
  split; [done|]. split; [by apply wrapU_range|]. unfold wrapU. apply Z.mod_le; lia.
Qed.

Lemma moderate_quote L v : is_bbo L v → moderate L → quote_ok v.
Proof.
  intros [Hb Ha] Hm. unfold quote_ok, wf_bbo, is_price, is_qty.
  pose proof (best_quote_moderate _ _ _ _ Hb Hm) as Hb'. pose proof (best_quote_moderate _ _ _ _ Ha Hm) as Ha'.
  destruct Hm as [HL Hsum].
  destruct (at_level_sums (true, bid_price v) (false, ask_price v) L) as (H1 & H2 & H3); [done|done|].
  unfold Price_INVALID in *. destruct Hb' as [[-> ->]|(? & ? & ?)], Ha' as [[-> ->]|(? & ? & ?)]; split_and!; lia.
Qed.

(** Which books an update reaches, and what it must satisfy there. *)
Definition reaches (u : MarketUpdate) (tid : TickerId) : bool :=
  is_snapshot_control (mu_type u) || (mu_ticker_id u =? tid).

Definition update_fits (cap : nat) (u : MarketUpdate) (tid : TickerId) (L : list Resting) : Prop :=
  (reaches u tid = true → update_ok cap u L = true) ∧ moderate (spec_apply tid u L).

Lemma spec_apply_unreached u tid L : reaches u tid = false → spec_apply tid u L = L.
Proof.
  unfold reaches, spec_apply. intros [Hc Ht]%orb_false_iff. rewrite Ht. by destruct (mu_type u).
Qed.

(** The books after an update, and feeds that fit. *)
Definition next_books (u : MarketUpdate) (tids : list TickerId) (Ls : list (list Resting)) : list (list Resting) :=
  zip_with (λ tid L, spec_apply tid u L) tids Ls.

Fixpoint feed_fits (cap : nat) (tids : list TickerId) (us : list MarketUpdate) (Ls : list (list Resting)) : Prop :=
  match us with
  | [] => True
  | u :: us' => Forall2 (update_fits cap u) tids Ls ∧ feed_fits cap tids us' (next_books u tids Ls)
  end.

Definition run_books (tids : list TickerId) (us : list MarketUpdate) (Ls : list (list Resting)) : list (list Resting) :=
  fold_left (λ Ls u, next_books u tids Ls) us Ls.

(** ** The invariant *)

Section EngineInv.
Context {P : Type} `{ObjectPoolLaws P} {Q : Type → Type} `{SPSCQueueLaws Q}.
Context {F : Type} `{FeaturePlugin P F} `{HasFeature F MktPriceFeature}.
Context {S : Type} `{Strategy P Q F S} (strategy_ok : S → Prop).
Context (MaxSlots MaxT MaxP MaxO : nat).
Context (HMaxS : Z.of_nat MaxSlots ≤ 2 ^ 16) (HMaxP : Z.of_nat MaxP < 2 ^ 30).
Abbreviation engine := (TradeEngine P Q F S).
Implicit Types e : TradeEngine P Q F S.

Record slot_ok (e : engine) (i : nat) (s : Slot F S) : Prop := {
  so_ctx : ctx_ok MaxT MaxP MaxO (slot_ctx e s);
  so_slot : slot_ (sl_om s) = Z.of_nat i;
  so_strategy : strategy_ok (sl_strategy s);
  so_nodup : NoDup (en_ticker_id <$> sl_entries s);
  so_entry : Forall (λ x, is_Some (en_features x) ∧
    ∃ t, tickers_ e !! en_book x = Some t ∧ tb_ticker_id t = en_ticker_id x) (sl_entries s)
}.

Record eng_ok (e : engine) : Prop := {
  eo_count : (slotCount e ≤ MaxSlots)%nat;
  eo_alloc : Z.of_nat (slotCount e) ≤ slot_count_ (allocator_ e);
  eo_slots : ∀ i s, slots_ e !! i = Some s → slot_ok e i s;
  eo_tickers : NoDup (tb_ticker_id <$> tickers_ e)
}.

(** The books represent the resting orders [Ls]. *)
Definition books_ok (e : engine) (Ls : list (list Resting)) : Prop :=
  Forall2 (λ t L, ticker_id_ (tb_book t) = tb_ticker_id t ∧ refines (tb_book t) L ∧
             op_capacity (order_pool_ (tb_book t)) = book_pool_size_ e) (tickers_ e) Ls.

(** Same books up to their contents. *)
Definition same_tickers (e e' : engine) : Prop := tb_ticker_id <$> tickers_ e' = tb_ticker_id <$> tickers_ e.

Lemma same_tickers_lookup e e' k t :
  same_tickers e e' → tickers_ e !! k = Some t → ∃ t', tickers_ e' !! k = Some t' ∧ tb_ticker_id t' = tb_ticker_id t.
Proof using Type.
  intros Hs Hk. assert ((tb_ticker_id <$> tickers_ e') !! k = Some (tb_ticker_id t)) as Hk'.
  { rewrite Hs, list_lookup_fmap, Hk. done. }
  rewrite list_lookup_fmap in Hk'. destruct (tickers_ e' !! k) as [t'|]; [|done]. injection Hk' as ?. eauto.
Qed.

Lemma ctx_ok_parts e s :
  ctx_ok MaxT MaxP MaxO (slot_ctx e s) ↔ wf_tracker (sl_pnl s) ∧ om_ok MaxT MaxP MaxO (sl_om s) (sl_risk s) (allocator_ e).
Proof using Type.
  split.
  - intros (r & pnl & a & q & [= <-] & [= <-] & [= <-] & _ & Hw & Hok). done.
  - intros [Hw Hok]. exists (sl_risk s), (sl_pnl s), (allocator_ e), (order_requests_ e). done.
Qed.

(** A slot not touched by a step survives it. *)
Lemma slot_ok_frame e e' i s :
  slot_ok e i s → same_tickers e e' → counter_ (allocator_ e) ≤ counter_ (allocator_ e') < 2 ^ 48 → slot_ok e' i s.
Proof using Type.
  intros [Hctx Hs Hst Hnd Hen] Ht Hc. split; try done.
  - rewrite ctx_ok_parts in *. destruct Hctx as [Hw Hok]. split; [done|]. by eapply om_ok_mono.
  - eapply Forall_impl; [exact Hen|]. intros x (Hf & t & Hk & Hid). split; [done|].
    destruct (same_tickers_lookup e e' _ _ Ht Hk) as (t' & ? & ?). exists t'. split; [done|congruence].
Qed.

Lemma eng_ok_counter e : eng_ok e → (0 < slotCount e)%nat → 0 < counter_ (allocator_ e) < 2 ^ 48.
Proof using Type.
  intros Hok Hlt. destruct (lookup_lt_is_Some_2 (slots_ e) 0 Hlt) as [s Hs].
  pose proof (so_ctx _ _ _ (eo_slots _ Hok _ _ Hs)) as Hctx. apply ctx_ok_parts in Hctx as [_ Hom]. apply Hom.
Qed.

(** Storing back the context a slot's handler produced. *)
Lemma eng_ok_put e i s c :
  eng_ok e → slots_ e !! i = Some s → ctx_ok MaxT MaxP MaxO c → slot_ (c_om c) = slot_ (sl_om s) →
  strategy_ok (c_user c) →
  (∃ a', c_allocator c = Some a' ∧ slot_count_ a' = slot_count_ (allocator_ e) ∧
     counter_ (allocator_ e) ≤ counter_ a' < 2 ^ 48) →
  eng_ok (put_ctx i s c e).
Proof using Type.
  intros Hok Hi Hctx Hslot Hst (a' & Ha & Hsc & Hcnt). pose proof (eo_slots _ Hok _ _ Hi) as Hso.
  split; unfold slotCount; simpl; rewrite ?length_insert, ?Ha; simpl; rewrite ?Hsc; try apply Hok.
  intros j s' Hj. apply list_lookup_insert_Some in Hj as [(<- & <- & _)|(Hne & Hj)].
  - destruct Hctx as (r & pnl & a & q & Hr & Hp & Ha2 & Hq & Hw & Hom). rewrite Ha in Ha2. injection Ha2 as <-.
    split; simpl.
    + rewrite ctx_ok_parts. simpl. rewrite Hr, Hp, Ha. simpl. done.
    + rewrite Hslot. apply Hso.
    + done.
    + apply Hso.
    + apply Hso.
  - eapply slot_ok_frame; [by apply Hok|done|]. simpl. rewrite Ha. simpl. lia.
Qed.

(** ** Responses *)

(** What a step that only answers responses leaves alone. *)
Definition response_frame (e e' : engine) : Prop :=
  tickers_ e' = tickers_ e ∧ allocator_ e' = allocator_ e ∧ market_updates_ e' = market_updates_ e ∧
  order_responses_ e' = order_responses_ e ∧ book_pool_size_ e' = book_pool_size_ e ∧
  q_items (order_requests_ e') = q_items (order_requests_ e) ∧ slotCount e' = slotCount e.

Definition nets_le (B : Z) (e : engine) : Prop := Forall (λ s, net_le B (sl_pnl s)) (slots_ e).

Context (Hforward : ∀ o s, strategy_ok s → strategy_ok (onOrderUpdate o s)).


Lemma callback_ok_forward e s : callback_ok strategy_ok (slot_ctx e s).
Proof using Hforward. intros f [= <-] o st Hst. by apply Hforward. Qed.

Lemma quiet_user_ok (c c' : Ctx Q S) :
  quiet_user c c' → callback_ok strategy_ok c → strategy_ok (c_user c) → strategy_ok (c_user c').
Proof using Type. intros [_ [->|(f & o & Hf & ->)]] Hcb Hst; [done|by eapply Hcb]. Qed.

(** The branches of one iteration of [drainResponses]. *)
Definition response_case (rs : OrderResponse) (e : engine) (res : StrategyRunResult) (e' : engine)
    (res' : StrategyRunResult) : Prop :=
  (∃ i s b c, ownerOf (rs_client_order_id rs) (allocator_ e) = Z.of_nat i ∧ slots_ e !! i = Some s ∧
     OrderManager.onOrderResponse MaxP rs (slot_ctx e s) = Ok (b, c) ∧ e' = put_ctx i s c e ∧
     res' = if b : bool then inc_responses res else inc_rejected_responses (inc_responses res)) ∨
  (Z.of_nat (slotCount e) ≤ ownerOf (rs_client_order_id rs) (allocator_ e) ∧ e' = e ∧
     res' = inc_rejected_responses (inc_responses res)).

Lemma processResponse_ok rs e res B :
  eng_ok e → wf_response rs → 0 ≤ rs_client_order_id rs → nets_le B e → 0 ≤ B < 2 ^ 62 →
  returns (processResponse MaxP rs e res) (λ '(e', res'),
    eng_ok e' ∧ response_frame e e' ∧ nets_le (B + 2 ^ 32) e' ∧ response_case rs e res e' res').
Proof using All.
  intros Hok Hrs Hid HB HB'. unfold processResponse.
  pose proof (eo_alloc _ Hok) as Hal.
  pose proof (ownerOf_nonneg (rs_client_order_id rs) (allocator_ e) Hid ltac:(lia)) as Hown.
  set (slot := ownerOf _ _) in *. assert (∀ l, Forall (λ s : Slot F S, net_le B (sl_pnl s)) l →
    Forall (λ s : Slot F S, net_le (B + 2 ^ 32) (sl_pnl s)) l) as Hmono.
  { intros l Hl. eapply Forall_impl; [exact Hl|]. intros s Hs tid. specialize (Hs tid). lia. }
  destruct (slot <? _) eqn:Elt; bsplit.
  2:{ simpl. split_and!; try done; [by apply Hmono|]. right. done. }
  destruct (lookup_lt_is_Some_2 (slots_ e) (Z.to_nat slot)) as [s Hs]; [unfold slotCount in Elt; lia|].
  rewrite Hs. cbn [deref mbind outcome_bind]. pose proof (eo_slots _ Hok _ _ Hs) as Hso.
  assert (net_le B (sl_pnl s)) as HBs by (by eapply (Forall_lookup_1 _ _ _ _ HB)).
  pose proof (onOrderResponse_spec MaxT MaxP MaxO HMaxP rs (slot_ctx e s) (sl_pnl s) (so_ctx _ _ _ Hso) eq_refl
    (net_le_roomy _ _ HBs ltac:(lia)) Hrs) as Hspec.
  apply returns_ok in Hspec as ([b c] & Hrun & Hpost). rewrite Hrun. cbn [mbind outcome_bind returns].
  pose proof (onOrderResponse_frame _ _ _ _ _ Hrun) as Hq.
  destruct (response_post_net _ _ _ B rs _ _ _ (sl_pnl s) Hrs Hpost eq_refl HBs) as (pnl' & Hp' & HBp).
  pose proof Hpost as (Hc & Hsent & Halloc & _). pose proof Hc as (r' & pnl2 & a' & q' & Hr' & Hp2 & Ha' & Hq' & _ & Hom').
  rewrite Ha' in Halloc. injection Halloc as ->. split_and!.
  - apply eng_ok_put; [exact Hok|exact Hs|exact Hc| | |].
    + apply Hq.
    + eapply quiet_user_ok; [done|apply callback_ok_forward|apply Hso].
    + exists (allocator_ e). pose proof (ok_counter _ _ _ _ _ _ Hom'). split_and!; [exact Ha'|reflexivity|lia|lia].
  - unfold response_frame, slotCount, put_ctx.
    cbn [tickers_ allocator_ market_updates_ order_responses_ book_pool_size_ order_requests_ slots_].
    rewrite Ha', Hq', length_insert. cbn [default]. split_and!; try reflexivity.
    unfold sent in Hsent. rewrite Hq' in Hsent. exact Hsent.
  - unfold nets_le, put_ctx. cbn [slots_]. apply Forall_insert; [by apply Hmono|]. cbn [sl_pnl]. by rewrite Hp'.
  - left. exists (Z.to_nat slot), s, b, c. split_and!; try done. lia.
Qed.

Lemma eng_ok_set_responses q e : eng_ok e → eng_ok (set_order_responses q e).
Proof using Type. intros [H1' H2' H3' H4']. split; try done. intros i s Hs. destruct (H3' i s Hs). by split. Qed.

Lemma eng_ok_set_updates q e : eng_ok e → eng_ok (set_market_updates q e).
Proof using Type. intros [H1' H2' H3' H4']. split; try done. intros i s Hs. destruct (H3' i s Hs). by split. Qed.

Definition response_queue_ok (e : engine) : Prop :=
  Forall (λ rs, wf_response rs ∧ 0 ≤ rs_client_order_id rs) (q_items (order_responses_ e)).

Lemma drainResponses_ok e res B n :
  eng_ok e → response_queue_ok e → nets_le B e → 0 ≤ B →
  n = length (q_items (order_responses_ e)) → B + Z.of_nat n * 2 ^ 32 < 2 ^ 62 → responses res + Z.of_nat n < 2 ^ 64 →
  0 ≤ responses res →
  returns (drainResponses_loop MaxP n e res) (λ '(e', res'),
    eng_ok e' ∧ q_items (order_responses_ e') = [] ∧ nets_le (B + Z.of_nat n * 2 ^ 32) e' ∧
    responses res' = responses res + Z.of_nat n ∧ market_updates res' = market_updates res ∧
    tickers_ e' = tickers_ e ∧ allocator_ e' = allocator_ e ∧ market_updates_ e' = market_updates_ e ∧
    book_pool_size_ e' = book_pool_size_ e ∧ q_items (order_requests_ e') = q_items (order_requests_ e) ∧
    slotCount e' = slotCount e ∧ (sl_entries <$> slots_ e') = (sl_entries <$> slots_ e)).
Proof using All.
  revert e res B. induction n as [|n IH]; intros e res B Hok Hq HB HB0 Hn Hmax Hcnt Hcnt0.
  { simpl. rewrite !Z.add_0_r. symmetry in Hn. apply nil_length_inv in Hn. done. }
  cbn [drainResponses_loop]. destruct (q_pop (order_responses_ e)) as [[rs q]|] eqn:Epop.
  2:{ apply q_pop_None in Epop. rewrite Epop in Hn. done. }
  apply q_pop_Some in Epop as Hitems. unfold response_queue_ok in Hq. rewrite Hitems in Hq, Hn. simpl in Hn.
  apply Forall_cons in Hq as [[Hrs Hid] Hq]. apply returns_bind.
  eapply returns_mono; [apply (processResponse_ok rs (set_order_responses q e) res B); try done; [by apply eng_ok_set_responses|lia]|].
  intros [e1 res1] (Hok1 & (F1 & F2 & F3 & F4 & F5 & F6 & F7) & HB1 & Hcase).
  assert (responses res1 = responses res + 1 ∧ market_updates res1 = market_updates res) as [Hr1 Hm1].
  { destruct Hcase as [(i & s & b & c & _ & _ & _ & _ & ->)|(_ & _ & ->)]; [destruct b|];
      simpl; (split; [apply wrapU_small; lia|done]). }
  assert ((sl_entries <$> slots_ e1) = (sl_entries <$> slots_ e)) as Hent.
  { destruct Hcase as [(i & s & b & c & _ & Hs & _ & -> & _)|(_ & -> & _)]; [|done].
    unfold put_ctx. cbn [slots_]. rewrite list_fmap_insert. cbn [sl_entries]. apply list_insert_id.
    rewrite list_lookup_fmap. cbn [slots_ set_order_responses] in Hs. by rewrite Hs. }
  eapply returns_mono; [apply (IH e1 res1 (B + 2 ^ 32)); try done; try lia|].
  - unfold response_queue_ok. by rewrite F4.
  - rewrite F4. simpl. congruence.
  - intros [e2 res2] (Hok2 & Hq2 & HB2 & Hr2 & Hm2 & G1 & G2 & G3 & G4 & G5 & G6 & G7).
    replace (B + Z.of_nat (Datatypes.S n) * 2 ^ 32) with (B + 2 ^ 32 + Z.of_nat n * 2 ^ 32) by lia.
    rewrite G1, G2, G3, G4, G5, G6, G7, F1, F2, F3, F5, F6, F7, Hr2, Hr1, Hm2, Hm1. split_and!; try done. lia.
Qed.

(** ** Market updates *)

Context (feature_ok : Z → F → Prop) `{!FeatureLaws P F feature_ok}.
Context `{!StrategyLaws P Q F S strategy_ok MaxT MaxP MaxO}.

(** The slot's features can take [n] more updates. *)
Definition slot_feats (n : Z) (s : Slot F S) : Prop :=
  Forall (λ x, ∃ f, en_features x = Some f ∧ feature_ok n f) (sl_entries s).

Definition quotes_ok (e : engine) : Prop := Forall (λ t, quote_ok (getBBO (tb_book t))) (tickers_ e).

(** Requests are only appended, for tickers of the engine and fit to be sent. *)
Definition requests_grow (e e' : engine) : Prop :=
  ∃ new, q_items (order_requests_ e') = q_items (order_requests_ e) ++ new ∧
    Forall (λ rq, ∃ tid, tid ∈ (tb_ticker_id <$> tickers_ e) ∧ request_ready tid rq) new.

Lemma requests_grow_same e e' : order_requests_ e' = order_requests_ e → requests_grow e e'.
Proof using Type. intros He. unfold requests_grow. rewrite He. exists []. by rewrite app_nil_r. Qed.

Lemma requests_grow_trans e1 e2 e3 :
  tb_ticker_id <$> tickers_ e2 = tb_ticker_id <$> tickers_ e1 → requests_grow e1 e2 → requests_grow e2 e3 → requests_grow e1 e3.
Proof using Type.
  intros Ht (n1 & H1' & F1) (n2 & H2' & F2). rewrite Ht in F2. exists (n1 ++ n2). rewrite H2', H1', app_assoc.
  split; [done|]. by apply Forall_app.
Qed.

(** What the slots' reaction to an update leaves alone. *)
Definition slots_frame (e e' : engine) : Prop :=
  tickers_ e' = tickers_ e ∧ market_updates_ e' = market_updates_ e ∧
  order_responses_ e' = order_responses_ e ∧ book_pool_size_ e' = book_pool_size_ e ∧ slotCount e' = slotCount e ∧
  requests_grow e e'.

Lemma slots_frame_refl e : slots_frame e e.
Proof using Type. unfold slots_frame. split_and!; try done. by apply requests_grow_same. Qed.

Lemma slots_frame_trans e1 e2 e3 : slots_frame e1 e2 → slots_frame e2 e3 → slots_frame e1 e3.
Proof using Type.
  intros (? & ? & ? & ? & ? & ?) (? & ? & ? & ? & ? & ?). unfold slots_frame. split_and!; try congruence.
  eapply requests_grow_trans; [|done|done]. by f_equal.
Qed.

Lemma slot_feats_mono n s : 0 ≤ n → slot_feats (n + 1) s → slot_feats n s.
Proof using All.
  intros Hn Hf. eapply Forall_impl; [exact Hf|]. intros x (f & Hx & Hok). exists f. split; [done|]. by apply feature_ok_mono.
Qed.

(** Updating the features and the mark of one entry. *)
Lemma eng_ok_entry e i s k x f pnl :
  eng_ok e → slots_ e !! i = Some s → sl_entries s !! k = Some x → wf_tracker pnl →
  let s' := mkSlot (sl_strategy s) pnl (sl_risk s) (sl_om s)
              (<[k := mkStrategyEntry (en_ticker_id x) (en_book x) (Some f)]> (sl_entries s)) in
  eng_ok (set_slot i s' e).
Proof using Type.
  intros Hok Hi Hk Hw s'. pose proof (eo_slots _ Hok _ _ Hi) as [Hctx Hsl Hst Hnd Hen].
  split; unfold slotCount; cbn [set_slot slots_ allocator_ tickers_]; rewrite ?length_insert; try apply Hok.
  intros j s1 Hj. apply list_lookup_insert_Some in Hj as [(<- & <- & _)|(Hne & Hj)].
  - split; cbn [s' sl_om sl_strategy sl_entries]; try done.
    + rewrite ctx_ok_parts in Hctx |- *. by destruct Hctx.
    + rewrite list_fmap_insert. cbn [en_ticker_id]. rewrite list_insert_id; [done|]. by rewrite list_lookup_fmap, Hk.
    + apply Forall_insert; [done|]. cbn [en_features en_book en_ticker_id]. split; [eauto|].
      by destruct (Forall_lookup_1 _ _ _ _ Hen Hk) as [_ ?].
  - destruct (eo_slots _ Hok _ _ Hj). by split.
Qed.

(** No order activity between two states of a slot. *)
Definition silent (s s' : Slot F S) : Prop :=
  sl_om s' = sl_om s ∧ sl_risk s' = sl_risk s ∧ sl_strategy s' = sl_strategy s.

Definition slot_update_post (i : nat) (snap : bool) (B n : Z) (s : Slot F S) (e : engine) (res : StrategyRunResult)
    (e' : engine) (res' : StrategyRunResult) : Prop :=
  eng_ok e' ∧ slots_frame e e' ∧ nets_le B e' ∧
  counter_ (allocator_ e) ≤ counter_ (allocator_ e') ≤ counter_ (allocator_ e) + 1 ∧
  (∀ j, j ≠ i → slots_ e' !! j = slots_ e !! j) ∧
  (∃ s', slots_ e' !! i = Some s' ∧ slot_feats n s' ∧ (snap = true → silent s s')) ∧
  market_updates res' = market_updates res ∧ responses res' = responses res ∧
  (snap = true → order_requests_ e' = order_requests_ e ∧ allocator_ e' = allocator_ e ∧ res' = res).

(** Marking the slot's position with the new market price. *)
Lemma mark_slot tid mark (t : PnLTracker) :
  wf_tracker t → is_price mark →
  returns (if mark =? Price_INVALID then Ok t else '(_, pnl) ← onMark tid mark t; Ok pnl)
    (λ pnl, wf_tracker pnl ∧ ∀ tid', net_of tid' pnl = net_of tid' t).
Proof using Type.
  intros Hw Hm. destruct (mark =? Price_INVALID); [done|]. apply returns_bind.
  eapply returns_mono; [by apply onMark_keeps|]. by intros [b pnl].
Qed.

Section SlotUpdate.
Context (i : nat) (s : Slot F S) (e : engine) (n B : Z).
Context (Hok : eng_ok e) (Hi : slots_ e !! i = Some s) (Hfe : slot_feats (n + 1) s) (Hn : 0 ≤ n).
Context (HB : nets_le B e) (HB' : B < 2 ^ 62) (Hid : counter_ (allocator_ e) + 1 < 2 ^ 48).

(** The slot with an entry's features and its mark updated. *)
Lemma entry_updated k x f pnl :
  sl_entries s !! k = Some x → wf_tracker pnl → (∀ tid, net_of tid pnl = net_of tid (sl_pnl s)) → feature_ok n f →
  let s' := mkSlot (sl_strategy s) pnl (sl_risk s) (sl_om s)
              (<[k := mkStrategyEntry (en_ticker_id x) (en_book x) (Some f)]> (sl_entries s)) in
  eng_ok (set_slot i s' e) ∧ slots_ (set_slot i s' e) !! i = Some s' ∧ slot_feats n s' ∧ silent s s' ∧
  nets_le B (set_slot i s' e) ∧ slots_frame e (set_slot i s' e) ∧ net_le B pnl.
Proof using All.
  intros Hk Hw Hnet Hf s'.
  assert (net_le B pnl) as HBp.
  { intros tid. rewrite Hnet. eapply (Forall_lookup_1 _ _ _ _ HB Hi). }
  split_and!; [by apply eng_ok_entry| | |done| | |done].
  - cbn [set_slot slots_]. apply list_lookup_insert_eq. by eapply lookup_lt_Some.
  - apply Forall_insert; [by apply slot_feats_mono|]. cbn [en_features]. eauto.
  - unfold nets_le. cbn [set_slot slots_]. by apply Forall_insert.
  - unfold slots_frame, slotCount. cbn [set_slot slots_]. rewrite length_insert. split_and!; try done. by apply requests_grow_same.
Qed.

(** Running a hook of the slot's strategy. *)
Lemma hook_stored tid s1 e1 r c : tid ∈ (tb_ticker_id <$> tickers_ e1) →
  eng_ok e1 → slots_ e1 !! i = Some s1 → slot_feats n s1 → nets_le B e1 → allocator_ e1 = allocator_ e →
  hook_safe strategy_ok MaxT MaxP MaxO tid (slot_ctx e1 s1) (Ok (r, c)) →
  eng_ok (put_ctx i s1 c e1) ∧ slots_frame e1 (put_ctx i s1 c e1) ∧ nets_le B (put_ctx i s1 c e1) ∧
  counter_ (allocator_ e) ≤ counter_ (allocator_ (put_ctx i s1 c e1)) ≤ counter_ (allocator_ e) + 1 ∧
  ∃ s', slots_ (put_ctx i s1 c e1) !! i = Some s' ∧ slot_feats n s'.
Proof using All.
  intros Htid Hok1 Hi1 Hf1 HB1 Hal (_ & Hc & Hsl & Hp & _ & Hst & (new & Hnew & Hready) & a & a' & Ha & Ha' & Hsc & Hcnt).
  cbn [slot_ctx c_allocator c_pnl] in Ha, Hp. injection Ha as <-. rewrite Hal in Hsc, Hcnt.
  assert (allocator_ (put_ctx i s1 c e1) = a') as Hpa by (unfold put_ctx; cbn [allocator_]; by rewrite Ha').
  split_and!.
  - apply eng_ok_put; try done. exists a'. rewrite Hal. split_and!; (done || lia).
  - unfold slots_frame, slotCount, put_ctx. cbn [slots_ tickers_ market_updates_ order_responses_ book_pool_size_].
    rewrite length_insert. split_and!; try done. exists new. cbn [order_requests_]. split.
    + unfold sent in Hnew. cbn [slot_ctx c_outgoing] in Hnew. destruct Hc as (? & ? & ? & q & _ & _ & _ & Hq & _). by rewrite Hq in Hnew |- *.
    + eapply Forall_impl; [exact Hready|]. intros rq Hrq. by exists tid.
  - unfold nets_le, put_ctx. cbn [slots_]. apply Forall_insert; [done|]. cbn [sl_pnl]. rewrite Hp.
    by eapply (Forall_lookup_1 _ _ _ _ HB1).
  - rewrite Hpa. lia.
  - rewrite Hpa. lia.
  - eexists. split; [unfold put_ctx; cbn [slots_]; apply list_lookup_insert_eq; by eapply lookup_lt_Some|done].
Qed.

Lemma processSlotUpdate_ok tid u snap res :
  quotes_ok e → is_qty (mu_qty u) →
  returns (processSlotUpdate i tid u snap e res) (λ '(e', res'), slot_update_post i snap B n s e res e' res').
Proof using All.
  intros Hqu Hq. unfold processSlotUpdate. rewrite Hi. cbn [deref mbind outcome_bind].
  destruct (findEntry s tid) as [[k x]|] eqn:Hfind.
  2:{ unfold slot_update_post. cbn [returns]. split_and!; try done; try lia; try apply slots_frame_refl. exists s. split_and!; try done. by apply slot_feats_mono. }
  apply list_find_Some in Hfind as (Hk & Htid & _).
  pose proof (eo_slots _ Hok _ _ Hi) as Hso.
  destruct (Forall_lookup_1 _ _ _ _ (so_entry _ _ _ Hso) Hk) as (_ & t & Ht & Htt). rewrite Ht. cbn [deref mbind outcome_bind].
  destruct (Forall_lookup_1 _ _ _ _ Hfe Hk) as (f & Hxf & Hfok). rewrite Hxf. cbn [deref mbind outcome_bind].
  pose proof (Forall_lookup_1 _ _ _ _ Hqu Ht) as Hquote. cbn beta in Hquote.
  apply returns_bind. eapply returns_mono; [by apply (feature_update_ok n f u (tb_book t))|]. intros f' [Hf' Hmark].
  apply returns_bind. pose proof (so_ctx _ _ _ Hso) as Hctx. apply ctx_ok_parts in Hctx as [Hw _].
  eapply returns_mono; [by apply mark_slot|]. intros pnl [Hw' Hnet].
  destruct (entry_updated k x f' pnl Hk Hw' Hnet Hf') as (Hok1 & Hi1 & Hf1 & Hsil & HB1 & Hfr & HBp).
  set (s1 := mkSlot _ _ _ _ _) in *.
  assert (∀ j, j ≠ i → slots_ (set_slot i s1 e) !! j = slots_ e !! j) as Hoth.
  { intros j Hj. cbn [set_slot slots_]. by apply list_lookup_insert_ne. }
  destruct snap.
  { unfold slot_update_post. cbn [returns]. split_and!; try done; try (cbn [set_slot allocator_]; lia). exists s1. done. }
  assert (hook_safe strategy_ok MaxT MaxP MaxO (en_ticker_id x) (slot_ctx (set_slot i s1 e) s1)
    (if bool_decide (mu_type u = EXECUTE)
     then onTrade (mkStrategyEntry (en_ticker_id x) (en_book x) (Some f')) (tb_book t) u (slot_ctx e s1)
     else onBookUpdate (mkStrategyEntry (en_ticker_id x) (en_book x) (Some f')) (tb_book t) u (slot_ctx e s1))) as Hhook.
  { pose proof (eo_slots _ Hok1 _ _ Hi1) as Hso1. destruct Hquote as ((Hb & Ha & _) & _).
    assert (∀ p, c_pnl (slot_ctx (set_slot i s1 e) s1) = Some p → roomy p) as Hroom.
    { intros p [= <-]. by eapply net_le_roomy. }
    change (slot_ctx e s1) with (slot_ctx (set_slot i s1 e) s1).
    case_bool_decide;
      [eapply (onTrade_safe (mkStrategyEntry (en_ticker_id x) (en_book x) (Some f')))
      |eapply (onBookUpdate_safe (mkStrategyEntry (en_ticker_id x) (en_book x) (Some f')))]; try done;
      try apply Hso1; try apply callback_ok_forward; try (cbn [en_features]; by eauto);
      intros a0 [= <-]; exact Hid. }
  pose proof Hhook as Hret. unfold hook_safe in Hret. apply returns_ok in Hret as ([r c] & Hrun & _). rewrite Hrun in Hhook |- *.
  cbn [mbind outcome_bind returns]. 
  assert (en_ticker_id x ∈ (tb_ticker_id <$> tickers_ (set_slot i s1 e))) as Hin.
  { rewrite <- Htt. apply list_elem_of_fmap_2. by eapply list_elem_of_lookup_2. }
  destruct (hook_stored _ _ _ _ _ Hin Hok1 Hi1 Hf1 HB1 eq_refl Hhook) as (Hok2 & Hfr2 & HB2 & Hc2 & s2 & Hs2 & Hf2).
  assert (put_ctx i s1 c (set_slot i s1 e) = put_ctx i s1 c e) as Hput.
  { unfold put_ctx, set_slot. cbn [slots_ market_updates_ order_requests_ order_responses_ allocator_ tickers_ book_pool_size_].
    by rewrite list_insert_insert_eq. }
  rewrite Hput in *. unfold slot_update_post. split_and!; try done; try lia.
  - by eapply slots_frame_trans.
  - intros j Hj. unfold put_ctx. cbn [slots_]. by apply list_lookup_insert_ne.
  - exists s2. done.
Qed.
End SlotUpdate.

(** All slots, one after the other. *)
Definition slots_post (idx : list nat) (snap : bool) (B n : Z) (e : engine) (res : StrategyRunResult)
    (e' : engine) (res' : StrategyRunResult) : Prop :=
  eng_ok e' ∧ slots_frame e e' ∧ nets_le B e' ∧
  counter_ (allocator_ e) ≤ counter_ (allocator_ e') ≤ counter_ (allocator_ e) + Z.of_nat (length idx) ∧
  (∀ j, j ∉ idx → slots_ e' !! j = slots_ e !! j) ∧
  (∀ j s', j ∈ idx → slots_ e' !! j = Some s' → slot_feats n s') ∧
  (snap = true → ∀ j s, slots_ e !! j = Some s → ∃ s', slots_ e' !! j = Some s' ∧ silent s s') ∧
  market_updates res' = market_updates res ∧ responses res' = responses res ∧
  (snap = true → order_requests_ e' = order_requests_ e ∧ allocator_ e' = allocator_ e ∧ res' = res).

Lemma silent_trans s1 s2 s3 : silent s1 s2 → silent s2 s3 → silent s1 s3.
Proof using Type. unfold silent. intros (? & ? & ?) (? & ? & ?). split_and!; congruence. Qed.

Lemma processSlots_ok idx tid u snap B n :
  0 ≤ n → B < 2 ^ 62 → is_qty (mu_qty u) → NoDup idx → ∀ e res,
  eng_ok e → nets_le B e → quotes_ok e → (∀ j, j ∈ idx → (j < slotCount e)%nat) →
  (∀ j s, j ∈ idx → slots_ e !! j = Some s → slot_feats (n + 1) s) →
  counter_ (allocator_ e) + Z.of_nat (length idx) < 2 ^ 48 →
  returns (processSlots idx tid u snap e res) (λ '(e', res'), slots_post idx snap B n e res e' res').
Proof using All.
  intros Hn HB' Hq. induction 1 as [|i idx Hnin Hnd IH]; intros e res Hok HB Hqu Hlt Hfe Hid.
  { unfold slots_post. simpl. split_and!; try done; try lia; try apply slots_frame_refl.
    - intros j s' []%elem_of_nil.
    - intros _ j s Hj. exists s. done. }
  cbn [processSlots]. simpl length in Hid.
  destruct (lookup_lt_is_Some_2 (slots_ e) i) as [s Hs]; [apply Hlt; set_solver|].
  apply returns_bind. eapply returns_mono.
  { apply (processSlotUpdate_ok i s e n B); try done; [|lia]. apply (Hfe i); [set_solver|done]. }
  intros [e1 res1] (Hok1 & Hfr1 & HB1 & Hc1 & Hoth1 & (s1 & Hs1 & Hf1 & Hsil1) & Hm1 & Hr1 & Hsn1).
  pose proof Hfr1 as (Ht1 & _ & _ & _ & Hcount1 & _).
  eapply returns_mono.
  { apply (IH e1 res1); try done.
    - unfold quotes_ok. by rewrite Ht1.
    - intros j Hj. rewrite Hcount1. apply Hlt. set_solver.
    - intros j s' Hj Hs'. apply (Hfe j); [set_solver|]. rewrite <- Hoth1; [done|]. by intros ->.
    - lia. }
  intros [e2 res2] (Hok2 & Hfr2 & HB2 & Hc2 & Hoth2 & Hf2 & Hsil2 & Hm2 & Hr2 & Hsn2). unfold slots_post. split_and!.
  - done.
  - by eapply slots_frame_trans.
  - done.
  - lia.
  - simpl length. lia.
  - intros j Hj. rewrite Hoth2, Hoth1; [done|..]; set_solver.
  - intros j s' [->|Hj]%elem_of_cons Hs'; [|by eapply Hf2]. rewrite Hoth2, Hs1 in Hs' by done. by injection Hs' as <-.
  - intros Hsnap j sj Hj. destruct (decide (j = i)) as [->|Hne].
    + rewrite Hs in Hj. injection Hj as <-. destruct (Hsil2 Hsnap i s1 Hs1) as (s2 & ? & ?).
      exists s2. split; [done|]. eapply silent_trans; [by apply Hsil1|done].
    + apply (Hsil2 Hsnap). by rewrite Hoth1.
  - congruence.
  - congruence.
  - intros Hsnap. destruct (Hsn1 Hsnap) as (? & ? & ?), (Hsn2 Hsnap) as (? & ? & ?). split_and!; congruence.
Qed.

(** ** Books *)

Definition feats_ok (n : Z) (e : engine) : Prop := Forall (slot_feats n) (slots_ e).

Lemma eng_ok_set_tickers e l : eng_ok e → tb_ticker_id <$> l = tb_ticker_id <$> tickers_ e → eng_ok (set_tickers l e).
Proof using Type.
  intros Hok Hl. pose proof Hok as [H1' H2' H3' H4']. split; try done; [|cbn [set_tickers tickers_]; by rewrite Hl].
  intros i s Hs. cbn [set_tickers slots_] in Hs. pose proof (H3' i s Hs) as Hso.
  eapply slot_ok_frame; [exact Hso|exact Hl|]. pose proof (so_ctx _ _ _ Hso) as Hctx.
  apply ctx_ok_parts in Hctx as [_ Hom]. pose proof (ok_counter _ _ _ _ _ _ Hom). cbn [set_tickers allocator_]. lia.
Qed.

Lemma books_quotes e Ls : books_ok e Ls → Forall moderate Ls → quotes_ok e.
Proof using All.
  intros Hb Hm. unfold quotes_ok. apply Forall_lookup. intros j t Ht.
  destruct (Forall2_lookup_l _ _ _ _ _ Hb Ht) as (L & HL & _ & Href & _).
  eapply moderate_quote; [by apply refines_bbo|]. by eapply (Forall_lookup_1 _ _ _ _ Hm).
Qed.

(** What a book update leaves alone, and what it costs. *)
Definition book_frame (k : Z) (e e' : engine) : Prop :=
  same_tickers e e' ∧ market_updates_ e' = market_updates_ e ∧ order_responses_ e' = order_responses_ e ∧
  book_pool_size_ e' = book_pool_size_ e ∧ slotCount e' = slotCount e ∧
  counter_ (allocator_ e) ≤ counter_ (allocator_ e') ≤ counter_ (allocator_ e) + k * Z.of_nat (slotCount e) ∧
  requests_grow e e'.

Lemma book_frame_refl k e : 0 ≤ k → book_frame k e e.
Proof using All. intros Hk. unfold book_frame. split_and!; try done; try lia. by apply requests_grow_same. Qed.

Lemma feats_ok_mono n e : 0 ≤ n → feats_ok (n + 1) e → feats_ok n e.
Proof using All. intros Hn Hf. eapply Forall_impl; [exact Hf|]. intros s. by apply slot_feats_mono. Qed.

Lemma processBookUpdate_ok t u e res Ls tb L B n :
  eng_ok e → books_ok e Ls → Forall moderate Ls → tickers_ e !! t = Some tb → Ls !! t = Some L →
  update_ok (book_pool_size_ e) u L = true → moderate (spec_apply (tb_ticker_id tb) u L) →
  feats_ok (n + 1) e → 0 ≤ n → nets_le B e → B < 2 ^ 62 →
  counter_ (allocator_ e) + Z.of_nat (slotCount e) < 2 ^ 48 →
  returns (processBookUpdate t u e res) (λ '(e', res'),
    eng_ok e' ∧ books_ok e' (<[t := spec_apply (tb_ticker_id tb) u L]> Ls) ∧ book_frame 1 e e' ∧
    feats_ok n e' ∧ nets_le B e' ∧ market_updates res' = market_updates res ∧ responses res' = responses res ∧
    (next_flag (mu_type u) (in_snapshot_ (tb_book tb)) = true → order_requests_ e' = order_requests_ e ∧ allocator_ e' = allocator_ e ∧ res' = res ∧
       ∀ j s, slots_ e !! j = Some s → ∃ s', slots_ e' !! j = Some s' ∧ silent s s')).
Proof using All.
  intros Hok Hbk Hmod Ht HL Hup Hm' Hfe Hn HB HB' Hid. unfold processBookUpdate. rewrite Ht. cbn [deref mbind outcome_bind].
  destruct (Forall2_lookup_lr _ _ _ _ _ _ Hbk Ht HL) as (Htid & Href & Hcap).
  rewrite <- Hcap in Hup. destruct (applyUpdate_sim (tb_book tb) L u Href Hup) as (b' & Hrun & Href' & Htid' & Hcap').
  pose proof (applyUpdate_flag _ _ _ Hrun) as Hflag. rewrite Hrun.
  cbn [mbind outcome_bind]. rewrite Htid in Href'. set (tb' := mkTickerBook _ b'). set (e1 := set_tickers _ e).
  assert (tb_ticker_id <$> <[t := tb']> (tickers_ e) = tb_ticker_id <$> tickers_ e) as Hids.
  { rewrite list_fmap_insert. apply list_insert_id. by rewrite list_lookup_fmap, Ht. }
  assert (eng_ok e1) as Hok1 by (by apply eng_ok_set_tickers).
  assert (books_ok e1 (<[t := spec_apply (tb_ticker_id tb) u L]> Ls)) as Hbk1.
  { apply Forall2_insert; [exact Hbk|]. subst tb' e1. cbn [tb_book tb_ticker_id set_tickers book_pool_size_].
    split_and!; [congruence|done|congruence]. }
  assert (quotes_ok e1) as Hqu by (eapply books_quotes; [done|by apply Forall_insert]).
  assert (is_qty (mu_qty u)) as Hq by (unfold update_ok in Hup; bsplit; by apply fitsU_spec).
  change (slotCount e1) with (slotCount e). eapply returns_mono.
  { apply (processSlots_ok (seq 0 (slotCount e)) (tb_ticker_id tb) u (in_snapshot_ b') B n); try done.
    - apply NoDup_seq.
    - intros j Hj%elem_of_seq. change (slotCount e1) with (slotCount e). lia.
    - intros j s _ Hj. by eapply (Forall_lookup_1 _ _ _ _ Hfe).
    - rewrite length_seq. exact Hid. }
  intros [e2 res2] (Hok2 & (F1 & F2 & F3 & F4 & F5 & F6) & HB2 & Hc2 & Hoth & Hf2 & Hsil & Hm2 & Hr2 & Hsn).
  rewrite length_seq in Hc2. change (allocator_ e1) with (allocator_ e) in *. split_and!; try done.
  - unfold books_ok. rewrite F1, F4. exact Hbk1.
  - unfold book_frame, same_tickers. rewrite F1. split_and!; try done; try lia.
    apply (requests_grow_trans e e1 e2); [exact Hids|by apply (requests_grow_same e e1)|exact F6].
  - apply Forall_lookup. intros j s Hj. apply (Hf2 j); [|done]. apply elem_of_seq.
    apply lookup_lt_Some in Hj. unfold slotCount in F5. cbn [e1 set_tickers slots_] in F5. unfold slotCount. lia.
  - rewrite <- Hflag. intros Hs2. destruct (Hsn Hs2) as (? & ? & ?). split_and!; try done. intros j s Hj. by apply (Hsil Hs2).
Qed.

(** The state of the loop over the books. *)
Definition books_post (B n : Z) (k : nat) (Ls' : list (list Resting)) (e : engine) (res : StrategyRunResult)
    (e' : engine) (res' : StrategyRunResult) : Prop :=
  eng_ok e' ∧ books_ok e' Ls' ∧ book_frame (Z.of_nat k) e e' ∧ feats_ok n e' ∧ nets_le B e' ∧
  market_updates res' = market_updates res ∧ responses res' = responses res.

Lemma book_frame_trans k1 k2 e1 e2 e3 :
  book_frame k1 e1 e2 → book_frame k2 e2 e3 → book_frame (k1 + k2) e1 e3.
Proof using All.
  intros (A1 & A2 & A3 & A4 & A5 & A6 & A7) (B1 & B2 & B3 & B4 & B5 & B6 & B7). rewrite A5 in B6.
  unfold book_frame, same_tickers in *. split_and!; try congruence; try lia. by eapply requests_grow_trans.
Qed.

Lemma feats_ok_mono_nat n (k : nat) e : 0 ≤ n → feats_ok (n + Z.of_nat k) e → feats_ok n e.
Proof using All.
  intros Hn. revert n Hn. induction k as [|k IH]; intros n Hn Hf; [by rewrite Z.add_0_r in Hf|].
  apply feats_ok_mono; [done|]. apply IH; [lia|]. by replace (n + 1 + Z.of_nat k) with (n + Z.of_nat (Datatypes.S k)) by lia.
Qed.

Lemma processBooks_ok ts u B n :
  0 ≤ n → B < 2 ^ 62 → NoDup ts → ∀ e res Ls,
  eng_ok e → books_ok e Ls → Forall moderate Ls → feats_ok (n + Z.of_nat (length ts)) e → nets_le B e →
  (∀ t, t ∈ ts → (t < bookCount e)%nat) →
  (∀ t tb L, t ∈ ts → tickers_ e !! t = Some tb → Ls !! t = Some L →
     update_ok (book_pool_size_ e) u L = true ∧ moderate (spec_apply (tb_ticker_id tb) u L)) →
  counter_ (allocator_ e) + Z.of_nat (length ts) * Z.of_nat (slotCount e) < 2 ^ 48 →
  returns (processBooks ts u e res) (λ '(e', res'), ∃ Ls',
    books_post B n (length ts) Ls' e res e' res' ∧
    (∀ t, t ∉ ts → Ls' !! t = Ls !! t) ∧
    (∀ t tb L, t ∈ ts → tickers_ e !! t = Some tb → Ls !! t = Some L → Ls' !! t = Some (spec_apply (tb_ticker_id tb) u L))).
Proof using All.
  intros Hn HB'. induction 1 as [|t ts Hnin Hnd IH]; intros e res Ls Hok Hbk Hmod Hfe HB Hlt Hup Hid.
  { simpl. exists Ls. split_and!; try done.
    - unfold books_post. simpl in Hfe. rewrite Z.add_0_r in Hfe. split_and!; try done. by apply book_frame_refl.
    - intros t tb L []%elem_of_nil. }
  cbn [processBooks]. simpl length in *.
  destruct (lookup_lt_is_Some_2 (tickers_ e) t) as [tb Ht]; [apply Hlt; set_solver|].
  destruct (Forall2_lookup_l _ _ _ _ _ Hbk Ht) as (L & HL & _).
  destruct (Hup t tb L) as [Hup1 Hup2]; [set_solver|done|done|].
  assert (Z.of_nat (slotCount e) ≤ Z.of_nat (Datatypes.S (length ts)) * Z.of_nat (slotCount e)) by nia.
  apply returns_bind. eapply returns_mono.
  { apply (processBookUpdate_ok t u e res Ls tb L B (n + Z.of_nat (length ts))); try done; try lia.
    by replace (n + Z.of_nat (length ts) + 1) with (n + Z.of_nat (Datatypes.S (length ts))) by lia. }
  intros [e1 res1] (Hok1 & Hbk1 & Hfr1 & Hfe1 & HB1 & Hm1 & Hr1 & _).
  pose proof Hfr1 as (Ht1 & _ & _ & Hps1 & Hsc1 & Hc1).
  assert (bookCount e1 = bookCount e) as Hbc.
  { unfold bookCount. rewrite <- (length_fmap tb_ticker_id (tickers_ e1)), Ht1. by rewrite length_fmap. }
  eapply returns_mono.
  { apply (IH e1 res1 _ Hok1 Hbk1); try done.
    - by apply Forall_insert.
    - intros j Hj. rewrite Hbc. apply Hlt. set_solver.
    - intros j tb' L' Hj Htb' HL'. rewrite Hps1. rewrite list_lookup_insert_ne in HL' by (intros ->; done).
      destruct (Forall2_lookup_r _ _ _ _ _ Hbk HL') as (tb0 & Htb0 & _).
      destruct (same_tickers_lookup e e1 j tb0 Ht1 Htb0) as (tb1 & Htb1 & Heq). rewrite Htb' in Htb1. injection Htb1 as <-.
      rewrite Heq. apply (Hup j); [set_solver|done|done].
    - rewrite Hsc1. nia. }
  intros [e2 res2] (Ls' & (Hok2 & Hbk2 & Hfr2 & Hfe2 & HB2 & Hm2 & Hr2) & Hoth & Hin). exists Ls'. split_and!.
  - unfold books_post. split_and!; try done; try congruence.
    replace (Z.of_nat (Datatypes.S (length ts))) with (1 + Z.of_nat (length ts)) by lia. by eapply book_frame_trans.
  - intros j Hj. rewrite Hoth by set_solver. apply list_lookup_insert_ne. set_solver.
  - intros j tb' L' Hj Htb' HL'. destruct (decide (j = t)) as [->|Hne].
    + rewrite Ht in Htb'. injection Htb' as <-. rewrite HL in HL'. injection HL' as <-.
      rewrite Hoth by done. apply list_lookup_insert_eq. by eapply lookup_lt_Some.
    + destruct (same_tickers_lookup e e1 j tb' Ht1 Htb') as (tb1 & Htb1 & Heq). rewrite <- Heq.
      apply (Hin j tb1); [set_solver|done|]. by rewrite list_lookup_insert_ne.
Qed.

Definition tids (e : engine) : list TickerId := tb_ticker_id <$> tickers_ e.

Lemma next_books_lookup u e Ls j tb L :
  tickers_ e !! j = Some tb → Ls !! j = Some L → next_books u (tids e) Ls !! j = Some (spec_apply (tb_ticker_id tb) u L).
Proof using Type.
  intros Ht HL. unfold next_books, tids. rewrite lookup_zip_with, list_lookup_fmap, Ht, HL. done.
Qed.

Lemma next_books_eq u e Ls Ls' :
  books_ok e Ls → length Ls' = length Ls →
  (∀ j tb L, tickers_ e !! j = Some tb → Ls !! j = Some L → Ls' !! j = Some (spec_apply (tb_ticker_id tb) u L)) →
  Ls' = next_books u (tids e) Ls.
Proof using All.
  intros Hbk Hlen Hlk. pose proof (Forall2_length _ _ _ Hbk) as Hl. apply list_eq. intros j.
  destruct (tickers_ e !! j) as [tb|] eqn:Ht.
  - destruct (Forall2_lookup_l _ _ _ _ _ Hbk Ht) as (L & HL & _).
    by rewrite (Hlk j tb L Ht HL), (next_books_lookup u e Ls j tb L Ht HL).
  - rewrite lookup_ge_None in Ht. rewrite !lookup_ge_None_2; [done|..].
    + unfold next_books, tids. rewrite length_zip_with, length_fmap. lia.
    + lia.
Qed.

Lemma processMarketUpdate_ok u e res Ls B n :
  eng_ok e → books_ok e Ls → Forall moderate Ls → Forall2 (update_fits (book_pool_size_ e) u) (tids e) Ls →
  feats_ok (n + Z.of_nat (bookCount e)) e → 0 ≤ n → nets_le B e → B < 2 ^ 62 →
  counter_ (allocator_ e) + Z.of_nat (bookCount e) * Z.of_nat (slotCount e) < 2 ^ 48 →
  0 ≤ market_updates res < 2 ^ 64 - 1 →
  returns (processMarketUpdate u e res) (λ '(e', res'),
    eng_ok e' ∧ books_ok e' (next_books u (tids e) Ls) ∧ book_frame (Z.of_nat (bookCount e)) e e' ∧ feats_ok n e' ∧
    nets_le B e' ∧ market_updates res' = market_updates res + 1 ∧ responses res' = responses res).
Proof using All.
  intros Hok Hbk Hmod Hfit Hfe Hn HB HB' Hid Hcnt. unfold processMarketUpdate.
  assert (market_updates (inc_market_updates res) = market_updates res + 1) as Hinc by (apply wrapU_small; lia).
  assert (∀ j tb L, tickers_ e !! j = Some tb → Ls !! j = Some L → update_fits (book_pool_size_ e) u (tb_ticker_id tb) L) as Hfit'.
  { intros j tb L Ht HL. eapply (Forall2_lookup_lr _ _ _ j); [exact Hfit| |exact HL]. unfold tids. by rewrite list_lookup_fmap, Ht. }
  destruct (is_snapshot_control (mu_type u)) eqn:Ectl.
  - eapply returns_mono.
    { apply (processBooks_ok (seq 0 (bookCount e)) u B n Hn HB' (NoDup_seq _ _) e (inc_market_updates res) Ls); try done;
        rewrite ?length_seq; try done.
      - intros t Ht%elem_of_seq. lia.
      - intros t tb L _ Ht HL. destruct (Hfit' t tb L Ht HL) as [H1' H2']. split; [|done]. apply H1'.
        unfold reaches. by rewrite Ectl. }
    intros [e1 res1] (Ls' & (Hok1 & Hbk1 & Hfr1 & Hfe1 & HB1 & Hm1 & Hr1) & _ & Hin). rewrite length_seq in Hfr1.
    assert (Ls' = next_books u (tids e) Ls) as <-.
    { apply next_books_eq; [done| |].
      - pose proof (Forall2_length _ _ _ Hbk). pose proof (Forall2_length _ _ _ Hbk1).
        destruct Hfr1 as (Hst & _). apply (f_equal length) in Hst. rewrite !length_fmap in Hst. lia.
      - intros j tb L Ht HL. apply Hin; try done. apply elem_of_seq. apply lookup_lt_Some in Ht. unfold bookCount. lia. }
    split_and!; try done. congruence.
  - destruct (findTicker (mu_ticker_id u) e) as [[t tb]|] eqn:Hf.
    + apply list_find_Some in Hf as (Ht & Hid' & _). destruct (Forall2_lookup_l _ _ _ _ _ Hbk Ht) as (L & HL & _).
      destruct (Hfit' t tb L Ht HL) as [Hup Hm']. pose proof (lookup_lt_Some _ _ _ Ht) as Hlt.
      assert (Z.of_nat (slotCount e) ≤ Z.of_nat (bookCount e) * Z.of_nat (slotCount e)) by (unfold bookCount; nia).
      eapply returns_mono.
      { apply (processBookUpdate_ok t u e _ Ls tb L B n); try done; try lia.
        - apply Hup. unfold reaches. by rewrite Hid', Z.eqb_refl, orb_true_r.
        - apply (feats_ok_mono_nat (n + 1) (bookCount e - 1)); [lia|].
          by replace (n + 1 + Z.of_nat (bookCount e - 1)) with (n + Z.of_nat (bookCount e)) by (unfold bookCount; lia). }
      intros [e1 res1] (Hok1 & Hbk1 & Hfr1 & Hfe1 & HB1 & Hm1 & Hr1 & _). split_and!; try done; [| |congruence].
      * erewrite <- next_books_eq; [exact Hbk1|exact Hbk|by rewrite length_insert|].
        intros j tb' L' Htb' HL'. destruct (decide (j = t)) as [->|Hne].
        -- rewrite Ht in Htb'. injection Htb' as <-. rewrite HL in HL'. injection HL' as <-.
           apply list_lookup_insert_eq. by eapply lookup_lt_Some.
        -- rewrite list_lookup_insert_ne, HL' by done. f_equal. symmetry. apply spec_apply_unreached. unfold reaches.
           rewrite Ectl. simpl. apply Z.eqb_neq. intros Heq. apply Hne.
           apply (NoDup_lookup (tb_ticker_id <$> tickers_ e) j t (mu_ticker_id u)); [apply Hok|..]; rewrite list_lookup_fmap, ?Htb', ?Ht; simpl; congruence.
      * destruct Hfr1 as (? & ? & ? & ? & ? & ? & ?). unfold book_frame. split_and!; try done; lia.
    + cbn [returns]. split_and!; try done.
      * erewrite <- next_books_eq; [exact Hbk|exact Hbk|done|]. intros j tb L Ht HL. rewrite HL. f_equal. symmetry.
        apply spec_apply_unreached. unfold reaches. rewrite Ectl. simpl. apply Z.eqb_neq. intros Heq.
        apply list_find_None in Hf. eapply Forall_lookup_1 in Hf; [|exact Ht]. congruence.
      * apply book_frame_refl. lia.
      * by apply (feats_ok_mono_nat n (bookCount e)).
Qed.

Lemma next_books_moderate cap u ids Ls :
  Forall2 (update_fits cap u) ids Ls → Forall moderate (next_books u ids Ls).
Proof using Type. induction 1 as [|id L ids Ls [_ Hm] _ IH]; simpl; by constructor. Qed.

Lemma drainMarketUpdates_ok m e res Ls B n :
  eng_ok e → books_ok e Ls → Forall moderate Ls → m = length (q_items (market_updates_ e)) →
  feed_fits (book_pool_size_ e) (tids e) (q_items (market_updates_ e)) Ls →
  feats_ok (n + Z.of_nat m * Z.of_nat (bookCount e)) e → 0 ≤ n → nets_le B e → B < 2 ^ 62 →
  counter_ (allocator_ e) + Z.of_nat m * Z.of_nat (bookCount e) * Z.of_nat (slotCount e) < 2 ^ 48 →
  0 ≤ market_updates res → market_updates res + Z.of_nat m < 2 ^ 64 →
  returns (drainMarketUpdates_loop m e res) (λ '(e', res'),
    eng_ok e' ∧ books_ok e' (run_books (tids e) (q_items (market_updates_ e)) Ls) ∧ q_items (market_updates_ e') = [] ∧
    feats_ok n e' ∧ nets_le B e' ∧ order_responses_ e' = order_responses_ e ∧ slotCount e' = slotCount e ∧
    counter_ (allocator_ e') ≤ counter_ (allocator_ e) + Z.of_nat m * Z.of_nat (bookCount e) * Z.of_nat (slotCount e) ∧
    market_updates res' = market_updates res + Z.of_nat m ∧ responses res' = responses res ∧
    tids e' = tids e ∧ book_pool_size_ e' = book_pool_size_ e ∧ requests_grow e e').
Proof using All.
  revert e res Ls. induction m as [|m IH]; intros e res Ls Hok Hbk Hmod Hm Hfeed Hfe Hn HB HB' Hid Hc0 Hc.
  { symmetry in Hm. apply nil_length_inv in Hm. simpl. rewrite Hm, !Z.add_0_r in *. simpl. split_and!; try done. by apply requests_grow_same. }
  cbn [drainMarketUpdates_loop]. destruct (q_pop (market_updates_ e)) as [[u q]|] eqn:Epop.
  2:{ apply q_pop_None in Epop. by rewrite Epop in Hm. }
  apply q_pop_Some in Epop as Hitems. rewrite Hitems in Hm, Hfeed |- *. simpl in Hm. destruct Hfeed as [Hfit Hfeed].
  set (e0 := set_market_updates q e). apply returns_bind. eapply returns_mono.
  { apply (processMarketUpdate_ok u e0 res Ls B (n + Z.of_nat m * Z.of_nat (bookCount e))); try done;
      try (change (bookCount e0) with (bookCount e); change (slotCount e0) with (slotCount e);
           change (allocator_ e0) with (allocator_ e)); try nia.
    - by apply eng_ok_set_updates.
    - change (feats_ok (n + Z.of_nat m * Z.of_nat (bookCount e) + Z.of_nat (bookCount e)) e).
      by replace (n + Z.of_nat m * Z.of_nat (bookCount e) + Z.of_nat (bookCount e)) with
        (n + Z.of_nat (Datatypes.S m) * Z.of_nat (bookCount e)) by lia. }
  intros [e1 res1] (Hok1 & Hbk1 & Hfr1 & Hfe1 & HB1 & Hm1 & Hr1).
  pose proof Hfr1 as (Ht1 & Hq1 & Hq1' & Hps1 & Hsc1 & Hc1 & Hg1).
  change (same_tickers e e1) in Ht1. cbn [e0 set_market_updates market_updates_ order_responses_ book_pool_size_] in Hq1, Hq1', Hps1.
  change (slotCount e0) with (slotCount e) in *. change (allocator_ e0) with (allocator_ e) in Hc1.
  change (bookCount e0) with (bookCount e) in Hc1. change (tids e0) with (tids e) in *.
  assert (bookCount e1 = bookCount e) as Hbc.
  { unfold bookCount. rewrite <- (length_fmap tb_ticker_id (tickers_ e1)), Ht1. by rewrite length_fmap. }
  assert (tids e1 = tids e) as Htids by exact Ht1.
  eapply returns_mono.
  { apply (IH e1 res1 (next_books u (tids e) Ls)); try done; rewrite ?Hq1, ?Hps1, ?Htids, ?Hbc, ?Hsc1; try done; try lia; try nia.
    - by eapply next_books_moderate. }
  intros [e2 res2] (Hok2 & Hbk2 & Hq2 & Hfe2 & HB2 & Hq2' & Hsc2 & Hc2 & Hm2 & Hr2 & Hti2 & Hps2 & Hg2).
  rewrite Hq1, Htids in Hbk2. rewrite Hbc, Hsc1 in Hc2. split_and!; try done; try congruence; try lia.
  eapply requests_grow_trans; [exact Ht1| |exact Hg2]. exact Hg1.
Qed.
End EngineInv.
