(* ===== verification/EngineProperties.v ===== *)
(** * Properties of the trade engine

    Registration, the event loop as a whole, the routing of responses and the
    silence during snapshots, for any strategy and features that keep their
    interfaces' promises; witnessed by the program's own engine. *)

From S2P Require Import Prelude Types OrderIdAllocator PnLTracker RiskManager QuantLink OrderManager OrderManagerInv.
From S2P Require Import OrderLifecycle MarketOrderBook BookRep BookRefine BookProperties Features Strategy TradeEngine EngineInv.

(** ** Registration *)

Lemma registerTicker_wf Max tid t b t' :
  wf_tracker t → PnLTracker.registerTicker Max tid t = (b, t') →
  wf_tracker t' ∧ (∀ tid', net_of tid' t' = net_of tid' t) ∧ (b = true → is_Some (get tid t')).
Proof.
  intros Hwf Hreg.
  assert (∃ Max', (count t ≤ Max')%nat ∧ PnLTracker.registerTicker Max' tid t = (b, t')) as (Max' & Hc & Hreg').
  { destruct (decide (count t ≤ Max)%nat); [by exists Max|]. exists (Datatypes.S (count t)). split; [lia|].
    revert Hreg. unfold PnLTracker.registerTicker. destruct (get tid t); [done|].
    rewrite bool_decide_false, (bool_decide_false (count t = Datatypes.S (count t))) by lia. done. }
  destruct (registerTicker_pnl_spec Max' tid t b t' Hwf Hc Hreg') as (Hwf' & _ & Hb0 & Hb1 & Hoth).
  split_and!; [done| |intros Hb; rewrite (Hb1 Hb); eauto].
  intros tid'. destruct (decide (tid' = tid)) as [->|Hne]; [|unfold net_of; by rewrite Hoth].
  destruct b; [|by destruct (Hb0 eq_refl) as [-> _]]. unfold net_of. rewrite (Hb1 eq_refl). by destruct (get tid t).
Qed.

Definition wf_limits (limits : RiskLimits) : Prop :=
  max_abs_position limits < 2 ^ 63 ∧ max_order_notional limits < 2 ^ 63.

Lemma registerTicker_risk_wf MaxT MaxP tid limits r b r' :
  wf_risk MaxT MaxP r → wf_limits limits → RiskManager.registerTicker MaxT tid limits r = (b, r') →
  wf_risk MaxT MaxP r' ∧ pending_ r' = pending_ r.
Proof.
  intros Hwf [Hl1 Hl2]. unfold RiskManager.registerTicker. destruct (_ || _) eqn:E; [by intros [= <- <-]|]. bsplit.
  destruct (RiskManager.findTicker tid r) as [t|] eqn:Hf; [by intros [= <- <-]|].
  case_bool_decide as Hcap; [by intros [= <- <-]|]. intros [= <- <-]. destruct Hwf as [W1 W2 W3 W4 W5 W6].
  split; [|done]. split; simpl; try done.
  - rewrite length_app. simpl. lia.
  - rewrite fmap_app. apply NoDup_app. split_and!; [done| |apply NoDup_singleton].
    intros x (y & -> & Hy)%list_elem_of_fmap Hx%list_elem_of_singleton. simpl in Hx.
    unfold RiskManager.findTicker in Hf. destruct (list_find _ (RiskManager.tickers_ r)) eqn:Hfi; [done|].
    apply list_find_None in Hfi. rewrite Forall_forall in Hfi. by apply (Hfi y).
  - apply Forall_app. split; [done|]. apply Forall_singleton. simpl. lia.
Qed.

Lemma om_ok_limits MaxT MaxP MaxO om r r' a :
  om_ok MaxT MaxP MaxO om r a → wf_risk MaxT MaxP r' → pending_ r' = pending_ r → om_ok MaxT MaxP MaxO om r' a.
Proof. intros [] Hw Hp. split; rewrite ?Hp; done. Qed.

Section Register.
Context {P : Type} `{ObjectPoolLaws P} {Q : Type → Type} `{SPSCQueueLaws Q}.
Context {F : Type} `{FeaturePlugin P F}.
Context {S : Type} `{Strategy P Q F S} (strategy_ok : S → Prop).
Context (MaxSlots MaxT MaxP MaxO : nat).
Abbreviation engine := (TradeEngine P Q F S).
Abbreviation eng_ok := (eng_ok strategy_ok MaxSlots MaxT MaxP MaxO).
Implicit Types e : TradeEngine P Q F S.

Lemma eng_ok_new md req resp st n pool :
  strategy_ok st → Z.of_nat MaxSlots ≤ 2 ^ 16 →
  eng_ok (TradeEngine_new (Q := Q) (P := P) (F := F) MaxSlots md req resp st n pool).
Proof using All.
  intros Hst HM. split; unfold slotCount; cbn [TradeEngine_new slots_ allocator_ tickers_ OrderIdAllocator_new slot_count_];
    rewrite ?length_fmap, ?length_seq; try (case_bool_decide; lia); [|constructor].
  intros i s Hs. rewrite list_lookup_fmap in Hs. destruct (seq _ _ !! i) as [j|] eqn:Hj; [|done].
  injection Hs as <-. apply lookup_seq in Hj as [-> Hlt].
  assert (i < MaxSlots)%nat by (case_bool_decide; lia).
  split; cbn [new_slot sl_om sl_strategy sl_entries slot_]; try done; try constructor.
  apply ctx_ok_parts. cbn [new_slot sl_pnl sl_om sl_risk allocator_]. split; [apply wf_tracker_new|].
  split; simpl; try done; try lia; try constructor; simpl; try lia; try constructor.
  - intros o []%elem_of_nil.
  - intros o []%elem_of_nil.
Qed.

(** Replacing a slot by one with the same orders, reservations and strategy. *)
Lemma eng_ok_slot e i s s' :
  eng_ok e → slots_ e !! i = Some s → wf_tracker (sl_pnl s') → wf_risk MaxT MaxP (sl_risk s') →
  pending_ (sl_risk s') = pending_ (sl_risk s) → sl_om s' = sl_om s → sl_strategy s' = sl_strategy s →
  NoDup (en_ticker_id <$> sl_entries s') →
  Forall (λ x, is_Some (en_features x) ∧ ∃ t, tickers_ e !! en_book x = Some t ∧ tb_ticker_id t = en_ticker_id x)
    (sl_entries s') →
  eng_ok (set_slot i s' e).
Proof using Type.
  intros Hok Hi Hw Hr Hp Hom Hst Hnd Hen. pose proof (eo_slots _ _ _ _ _ _ Hok _ _ Hi) as [Hctx Hsl Hsto _ _].
  split; unfold slotCount; cbn [set_slot slots_ allocator_ tickers_]; rewrite ?length_insert; try apply Hok.
  intros j s1 Hj. apply list_lookup_insert_Some in Hj as [(<- & <- & _)|(Hne & Hj)].
  - split; try done; [|by rewrite Hom|by rewrite Hst].
    apply ctx_ok_parts in Hctx as [_ Hok']. apply ctx_ok_parts. split; [done|]. cbn [set_slot allocator_]. rewrite Hom.
    by eapply om_ok_limits.
  - destruct (eo_slots _ _ _ _ _ _ Hok _ _ Hj). by split.
Qed.

(** Creating a book at the end of the registry. *)
Lemma eng_ok_new_book e tb :
  eng_ok e → tb_ticker_id tb ∉ (tb_ticker_id <$> tickers_ e) → eng_ok (set_tickers (tickers_ e ++ [tb]) e).
Proof using Type.
  intros [H1' H2' H3' H4'] Hnin. split; try done.
  - intros i s Hs. destruct (H3' i s Hs) as [? ? ? ? Hen]. split; try done.
    eapply Forall_impl; [exact Hen|]. intros x (Hf & t & Ht & Hid). split; [done|]. exists t. split; [|done].
    cbn [set_tickers tickers_]. by apply lookup_app_l_Some.
  - cbn [set_tickers tickers_]. rewrite fmap_app. apply NoDup_app. split_and!; [done| |apply NoDup_singleton].
    intros x Hx ->%list_elem_of_singleton. done.
Qed.

Lemma findOrCreateTicker_ok e Ls tid ob e' :
  eng_ok e → books_ok e Ls → findOrCreateTicker MaxT tid e = (ob, e') →
  eng_ok e' ∧ slots_ e' = slots_ e ∧
  match ob with
  | Some k => (∃ tb, tickers_ e' !! k = Some tb ∧ tb_ticker_id tb = tid) ∧
              (e' = e ∨ tid ∉ (tb_ticker_id <$> tickers_ e) ∧ k = bookCount e ∧ books_ok e' (Ls ++ [[]]))
  | None => e' = e ∧ bookCount e = MaxT
  end.
Proof using All.
  intros Hok Hbk. unfold findOrCreateTicker, TradeEngine.findTicker.
  destruct (list_find _ (tickers_ e)) as [[k tb]|] eqn:Hf.
  { intros [= <- <-]. apply list_find_Some in Hf as (Hk & Hid & _). split_and!; eauto. }
  apply list_find_None in Hf.
  assert (tid ∉ (tb_ticker_id <$> tickers_ e)) as Hnin.
  { intros (tb & -> & Hin)%list_elem_of_fmap. rewrite Forall_forall in Hf. by apply (Hf tb). }
  case_bool_decide as Hcap; intros [= <- <-]; [done|].
  set (tb := mkTickerBook tid (MarketOrderBook_new tid (book_pool_size_ e))). split_and!.
  - by apply (eng_ok_new_book e tb).
  - done.
  - exists tb. split; [|done]. cbn [set_tickers tickers_]. unfold bookCount. by rewrite list_lookup_middle.
  - right. split_and!; try done. apply Forall2_app; [exact Hbk|]. constructor; [|constructor].
    subst tb. cbn [tb_book tb_ticker_id set_tickers book_pool_size_]. split_and!; [done|apply new_refines|apply op_new_capacity].
Qed.

(** ** Registration on every branch *)
Lemma registerTicker_ok slot tid limits e Ls :
  eng_ok e → books_ok e Ls → wf_limits limits →
  returns (registerTicker MaxSlots MaxT slot tid limits e) (λ '(b, e'),
    eng_ok e' ∧ (books_ok e' Ls ∨ books_ok e' (Ls ++ [[]])) ∧
    (∀ j, j ≠ slot → slots_ e' !! j = slots_ e !! j) ∧
    (∀ B, nets_le B e → nets_le B e') ∧
    (b = true → ∃ s s' k tb, slots_ e !! slot = Some s ∧ slots_ e' !! slot = Some s' ∧
       sl_entries s' = sl_entries s ++ [mkStrategyEntry tid k (Some feature_init)] ∧ is_Some (get tid (sl_pnl s')) ∧
       tickers_ e' !! k = Some tb ∧ tb_ticker_id tb = tid)).
Proof using All.
  intros Hok Hbk Hlim. unfold registerTicker.
  destruct (_ || _) eqn:E; [cbn [returns]; split_and!; eauto; done|]. bsplit.
  destruct (lookup_lt_is_Some_2 (slots_ e) slot) as [s Hs]; [unfold slotCount in *; lia|].
  rewrite Hs. cbn [deref mbind outcome_bind]. destruct (_ || _) eqn:E2; [cbn [returns]; split_and!; eauto; done|]. bsplit.
  destruct (findOrCreateTicker MaxT tid e) as [[k|] e1] eqn:Hfc;
    destruct (findOrCreateTicker_ok e Ls tid _ e1 Hok Hbk Hfc) as (Hok1 & Hsl1 & Hk).
  2:{ destruct Hk as [-> _]. cbn [returns]. split_and!; eauto; done. }
  destruct Hk as ((tb & Htb & Htbid) & Hcase).
  assert (books_ok e1 Ls ∨ books_ok e1 (Ls ++ [[]])) as Hbk1 by (destruct Hcase as [->|(_ & _ & ?)]; auto).
  assert (∀ B, nets_le B e → nets_le B e1) as Hn1 by (intros B; unfold nets_le; by rewrite Hsl1).
  assert (slots_ e1 !! slot = Some s) as Hs1 by (by rewrite Hsl1).
  pose proof (eo_slots _ _ _ _ _ _ Hok1 _ _ Hs1) as [Hctx1 _ _ Hnd1 Hen1]. apply ctx_ok_parts in Hctx1 as [Hw1 Hom1].
  destruct (PnLTracker.registerTicker MaxT tid (sl_pnl s)) as [ok1 pnl] eqn:Hreg1.
  destruct (registerTicker_wf _ _ _ _ _ Hw1 Hreg1) as (Hwp & Hnet & Hget).
  assert (∀ s', sl_pnl s' = pnl → wf_risk MaxT MaxP (sl_risk s') → pending_ (sl_risk s') = pending_ (sl_risk s) →
    sl_om s' = sl_om s → sl_strategy s' = sl_strategy s → NoDup (en_ticker_id <$> sl_entries s') →
    Forall (λ x, is_Some (en_features x) ∧ ∃ t, tickers_ e1 !! en_book x = Some t ∧ tb_ticker_id t = en_ticker_id x)
      (sl_entries s') →
    eng_ok (set_slot slot s' e1) ∧ (books_ok (set_slot slot s' e1) Ls ∨ books_ok (set_slot slot s' e1) (Ls ++ [[]])) ∧
    (∀ j, j ≠ slot → slots_ (set_slot slot s' e1) !! j = slots_ e !! j) ∧
    (∀ B, nets_le B e → nets_le B (set_slot slot s' e1))) as Hstore.
  { intros s' Hp Hr Hpend Hom Hst Hnd Hen. split_and!; [by eapply eng_ok_slot; rewrite ?Hp|exact Hbk1| |].
    - intros j Hj. cbn [set_slot slots_]. by rewrite list_lookup_insert_ne, Hsl1.
    - intros B HB. unfold nets_le. cbn [set_slot slots_]. apply Forall_insert; [by apply Hn1|]. rewrite Hp. intros t. rewrite Hnet.
      by apply (Forall_lookup_1 _ _ _ _ HB Hs). }
  destruct ok1; cbn [negb]; cbv iota.
  2:{ cbn [returns]. destruct (Hstore (mkSlot (sl_strategy s) pnl (sl_risk s) (sl_om s) (sl_entries s))) as (? & ? & ? & ?);
        try done; try (apply (ok_risk _ _ _ _ _ _ Hom1)); split_and!; done. }
  cbn [sl_risk sl_strategy sl_om sl_entries].
  destruct (RiskManager.registerTicker MaxT tid limits (sl_risk s)) as [ok2 risk] eqn:Hreg2.
  destruct (registerTicker_risk_wf _ _ _ _ _ _ _ (ok_risk _ _ _ _ _ _ Hom1) Hlim Hreg2) as (Hwr & Hpend).
  destruct ok2; cbn [negb]; cbv iota.
  2:{ cbn [returns]. destruct (Hstore (mkSlot (sl_strategy s) pnl risk (sl_om s) (sl_entries s))) as (? & ? & ? & ?);
        try done; split_and!; done. }
  set (s' := mkSlot _ _ _ _ _). cbn [returns]. destruct (Hstore s') as (H1' & H2' & H3' & H4'); try done.
  - cbn [s' sl_entries]. rewrite fmap_app. apply NoDup_app. split_and!; [done| |apply NoDup_singleton].
    intros x (y & -> & Hy)%list_elem_of_fmap Hx%list_elem_of_singleton. cbn [en_ticker_id] in Hx.
    assert (findEntry s tid = None) as Hfe by (by apply eq_None_not_Some).
    apply list_find_None in Hfe. rewrite Forall_forall in Hfe. by apply (Hfe y).
  - cbn [s' sl_entries]. apply Forall_app. split; [done|]. apply Forall_singleton. cbn [en_features en_book en_ticker_id].
    split; [eauto|]. exists tb. done.
  - split_and!; try done. intros _. exists s, s', k, tb. split_and!; try done.
    + cbn [set_slot slots_]. apply list_lookup_insert_eq. by eapply lookup_lt_Some.
    + by apply Hget.
Qed.
End Register.

(** ** The event loop *)

Section Loop.
Context {P : Type} `{ObjectPoolLaws P} {Q : Type → Type} `{SPSCQueueLaws Q}.
Context {F : Type} `{FeaturePlugin P F} `{HasFeature F MktPriceFeature}.
Context {S : Type} `{Strategy P Q F S} (strategy_ok : S → Prop) (feature_ok : Z → F → Prop).
Context (MaxSlots MaxT MaxP MaxO : nat).
Implicit Types e : TradeEngine P Q F S.

(** What the batch queued at an engine must satisfy: well-formed responses,
    updates the books can take, and room in the positions (bounded by [B]),
    the features and the id space for the whole batch. *)
Record batch_fits (e : TradeEngine P Q F S) (Ls : list (list Resting)) (B : Z) : Prop := {
  bf_responses : response_queue_ok e;
  bf_nets : nets_le B e ∧ 0 ≤ B;
  bf_room : B + Z.of_nat (length (q_items (order_responses_ e))) * 2 ^ 32 < 2 ^ 62;
  bf_moderate : Forall moderate Ls;
  bf_feed : feed_fits (book_pool_size_ e) (tids e) (q_items (market_updates_ e)) Ls;
  bf_feats : feats_ok feature_ok (Z.of_nat (length (q_items (market_updates_ e))) * Z.of_nat (bookCount e)) e;
  bf_ids : counter_ (allocator_ e) + Z.of_nat (length (q_items (market_updates_ e))) * Z.of_nat (bookCount e) *
             Z.of_nat (slotCount e) < 2 ^ 48;
  bf_count : Z.of_nat (length (q_items (market_updates_ e))) < 2 ^ 64
}.

Context (HMaxS : Z.of_nat MaxSlots ≤ 2 ^ 16) (HMaxP : Z.of_nat MaxP < 2 ^ 30).
Context (Hforward : ∀ o s, strategy_ok s → strategy_ok (onOrderUpdate o s)).
Context `{!FeatureLaws P F feature_ok, !StrategyLaws P Q F S strategy_ok MaxT MaxP MaxO}.
Abbreviation eng_ok := (eng_ok strategy_ok MaxSlots MaxT MaxP MaxO).

Lemma feats_ok_entries n e e' :
  (sl_entries <$> slots_ e') = (sl_entries <$> slots_ e) → feats_ok feature_ok n e → feats_ok feature_ok n e'.
Proof using Type.
  unfold feats_ok, slot_feats. intros He Hf.
  assert (Forall (Forall (λ x, ∃ f, en_features x = Some f ∧ feature_ok n f)) (sl_entries <$> slots_ e')) as Hf'.
  { rewrite He. by apply Forall_fmap. }
  rewrite Forall_fmap in Hf'. exact Hf'.
Qed.

(** One pass, with room for [n] more updates of the features afterwards. *)
Lemma runOnce_run e Ls B n : let R := Z.of_nat (length (q_items (order_responses_ e))) in
  let U := Z.of_nat (length (q_items (market_updates_ e))) in
  eng_ok e → books_ok e Ls → response_queue_ok e → nets_le B e → 0 ≤ B → B + R * 2 ^ 32 < 2 ^ 62 → Forall moderate Ls →
  feed_fits (book_pool_size_ e) (tids e) (q_items (market_updates_ e)) Ls →
  feats_ok feature_ok (n + U * Z.of_nat (bookCount e)) e → 0 ≤ n →
  counter_ (allocator_ e) + U * Z.of_nat (bookCount e) * Z.of_nat (slotCount e) < 2 ^ 48 → U < 2 ^ 64 →
  returns (runOnce MaxP e) (λ '(e', res),
    eng_ok e' ∧ books_ok e' (run_books (tids e) (q_items (market_updates_ e)) Ls) ∧
    q_items (order_responses_ e') = [] ∧ q_items (market_updates_ e') = [] ∧
    responses res = R ∧ market_updates res = U ∧ nets_le (B + R * 2 ^ 32) e' ∧ feats_ok feature_ok n e' ∧
    counter_ (allocator_ e') ≤ counter_ (allocator_ e) + U * Z.of_nat (bookCount e) * Z.of_nat (slotCount e) ∧
    slotCount e' = slotCount e ∧ tids e' = tids e ∧ book_pool_size_ e' = book_pool_size_ e ∧ requests_grow e e').
Proof using All.
  intros R U Hok Hbk Hrq HB HB0 Hroom Hmod Hfeed Hfe Hn Hids Hcnt. unfold runOnce, drainResponses. apply returns_bind.
  eapply returns_mono.
  { eapply (drainResponses_ok strategy_ok MaxSlots MaxT MaxP MaxO HMaxS HMaxP Hforward e StrategyRunResult_new B);
      [done..|simpl; lia|simpl; lia]. }
  intros [e1 res1] (Hok1 & Hq1 & HB1 & Hr1 & Hm1 & Ht & Ha & Hmu & Hps & Hreq & Hsc & Hent). cbn [responses market_updates] in *.
  unfold drainMarketUpdates. assert (bookCount e1 = bookCount e) as Hbc by (unfold bookCount; by rewrite Ht).
  assert (tids e1 = tids e) as Hti by (unfold tids; by rewrite Ht).
  eapply returns_mono.
  { apply (drainMarketUpdates_ok strategy_ok MaxSlots MaxT MaxP MaxO HMaxS HMaxP Hforward feature_ok _ e1 res1 Ls
      (B + Z.of_nat (length (q_items (order_responses_ e))) * 2 ^ 32) n);
      rewrite ?Ha, ?Hmu, ?Hps, ?Hbc, ?Hsc, ?Hti; try done; try (rewrite ?Hm1; simpl; lia).
    - unfold books_ok. by rewrite Ht, Hps.
    - by eapply feats_ok_entries. }
  intros [e2 res2] (Hok2 & Hbk2 & Hq2 & Hfe2 & HB2 & Hqr & Hsc2 & Hc2 & Hm2 & Hr2 & Hti2 & Hps2 & Hgrow). rewrite Hti, Hmu in Hbk2.
  rewrite Hbc, Hsc, Ha, Hmu in Hc2. rewrite Hqr, Hr2, Hm2, Hr1, Hm1, Hmu, Hsc2, Hsc, Hti2, Hti, Hps2, Hps. simpl.
  split_and!; try done. destruct Hgrow as (new & Hnew & Hf). exists new. rewrite Hnew, Hreq, <- Ht. done.
Qed.

Lemma runOnce_ok e Ls B :
  eng_ok e → books_ok e Ls → batch_fits e Ls B →
  returns (runOnce MaxP e) (λ '(e', res),
    eng_ok e' ∧ books_ok e' (run_books (tids e) (q_items (market_updates_ e)) Ls) ∧
    q_items (order_responses_ e') = [] ∧ q_items (market_updates_ e') = [] ∧
    responses res = Z.of_nat (length (q_items (order_responses_ e))) ∧
    market_updates res = Z.of_nat (length (q_items (market_updates_ e))) ∧
    nets_le (B + Z.of_nat (length (q_items (order_responses_ e))) * 2 ^ 32) e').
Proof using All.
  intros Hok Hbk [Hrq [HB HB0] Hroom Hmod Hfeed Hfe Hids Hcnt].
  eapply returns_mono; [by apply (runOnce_run e Ls B 0)|]. intros [e' res] (? & ? & ? & ? & ? & ? & ? & _). done.
Qed.

Lemma runOnce_keeps e Ls B :
  eng_ok e → books_ok e Ls → batch_fits e Ls B →
  ∃ e' res, runOnce MaxP e = Ok (e', res) ∧ eng_ok e' ∧
    nets_le (B + Z.of_nat (length (q_items (order_responses_ e))) * 2 ^ 32) e'.
Proof using All.
  intros Hok Hbk Hbf. pose proof (runOnce_ok e Ls B Hok Hbk Hbf) as Hr.
  apply returns_ok in Hr as ([e' res] & Hrun & Hok' & _ & _ & _ & _ & _ & Hn). by exists e', res.
Qed.
End Loop.

(** ** Properties *)

(** C22: Registering a ticker: it always returns and keeps the engine
    consistent; on [true] the slot gained one entry, with fresh features and a
    registered position, whose book is the registry's book of that ticker; and
    in the resulting engine all entries of one ticker, in whatever slots, share
    one book.  Other slots are untouched. *)
Theorem registerTicker_shares_book {P : Type} `{ObjectPoolLaws P} {Q : Type → Type} `{SPSCQueueLaws Q} {F : Type}
    `{FeaturePlugin P F} {S : Type} `{Strategy P Q F S} (strategy_ok : S → Prop) MaxSlots MaxT MaxP MaxO
    slot tid limits (e : TradeEngine P Q F S) Ls :
  eng_ok strategy_ok MaxSlots MaxT MaxP MaxO e → books_ok e Ls → wf_limits limits →
  ∃ b e', registerTicker MaxSlots MaxT slot tid limits e = Ok (b, e') ∧
    eng_ok strategy_ok MaxSlots MaxT MaxP MaxO e' ∧ (∀ j, j ≠ slot → slots_ e' !! j = slots_ e !! j) ∧
    (b = true → ∃ s s' k tb, slots_ e !! slot = Some s ∧ slots_ e' !! slot = Some s' ∧
       sl_entries s' = sl_entries s ++ [mkStrategyEntry tid k (Some feature_init)] ∧ is_Some (get tid (sl_pnl s')) ∧
       tickers_ e' !! k = Some tb ∧ tb_ticker_id tb = tid) ∧
    (∀ i j si sj x y, slots_ e' !! i = Some si → slots_ e' !! j = Some sj → x ∈ sl_entries si → y ∈ sl_entries sj →
       en_ticker_id x = en_ticker_id y → en_book x = en_book y).
Proof.
  intros Hok Hbk Hlim.
  pose proof (registerTicker_ok strategy_ok MaxSlots MaxT MaxP MaxO slot tid limits e Ls Hok Hbk Hlim) as Hreg.
  apply returns_ok in Hreg as ([b e'] & Hrun & Hok' & _ & Hoth & _ & Hb). exists b, e'. split_and!; try done.
  intros i j si sj x y Hi Hj Hx Hy Heq.
  pose proof (so_entry _ _ _ _ _ _ _ (eo_slots _ _ _ _ _ _ Hok' _ _ Hi)) as Hex.
  pose proof (so_entry _ _ _ _ _ _ _ (eo_slots _ _ _ _ _ _ Hok' _ _ Hj)) as Hey.
  rewrite Forall_forall in Hex, Hey. destruct (Hex x Hx) as (_ & tx & Htx & Hidx). destruct (Hey y Hy) as (_ & ty & Hty & Hidy).
  apply (NoDup_lookup (tb_ticker_id <$> tickers_ e') _ _ (en_ticker_id x)); [apply Hok'|..];
    rewrite list_lookup_fmap, ?Htx, ?Hty; simpl; congruence.
Qed.

(** The program's engine: four slots of 16 tickers, one in use, trading ticker
    1 with the liquidity taker. *)
Definition main_taker : Strategy SetPool BQueue TradingFeatures IocSignalConfig := LiquidityTaker_strategy 64 256.
#[local] Existing Instance main_taker.
Definition MainEngine : Type := TradeEngine SetPool BQueue TradingFeatures IocSignalConfig.
Definition ex_md : list MarketUpdate :=
  [mkMarketUpdate 1 1 ADD BUY 1000 30 1 0; mkMarketUpdate 2 1 ADD SELL 1001 10 2 0].
Definition ex_response (id : OrderId) : OrderResponse := mkOrderResponse id 7 BUY 1001 10 10 1001 0 EXECUTED.
Definition ex_engine0 : MainEngine :=
  TradeEngine_new 4 (mkBQueue 8 ex_md) (mkBQueue 8 []) (mkBQueue 8 [ex_response 999]) (mkIocSignalConfig 10 300000) 1 8.
Definition ex_engine : MainEngine :=
  match registerTicker 4 16 0 1 example_limits ex_engine0 with Ok (_, e) => e | _ => ex_engine0 end.

Lemma ex_engine0_ok : eng_ok wf_config 4 16 64 256 ex_engine0 ∧ books_ok ex_engine0 [].
Proof.
  split; [|constructor]. apply (eng_ok_new wf_config 4 16 64 256); [|lia].
  split; [split; simpl; lia|simpl; lia].
Qed.

Lemma registerTicker_shares_book_witness :
  ∃ e', registerTicker 4 16 0 1 example_limits ex_engine0 = Ok (true, e') ∧ eng_ok wf_config 4 16 64 256 e' ∧
    bookCount e' = 1%nat.
Proof.
  destruct ex_engine0_ok as [Hok Hbk].
  destruct (registerTicker_shares_book wf_config 4 16 64 256 0 1 example_limits ex_engine0 [] Hok Hbk)
    as (b & e' & Hrun & Hok' & _); [by split|].
  exists e'. assert (b = true ∧ bookCount e' = 1%nat) as [-> Hc] by (vm_compute in Hrun; injection Hrun as <- <-; done).
  done.
Defined.

Lemma ex_engine_ok :
  registerTicker 4 16 0 1 example_limits ex_engine0 = Ok (true, ex_engine) ∧
  eng_ok wf_config 4 16 64 256 ex_engine ∧ books_ok ex_engine [[]].
Proof.
  destruct ex_engine0_ok as [Hok Hbk].
  pose proof (registerTicker_ok wf_config 4 16 64 256 0 1 example_limits ex_engine0 [] Hok Hbk) as Hreg.
  apply returns_ok in Hreg as ([b e] & Hrun & Hok' & Hbk' & _); [|by split].
  assert (b = true ∧ length (tickers_ e) = 1%nat) as [-> Hlen] by (vm_compute in Hrun; injection Hrun as <- <-; done).
  unfold ex_engine. rewrite Hrun. split_and!; [done|done|]. destruct Hbk' as [Hbk'|Hbk']; [|done].
  apply Forall2_length in Hbk'. simpl in Hbk'. lia.
Qed.

Lemma forward_taker o s : wf_config s → wf_config (onOrderUpdate o s).
Proof. done. Qed.

(** C19: One pass of the event loop, [runOnce]: from a consistent engine whose
    queued batch fits, it returns (no overflow, no dangling pointer), both input
    queues are empty afterwards, the counts of processed responses and updates
    are exact, the engine is consistent again, and every book holds what the
    reference book gives for the updates of its ticker, in order. *)
Theorem runOnce_drains {P : Type} `{ObjectPoolLaws P} {Q : Type → Type} `{SPSCQueueLaws Q} {F : Type}
    `{FeaturePlugin P F} `{HasFeature F MktPriceFeature} {S : Type} `{Strategy P Q F S} (strategy_ok : S → Prop)
    (feature_ok : Z → F → Prop) MaxSlots MaxT MaxP MaxO
    (HF : FeatureLaws P F feature_ok) (HS : StrategyLaws P Q F S strategy_ok MaxT MaxP MaxO)
    (Hforward : ∀ o s, strategy_ok s → strategy_ok (onOrderUpdate o s)) (e : TradeEngine P Q F S) Ls B :
  Z.of_nat MaxSlots ≤ 2 ^ 16 → Z.of_nat MaxP < 2 ^ 30 →
  eng_ok strategy_ok MaxSlots MaxT MaxP MaxO e → books_ok e Ls → batch_fits feature_ok e Ls B →
  ∃ e' res, runOnce MaxP e = Ok (e', res) ∧ eng_ok strategy_ok MaxSlots MaxT MaxP MaxO e' ∧
    books_ok e' (run_books (tids e) (q_items (market_updates_ e)) Ls) ∧
    q_items (order_responses_ e') = [] ∧ q_items (market_updates_ e') = [] ∧
    responses res = Z.of_nat (length (q_items (order_responses_ e))) ∧
    market_updates res = Z.of_nat (length (q_items (market_updates_ e))) ∧
    nets_le (B + Z.of_nat (length (q_items (order_responses_ e))) * 2 ^ 32) e'.
Proof.
  intros HMs HMp Hok Hbk Hbf.
  pose proof (runOnce_ok strategy_ok feature_ok MaxSlots MaxT MaxP MaxO HMs HMp Hforward e Ls B Hok Hbk Hbf) as Hr.
  apply returns_ok in Hr as ([e' res] & Hrun & Hpost). by exists e', res.
Qed.

Definition ex_slots : MainEngine :=
  mkEngine (mkBQueue 8 []) (mkBQueue 8 []) (mkBQueue 8 []) (OrderIdAllocator_new 1)
    [mkSlot (mkIocSignalConfig 10 300000) PnLTracker_new RiskManager_new (mkOrderManager [] 0 0 0 0 0 0 0)
       [mkStrategyEntry 1 0 (Some (feature_init (P := SetPool)))]] [] 8.

(** [moderate], as a test. *)
Definition moderateb (L : list Resting) : bool :=
  forallb (λ x, (0 <=? r_price x) && (r_price x <? 2 ^ 31) && (0 <=? r_qty x)) L && (sumZ (r_qty <$> L) <=? 2 ^ 32).
Lemma moderateb_ok L : moderateb L = true → moderate L.
Proof.
  unfold moderateb. intros [HL Hs%Z.leb_le]%andb_true_iff. split; [|done]. apply Is_true_true, forallb_True in HL.
  eapply Forall_impl; [exact HL|]. intros x Hx%Is_true_true. bsplit. lia.
Qed.

Lemma ex_batch_fits : batch_fits trading_features_ok ex_engine [[]] 0.
Proof.
  split.
  - repeat constructor; simpl; lia.
  - split; [|done]. repeat constructor. intros tid. vm_compute. destruct tid as [|p|p]; [done| |done]. by destruct p.
  - vm_compute. done.
  - repeat constructor; simpl; lia.
  - replace (book_pool_size_ ex_engine) with 8%nat by (vm_compute; done).
    replace (tids ex_engine) with [1] by (vm_compute; done).
    replace (q_items (market_updates_ ex_engine)) with ex_md by (vm_compute; done).
    cbn [feed_fits ex_md]. split_and!; try done; (constructor; [|constructor]);
      (split; [by vm_compute|apply moderateb_ok; by vm_compute]).
  - apply (feats_ok_entries _ _ ex_slots); [by vm_compute|].
    constructor; [|constructor]. constructor; [|constructor]. exists (feature_init (P := SetPool)). split; [done|]. by vm_compute.
  - vm_compute. done.
  - vm_compute. done.
Qed.

Lemma runOnce_drains_witness :
  ∃ e' res, runOnce 64 ex_engine = Ok (e', res) ∧ responses res = 1 ∧ market_updates res = 2 ∧
    rejected_responses res = 1 ∧ orders_submitted res = 1 ∧ eng_ok wf_config 4 16 64 256 e' ∧
    rq_qty <$> q_items (order_requests_ e') = [10].
Proof.
  destruct ex_engine_ok as (_ & Hok & Hbk).
  destruct (runOnce_drains wf_config trading_features_ok 4 16 64 256 _ (LiquidityTaker_laws 16 64 256 eq_refl) forward_taker
    ex_engine [[]] 0) as (e' & res & Hrun & Hok' & _ & _ & _ & Hr & Hm & _); [lia|lia|exact Hok|exact Hbk|exact ex_batch_fits|].
  exists e', res. split; [exact Hrun|]. rewrite Hr, Hm.
  assert (rejected_responses res = 1 ∧ orders_submitted res = 1 ∧ rq_qty <$> q_items (order_requests_ e') = [10]) as (-> & -> & ->).
  { vm_compute in Hrun. injection Hrun as <- <-. vm_compute. done. }
  split_and!; try exact Hok'; vm_compute; done.
Defined.

(** C20: A response reaches the order manager that sent the order: when slot [i]
    records an order with the response's id, the engine hands the response to
    that slot's order manager, stores back what it produced, leaves every other
    slot, the books and the unsent requests as they were, and counts the
    response as rejected exactly when the order manager did not accept it. *)
Theorem response_reaches_owner {P : Type} `{ObjectPoolLaws P} {Q : Type → Type} `{SPSCQueueLaws Q} {F : Type}
    `{FeaturePlugin P F} `{HasFeature F MktPriceFeature} {S : Type} `{Strategy P Q F S} (strategy_ok : S → Prop)
    MaxSlots MaxT MaxP MaxO (Hforward : ∀ o s, strategy_ok s → strategy_ok (onOrderUpdate o s))
    (e : TradeEngine P Q F S) rs res B i s :
  Z.of_nat MaxSlots ≤ 2 ^ 16 → Z.of_nat MaxP < 2 ^ 30 →
  eng_ok strategy_ok MaxSlots MaxT MaxP MaxO e → wf_response rs → 0 ≤ rs_client_order_id rs →
  nets_le B e → 0 ≤ B < 2 ^ 62 → slots_ e !! i = Some s → rs_client_order_id rs ∈ (om_id <$> orders_ (sl_om s)) →
  ∃ handled c, OrderManager.onOrderResponse MaxP rs (slot_ctx e s) = Ok (handled, c) ∧
    processResponse MaxP rs e res =
      Ok (put_ctx i s c e, if handled : bool then inc_responses res else inc_rejected_responses (inc_responses res)) ∧
    eng_ok strategy_ok MaxSlots MaxT MaxP MaxO (put_ctx i s c e) ∧ response_frame e (put_ctx i s c e) ∧
    (∀ j, j ≠ i → slots_ (put_ctx i s c e) !! j = slots_ e !! j).
Proof.
  intros HMs HMp Hok Hrs Hid HB HB' Hi Hin.
  pose proof (processResponse_ok strategy_ok MaxSlots MaxT MaxP MaxO HMs HMp Hforward rs e res B Hok Hrs Hid HB HB') as Hr.
  apply returns_ok in Hr as ([e' res'] & Hrun & Hok' & Hfr & _ & Hcase).
  destruct (eo_slots _ _ _ _ _ _ Hok _ _ Hi) as [Hctx Hslot _ _ _]. apply ctx_ok_parts in Hctx as [_ Hom].
  pose proof (ok_issued _ _ _ _ _ _ Hom) as Hiss. rewrite Forall_forall in Hiss. specialize (Hiss _ Hin).
  assert (ownerOf (rs_client_order_id rs) (allocator_ e) = Z.of_nat i) as Hown.
  { rewrite <- Hslot. eapply issued_owner; [exact Hiss|]. rewrite Hslot.
    pose proof (eo_alloc _ _ _ _ _ _ Hok). apply lookup_lt_Some in Hi. unfold slotCount in *. lia. }
  unfold response_case in Hcase. rewrite Hown in Hcase. destruct Hcase as [(j & s' & b & c & Hj & Hs' & Hresp & -> & ->)|(Hge & _)].
  2:{ apply lookup_lt_Some in Hi. unfold slotCount in Hge. lia. }
  apply Nat2Z.inj in Hj as <-. rewrite Hi in Hs'. injection Hs' as <-. exists b, c. split_and!; try done.
  intros j Hj. cbn [put_ctx slots_]. by rewrite list_lookup_insert_ne.
Qed.

(** The engine after that pass, its order 1 at the exchange. *)
Definition ex_engine1 : MainEngine := match runOnce 64 ex_engine with Ok (e, _) => e | _ => ex_engine end.

Lemma ex_engine1_ok : eng_ok wf_config 4 16 64 256 ex_engine1 ∧ nets_le (2 ^ 32) ex_engine1.
Proof.
  destruct ex_engine_ok as (_ & Hok & Hbk).
  destruct (runOnce_keeps wf_config trading_features_ok 4 16 64 256 ltac:(lia) ltac:(lia) forward_taker
    (StrategyLaws0 := LiquidityTaker_laws 16 64 256 eq_refl) ex_engine [[]] 0 Hok Hbk ex_batch_fits)
    as (e' & res & Hrun & Hok' & Hn).
  unfold ex_engine1. rewrite Hrun. split; [exact Hok'|].
  by replace (2 ^ 32) with (0 + Z.of_nat (length (q_items (order_responses_ ex_engine))) * 2 ^ 32)
    by (vm_compute; reflexivity).
Qed.

Lemma response_reaches_owner_witness :
  ∃ s e' res, slots_ ex_engine1 !! 0%nat = Some s ∧
    processResponse 64 (ex_response 1) ex_engine1 StrategyRunResult_new = Ok (e', res) ∧ rejected_responses res = 0 ∧
    net_of 1 (default PnLTracker_new (sl_pnl <$> slots_ e' !! 0%nat)) = 10.
Proof.
  destruct ex_engine1_ok as [Hok HB]. destruct (slots_ ex_engine1 !! 0%nat) as [s|] eqn:Hs; [|vm_compute in Hs; discriminate].
  destruct (response_reaches_owner wf_config 4 16 64 256 forward_taker ex_engine1 (ex_response 1) StrategyRunResult_new
    (2 ^ 32) 0 s) as (b & c & _ & Hrun & _); [lia|lia|exact Hok|unfold wf_response, is_price, is_qty; simpl; lia|simpl; lia|exact HB|lia|exact Hs| |].
  { vm_compute in Hs. injection Hs as <-. vm_compute. left. }
  revert Hrun. generalize (put_ctx 0 s c ex_engine1). intros e'.
  generalize (if b then inc_responses StrategyRunResult_new
              else inc_rejected_responses (inc_responses StrategyRunResult_new)). intros res Hrun.
  exists s, e', res. split_and!; [reflexivity|exact Hrun|..]; vm_compute in Hrun; injection Hrun as <- <-; vm_compute; done.
Defined.

(** C21: Strategies are silent during a snapshot: while a book is between
    [SNAPSHOT_START] and [SNAPSHOT_END] (the start included, the end not), an update of it changes books, features
    and marks only; no request is queued, no id drawn, nothing counted as
    submitted, and no slot's orders, reservations or strategy change. *)
Theorem snapshot_silences_slots {P : Type} `{ObjectPoolLaws P} {Q : Type → Type} `{SPSCQueueLaws Q} {F : Type}
    `{FeaturePlugin P F} `{HasFeature F MktPriceFeature} {S : Type} `{Strategy P Q F S} (strategy_ok : S → Prop)
    (feature_ok : Z → F → Prop) MaxSlots MaxT MaxP MaxO
    (HF : FeatureLaws P F feature_ok) (HS : StrategyLaws P Q F S strategy_ok MaxT MaxP MaxO)
    (Hforward : ∀ o s, strategy_ok s → strategy_ok (onOrderUpdate o s)) (e : TradeEngine P Q F S) t tb u L res Ls B n :
  Z.of_nat MaxSlots ≤ 2 ^ 16 → Z.of_nat MaxP < 2 ^ 30 →
  eng_ok strategy_ok MaxSlots MaxT MaxP MaxO e → books_ok e Ls → Forall moderate Ls →
  tickers_ e !! t = Some tb → Ls !! t = Some L → update_ok (book_pool_size_ e) u L = true →
  moderate (spec_apply (tb_ticker_id tb) u L) → feats_ok feature_ok (n + 1) e → 0 ≤ n → nets_le B e → B < 2 ^ 62 →
  counter_ (allocator_ e) + Z.of_nat (slotCount e) < 2 ^ 48 →
  ∃ e' res', processBookUpdate t u e res = Ok (e', res') ∧
    books_ok e' (<[t := spec_apply (tb_ticker_id tb) u L]> Ls) ∧
    (next_flag (mu_type u) (in_snapshot_ (tb_book tb)) = true → order_requests_ e' = order_requests_ e ∧ allocator_ e' = allocator_ e ∧ res' = res ∧
       ∀ j s, slots_ e !! j = Some s → ∃ s', slots_ e' !! j = Some s' ∧ silent s s').
Proof.
  intros HMs HMp Hok Hbk Hmod Ht HL Hup Hm' Hfe Hn HB HB' Hid.
  pose proof (processBookUpdate_ok strategy_ok MaxSlots MaxT MaxP MaxO HMs HMp Hforward feature_ok
    t u e res Ls tb L B n Hok Hbk Hmod Ht HL Hup Hm' Hfe Hn HB HB' Hid) as Hr.
  apply returns_ok in Hr as ([e' res'] & Hrun & _ & Hbk' & _ & _ & _ & _ & _ & Hsn). exists e', res'. split_and!; try done.
Qed.

Lemma snapshot_silences_slots_witness :
  ∃ e', processBookUpdate 0 (mkMarketUpdate 5 0 SNAPSHOT_START BUY 0 0 0 0) ex_engine StrategyRunResult_new =
      Ok (e', StrategyRunResult_new) ∧ order_requests_ e' = order_requests_ ex_engine.
Proof.
  destruct ex_engine_ok as (_ & Hok & Hbk). destruct ex_batch_fits as [_ [HB _] _ Hmod _ Hfe _ _].
  destruct (tickers_ ex_engine !! 0%nat) as [tb|] eqn:Ht; [|vm_compute in Ht; discriminate].
  destruct (snapshot_silences_slots wf_config trading_features_ok 4 16 64 256 _ (LiquidityTaker_laws 16 64 256 eq_refl)
    forward_taker ex_engine 0 tb (mkMarketUpdate 5 0 SNAPSHOT_START BUY 0 0 0 0) [] StrategyRunResult_new [[]] 0 1)
    as (e' & res & Hrun & _ & Hsil); try exact Hok; try exact Hbk; try exact Hmod; try exact Ht; try exact HB;
    try exact Hfe; try lia; try reflexivity.
  - split; [constructor|simpl; lia].
  - destruct Hsil as (Hq & _ & -> & _); [reflexivity|]. exists e'. split; [exact Hrun|exact Hq].
Defined.
