(* ===== verification/Bytes.v ===== *)
(** * Integers in memory

    [std::memcpy] between integers and byte arrays on a little-endian host, and
    the byte-order conversion functions of QuantLink as an interface. *)

From S2P Require Import Prelude.

(** A [char] of a buffer, as an unsigned byte. *)
Definition is_byte (b : Z) : Prop := 0 ≤ b < 256.

(** The [n] bytes of an integer in memory, least significant first. *)
Fixpoint le_bytes (n : nat) (z : Z) : list Z :=
  match n with
  | O => []
  | S n' => z `mod` 256 :: le_bytes n' (z / 256)
  end.

Fixpoint le_value (l : list Z) : Z :=
  match l with
  | [] => 0
  | b :: l' => b + 256 * le_value l'
  end.

Lemma le_bytes_length n z : length (le_bytes n z) = n.
Proof. revert z. induction n as [|n IH]; intros z; simpl; [done|]. by rewrite IH. Qed.

Lemma le_bytes_range n z : Forall is_byte (le_bytes n z).
Proof.
  revert z. induction n as [|n IH]; intros z; simpl; constructor; [|apply IH].
  unfold is_byte. pose proof (Z.mod_pos_bound z 256). lia.
Qed.

Lemma pow256_S n : 256 ^ Z.of_nat (S n) = 256 * 256 ^ Z.of_nat n.
Proof. rewrite Nat2Z.inj_succ, Z.pow_succ_r by lia. lia. Qed.

Lemma le_value_range l : Forall is_byte l → 0 ≤ le_value l < 256 ^ Z.of_nat (length l).
Proof.
  induction 1 as [|b l Hb Hl IH]; [simpl; lia|]. cbn [le_value length]. rewrite pow256_S. unfold is_byte in Hb. lia.
Qed.

Lemma le_value_bytes n z : 0 ≤ z < 256 ^ Z.of_nat n → le_value (le_bytes n z) = z.
Proof.
  revert z. induction n as [|n IH]; intros z Hz; [simpl in *; lia|]. cbn [le_bytes le_value]. rewrite pow256_S in Hz.
  rewrite IH; [pose proof (Z.div_mod z 256); lia|]. split; [apply Z.div_pos; lia|]. apply Z.div_lt_upper_bound; lia.
Qed.

Lemma le_bytes_value l : Forall is_byte l → le_bytes (length l) (le_value l) = l.
Proof.
  induction 1 as [|b l Hb Hl IH]; [done|]. cbn [length le_value le_bytes]. unfold is_byte in Hb.
  rewrite (Z.mul_comm 256), Z.mod_add, Z.mod_small by lia. f_equal.
  rewrite Z.div_add, Z.div_small by lia. by rewrite Z.add_0_l.
Qed.

(** ** Packed fields *)
Definition field (offset size : nat) (msg : list Z) : list Z := take size (drop offset msg).
Definition uint (offset size : nat) (msg : list Z) : Z := le_value (field offset size msg).

Lemma uint_range o n bs : Forall is_byte bs → (o + n ≤ length bs)%nat → 0 ≤ uint o n bs < 256 ^ Z.of_nat n.
Proof.
  intros Hb Hl. pose proof (le_value_range (field o n bs)) as Hr.
  unfold field in Hr. rewrite length_take, length_drop, Nat.min_l in Hr by lia. apply Hr. by apply Forall_take, Forall_drop.
Qed.

(** ** [swap16], [swap32], [swap64]

    Conversion between host and wire order: involutions on their width. *)
Class ByteOrder : Type := {
  swap16 : Z → Z;
  swap32 : Z → Z;
  swap64 : Z → Z
}.

Class ByteOrderLaws `{ByteOrder} : Prop := {
  swap16_range : ∀ z, 0 ≤ z < 2 ^ 16 → 0 ≤ swap16 z < 2 ^ 16;
  swap32_range : ∀ z, 0 ≤ z < 2 ^ 32 → 0 ≤ swap32 z < 2 ^ 32;
  swap64_range : ∀ z, 0 ≤ z < 2 ^ 64 → 0 ≤ swap64 z < 2 ^ 64;
  swap16_swap16 : ∀ z, 0 ≤ z < 2 ^ 16 → swap16 (swap16 z) = z;
  swap32_swap32 : ∀ z, 0 ≤ z < 2 ^ 32 → swap32 (swap32 z) = z;
  swap64_swap64 : ∀ z, 0 ≤ z < 2 ^ 64 → swap64 (swap64 z) = z
}.

(** Reversing the bytes. *)
Definition bswap (n : nat) (z : Z) : Z := le_value (reverse (le_bytes n z)).

Lemma bswap_range n z : 0 ≤ bswap n z < 256 ^ Z.of_nat n.
Proof.
  unfold bswap. pose proof (le_value_range (reverse (le_bytes n z))) as Hr.
  rewrite length_reverse, le_bytes_length in Hr. apply Hr, Forall_reverse, le_bytes_range.
Qed.

Lemma bswap_bswap n z : 0 ≤ z < 256 ^ Z.of_nat n → bswap n (bswap n z) = z.
Proof.
  intros Hz. unfold bswap.
  replace n with (length (reverse (le_bytes n z))) at 1 by (by rewrite length_reverse, le_bytes_length).
  rewrite le_bytes_value by apply Forall_reverse, le_bytes_range. rewrite reverse_involutive. by apply le_value_bytes.
Qed.

Definition bswap_order : ByteOrder := {| swap16 := bswap 2; swap32 := bswap 4; swap64 := bswap 8 |}.
Lemma bswap_order_laws : @ByteOrderLaws bswap_order.
Proof.
  split; intros z Hz; first [apply (bswap_range 2) | apply (bswap_range 4) | apply (bswap_range 8)
    | apply (bswap_bswap 2) | apply (bswap_bswap 4) | apply (bswap_bswap 8)]; done.
Qed.
