(* ===== verification/OrderGateway.v ===== *)
(** * [OrderGateway] of [src/src/order_gateway/]

    The OUCH session: requests of the order managers become wire messages, and
    the byte stream of the exchange becomes responses.  The message structs,
    their layout and their type characters belong to QuantLink's
    [ouch_messages.h], so they are an interface here: the sizes, the type
    characters, and for each inbound struct the fields the gateway reads from
    the struct's bytes. *)

From S2P Require Import Prelude Types QuantLink Bytes.
From Equations Require Import Equations.

(** ** [quantlink::ouch] *)
Class OuchFormat : Type := {
  (** [enums::MsgType] *)
  MT_ENTER_ORDER : Z; MT_CANCEL_ORDER : Z; MT_REPLACE_ORDER : Z;
  MT_ORDER_ACCEPTED : Z; MT_ORDER_EXECUTED : Z; MT_ORDER_CANCELED : Z; MT_CANCEL_REJECTED : Z;
  (** [sizeof] of the inbound structs *)
  sizeof_OrderAccepted : nat; sizeof_OrderExecuted : nat; sizeof_OrderCanceled : nat;
  sizeof_OrderReplaced : nat; sizeof_CancelRejected : nat;
  (** fields of the struct stored in these bytes *)
  acc_order_token : list Z → list Z; acc_order_reference_number : list Z → Z;
  acc_buy_sell_indicator : list Z → Z; acc_price : list Z → Z; acc_shares : list Z → Z;
  exe_order_token : list Z → list Z; exe_match_number : list Z → Z;
  exe_executed_shares : list Z → Z; exe_execution_price : list Z → Z;
  can_order_token : list Z → list Z; can_decrement_shares : list Z → Z;
  rpl_replacement_order_token : list Z → list Z; rpl_order_reference_number : list Z → Z;
  rpl_buy_sell_indicator : list Z → Z; rpl_price : list Z → Z; rpl_shares : list Z → Z;
  rej_order_token : list Z → list Z
}.

(** [char[14]] *)
Definition is_token (t : list Z) : Prop := length t = 14%nat ∧ Forall is_byte t.

(** The enumerators of the inbound types are distinct, no struct is empty, and
    the fields of a struct's bytes hold values of their type. *)
Class OuchFormatLaws `{OuchFormat} : Prop := {
  inbound_types_NoDup :
    NoDup [MT_ORDER_ACCEPTED; MT_ORDER_EXECUTED; MT_ORDER_CANCELED; MT_REPLACE_ORDER; MT_CANCEL_REJECTED];
  inbound_sizes : Forall (λ n, 0 < n)%nat
    [sizeof_OrderAccepted; sizeof_OrderExecuted; sizeof_OrderCanceled; sizeof_OrderReplaced; sizeof_CancelRejected];
  acc_fields : ∀ bs, Forall is_byte bs → length bs = sizeof_OrderAccepted →
    is_token (acc_order_token bs) ∧ is_u64 (acc_order_reference_number bs) ∧ is_qty (acc_price bs) ∧ is_qty (acc_shares bs);
  exe_fields : ∀ bs, Forall is_byte bs → length bs = sizeof_OrderExecuted →
    is_token (exe_order_token bs) ∧ is_u64 (exe_match_number bs) ∧ is_qty (exe_executed_shares bs) ∧
    is_qty (exe_execution_price bs);
  can_fields : ∀ bs, Forall is_byte bs → length bs = sizeof_OrderCanceled →
    is_token (can_order_token bs) ∧ is_qty (can_decrement_shares bs);
  rpl_fields : ∀ bs, Forall is_byte bs → length bs = sizeof_OrderReplaced →
    is_token (rpl_replacement_order_token bs) ∧ is_u64 (rpl_order_reference_number bs) ∧ is_qty (rpl_price bs) ∧
    is_qty (rpl_shares bs);
  rej_fields : ∀ bs, Forall is_byte bs → length bs = sizeof_CancelRejected → is_token (rej_order_token bs)
}.

(** The outbound structs: the fields the gateway assigns.  The rest of
    [EnterOrder] and [ReplaceOrder] keeps the blanks of the [memset]. *)
Record EnterOrder : Type := mkEnterOrder {
  eo_type : Z; eo_order_token : list Z; eo_buy_sell_indicator : Z; eo_shares : Z; eo_stock : list Z; eo_price : Z;
  eo_time_in_force : Z; eo_firm : list Z; eo_display : Z; eo_capacity : Z; eo_intermarket_sweep : Z;
  eo_cross_type : Z; eo_customer_type : Z
}.
Record CancelOrder : Type := mkCancelOrder { co_type : Z; co_order_token : list Z; co_shares : Z }.
Record ReplaceOrder : Type := mkReplaceOrder {
  ro_type : Z; ro_existing_order_token : list Z; ro_replacement_order_token : list Z; ro_shares : Z; ro_price : Z;
  ro_time_in_force : Z; ro_display : Z; ro_intermarket_sweep : Z
}.
Inductive WireMessage : Type :=
| Enter (msg : EnterOrder)
| Cancel (msg : CancelOrder)
| Replace (msg : ReplaceOrder).

Section Wire.
Context `{ByteOrder} `{OuchFormat}.

Definition toWire32 (value : Z) : Z := swap32 value.
Definition toWire64 (value : Z) : Z := swap64 value.

(** [char token[14]] *)
Definition makeToken (client_order_id : OrderId) : list Z :=
  let wire_id := toWire64 client_order_id in
  le_bytes 8 wire_id ++ replicate 6 0.

Definition parseToken (token : list Z) : OrderId := toWire64 (le_value (take 8 token)).

(** [char stock[8]] *)
Definition writeTicker (ticker_id : TickerId) : list Z := le_bytes 8 (toWire64 ticker_id).

(** [req.ioc ? 0U : 99998U] *)
Definition time_in_force (ioc : bool) : Z := if ioc then 0 else 99998.

(** A failed [ASSERT] ends the process. *)
Definition ASSERT (cond : bool) : outcome unit := if cond then Ok () else Halt.

Definition sendEnter (req : OrderRequest) : outcome WireMessage :=
  _ ← ASSERT (negb (rq_ticker_id req =? TickerId_INVALID));
  _ ← ASSERT (0 <=? rq_price req);
  Ok (Enter (mkEnterOrder MT_ENTER_ORDER (makeToken (rq_client_order_id req)) (char_of_Side (rq_side req))
       (toWire32 (rq_qty req)) (writeTicker (rq_ticker_id req)) (toWire32 (wrapU 32 (rq_price req)))
       (toWire32 (time_in_force (rq_ioc req))) [65; 76; 80; 72] 89 65 78 78 82)).

Definition sendCancel (req : OrderRequest) : outcome WireMessage :=
  Ok (Cancel (mkCancelOrder MT_CANCEL_ORDER (makeToken (rq_client_order_id req)) (toWire32 (rq_qty req)))).

Definition sendReplace (req : OrderRequest) : outcome WireMessage :=
  _ ← ASSERT (negb (rq_new_client_order_id req =? 0));
  _ ← ASSERT (0 <=? rq_price req);
  Ok (Replace (mkReplaceOrder MT_REPLACE_ORDER (makeToken (rq_client_order_id req))
       (makeToken (rq_new_client_order_id req)) (toWire32 (rq_qty req)) (toWire32 (wrapU 32 (rq_price req)))
       (toWire32 (time_in_force (rq_ioc req))) 89 78)).

(** The [switch] of [run]. *)
Definition send (req : OrderRequest) : outcome WireMessage :=
  match rq_type req with
  | RQ_NEW => sendEnter req
  | RQ_CANCEL => sendCancel req
  | RQ_REPLACE => sendReplace req
  end.

(** ** Inbound messages *)

Definition messageSize (type : Z) : nat :=
  if type =? MT_ORDER_ACCEPTED then sizeof_OrderAccepted
  else if type =? MT_ORDER_EXECUTED then sizeof_OrderExecuted
  else if type =? MT_ORDER_CANCELED then sizeof_OrderCanceled
  else if type =? MT_REPLACE_ORDER then sizeof_OrderReplaced
  else if type =? MT_CANCEL_REJECTED then sizeof_CancelRejected
  else 0.

(** [OrderResponse response{}; ... switch (type) { ... }] on the bytes of one
    message. *)
Definition decodeResponse (type : Z) (msg : list Z) : OrderResponse :=
  if type =? MT_ORDER_ACCEPTED then
    mkOrderResponse (parseToken (acc_order_token msg)) (toWire64 (acc_order_reference_number msg))
      (Side_of_char (acc_buy_sell_indicator msg)) (wrapS 32 (toWire32 (acc_price msg))) (toWire32 (acc_shares msg))
      0 0 0 ACCEPTED
  else if type =? MT_ORDER_EXECUTED then
    mkOrderResponse (parseToken (exe_order_token msg)) (toWire64 (exe_match_number msg)) BUY 0 0
      (toWire32 (exe_executed_shares msg)) (wrapS 32 (toWire32 (exe_execution_price msg))) 0 EXECUTED
  else if type =? MT_ORDER_CANCELED then
    mkOrderResponse (parseToken (can_order_token msg)) 0 BUY 0 0 0 0 (toWire32 (can_decrement_shares msg)) CANCELED
  else if type =? MT_REPLACE_ORDER then
    mkOrderResponse (parseToken (rpl_replacement_order_token msg)) (toWire64 (rpl_order_reference_number msg))
      (Side_of_char (rpl_buy_sell_indicator msg)) (wrapS 32 (toWire32 (rpl_price msg))) (toWire32 (rpl_shares msg))
      0 0 0 ACCEPTED
  else if type =? MT_CANCEL_REJECTED then
    mkOrderResponse (parseToken (rej_order_token msg)) 0 BUY 0 0 0 0 0 CANCEL_REJECTED
  else mkOrderResponse 0 0 BUY 0 0 0 0 0 REJECTED.

(** ** The session *)
Context {Q : Type → Type} `{SPSCQueue Q}.

(** [while (offset < available)] of [recvCallback]: the offset it stops at and
    the response queue.  Each round advances [offset], so [available] rounds
    are enough. *)
Fixpoint recv_loop (fuel : nat) (data : list Z) (offset : nat) (incoming : Q OrderResponse)
    : nat * Q OrderResponse :=
  match fuel with
  | O => (offset, incoming)
  | S fuel' =>
      match data !! offset with
      | None => (offset, incoming)
      | Some type =>
          let size := messageSize type in
          if bool_decide (size = 0%nat) then recv_loop fuel' data (offset + 1) incoming
          else if bool_decide (length data - offset < size)%nat then (offset, incoming)
          else
            let response := decodeResponse type (take size (drop offset data)) in
            let '(_, incoming) := q_push response incoming in
            recv_loop fuel' data (offset + size) incoming
      end
  end.

Record OrderGateway : Type := mkGateway {
  outgoing_requests_ : Q OrderRequest;
  incoming_responses_ : Q OrderResponse;
  inbound_data_ : list Z;          (* the first next_rcv_valid_index_ bytes *)
  sent_ : list WireMessage;        (* what tcp_socket_.send was given *)
  run_ : bool;
  thread_ : bool                   (* thread_.joinable() *)
}.

Definition OrderGateway_new (outgoing : Q OrderRequest) (incoming : Q OrderResponse) : OrderGateway :=
  mkGateway outgoing incoming [] [] false false.

(** [memmove(data, data + offset, available - offset); available -= offset] *)
Definition recvCallback (g : OrderGateway) : OrderGateway :=
  let '(offset, incoming) := recv_loop (length (inbound_data_ g)) (inbound_data_ g) 0 (incoming_responses_ g) in
  mkGateway (outgoing_requests_ g) incoming (drop offset (inbound_data_ g)) (sent_ g) (run_ g) (thread_ g).

(** [tcp_socket_.sendAndRecv()]: the bytes that arrived are appended to the
    buffer, and the callback runs if there are any. *)
Definition sendAndRecv (chunk : list Z) (g : OrderGateway) : OrderGateway :=
  match chunk with
  | [] => g
  | _ => recvCallback (mkGateway (outgoing_requests_ g) (incoming_responses_ g) (inbound_data_ g ++ chunk)
                         (sent_ g) (run_ g) (thread_ g))
  end.

(** [while (outgoing_requests_->pop(req)) switch ...] *)
Fixpoint send_loop (fuel : nat) (g : OrderGateway) : outcome OrderGateway :=
  match fuel with
  | O => Ok g
  | S fuel' =>
      match q_pop (outgoing_requests_ g) with
      | None => Ok g
      | Some (req, q) =>
          msg ← send req;
          send_loop fuel' (mkGateway q (incoming_responses_ g) (inbound_data_ g) (sent_ g ++ [msg]) (run_ g) (thread_ g))
      end
  end.

(** One round of [run]'s loop, given the bytes that arrived. *)
Definition run_round (chunk : list Z) (g : OrderGateway) : outcome OrderGateway :=
  let g := sendAndRecv chunk g in
  send_loop (length (q_items (outgoing_requests_ g))) g.

Fixpoint run_gateway (chunks : list (list Z)) (g : OrderGateway) : outcome OrderGateway :=
  match chunks with
  | [] => Ok g
  | chunk :: chunks' => g ← run_round chunk g; run_gateway chunks' g
  end.

Definition set_running (run thread : bool) (g : OrderGateway) : OrderGateway :=
  mkGateway (outgoing_requests_ g) (incoming_responses_ g) (inbound_data_ g) (sent_ g) run thread.

(** [connected] is the result of [tcp_socket_.connect(...) >= 0].  Assigning to
    a joinable [std::thread] ends the process. *)
Definition start (connected : bool) (g : OrderGateway) : outcome OrderGateway :=
  if run_ g then Ok g
  else if negb connected then Ok (set_running false (thread_ g) g)
  else if thread_ g then Halt
  else Ok (set_running true true g).

Definition stop (g : OrderGateway) : OrderGateway := set_running false false g.
End Wire.
Arguments OrderGateway Q : clear implicits.
