(* ===== verification/GatewayProperties.v ===== *)
(** * Properties of the order gateway

    The byte stream of the exchange is decoded the same way however it is cut
    into reads; requests survive the trip to the wire; what arrives is fit for
    the engine. *)

From S2P Require Import Prelude Types OrderIdAllocator QuantLink Bytes RiskManager OrderManager OrderManagerInv OrderLifecycle.
From S2P Require Import OrderGateway.
From Equations Require Import Equations.

(** ** The reference decoder *)

Section Frames.
Context `{ByteOrder} `{OuchFormat}.

(** The messages at the front of a byte string, and the bytes left over. *)
Equations? frames (data : list Z) : list OrderResponse * list Z by wf (length data) lt :=
  frames [] := ([], []);
  frames (type :: rest) with messageSize type => {
    | O := frames rest
    | S k with decide (length rest < k)%nat => {
        | left _ := ([], type :: rest)
        | right _ := (decodeResponse type (type :: take k rest) :: (frames (drop k rest)).1, (frames (drop k rest)).2) } }.
Proof. all: simpl; rewrite ?length_drop; lia. Qed.

Lemma frames_cons type rest :
  frames (type :: rest) =
    match messageSize type with
    | O => frames rest
    | S k => if decide (length rest < k)%nat then ([], type :: rest)
             else (decodeResponse type (type :: take k rest) :: (frames (drop k rest)).1, (frames (drop k rest)).2)
    end.
Proof using Type.
  rewrite frames_equation_2. unfold frames_unfold_clause_2. destruct (messageSize type) as [|k]; [done|].
  simpl. by destruct (decide _).
Qed.

(** Leftover bytes are not decodable yet, and decoding can resume with them. *)
Lemma frames_app b c :
  frames (b ++ c) = ((frames b).1 ++ (frames ((frames b).2 ++ c)).1, (frames ((frames b).2 ++ c)).2).
Proof using Type.
  remember (length b) as n eqn:Hn. revert b Hn. induction n as [n IH] using lt_wf_ind. intros [|type rest] Hn.
  { rewrite frames_equation_1. simpl. by destruct (frames c). }
  simpl app. rewrite !frames_cons. simpl in Hn. destruct (messageSize type) as [|k] eqn:Hsz.
  - rewrite (IH (length rest)); [done|lia|done].
  - destruct (decide (length rest < k)%nat) as [Hlt|Hge].
    + simpl. rewrite frames_cons, Hsz. by destruct (decide _).
    + rewrite decide_False by (rewrite length_app; lia). cbn [fst snd app].
      rewrite take_app_le, drop_app_le by lia.
      rewrite (IH (length (drop k rest)) ltac:(rewrite length_drop; lia) (drop k rest) eq_refl). done.
Qed.

Lemma frames_rest b : frames (frames b).2 = ([], (frames b).2).
Proof using Type.
  remember (length b) as n eqn:Hn. revert b Hn. induction n as [n IH] using lt_wf_ind. intros [|type rest] Hn.
  { by rewrite frames_equation_1. }
  rewrite !frames_cons. simpl in Hn. destruct (messageSize type) as [|k] eqn:Hsz.
  - apply (IH (length rest)); [lia|done].
  - destruct (decide (length rest < k)%nat) as [Hlt|Hge]; simpl.
    + rewrite frames_cons, Hsz. by destruct (decide _).
    + apply (IH (length (drop k rest))); [rewrite length_drop; lia|done].
Qed.

(** A complete message of the exchange. *)
Definition complete (msg : list Z) : Prop :=
  ∃ type body, msg = type :: body ∧ messageSize type = length msg.

Definition decode (msg : list Z) : OrderResponse := decodeResponse (hd 0 msg) msg.

Lemma frames_complete msgs tail :
  Forall complete msgs → frames (concat msgs ++ tail) = ((decode <$> msgs) ++ (frames tail).1, (frames tail).2).
Proof using Type.
  induction 1 as [|msg msgs (type & body & -> & Hsz) Hm IH]; [simpl; by rewrite <- surjective_pairing|].
  cbn [concat]. rewrite <- app_assoc. simpl app. rewrite frames_cons, Hsz. simpl length. cbv iota.
  rewrite decide_False by (rewrite length_app; lia).
  rewrite take_app_length, drop_app_length, IH. done.
Qed.

Definition wf_incoming (rs : OrderResponse) : Prop := wf_response rs ∧ 0 ≤ rs_client_order_id rs.

Context `{!ByteOrderLaws} `{!OuchFormatLaws}.

Lemma parseToken_range token : is_token token → is_u64 (parseToken token).
Proof using All.
  intros [Hl Ht]. apply swap64_range. pose proof (le_value_range (take 8 token) (Forall_take _ _ _ Ht)) as Hr.
  rewrite length_take, Hl in Hr. exact Hr.
Qed.

Lemma decodeResponse_wf type msg :
  Forall is_byte msg → messageSize type = length msg → msg ≠ [] → wf_incoming (decodeResponse type msg).
Proof using All.
  intros Hb Hsz Hne.
  assert (∀ z, is_price (wrapS 32 z)) as Hp by (intros z; apply (wrapS_range 32); lia).
  assert (∀ z, is_qty z → is_qty (toWire32 z)) as Hq by apply swap32_range.
  assert (∀ t, is_token t → 0 ≤ parseToken t) as Ht by (intros t Ht; apply (parseToken_range t Ht)).
  assert (is_price 0 ∧ is_qty 0) as [] by (split; unfold is_price, is_qty; lia).
  unfold messageSize, decodeResponse in *.
  repeat match goal with |- context [if ?b then _ else _] => destruct b end.
  - destruct (acc_fields msg Hb) as (? & _); [done|]. by split; [split_and!|apply Ht].
  - destruct (exe_fields msg Hb) as (? & _ & ? & ?); [done|]. split; [split_and!|]; simpl; auto.
  - destruct (can_fields msg Hb) as (? & ?); [done|]. split; [split_and!|]; simpl; auto.
  - destruct (rpl_fields msg Hb) as (? & _); [done|]. by split; [split_and!|apply Ht].
  - pose proof (rej_fields msg Hb). split; [split_and!|]; simpl; auto.
  - by destruct msg.
Qed.

Lemma frames_wf b : Forall is_byte b → Forall wf_incoming (frames b).1.
Proof using All.
  remember (length b) as n eqn:Hn. revert b Hn. induction n as [n IH] using lt_wf_ind. intros [|type rest] Hn Hb.
  { rewrite frames_equation_1. constructor. }
  rewrite frames_cons. simpl in Hn. pose proof Hb as [Hb0 Hb']%Forall_cons. destruct (messageSize type) as [|k] eqn:Hsz.
  - by apply (IH (length rest)); [lia|..].
  - destruct (decide _); simpl; constructor.
    + apply decodeResponse_wf; [constructor; [done|by apply Forall_take]| |done].
      rewrite Hsz. simpl. rewrite length_take. lia.
    + apply (IH (length (drop k rest))); [rewrite length_drop; lia|done|by apply Forall_drop].
Qed.
End Frames.

Section Gateway.
Context `{ByteOrder} `{OuchFormat} {Q : Type → Type} `{SPSCQueue Q}.

(** The response queue after pushing some responses; a full queue drops them. *)
Definition push_all (rs : list OrderResponse) (q : Q OrderResponse) : Q OrderResponse :=
  foldl (λ q r, (q_push r q).2) q rs.

Lemma recv_loop_spec fuel data : ∀ offset q,
  (offset ≤ length data)%nat → (length data - offset ≤ fuel)%nat →
  drop (recv_loop fuel data offset q).1 data = (frames (drop offset data)).2 ∧
  (recv_loop fuel data offset q).2 = push_all (frames (drop offset data)).1 q.
Proof using Type.
  induction fuel as [|fuel IH]; intros offset q Hoff Hfuel; cbn [recv_loop].
  { cbn [fst snd]. rewrite drop_ge by lia. by rewrite frames_equation_1. }
  destruct (data !! offset) as [type|] eqn:Ht.
  2:{ apply lookup_ge_None in Ht. cbn [fst snd]. rewrite drop_ge by lia. by rewrite frames_equation_1. }
  pose proof (lookup_lt_Some _ _ _ Ht) as Hlt. rewrite (drop_S _ _ _ Ht), frames_cons.
  destruct (messageSize type) as [|k] eqn:Hsz.
  { rewrite bool_decide_true by done. rewrite Nat.add_1_r. apply IH; lia. }
  rewrite bool_decide_false by done. destruct (decide (length (drop (S offset) data) < k)%nat) as [Hs|Hs]; rewrite length_drop in Hs.
  { rewrite bool_decide_true by lia. simpl. by rewrite (drop_S _ _ _ Ht). }
  rewrite bool_decide_false by lia. destruct (q_push _ q) as [b q'] eqn:Hpush.
  destruct (IH (offset + S k)%nat q') as [IH1 IH2]; [lia|lia|]. rewrite IH1, IH2.
  replace (offset + S k)%nat with (S offset + k)%nat by lia. rewrite <- drop_drop.
  cbn [fst snd push_all foldl]. cbn [take] in Hpush. by rewrite Hpush.
Qed.

Lemma recvCallback_spec (g : OrderGateway Q) :
  incoming_responses_ (recvCallback g) = push_all (frames (inbound_data_ g)).1 (incoming_responses_ g) ∧
  inbound_data_ (recvCallback g) = (frames (inbound_data_ g)).2 ∧
  outgoing_requests_ (recvCallback g) = outgoing_requests_ g ∧ sent_ (recvCallback g) = sent_ g.
Proof using Type.
  destruct (recv_loop_spec (length (inbound_data_ g)) (inbound_data_ g) 0 (incoming_responses_ g)) as [Hd Hq]; [lia|lia|].
  unfold recvCallback. destruct (recv_loop _ _ _ _) as [off q]. simpl in *. by rewrite drop_0 in *.
Qed.

Lemma sendAndRecv_frame chunk (g : OrderGateway Q) :
  outgoing_requests_ (sendAndRecv chunk g) = outgoing_requests_ g ∧ sent_ (sendAndRecv chunk g) = sent_ g.
Proof using Type. unfold sendAndRecv. destruct chunk; [done|]. unfold recvCallback. by destruct (recv_loop _ _ _ _). Qed.

Lemma push_all_app rs1 rs2 q : push_all (rs1 ++ rs2) q = push_all rs2 (push_all rs1 q).
Proof using Type. apply foldl_app. Qed.

(** Receiving the stream in any pieces. *)
Lemma recv_chunks chunks (g : OrderGateway Q) :
  frames (inbound_data_ g) = ([], inbound_data_ g) →
  let g' := foldl (λ g c, sendAndRecv c g) g chunks in
  incoming_responses_ g' = push_all (frames (inbound_data_ g ++ concat chunks)).1 (incoming_responses_ g) ∧
  inbound_data_ g' = (frames (inbound_data_ g ++ concat chunks)).2.
Proof using Type.
  revert g. induction chunks as [|c chunks IH]; intros g Hst; [cbn [concat foldl]; by rewrite app_nil_r, Hst|].
  cbn [concat foldl]. destruct c as [|b c]; [apply IH; done|].
  set (g1 := sendAndRecv (b :: c) g).
  destruct (recvCallback_spec (mkGateway (outgoing_requests_ g) (incoming_responses_ g) (inbound_data_ g ++ b :: c)
              (sent_ g) (run_ g) (thread_ g))) as (Hq & Hd & _). fold g1 in Hq, Hd. cbn [inbound_data_ incoming_responses_] in Hq, Hd.
  change (recvCallback _) with g1 in Hq, Hd. destruct (IH g1) as [Hq' Hd']; [rewrite Hd; apply frames_rest|].
  cbv zeta in *. rewrite Hq', Hd', Hq, Hd, app_assoc, (frames_app (inbound_data_ g ++ b :: c)). cbn [fst snd].
  by rewrite push_all_app.
Qed.
End Gateway.

(** ** Outgoing requests *)

(** What the assertions of the senders require. *)
Definition sendable (req : OrderRequest) : bool :=
  match rq_type req with
  | RQ_NEW => negb (rq_ticker_id req =? TickerId_INVALID) && (0 <=? rq_price req)
  | RQ_CANCEL => true
  | RQ_REPLACE => negb (rq_new_client_order_id req =? 0) && (0 <=? rq_price req)
  end.

(** Requests with every field in the range of its type. *)
Definition wf_outgoing (req : OrderRequest) : Prop :=
  is_u64 (rq_client_order_id req) ∧ is_u64 (rq_new_client_order_id req) ∧ 0 ≤ rq_ticker_id req < 2 ^ 32 ∧
  Side_of_char (char_of_Side (rq_side req)) = rq_side req ∧ is_price (rq_price req) ∧ is_qty (rq_qty req).

Section Outgoing.
Context `{ByteOrder} `{OuchFormat} `{!ByteOrderLaws}.

(** What the exchange reads from a message. *)
Definition read_request (m : WireMessage) : OrderRequest :=
  match m with
  | Enter m => mkOrderRequest RQ_NEW (parseToken (eo_order_token m)) 0 (wrapU 32 (swap64 (le_value (eo_stock m))))
                 (Side_of_char (eo_buy_sell_indicator m)) (wrapS 32 (swap32 (eo_price m))) (swap32 (eo_shares m))
                 (swap32 (eo_time_in_force m) =? 0)
  | Cancel m => mkOrderRequest RQ_CANCEL (parseToken (co_order_token m)) 0 0 BUY 0 (swap32 (co_shares m)) false
  | Replace m => mkOrderRequest RQ_REPLACE (parseToken (ro_existing_order_token m)) (parseToken (ro_replacement_order_token m))
                   0 BUY (wrapS 32 (swap32 (ro_price m))) (swap32 (ro_shares m)) (swap32 (ro_time_in_force m) =? 0)
  end.

(** The part of a request its message carries. *)
Definition carried (req : OrderRequest) : OrderRequest :=
  match rq_type req with
  | RQ_NEW => mkOrderRequest RQ_NEW (rq_client_order_id req) 0 (rq_ticker_id req) (rq_side req) (rq_price req) (rq_qty req)
                (rq_ioc req)
  | RQ_CANCEL => mkOrderRequest RQ_CANCEL (rq_client_order_id req) 0 0 BUY 0 (rq_qty req) false
  | RQ_REPLACE => mkOrderRequest RQ_REPLACE (rq_client_order_id req) (rq_new_client_order_id req) 0 BUY (rq_price req)
                    (rq_qty req) (rq_ioc req)
  end.

Lemma parse_makeToken id : is_u64 id → parseToken (makeToken id) = id.
Proof using All.
  intros Hid. unfold parseToken, makeToken, toWire64. rewrite take_app_length' by (by rewrite le_bytes_length).
  rewrite le_value_bytes by (by apply swap64_range). by apply swap64_swap64.
Qed.

Lemma makeToken_token id : is_token (makeToken id).
Proof using Type.
  split; [unfold makeToken; by rewrite length_app, le_bytes_length, length_replicate|].
  apply Forall_app. split; [apply le_bytes_range|]. apply Forall_replicate. unfold is_byte. lia.
Qed.

Lemma swap32_read z : is_qty z → swap32 (toWire32 z) = z.
Proof using All. apply swap32_swap32. Qed.

Lemma price_read p : is_price p → 0 ≤ p → wrapS 32 (swap32 (toWire32 (wrapU 32 p))) = p.
Proof using All.
  unfold is_price. intros Hp Hp0. rewrite wrapU_small by lia. unfold toWire32. rewrite swap32_swap32 by lia.
  apply wrapS_small; lia.
Qed.

Lemma tif_read ioc : (swap32 (toWire32 (time_in_force ioc)) =? 0) = ioc.
Proof using All. rewrite swap32_read by (destruct ioc; unfold is_qty; simpl; lia). by destruct ioc. Qed.

Lemma ticker_read t : 0 ≤ t < 2 ^ 32 → wrapU 32 (swap64 (le_value (writeTicker t))) = t.
Proof using All.
  intros Ht. unfold writeTicker, toWire64. rewrite le_value_bytes by (apply swap64_range; lia).
  rewrite swap64_swap64 by lia. apply wrapU_small. lia.
Qed.

(** Reduce the fields of a message read back. *)
Ltac read_fields :=
  cbn [read_request eo_order_token eo_stock eo_buy_sell_indicator eo_price eo_shares eo_time_in_force co_order_token
    co_shares ro_existing_order_token ro_replacement_order_token ro_price ro_shares ro_time_in_force].

Lemma send_spec req :
  if sendable req then ∃ m, send req = Ok m ∧ (wf_outgoing req → read_request m = carried req) else send req = Halt.
Proof using All.
  unfold sendable, send, sendEnter, sendCancel, sendReplace, carried. destruct (rq_type req).
  - destruct (negb _); [|done]. destruct (0 <=? rq_price req) eqn:Hp; [|done]. bsplit. eexists. split; [done|].
    intros (Hid & _ & Ht & Hs & Hpr & Hq). read_fields.
    by rewrite parse_makeToken, ticker_read, Hs, price_read, swap32_read, tif_read.
  - eexists. split; [done|]. intros (Hid & _ & _ & _ & _ & Hq). read_fields. by rewrite parse_makeToken, swap32_read.
  - destruct (negb _); [|done]. destruct (0 <=? rq_price req) eqn:Hp; [|done]. bsplit. eexists. split; [done|].
    intros (Hid & Hid' & _ & _ & Hpr & Hq). read_fields. by rewrite !parse_makeToken, price_read, swap32_read, tif_read.
Qed.

(** The exchange reads back what was sent. *)
Lemma sent_read rs ms : Forall wf_outgoing rs → Forall2 (λ r m, send r = Ok m) rs ms → read_request <$> ms = carried <$> rs.
Proof using All.
  intros Hwf Hf. induction Hf as [|r m rs ms Hr Hf IH]; [done|].
  apply Forall_cons in Hwf as [Hr' Hwf]. rewrite !fmap_cons, (IH Hwf). f_equal.
  pose proof (send_spec r) as Hs. destruct (sendable r); [|congruence]. destruct Hs as (m' & Hm' & Hread).
  rewrite Hr in Hm'. injection Hm' as <-. by apply Hread.
Qed.

Context {Q : Type → Type} `{SPSCQueue Q} `{!SPSCQueueLaws Q}.

(** Draining the request queue. *)
Lemma send_loop_spec n : ∀ (g : OrderGateway Q), n = length (q_items (outgoing_requests_ g)) →
  if forallb sendable (q_items (outgoing_requests_ g)) then
    ∃ g' ms, send_loop n g = Ok g' ∧ q_items (outgoing_requests_ g') = [] ∧ sent_ g' = sent_ g ++ ms ∧
      Forall2 (λ r m, send r = Ok m) (q_items (outgoing_requests_ g)) ms ∧
      incoming_responses_ g' = incoming_responses_ g ∧ inbound_data_ g' = inbound_data_ g
  else send_loop n g = Halt.
Proof using All.
  induction n as [|n IH]; intros g Hn.
  { symmetry in Hn. apply nil_length_inv in Hn. rewrite Hn. exists g, []. rewrite app_nil_r. by repeat split. }
  cbn [send_loop]. destruct (q_pop _) as [[req q]|] eqn:Hpop.
  2:{ apply q_pop_None in Hpop. by rewrite Hpop in Hn. }
  apply q_pop_Some in Hpop. rewrite Hpop in Hn |- *. simpl in Hn. cbn [forallb].
  pose proof (send_spec req) as Hs. destruct (sendable req); cbn [andb]; [|by rewrite Hs].
  destruct Hs as (m & Hm & _). rewrite Hm. cbn [mbind outcome_bind].
  set (g1 := mkGateway q _ _ _ _ _). specialize (IH g1 ltac:(simpl; lia)).
  cbn [g1 outgoing_requests_] in IH. destruct (forallb sendable (q_items q)); [|done].
  destruct IH as (g' & ms & Hrun & He & Hsent & Hf & Hi & Hd). exists g', (m :: ms). split_and!; try done; [|by constructor].
  rewrite Hsent. cbn [g1 sent_]. by rewrite <- app_assoc.
Qed.
End Outgoing.

(** ** The packed layout of the exchange

    Sizes and offsets as the simulator in [tools/compete.py] writes them. *)
Definition packed_ouch : OuchFormat := {|
  MT_ENTER_ORDER := 79; MT_CANCEL_ORDER := 88; MT_REPLACE_ORDER := 85;
  MT_ORDER_ACCEPTED := 65; MT_ORDER_EXECUTED := 69; MT_ORDER_CANCELED := 67; MT_CANCEL_REJECTED := 74;
  sizeof_OrderAccepted := 61; sizeof_OrderExecuted := 39; sizeof_OrderCanceled := 28;
  sizeof_OrderReplaced := 61; sizeof_CancelRejected := 23;
  acc_order_token := field 9 14; acc_order_reference_number := uint 49 8;
  acc_buy_sell_indicator := uint 23 1; acc_price := uint 36 4; acc_shares := uint 24 4;
  exe_order_token := field 9 14; exe_match_number := uint 31 8;
  exe_executed_shares := uint 23 4; exe_execution_price := uint 27 4;
  can_order_token := field 9 14; can_decrement_shares := uint 23 4;
  rpl_replacement_order_token := field 9 14; rpl_order_reference_number := uint 49 8;
  rpl_buy_sell_indicator := uint 23 1; rpl_price := uint 36 4; rpl_shares := uint 24 4;
  rej_order_token := field 9 14
|}.

Lemma field_token o bs : Forall is_byte bs → (o + 14 ≤ length bs)%nat → is_token (field o 14 bs).
Proof.
  intros Hb Hl. split; [unfold field; rewrite length_take, length_drop; lia|]. by apply Forall_take, Forall_drop.
Qed.

Lemma packed_ouch_laws : @OuchFormatLaws packed_ouch.
Proof.
  split; simpl; try (intros bs Hb Hl).
  - apply (bool_decide_unpack _). by vm_compute.
  - repeat constructor.
  - split_and!; first [apply field_token; [done|lia] | apply (uint_range _ 8); [done|lia] | apply (uint_range _ 4); [done|lia]].
  - split_and!; first [apply field_token; [done|lia] | apply (uint_range _ 8); [done|lia] | apply (uint_range _ 4); [done|lia]].
  - split_and!; first [apply field_token; [done|lia] | apply (uint_range _ 4); [done|lia]].
  - split_and!; first [apply field_token; [done|lia] | apply (uint_range _ 8); [done|lia] | apply (uint_range _ 4); [done|lia]].
  - apply field_token; [done|lia].
Qed.

#[local] Existing Instances bswap_order packed_ouch.

(** An execution of 25 shares of order [id], as bytes, and a cancel reject. *)
Definition ex_executed (id : OrderId) : list Z :=
  69 :: replicate 8 0 ++ makeToken id ++ [0; 0; 0; 25] ++ [0; 0; 3; 233] ++ replicate 8 7.
Definition ex_cancel_reject (id : OrderId) : list Z := 74 :: replicate 8 0 ++ makeToken id.
Definition ex_gateway (reqs : list OrderRequest) : OrderGateway BQueue :=
  mkGateway (mkBQueue 8 reqs) (mkBQueue 8 []) [] [] true true.

(** ** Properties *)

(** C24: The exchange's byte stream is decoded whole, in order and independently
    of how the reads cut it: if the received pieces add up to complete messages
    followed by the front of one more, the responses pushed to the engine are
    exactly the decoded messages in order, and exactly the unfinished front
    stays in the buffer. *)
Theorem stream_decoding `{ByteOrder} `{OuchFormat} {Q : Type → Type} `{SPSCQueue Q} (g : OrderGateway Q) chunks msgs tail :
  inbound_data_ g = [] → Forall complete msgs → frames tail = ([], tail) → concat chunks = concat msgs ++ tail →
  let g' := foldl (λ g c, sendAndRecv c g) g chunks in
  incoming_responses_ g' = push_all (decode <$> msgs) (incoming_responses_ g) ∧ inbound_data_ g' = tail.
Proof.
  intros Hin Hm Ht Hc g'. destruct (recv_chunks chunks g) as [Hq Hd]; [by rewrite Hin, frames_equation_1|].
  fold g' in Hq, Hd. rewrite Hin, Hc in Hq, Hd. simpl app in Hq, Hd. rewrite frames_complete, Ht in Hq, Hd by done.
  simpl in Hq, Hd. by rewrite app_nil_r in Hq.
Qed.

Lemma stream_decoding_witness :
  let g := foldl (λ g c, sendAndRecv c g) (ex_gateway [])
             [take 7 (ex_executed 101); drop 7 (ex_executed 101) ++ ex_cancel_reject 102; [65; 1; 2]] in
  rs_client_order_id <$> q_items (incoming_responses_ g) = [101; 102] ∧
  rs_executed_qty <$> q_items (incoming_responses_ g) = [25; 0] ∧ inbound_data_ g = [65; 1; 2].
Proof.
  destruct (stream_decoding (ex_gateway [])
    [take 7 (ex_executed 101); drop 7 (ex_executed 101) ++ ex_cancel_reject 102; [65; 1; 2]]
    [ex_executed 101; ex_cancel_reject 102] [65; 1; 2]) as [Hq Hd].
  - reflexivity.
  - constructor; [|constructor; [|constructor]]; eexists _, _; split; reflexivity.
  - rewrite frames_cons. reflexivity.
  - reflexivity.
  - cbv zeta. rewrite Hq, Hd. split_and!; vm_compute; reflexivity.
Defined.

Lemma push_all_items {Q : Type → Type} `{SPSCQueueLaws Q} rs (q : Q OrderResponse) :
  ∃ kept, q_items (push_all rs q) = q_items q ++ kept ∧ kept `sublist_of` rs.
Proof.
  revert q. induction rs as [|r rs IH]; intros q; [exists []; by rewrite app_nil_r|].
  cbn [push_all foldl]. destruct (q_push r q) as [b q'] eqn:Hp. cbn [snd]. destruct (IH q') as (kept & Hk & Hs).
  unfold push_all in Hk. rewrite Hk. destruct b.
  - apply q_push_true in Hp. exists (r :: kept). rewrite Hp, <- app_assoc. split; [done|by constructor].
  - apply q_push_false in Hp. exists kept. rewrite Hp. split; [done|by constructor].
Qed.

Lemma frames_not_rejected `{ByteOrder} `{OuchFormat} b : Forall (λ rs, rs_status rs ≠ REJECTED) (frames b).1.
Proof.
  remember (length b) as n eqn:Hn. revert b Hn. induction n as [n IH] using lt_wf_ind. intros [|type rest] Hn.
  { rewrite frames_equation_1. constructor. }
  rewrite frames_cons. simpl in Hn. destruct (messageSize type) as [|k] eqn:Hsz; [by apply (IH (length rest)); [lia|]|].
  destruct (decide _); simpl; constructor.
  - unfold messageSize in Hsz. unfold decodeResponse. by repeat (destruct (_ =? _) in Hsz |- *; [done|]).
  - apply (IH (length (drop k rest))); [rewrite length_drop; lia|done].
Qed.

(** C27: Whatever bytes arrive, in whatever pieces, the responses queued for the
    engine are well-formed (ids, prices and quantities in the range of their
    types, as the engine requires of its queue); and none of them has status
    REJECTED, although the order manager and the risk manager handle that status:
    an order the exchange rejects is never reported as such. *)
Theorem gateway_feeds_engine `{ByteOrder} `{OuchFormat} `{!ByteOrderLaws} `{!OuchFormatLaws} {Q : Type → Type}
    `{SPSCQueueLaws Q} (g : OrderGateway Q) chunks :
  inbound_data_ g = [] → Forall (Forall is_byte) chunks →
  let g' := foldl (λ g c, sendAndRecv c g) g chunks in
  ∃ new, q_items (incoming_responses_ g') = q_items (incoming_responses_ g) ++ new ∧
    Forall (λ rs, wf_response rs ∧ 0 ≤ rs_client_order_id rs ∧ rs_status rs ≠ REJECTED) new.
Proof.
  intros Hin Hb g'. destruct (recv_chunks chunks g) as [Hq _]; [by rewrite Hin, frames_equation_1|].
  fold g' in Hq. rewrite Hin in Hq. simpl app in Hq. rewrite Hq.
  destruct (push_all_items (frames (concat chunks)).1 (incoming_responses_ g)) as (kept & Hk & Hs).
  assert (Forall is_byte (concat chunks)) as Hbs by (clear -Hb; induction Hb; [constructor|by apply Forall_app]).
  exists kept. split; [done|]. apply (submseteq_Forall _ _ (frames (concat chunks)).1); [by apply sublist_submseteq|].
  apply Forall_forall. intros rs Hrs. pose proof (frames_wf _ Hbs) as Hwf. rewrite Forall_forall in Hwf.
  pose proof (frames_not_rejected (concat chunks)) as Hnr. rewrite Forall_forall in Hnr.
  destruct (Hwf rs Hrs). split_and!; [done|done|by apply Hnr].
Qed.

Lemma gateway_feeds_engine_witness :
  ∃ new, q_items (incoming_responses_ (foldl (λ g c, sendAndRecv c g) (ex_gateway []) [ex_executed 101; [0; 74]])) = new ∧
    rs_status <$> new = [EXECUTED] ∧
    Forall (λ rs, wf_response rs ∧ 0 ≤ rs_client_order_id rs ∧ rs_status rs ≠ REJECTED) new.
Proof.
  destruct (gateway_feeds_engine (H1 := bswap_order_laws) (H2 := packed_ouch_laws)
    (ex_gateway []) [ex_executed 101; [0; 74]]) as (new & Hnew & Hf).
  - reflexivity.
  - repeat constructor; vm_compute; congruence.
  - exists new. split; [exact Hnew|]. split; [|exact Hf]. simpl app in Hnew. rewrite <- Hnew. vm_compute. reflexivity.
Defined.

(** C26: One round of the gateway's loop empties the request queue: when every
    queued request satisfies the senders' assertions, each becomes one message,
    in order, from which the exchange reads back every field the message
    carries; otherwise the round ends the process. *)
Theorem requests_reach_wire `{ByteOrder} `{OuchFormat} `{!ByteOrderLaws} {Q : Type → Type} `{SPSCQueueLaws Q}
    (g : OrderGateway Q) chunk :
  Forall wf_outgoing (q_items (outgoing_requests_ g)) →
  if forallb sendable (q_items (outgoing_requests_ g)) then
    ∃ g' ms, run_round chunk g = Ok g' ∧ q_items (outgoing_requests_ g') = [] ∧ sent_ g' = sent_ g ++ ms ∧
      read_request <$> ms = carried <$> q_items (outgoing_requests_ g)
  else run_round chunk g = Halt.
Proof.
  intros Hwf. unfold run_round. set (g1 := sendAndRecv chunk g).
  assert (outgoing_requests_ g1 = outgoing_requests_ g ∧ sent_ g1 = sent_ g) as [Ho Hse] by apply sendAndRecv_frame.
  pose proof (send_loop_spec (length (q_items (outgoing_requests_ g1))) g1 eq_refl) as Hl. rewrite Ho in Hl |- *.
  destruct (forallb sendable _); [|done]. destruct Hl as (g' & ms & Hrun & He & Hs & Hf & _). exists g', ms.
  split_and!; [done|done|congruence|by apply sent_read].
Qed.

Definition ex_requests : list OrderRequest :=
  [mkOrderRequest RQ_NEW 101 0 1 BUY 1234567 25 false; mkOrderRequest RQ_CANCEL 101 0 1 BUY 1234567 10 false;
   mkOrderRequest RQ_REPLACE 101 102 1 BUY 1234568 15 true].

Lemma requests_reach_wire_witness :
  ∃ g' ms, run_round [] (ex_gateway ex_requests) = Ok g' ∧ sent_ g' = ms ∧
    rq_client_order_id <$> (read_request <$> ms) = [101; 101; 101] ∧ rq_qty <$> (read_request <$> ms) = [25; 10; 15].
Proof.
  destruct (requests_reach_wire (H1 := bswap_order_laws) (ex_gateway ex_requests) [])
    as (g' & ms & Hrun & _ & Hs & Hr).
  - repeat constructor; vm_compute; congruence.
  - exists g', ms. split; [exact Hrun|]. split; [exact Hs|]. rewrite Hr. split; reflexivity.
Defined.

(** C25: From the strategy to the wire: an order the order manager accepts
    never trips the gateway's assertions, and the exchange reads from its
    message exactly the ticker, side, price, quantity and time in force the
    strategy asked for, under the fresh id the order is recorded with. *)
Theorem accepted_order_on_wire `{ByteOrder} `{OuchFormat} `{!ByteOrderLaws} {Q : Type → Type} `{SPSCQueueLaws Q} {U}
    MaxT MaxP MaxO request pos (c c' : Ctx Q U) :
  Z.of_nat MaxP < 2 ^ 30 → ctx_ok MaxT MaxP MaxO c → spare_id c → wf_request request → is_s64 (net_qty pos) →
  0 ≤ rq_ticker_id request < 2 ^ 32 → Side_of_char (char_of_Side (rq_side request)) = rq_side request →
  sendNewOrder MaxP MaxO request pos c = Ok (true, c') →
  ∃ id o i msg, sent c' = sent c ++ [with_id request id] ∧ find id (c_om c') = Some (i, o) ∧
    send (with_id request id) = Ok msg ∧ read_request msg = with_id request id.
Proof.
  intros HM Hok Hsp Hrq Hpos Ht Hside Hrun.
  pose proof (sendNewOrder_spec MaxT MaxP MaxO HM request pos c Hok Hsp Hrq Hpos) as Hs. rewrite Hrun in Hs.
  destruct Hs as (_ & _ & a & id & r & r' & Ha & Hid & _ & _ & Hadm & Hsent & _ & o & i & Hfind & _).
  destruct Hok as (r0 & ? & a0 & ? & ? & ? & Ha0 & ? & ? & Hom). rewrite Ha in Ha0. injection Ha0 as <-.
  assert (is_u64 id) as Hu by (rewrite Hid; apply next_id_u64; apply (ok_slot _ _ _ _ _ _ Hom)).
  destruct Hadm as (_ & Hty & _ & Htk & Hp & _). cbn [with_id rq_type rq_ticker_id rq_price] in Hty, Htk, Hp.
  pose proof (send_spec (with_id request id)) as Hsend.
  assert (sendable (with_id request id) = true) as Hsb.
  { unfold sendable. cbn [with_id rq_type rq_ticker_id rq_price]. rewrite Hty.
    rewrite (proj2 (Z.eqb_neq _ _) Htk), (proj2 (Z.leb_le _ _) Hp). done. }
  rewrite Hsb in Hsend. destruct Hsend as (msg & Hmsg & Hread). exists id, o, i, msg. split_and!; try done.
  rewrite Hread.
  - unfold carried. cbn [with_id rq_type]. rewrite Hty. unfold with_id. by rewrite Hty.
  - destruct Hrq. unfold wf_outgoing, is_u64 in *. cbn [with_id rq_client_order_id rq_new_client_order_id rq_ticker_id]. split_and!; try done; lia.
Qed.

Lemma accepted_order_on_wire_witness :
  ∃ c' id msg, sendNewOrder 64 256 (ex_buy 10) default_Position ex_working = Ok (true, c') ∧
    send (with_id (ex_buy 10) id) = Ok msg ∧ rq_qty (read_request msg) = 10.
Proof.
  destruct (sendNewOrder 64 256 (ex_buy 10) default_Position ex_working) as [[b c']| |] eqn:Hrun;
    [|vm_compute in Hrun; discriminate..].
  assert (b = true) as -> by (vm_compute in Hrun; injection Hrun as <- _; reflexivity).
  destruct (accepted_order_on_wire (H1 := bswap_order_laws) 16 64 256 (ex_buy 10) default_Position ex_working c')
    as (id & o & i & msg & _ & _ & Hsend & Hread).
  - reflexivity.
  - exact ex_working_ok.
  - intros a Ha. vm_compute in Ha. injection Ha as <-. vm_compute. reflexivity.
  - by apply ex_buy_wf.
  - vm_compute. split; congruence.
  - vm_compute. split; congruence.
  - reflexivity.
  - exact Hrun.
  - exists c', id, msg. split; [reflexivity|]. split; [exact Hsend|]. rewrite Hread. reflexivity.
Defined.

(** A replace with a negative price brings the process down: the order
    manager's [sendReplace] does not check the price, queues the request and
    reports success, and the gateway's assertion then fails. *)
Theorem replace_negative_price_halts :
  match OrderManager.sendReplace 64 (ex_id 1) (-5) 10 ex_working with
  | Ok (true, c') => run_round [] (mkGateway (default (mkBQueue 8 []) (c_outgoing c')) (mkBQueue 8 []) [] [] true true) = Halt
  | _ => False
  end.
Proof. vm_compute. reflexivity. Qed.

(** Starting and stopping, in any order and with any result of the connection:
    never a second thread, and the loop runs exactly while a thread exists. *)
Inductive GatewayCall : Type :=
| CallStart (connected : bool)
| CallStop.

Fixpoint run_gateway_calls {Q} (calls : list GatewayCall) (g : OrderGateway Q) : outcome (OrderGateway Q) :=
  match calls with
  | [] => Ok g
  | CallStart connected :: calls' => g ← start connected g; run_gateway_calls calls' g
  | CallStop :: calls' => run_gateway_calls calls' (stop g)
  end.

Lemma start_stop_safe {Q} calls (g : OrderGateway Q) :
  run_ g = thread_ g → ∃ g', run_gateway_calls calls g = Ok g' ∧ run_ g' = thread_ g'.
Proof.
  revert g. induction calls as [|[[]|] calls IH]; intros g Hg; simpl; [by exists g| | |by apply IH].
  - unfold start. destruct (run_ g) eqn:Hr; simpl; [by apply IH; rewrite Hr|]. rewrite <- Hg. simpl. by apply IH.
  - unfold start. destruct (run_ g) eqn:Hr; simpl; [by apply IH; rewrite Hr|]. by apply IH.
Qed.
