(* ===== verification/ItchDecoder.v ===== *)
(** * [ItchDecoder] of [src/src/market_data/itch_decoder.{h,cpp}]

    Wire frames become [MarketUpdate]s.  Executions, cancels, deletes and
    replaces do not carry side and price, so the decoder keeps, per ticker, a
    [std::vector] of order states indexed by reference number.  The message
    structs and their accessors belong to QuantLink's [itch_messages.h] and are
    an interface here.  References into a vector die when it reallocates, so the
    vectors carry their capacity. *)

From S2P Require Import Prelude Types Bytes.

(** ** [quantlink::itch] *)
Class ItchFormat : Type := {
  MT_SYSTEM_EVENT : Z; MT_ADD_ORDER : Z; MT_ADD_ORDER_MPID : Z; MT_ORDER_EXECUTED : Z; MT_ORDER_CANCEL : Z;
  MT_ORDER_DELETE : Z; MT_ORDER_REPLACE : Z;
  sizeof_SystemEvent : nat; sizeof_AddOrder : nat; sizeof_AddOrderMPID : nat; sizeof_OrderExecuted : nat;
  sizeof_OrderCancel : nat; sizeof_OrderDelete : nat; sizeof_OrderReplace : nat;
  (** [stock_locate] as stored, the other fields through their getters *)
  ao_stock_locate : list Z → Z; ao_buy_sell : list Z → Z; ao_price : list Z → Z; ao_get_shares : list Z → Z;
  ao_get_ref : list Z → Z;
  am_stock_locate : list Z → Z; am_buy_sell : list Z → Z; am_price : list Z → Z; am_get_shares : list Z → Z;
  am_get_ref : list Z → Z;
  oe_stock_locate : list Z → Z; oe_get_exec_shares : list Z → Z; oe_get_ref : list Z → Z; oe_get_match : list Z → Z;
  oc_stock_locate : list Z → Z; oc_get_canceled : list Z → Z; oc_get_ref : list Z → Z;
  od_stock_locate : list Z → Z; od_get_ref_num : list Z → Z;
  or_stock_locate : list Z → Z; or_price : list Z → Z; or_get_shares : list Z → Z; or_get_old_ref : list Z → Z;
  or_get_new_ref : list Z → Z
}.

(** Every type has its own character and a non-empty struct, and the fields of a
    struct's bytes are in the range of their types. *)
Class ItchFormatLaws `{ItchFormat} : Prop := {
  itch_types_NoDup : NoDup [MT_SYSTEM_EVENT; MT_ADD_ORDER; MT_ADD_ORDER_MPID; MT_ORDER_EXECUTED; MT_ORDER_CANCEL;
                            MT_ORDER_DELETE; MT_ORDER_REPLACE];
  itch_sizes : Forall (λ n, 0 < n)%nat [sizeof_SystemEvent; sizeof_AddOrder; sizeof_AddOrderMPID; sizeof_OrderExecuted;
                                        sizeof_OrderCancel; sizeof_OrderDelete; sizeof_OrderReplace];
  ao_fields : ∀ bs, Forall is_byte bs → length bs = sizeof_AddOrder → is_qty (ao_get_shares bs) ∧ is_u64 (ao_get_ref bs);
  am_fields : ∀ bs, Forall is_byte bs → length bs = sizeof_AddOrderMPID → is_qty (am_get_shares bs) ∧ is_u64 (am_get_ref bs);
  oe_fields : ∀ bs, Forall is_byte bs → length bs = sizeof_OrderExecuted → is_qty (oe_get_exec_shares bs) ∧ is_u64 (oe_get_ref bs);
  oc_fields : ∀ bs, Forall is_byte bs → length bs = sizeof_OrderCancel → is_qty (oc_get_canceled bs) ∧ is_u64 (oc_get_ref bs);
  od_fields : ∀ bs, Forall is_byte bs → length bs = sizeof_OrderDelete → is_u64 (od_get_ref_num bs);
  or_fields : ∀ bs, Forall is_byte bs → length bs = sizeof_OrderReplace →
    is_qty (or_get_shares bs) ∧ is_u64 (or_get_old_ref bs) ∧ is_u64 (or_get_new_ref bs)
}.

(** ** State *)
Record OrderState : Type := mkOrderState {
  os_side : Side;
  os_price : Price;
  os_qty : Quantity;
  os_ticker_id : TickerId
}.

(** What [resize] fills a vector with. *)
Definition OrderState_zero : OrderState := mkOrderState (Side_of_char 0) 0 0 0.
Definition set_os_qty (q : Quantity) (s : OrderState) : OrderState :=
  mkOrderState (os_side s) (os_price s) q (os_ticker_id s).

(** [std::vector<OrderState>] with its capacity. *)
Record OrderVec : Type := mkVec { ov_items : list OrderState; ov_cap : nat }.
Definition OrderVec_new : OrderVec := mkVec [] 0.
Definition vec_size (v : OrderVec) : Z := Z.of_nat (length (ov_items v)).

Record ItchDecoder : Type := mkDecoder {
  order_ref_map_ : gmap TickerId OrderVec;
  tracked_order_count_ : Z;
  last_decoded_size_ : nat;
  need_more_data_ : bool
}.
Definition ItchDecoder_new : ItchDecoder := mkDecoder ∅ 0 0 false.
Definition set_map (m : gmap TickerId OrderVec) (d : ItchDecoder) : ItchDecoder :=
  mkDecoder m (tracked_order_count_ d) (last_decoded_size_ d) (need_more_data_ d).
Definition add_tracked (k : Z) (d : ItchDecoder) : ItchDecoder :=
  mkDecoder (order_ref_map_ d) (wrapU 64 (tracked_order_count_ d + k)) (last_decoded_size_ d) (need_more_data_ d).
Definition set_flags (size : nat) (more : bool) (d : ItchDecoder) : ItchDecoder :=
  mkDecoder (order_ref_map_ d) (tracked_order_count_ d) size more.

Section Decoder.
Context `{ByteOrder} `{ItchFormat}.

(** The largest size a vector can be given: beyond it [resize] throws, which
    ends the process because every decoding function is [noexcept]. *)
Context (max_size : Z).

(** ** Vectors *)

(** [v.resize(n)]; the new elements are zero.  Past the capacity the storage is
    reallocated, to at least twice the old size. *)
Definition vec_resize (n : Z) (v : OrderVec) : outcome OrderVec :=
  if max_size <? n then Halt
  else
    let len := length (ov_items v) in
    let k := Z.to_nat n in
    Ok (mkVec (if bool_decide (k ≤ len)%nat then take k (ov_items v)
               else ov_items v ++ replicate (k - len) OrderState_zero)
              (if bool_decide (k ≤ ov_cap v)%nat then ov_cap v else len + len `max` (k - len))%nat).

(** A C++ reference to an element: the storage it points into and the index.
    The storage of a vector moves exactly when its capacity changes, and the
    capacity never goes down, so it names the storage; a reference into storage
    that has moved dangles. *)
Record ElemRef : Type := mkRef { er_storage : nat; er_index : Z }.
Definition vec_ref (i : Z) (v : OrderVec) : ElemRef := mkRef (ov_cap v) i.
Definition ref_read (r : ElemRef) (v : OrderVec) : outcome OrderState :=
  if bool_decide (er_storage r = ov_cap v)
  then match ov_items v !! Z.to_nat (er_index r) with Some s => Ok s | None => Undef end
  else Undef.

(** [v[i] = s] *)
Definition vec_write (i : Z) (s : OrderState) (v : OrderVec) : outcome OrderVec :=
  if (0 <=? i) && (i <? vec_size v) then Ok (mkVec (<[Z.to_nat i := s]> (ov_items v)) (ov_cap v)) else Undef.

(** [if (v.size() <= i) v.resize(i + 1)], at 64 bits. *)
Definition vec_grow (i : Z) (v : OrderVec) : outcome OrderVec :=
  if vec_size v <=? i then vec_resize (wrapU 64 (i + 1)) v else Ok v.

(** ** Messages *)

Definition stockLocate (locate : Z) : TickerId := swap16 locate.

Definition decodeSystemEvent (msg : list Z) (out : MarketUpdate) (d : ItchDecoder)
    : outcome (bool * MarketUpdate * ItchDecoder) := Ok (false, out, d).

(** The state of a new order: [order_ref_map_[ticker_id]], grown to hold it. *)
Definition trackOrder (out : MarketUpdate) (d : ItchDecoder) : outcome (bool * MarketUpdate * ItchDecoder) :=
  let slot := default OrderVec_new (order_ref_map_ d !! mu_ticker_id out) in
  slot ← vec_grow (mu_order_ref out) slot;
  slot ← vec_write (mu_order_ref out) (mkOrderState (mu_side out) (mu_price out) (mu_qty out) (mu_ticker_id out)) slot;
  Ok (true, out, add_tracked 1 (set_map (<[mu_ticker_id out := slot]> (order_ref_map_ d)) d)).

Definition decodeAddOrder (msg : list Z) (out : MarketUpdate) (d : ItchDecoder)
    : outcome (bool * MarketUpdate * ItchDecoder) :=
  trackOrder (mkMarketUpdate (mu_seq_num out) (stockLocate (ao_stock_locate msg)) ADD
                (if ao_buy_sell msg =? 66 then BUY else SELL) (wrapS 32 (swap32 (ao_price msg))) (ao_get_shares msg)
                (ao_get_ref msg) 0) d.

Definition decodeAddOrderMPID (msg : list Z) (out : MarketUpdate) (d : ItchDecoder)
    : outcome (bool * MarketUpdate * ItchDecoder) :=
  trackOrder (mkMarketUpdate (mu_seq_num out) (stockLocate (am_stock_locate msg)) ADD_MPID
                (if am_buy_sell msg =? 66 then BUY else SELL) (wrapS 32 (swap32 (am_price msg))) (am_get_shares msg)
                (am_get_ref msg) 0) d.

(** [find], the bounds test and [state.qty == 0]: the tracked state of a live
    order and the vector it is in. *)
Definition findState (ticker_id : TickerId) (ref : OrderId) (d : ItchDecoder) : option (OrderVec * OrderState) :=
  v ← order_ref_map_ d !! ticker_id;
  if vec_size v <=? ref then None
  else
    s ← ov_items v !! Z.to_nat ref;
    if os_qty s =? 0 then None else Some (v, s).

(** [state = s] for the order at [ref]. *)
Definition putState (ticker_id : TickerId) (ref : OrderId) (v : OrderVec) (s : OrderState) (d : ItchDecoder) : ItchDecoder :=
  set_map (<[ticker_id := mkVec (<[Z.to_nat ref := s]> (ov_items v)) (ov_cap v)]> (order_ref_map_ d)) d.

(** The common end of an execution and a cancel. *)
Definition reduceState (locate : TickerId) (out : MarketUpdate) (d : ItchDecoder)
    : outcome (bool * MarketUpdate * ItchDecoder) :=
  match findState locate (mu_order_ref out) d with
  | None => Ok (false, out, d)
  | Some (v, state) =>
      let out := mkMarketUpdate (mu_seq_num out) (os_ticker_id state) (mu_type out) (os_side state) (os_price state)
                   (mu_qty out) (mu_order_ref out) (mu_new_ref out) in
      if os_qty state <=? mu_qty out
      then Ok (true, out, add_tracked (-1) (putState locate (mu_order_ref out) v (set_os_qty 0 state) d))
      else Ok (true, out, putState locate (mu_order_ref out) v
                            (set_os_qty (wrapU 32 (os_qty state - mu_qty out)) state) d)
  end.

Definition decodeOrderExecuted (msg : list Z) (out : MarketUpdate) (d : ItchDecoder)
    : outcome (bool * MarketUpdate * ItchDecoder) :=
  reduceState (stockLocate (oe_stock_locate msg))
    (mkMarketUpdate (mu_seq_num out) (mu_ticker_id out) EXECUTE (mu_side out) (mu_price out) (oe_get_exec_shares msg)
       (oe_get_ref msg) (oe_get_match msg)) d.

Definition decodeOrderCancel (msg : list Z) (out : MarketUpdate) (d : ItchDecoder)
    : outcome (bool * MarketUpdate * ItchDecoder) :=
  reduceState (stockLocate (oc_stock_locate msg))
    (mkMarketUpdate (mu_seq_num out) (mu_ticker_id out) CANCEL (mu_side out) (mu_price out) (oc_get_canceled msg)
       (oc_get_ref msg) 0) d.

(** A delete, or one of the snapshot controls carried by deletes. *)
Definition decodeOrderDelete (msg : list Z) (out : MarketUpdate) (d : ItchDecoder)
    : outcome (bool * MarketUpdate * ItchDecoder) :=
  let stock_locate := swap16 (od_stock_locate msg) in
  let ref := od_get_ref_num msg in
  let control ty tid := Ok (true, mkMarketUpdate (mu_seq_num out) tid ty (mu_side out) (mu_price out) (mu_qty out) ref 0, d) in
  if stock_locate =? CTL_SNAPSHOT_START then control SNAPSHOT_START TickerId_INVALID
  else if stock_locate =? CTL_SNAPSHOT_CLEAR then control SNAPSHOT_CLEAR (wrapU 32 ref)
  else if stock_locate =? CTL_SNAPSHOT_END then control SNAPSHOT_END TickerId_INVALID
  else
    let out := mkMarketUpdate (mu_seq_num out) (mu_ticker_id out) DELETE (mu_side out) (mu_price out) 0 ref 0 in
    let locate := stockLocate (od_stock_locate msg) in
    match findState locate ref d with
    | None => Ok (false, out, d)
    | Some (v, state) =>
        Ok (true, mkMarketUpdate (mu_seq_num out) (os_ticker_id state) DELETE (os_side state) (os_price state) 0 ref 0,
            add_tracked (-1) (putState locate ref v (set_os_qty 0 state) d))
    end.

(** [state] is a reference into the vector, taken before the vector may grow. *)
Definition decodeOrderReplace (msg : list Z) (out : MarketUpdate) (d : ItchDecoder)
    : outcome (bool * MarketUpdate * ItchDecoder) :=
  let ref := or_get_old_ref msg in
  let new_ref := or_get_new_ref msg in
  let price := wrapS 32 (swap32 (or_price msg)) in
  let qty := or_get_shares msg in
  let locate := stockLocate (or_stock_locate msg) in
  match findState locate ref d with
  | None => Ok (false, mkMarketUpdate (mu_seq_num out) (mu_ticker_id out) REPLACE (mu_side out) price qty ref new_ref, d)
  | Some (v, state) =>
      let out := mkMarketUpdate (mu_seq_num out) (os_ticker_id state) REPLACE (os_side state) price qty ref new_ref in
      let state_ref := vec_ref ref v in
      slot ← vec_grow new_ref v;
      slot ← vec_write new_ref (mkOrderState (os_side state) price qty (os_ticker_id state)) slot;
      old ← ref_read state_ref slot;
      Ok (true, out, add_tracked 1 (putState locate ref slot (set_os_qty 0 old) d))
  end.

(** ** Frames *)

Definition payload_size (msg_type : Z) : nat :=
  if msg_type =? MT_SYSTEM_EVENT then sizeof_SystemEvent
  else if msg_type =? MT_ADD_ORDER then sizeof_AddOrder
  else if msg_type =? MT_ADD_ORDER_MPID then sizeof_AddOrderMPID
  else if msg_type =? MT_ORDER_EXECUTED then sizeof_OrderExecuted
  else if msg_type =? MT_ORDER_CANCEL then sizeof_OrderCancel
  else if msg_type =? MT_ORDER_DELETE then sizeof_OrderDelete
  else if msg_type =? MT_ORDER_REPLACE then sizeof_OrderReplace
  else 0.

Definition known_type (msg_type : Z) : bool :=
  existsb (Z.eqb msg_type) [MT_SYSTEM_EVENT; MT_ADD_ORDER; MT_ADD_ORDER_MPID; MT_ORDER_EXECUTED; MT_ORDER_CANCEL;
                            MT_ORDER_DELETE; MT_ORDER_REPLACE].

Definition decodePayload (msg_type : Z) (msg : list Z) (out : MarketUpdate) (d : ItchDecoder)
    : outcome (bool * MarketUpdate * ItchDecoder) :=
  if msg_type =? MT_SYSTEM_EVENT then decodeSystemEvent msg out d
  else if msg_type =? MT_ADD_ORDER then decodeAddOrder msg out d
  else if msg_type =? MT_ADD_ORDER_MPID then decodeAddOrderMPID msg out d
  else if msg_type =? MT_ORDER_EXECUTED then decodeOrderExecuted msg out d
  else if msg_type =? MT_ORDER_CANCEL then decodeOrderCancel msg out d
  else if msg_type =? MT_ORDER_DELETE then decodeOrderDelete msg out d
  else if msg_type =? MT_ORDER_REPLACE then decodeOrderReplace msg out d
  else Ok (false, out, d).

Definition set_seq (seq : SeqNum) (out : MarketUpdate) : MarketUpdate :=
  mkMarketUpdate seq (mu_ticker_id out) (mu_type out) (mu_side out) (mu_price out) (mu_qty out) (mu_order_ref out)
    (mu_new_ref out).

(** A sequence number of [sizeof(SeqNum)] = 8 bytes, then the payload, whose
    first byte is its type. *)
Definition decode (wire : list Z) (out : MarketUpdate) (d : ItchDecoder) : outcome (bool * MarketUpdate * ItchDecoder) :=
  let d := set_flags 0 false d in
  match wire !! 8%nat with
  | None => Ok (false, out, set_flags 0 true d)
  | Some msg_type =>
      if negb (known_type msg_type) then Ok (false, out, d)
      else
        let size := payload_size msg_type in
        if bool_decide (length wire < 8 + size)%nat then Ok (false, out, set_flags 0 true d)
        else decodePayload msg_type (take size (drop 8 wire)) (set_seq (swap64 (le_value (take 8 wire))) out)
               (set_flags size false d)
  end.

(** The same payloads without the sequence number; [need_more_data_] is not
    touched. *)
Definition decodeSnapshot (wire : list Z) (out : MarketUpdate) (d : ItchDecoder) : outcome (bool * MarketUpdate * ItchDecoder) :=
  let d := set_flags 0 (need_more_data_ d) d in
  match wire with
  | [] => Ok (false, out, d)
  | msg_type :: _ =>
      let out := set_seq 0 out in
      if negb (known_type msg_type) then Ok (false, out, d)
      else
        let size := payload_size msg_type in
        if bool_decide (length wire < size)%nat then Ok (false, out, d)
        else decodePayload msg_type (take size wire) out (set_flags size (need_more_data_ d) d)
  end.

Definition reset (d : ItchDecoder) : ItchDecoder := mkDecoder ∅ 0 (last_decoded_size_ d) (need_more_data_ d).
End Decoder.
