(* ===== verification/DecoderProperties.v ===== *)
(** * Properties of the ITCH decoder

    The decoder's vectors track, per ticker, exactly the orders that rest in
    the book the updates build; frames are recognised independently of the bytes
    behind them; and the one message that leaves a dangling reference. *)

From S2P Require Import Prelude Types Bytes QuantLink MarketOrderBook BookRep BookRefine ItchDecoder.

(** ** Live orders of a decoder *)

(** A state with quantity zero is no order. *)
Definition nonzero (s : OrderState) : option OrderState := if os_qty s =? 0 then None else Some s.

Definition vlive (v : OrderVec) (ref : OrderId) : option OrderState := ov_items v !! Z.to_nat ref ≫= nonzero.

Definition live (tid : TickerId) (ref : OrderId) (d : ItchDecoder) : option OrderState :=
  order_ref_map_ d !! tid ≫= λ v, vlive v ref.

Lemma findState_live tid ref d : 0 ≤ ref →
  findState tid ref d =
    match order_ref_map_ d !! tid with Some v => (λ s, (v, s)) <$> vlive v ref | None => None end.
Proof.
  intros Href. unfold findState, vlive, nonzero, vec_size. destruct (order_ref_map_ d !! tid) as [v|]; [|done]. simpl.
  destruct (_ <=? ref) eqn:Hle; bsplit.
  - rewrite lookup_ge_None_2 by lia. done.
  - destruct (ov_items v !! Z.to_nat ref) as [s|]; [|done]. simpl. by destruct (os_qty s =? 0).
Qed.

Lemma findState_Some tid ref d v s : 0 ≤ ref → findState tid ref d = Some (v, s) →
  order_ref_map_ d !! tid = Some v ∧ vlive v ref = Some s ∧ live tid ref d = Some s ∧ ref < vec_size v.
Proof.
  intros Href. rewrite findState_live by done. unfold live. destruct (order_ref_map_ d !! tid) as [v'|]; [|done].
  destruct (vlive v' ref) as [s'|] eqn:Hv; [|done]. intros [= -> ->]. simpl. split_and!; try done.
  unfold vlive in Hv. destruct (ov_items v !! Z.to_nat ref) eqn:Hi; [|done]. apply lookup_lt_Some in Hi. unfold vec_size. lia.
Qed.

Lemma findState_None tid ref d : 0 ≤ ref → findState tid ref d = None → live tid ref d = None.
Proof.
  intros Href. rewrite findState_live by done. unfold live. destruct (order_ref_map_ d !! tid) as [v|]; [|done].
  simpl. by destruct (vlive v ref).
Qed.

(** ** Vectors *)

Lemma vec_resize_live max n v v' ref :
  vec_resize max n v = Ok v' → vec_size v ≤ n → 0 ≤ ref →
  vlive v' ref = vlive v ref ∧ vec_size v' = n.
Proof.
  unfold vec_resize, vec_size. destruct (max <? n); [done|]. intros [= <-] Hn Href. unfold vlive. cbn [ov_items].
  case_bool_decide as Hle.
  - assert (Z.to_nat n = length (ov_items v)) as -> by lia. rewrite take_ge by lia. split; [done|lia].
  - split; [|rewrite length_app, length_replicate; lia].
    destruct (decide (Z.to_nat ref < length (ov_items v))%nat).
    + by rewrite lookup_app_l by lia.
    + rewrite lookup_app_r by lia. rewrite (lookup_ge_None_2 (ov_items v)) by lia. simpl.
      destruct (replicate _ _ !! _) as [s|] eqn:Hs; [|done]. apply lookup_replicate in Hs as [-> _]. done.
Qed.

Lemma vec_grow_live max i v :
  0 ≤ i < max → max < 2 ^ 64 → ∃ v', vec_grow max i v = Ok v' ∧ i < vec_size v' ∧ (∀ ref, 0 ≤ ref → vlive v' ref = vlive v ref).
Proof.
  intros Hi Hmax. unfold vec_grow. destruct (_ <=? i) eqn:Hle; bsplit; [|exists v; done].
  rewrite wrapU_small by lia. destruct (vec_resize max (i + 1) v) as [v'| |] eqn:Hr.
  - exists v'. split_and!; [done| |].
    + destruct (vec_resize_live max (i + 1) v v' 0 Hr) as [_ ->]; lia.
    + intros ref Href. by apply (vec_resize_live max (i + 1) v v' ref Hr); [lia|].
  - unfold vec_resize in Hr. by destruct (max <? i + 1).
  - unfold vec_resize in Hr. destruct (max <? i + 1) eqn:E; [|done]. bsplit. lia.
Qed.

Lemma vec_grow_cap max i v v' : 0 ≤ i < 2 ^ 64 - 1 → vec_grow max i v = Ok v' →
  if bool_decide (vec_size v ≤ i ∧ Z.of_nat (ov_cap v) ≤ i) then ov_cap v' ≠ ov_cap v else ov_cap v' = ov_cap v.
Proof.
  intros Hi. unfold vec_grow. destruct (_ <=? i) eqn:Hle; bsplit.
  2:{ intros [= <-]. rewrite bool_decide_false by lia. done. }
  rewrite wrapU_small by lia. unfold vec_resize. destruct (_ <? _); [done|]. intros [= <-]. cbn [ov_cap].
  case_bool_decide; case_bool_decide; lia.
Qed.

Lemma vec_write_cap i s v v' : vec_write i s v = Ok v' → ov_cap v' = ov_cap v.
Proof. unfold vec_write. destruct (_ && _); [|done]. by intros [= <-]. Qed.

Lemma vec_write_live i s v :
  0 ≤ i < vec_size v → ∃ v', vec_write i s v = Ok v' ∧ vec_size v' = vec_size v ∧
    ∀ ref, 0 ≤ ref → vlive v' ref = if ref =? i then nonzero s else vlive v ref.
Proof.
  intros Hi. unfold vec_write. rewrite (proj2 (Z.leb_le _ _) (proj1 Hi)), (proj2 (Z.ltb_lt _ _) (proj2 Hi)). cbn [andb].
  eexists. split; [done|]. unfold vec_size in *. cbn [ov_items]. rewrite length_insert. split; [done|]. intros ref Href.
  unfold vlive. cbn [ov_items]. destruct (ref =? i) eqn:E; bsplit.
  - subst. by rewrite list_lookup_insert_eq by lia.
  - by rewrite list_lookup_insert_ne by lia.
Qed.

Lemma putState_live tid ref v s d tid' ref' :
  0 ≤ ref < vec_size v → 0 ≤ ref' →
  live tid' ref' (putState tid ref v s d) =
    if (tid' =? tid) then (if ref' =? ref then nonzero s else vlive v ref') else live tid' ref' d.
Proof.
  intros Hr Hr'. unfold live, putState, set_map, vec_size in *. cbn [order_ref_map_].
  destruct (tid' =? tid) eqn:Et; bsplit.
  - subst. rewrite lookup_insert_eq. simpl. unfold vlive. cbn [ov_items]. destruct (ref' =? ref) eqn:E; bsplit.
    + subst. by rewrite list_lookup_insert_eq by lia.
    + by rewrite list_lookup_insert_ne by lia.
  - by rewrite lookup_insert_ne by done.
Qed.

Lemma add_tracked_live k tid ref d : live tid ref (add_tracked k d) = live tid ref d.
Proof. done. Qed.
Lemma set_flags_live n b tid ref d : live tid ref (set_flags n b d) = live tid ref d.
Proof. done. Qed.

(** ** Resting orders by reference *)

Fixpoint order_at (ref : OrderId) (L : list Resting) : option Resting :=
  match L with
  | [] => None
  | x :: L' => if r_ref x =? ref then Some x else order_at ref L'
  end.

Lemma order_at_Some ref L x : order_at ref L = Some x → x ∈ L ∧ r_ref x = ref.
Proof.
  induction L as [|y L IH]; simpl; [done|]. destruct (r_ref y =? ref) eqn:E; bsplit.
  - intros [= ->]. split; [constructor|done].
  - intros [? ?]%IH. split; [by constructor|done].
Qed.

Lemma order_at_known ref L : known ref L = bool_decide (is_Some (order_at ref L)).
Proof.
  unfold known. apply bool_decide_ext. induction L as [|y L IH]; simpl; [split; [by intros ?%elem_of_nil|by intros [? [=]]]|].
  rewrite elem_of_cons, IH. destruct (r_ref y =? ref) eqn:E; bsplit; [split; eauto|]. split; [intros [?|?]; congruence|eauto].
Qed.

Lemma order_at_fresh ref L : ref ∉ (r_ref <$> L) → order_at ref L = None.
Proof.
  intros Hn. destruct (order_at ref L) as [x|] eqn:E; [|done]. apply order_at_Some in E as [Hx <-]. destruct Hn.
  apply list_elem_of_fmap. eauto.
Qed.

Lemma order_at_remove ref ref' L : NoDup (r_ref <$> L) →
  order_at ref' (spec_remove ref L) = if ref' =? ref then None else order_at ref' L.
Proof.
  induction L as [|y L IH]; simpl; [by destruct (_ =? _)|]. intros [Hy Hnd]%NoDup_cons.
  destruct (r_ref y =? ref) eqn:E; bsplit.
  - subst. destruct (ref' =? r_ref y) eqn:E'; bsplit.
    + subst. by apply order_at_fresh.
    + by rewrite (proj2 (Z.eqb_neq (r_ref y) ref')) by congruence.
  - simpl. rewrite IH by done. destruct (r_ref y =? ref') eqn:E1, (ref' =? ref) eqn:E2; bsplit; congruence.
Qed.

Lemma order_at_reduce ref ref' q L : NoDup (r_ref <$> L) →
  order_at ref' (spec_reduce ref q L) =
    if ref' =? ref then order_at ref L ≫= (λ x, if r_qty x <=? q then None else Some (with_qty (r_qty x - q) x))
    else order_at ref' L.
Proof.
  induction L as [|y L IH]; simpl; [by destruct (_ =? _)|]. intros [Hy Hnd]%NoDup_cons.
  destruct (r_ref y =? ref) eqn:E; bsplit.
  - subst. simpl. destruct (r_qty y <=? q), (ref' =? r_ref y) eqn:E'; bsplit; subst; simpl.
    + by apply order_at_fresh.
    + by rewrite (proj2 (Z.eqb_neq (r_ref y) ref')) by congruence.
    + by rewrite Z.eqb_refl.
    + by rewrite (proj2 (Z.eqb_neq (r_ref y) ref')) by congruence.
  - simpl. rewrite IH by done. destruct (r_ref y =? ref') eqn:E1, (ref' =? ref) eqn:E2; bsplit; congruence.
Qed.

Lemma order_at_add ref ref' u L :
  order_at ref' (spec_add ref u L) =
    match order_at ref' L with
    | Some x => Some x
    | None => if ref' =? ref then Some (mkResting ref (mu_side u) (mu_price u) (mu_qty u)) else None
    end.
Proof.
  unfold spec_add. induction L as [|y L IH]; simpl; [by rewrite Z.eqb_sym|]. by destruct (r_ref y =? ref').
Qed.

Lemma spec_remove_refs ref L : (r_ref <$> spec_remove ref L) `sublist_of` (r_ref <$> L).
Proof.
  induction L as [|y L IH]; simpl; [done|]. destruct (r_ref y =? ref); simpl; by constructor.
Qed.

Lemma spec_reduce_refs ref q L : (r_ref <$> spec_reduce ref q L) `sublist_of` (r_ref <$> L).
Proof.
  induction L as [|y L IH]; simpl; [done|]. destruct (r_ref y =? ref); [|simpl; by constructor].
  destruct (r_qty y <=? q); simpl; by constructor.
Qed.

(** ** The decoder and the book in step *)

Definition state_of (tid : TickerId) (x : Resting) : OrderState := mkOrderState (r_side x) (r_price x) (r_qty x) tid.

Definition wf_resting (x : Resting) : Prop := 0 ≤ r_ref x ∧ 0 < r_qty x < 2 ^ 32.

(** The orders tracked for ticker [tid] are the orders of [L]. *)
Record in_step (d : ItchDecoder) (tid : TickerId) (L : list Resting) : Prop := {
  is_nodup : NoDup (r_ref <$> L);
  is_wf : Forall wf_resting L;
  is_live_eq : ∀ ref, 0 ≤ ref → live tid ref d = state_of tid <$> order_at ref L
}.

Lemma in_step_known d tid L ref : in_step d tid L → 0 ≤ ref → known ref L = bool_decide (is_Some (live tid ref d)).
Proof.
  intros Hs Href. rewrite order_at_known, (is_live_eq _ _ _ Hs ref Href). apply bool_decide_ext.
  by rewrite fmap_is_Some.
Qed.

Lemma in_step_order d tid L ref s : in_step d tid L → 0 ≤ ref → live tid ref d = Some s →
  ∃ x, order_at ref L = Some x ∧ s = state_of tid x ∧ wf_resting x.
Proof.
  intros Hs Href Hl. rewrite (is_live_eq _ _ _ Hs ref Href) in Hl. destruct (order_at ref L) as [x|] eqn:Hx; [|done].
  injection Hl as <-. exists x. split_and!; try done. apply order_at_Some in Hx as [Hx _].
  pose proof (is_wf _ _ _ Hs) as Hw. rewrite Forall_forall in Hw. by apply Hw.
Qed.

Lemma in_step_remove d d' tid L ref :
  in_step d tid L → 0 ≤ ref →
  (∀ ref', 0 ≤ ref' → live tid ref' d' = if ref' =? ref then None else live tid ref' d) →
  in_step d' tid (spec_remove ref L).
Proof.
  intros [Hnd Hw Hl] Href Hl'. split.
  - eapply submseteq_NoDup_inv; [apply sublist_submseteq, spec_remove_refs|done].
  - clear -Hw. induction Hw as [|x L Hx Hw IH]; simpl; [done|]. destruct (_ =? _); [done|by constructor].
  - intros ref' Hr'. rewrite Hl', order_at_remove by done. destruct (ref' =? ref); [done|]. by apply Hl.
Qed.

Lemma in_step_add d d' tid L ref u :
  in_step d tid L → 0 ≤ ref → live tid ref d = None → 0 < mu_qty u < 2 ^ 32 →
  (∀ ref', 0 ≤ ref' → live tid ref' d' =
     if ref' =? ref then Some (mkOrderState (mu_side u) (mu_price u) (mu_qty u) tid) else live tid ref' d) →
  in_step d' tid (spec_add ref u L).
Proof.
  intros Hs Href Hnone Hq Hl'. pose proof Hs as [Hnd Hw Hl]. pose proof (in_step_known _ _ _ _ Hs Href) as Hk.
  rewrite Hnone in Hk. rewrite (bool_decide_false (is_Some None)) in Hk by (by intros [? [=]]).
  unfold known in Hk. bsplit. split.
  - unfold spec_add. rewrite fmap_app. apply NoDup_app. split_and!; [done| |apply NoDup_singleton].
    intros x Hx ->%list_elem_of_singleton. done.
  - apply Forall_app. split; [done|]. by apply Forall_singleton.
  - intros ref' Hr'. rewrite Hl', order_at_add, Hl by done. destruct (ref' =? ref) eqn:E; bsplit.
    + subst. by rewrite (order_at_fresh ref L).
    + by destruct (order_at ref' L).
Qed.

Lemma in_step_reduce d d' tid L ref q s :
  in_step d tid L → 0 ≤ ref → 0 ≤ q → live tid ref d = Some s →
  (∀ ref', 0 ≤ ref' → live tid ref' d' =
     if ref' =? ref then (if os_qty s <=? q then None else Some (set_os_qty (os_qty s - q) s)) else live tid ref' d) →
  in_step d' tid (spec_reduce ref q L).
Proof.
  intros Hs Href Hq Hsome Hl'. destruct (in_step_order _ _ _ _ _ Hs Href Hsome) as (x & Hx & -> & _).
  destruct Hs as [Hnd Hw Hl]. split.
  - eapply submseteq_NoDup_inv; [apply sublist_submseteq, spec_reduce_refs|done].
  - clear -Hw Hq. induction Hw as [|y L Hy Hw IH]; simpl; [done|]. destruct (_ =? _); [|by constructor].
    destruct (_ <=? q) eqn:E; [done|]. bsplit. constructor; [|done]. unfold wf_resting in *. simpl. lia.
  - intros ref' Hr'. rewrite Hl', order_at_reduce by done. destruct (ref' =? ref); [|by apply Hl].
    rewrite Hx. cbn [mbind option_bind state_of os_qty]. by destruct (r_qty x <=? q).
Qed.

Lemma in_step_frame d d' tid L :
  in_step d tid L → (∀ ref, 0 ≤ ref → live tid ref d' = live tid ref d) → in_step d' tid L.
Proof. intros [Hnd Hw Hl] Hf. split; try done. intros ref Href. by rewrite Hf, Hl. Qed.

(** ** Messages *)

Definition is_snapshot_control_type (ty : UpdateType) : bool :=
  match ty with SNAPSHOT_START | SNAPSHOT_CLEAR | SNAPSHOT_END => true | _ => false end.

Section Messages.
Context `{ByteOrder} `{ItchFormat} `{!ItchFormatLaws}.
Context (max_size : Z) (Hmax : max_size < 2 ^ 64).
Implicit Types (d : ItchDecoder) (Ls : TickerId → list Resting).

(** The books after what a decoding call reported. *)
Definition books_after (Ls : TickerId → list Resting) (ok : bool) (u : MarketUpdate) (tid : TickerId) : list Resting :=
  if ok then spec_apply tid u (Ls tid) else Ls tid.

Definition keeps_step (Ls : TickerId → list Resting) (seq : SeqNum) (r : outcome (bool * MarketUpdate * ItchDecoder)) : Prop :=
  returns r (λ '(ok, u, d'), mu_seq_num u = seq ∧ ∀ tid, in_step d' tid (books_after Ls ok u tid)).

(** A new order under a reference that is free and within memory. *)
Definition new_order d (tid : TickerId) (ref : OrderId) (qty : Quantity) : Prop :=
  live tid ref d = None ∧ qty ≠ 0 ∧ ref < max_size.

(** A replacement for which the vector need not move. *)
Definition replacement d (tid : TickerId) (new_ref : OrderId) (qty : Quantity) : Prop :=
  new_order d tid new_ref qty ∧
  ∀ v, order_ref_map_ d !! tid = Some v → vec_size v ≤ new_ref → new_ref < Z.of_nat (ov_cap v).

Definition is_control (locate : Z) : bool :=
  (locate =? CTL_SNAPSHOT_START) || (locate =? CTL_SNAPSHOT_CLEAR) || (locate =? CTL_SNAPSHOT_END).

Definition order_message d (msg_type : Z) (msg : list Z) : Prop :=
  if msg_type =? MT_SYSTEM_EVENT then True
  else if msg_type =? MT_ADD_ORDER then new_order d (stockLocate (ao_stock_locate msg)) (ao_get_ref msg) (ao_get_shares msg)
  else if msg_type =? MT_ADD_ORDER_MPID then
    new_order d (stockLocate (am_stock_locate msg)) (am_get_ref msg) (am_get_shares msg)
  else if msg_type =? MT_ORDER_EXECUTED then True
  else if msg_type =? MT_ORDER_CANCEL then True
  else if msg_type =? MT_ORDER_DELETE then is_control (swap16 (od_stock_locate msg)) = false
  else if msg_type =? MT_ORDER_REPLACE then
    replacement d (stockLocate (or_stock_locate msg)) (or_get_new_ref msg) (or_get_shares msg)
  else True.

Lemma trackOrder_step d Ls out :
  (∀ tid, in_step d tid (Ls tid)) → new_order d (mu_ticker_id out) (mu_order_ref out) (mu_qty out) →
  is_u64 (mu_order_ref out) → is_qty (mu_qty out) → mu_type out = ADD ∨ mu_type out = ADD_MPID →
  keeps_step Ls (mu_seq_num out) (trackOrder max_size out d).
Proof using Hmax.
  intros Hs (Hnone & Hq0 & Href) [Hr0 _] Hq Hty. unfold trackOrder.
  set (v0 := default OrderVec_new _).
  assert (∀ ref, 0 ≤ ref → vlive v0 ref = live (mu_ticker_id out) ref d) as Hv0.
  { intros ref _. unfold live, v0. by destruct (order_ref_map_ d !! mu_ticker_id out). }
  destruct (vec_grow_live max_size (mu_order_ref out) v0) as (v1 & -> & Hsz & Hv1); [lia|done|]. cbn [mbind outcome_bind].
  edestruct (vec_write_live (mu_order_ref out) (mkOrderState (mu_side out) (mu_price out) (mu_qty out) (mu_ticker_id out)) v1)
    as (v2 & -> & _ & Hv2); [lia|]. cbn [mbind outcome_bind].
  split; [done|]. intros tid. unfold books_after. assert (spec_apply tid out (Ls tid) =
    if mu_ticker_id out =? tid then (if known (mu_order_ref out) (Ls tid) then Ls tid else spec_add (mu_order_ref out) out (Ls tid))
    else Ls tid) as ->.
  { unfold spec_apply. by destruct Hty as [-> | ->], (mu_ticker_id out =? tid). }
  destruct (mu_ticker_id out =? tid) eqn:Et; bsplit.
  - subst tid. rewrite (in_step_known d _ _ _ (Hs _) Hr0), Hnone. simpl.
    apply (in_step_add d); try done; [unfold is_qty in Hq; lia|]. intros ref' Hr'. rewrite add_tracked_live.
    unfold live at 1, set_map. cbn [order_ref_map_]. rewrite lookup_insert_eq. simpl. rewrite Hv2, Hv1, Hv0 by done.
    unfold nonzero. cbn [os_qty]. by rewrite (proj2 (Z.eqb_neq _ _) Hq0).
  - eapply in_step_frame; [apply Hs|]. intros ref _. rewrite add_tracked_live. unfold live, set_map. cbn [order_ref_map_].
    by rewrite lookup_insert_ne by congruence.
Qed.

(** Updates of the order [ref] of ticker [locate] leave the other books alone. *)
Lemma other_books d d' Ls u locate tid :
  in_step d tid (Ls tid) → tid ≠ locate → mu_ticker_id u = locate → is_snapshot_control_type (mu_type u) = false →
  (∀ ref, 0 ≤ ref → live tid ref d' = live tid ref d) → in_step d' tid (spec_apply tid u (Ls tid)).
Proof using Type.
  intros Hs Hne Ht Hc Hl. assert (spec_apply tid u (Ls tid) = Ls tid) as ->; [|by eapply in_step_frame].
  unfold spec_apply. rewrite Ht, (proj2 (Z.eqb_neq locate tid)) by congruence. by destruct (mu_type u).
Qed.

Lemma reduceState_step d Ls out locate :
  (∀ tid, in_step d tid (Ls tid)) → is_u64 (mu_order_ref out) → is_qty (mu_qty out) →
  mu_type out = EXECUTE ∨ mu_type out = CANCEL → keeps_step Ls (mu_seq_num out) (reduceState locate out d).
Proof using Type.
  intros Hs [Hr0 _] Hq Hty. unfold reduceState. destruct (findState locate (mu_order_ref out) d) as [[v s]|] eqn:Hf; [|done].
  destruct (findState_Some _ _ _ _ _ Hr0 Hf) as (Hv & Hvs & Hl & Hsz).
  destruct (in_step_order _ _ _ _ _ (Hs locate) Hr0 Hl) as (x & _ & -> & [_ Hx]). cbn [state_of os_qty os_ticker_id].
  set (u := mkMarketUpdate _ locate _ _ _ _ _ _). unfold is_qty in Hq.
  assert (∀ s' : OrderState, os_qty s' = (if r_qty x <=? mu_qty out then 0 else r_qty x - mu_qty out) →
    s' = set_os_qty (os_qty s') (state_of locate x) →
    ∀ tid, in_step (putState locate (mu_order_ref out) v s' d) tid (spec_apply tid u (Ls tid))) as Hput.
  { intros s' Hq' Hs' tid. destruct (decide (tid = locate)) as [->|Hne].
    - assert (spec_apply locate u (Ls locate) = spec_reduce (mu_order_ref out) (mu_qty out) (Ls locate)) as ->.
      { unfold spec_apply, u. cbn [mu_type mu_ticker_id]. rewrite Z.eqb_refl. by destruct Hty as [-> | ->]. }
      eapply (in_step_reduce d); [apply Hs|exact Hr0|lia|exact Hl|]. intros ref' Hr'.
      rewrite putState_live, Z.eqb_refl by lia. destruct (ref' =? mu_order_ref out); [|unfold live; by rewrite Hv].
      unfold nonzero. rewrite Hq'. cbn [state_of os_qty]. destruct (r_qty x <=? mu_qty out) eqn:E; bsplit; [done|].
      rewrite (proj2 (Z.eqb_neq _ _)) by lia. rewrite Hs', Hq'. done.
    - apply (other_books d _ _ _ locate); try done; [by destruct Hty as [Ht|Ht]; cbn [u mu_type]; rewrite Ht|].
      intros ref Href. rewrite putState_live by lia. by rewrite (proj2 (Z.eqb_neq tid locate) Hne). }
  cbn [mu_qty u]. destruct (r_qty x <=? mu_qty out) eqn:E; (split; [done|]); cbn [books_after mu_order_ref u].
  - intros tid. eapply in_step_frame; [by apply (Hput (set_os_qty 0 (state_of locate x)))|done].
  - bsplit. rewrite wrapU_small by lia. by apply Hput.
Qed.

Lemma decodeOrderDelete_step d Ls msg out :
  (∀ tid, in_step d tid (Ls tid)) → is_u64 (od_get_ref_num msg) → is_control (swap16 (od_stock_locate msg)) = false →
  keeps_step Ls (mu_seq_num out) (decodeOrderDelete msg out d).
Proof using Type.
  intros Hs [Hr0 _] Hc. unfold decodeOrderDelete. unfold is_control in Hc. apply orb_false_iff in Hc as [Hc Hc3].
  apply orb_false_iff in Hc as [Hc1 Hc2]. rewrite Hc1, Hc2, Hc3. unfold stockLocate. set (locate := swap16 _).
  destruct (findState locate _ d) as [[v s]|] eqn:Hf; [|done].
  destruct (findState_Some _ _ _ _ _ Hr0 Hf) as (Hv & Hvs & Hl & Hsz).
  destruct (in_step_order _ _ _ _ _ (Hs locate) Hr0 Hl) as (x & _ & -> & _). cbn [state_of os_ticker_id].
  set (u := mkMarketUpdate _ locate _ _ _ _ _ _). split; [done|]. intros tid. cbn [books_after].
  assert (∀ ref', 0 ≤ ref' → live tid ref' (putState locate (od_get_ref_num msg) v (set_os_qty 0 (state_of locate x)) d) =
    if tid =? locate then (if ref' =? od_get_ref_num msg then None else live tid ref' d) else live tid ref' d) as Hput.
  { intros ref' Hr'. rewrite putState_live by lia. destruct (tid =? locate) eqn:E; [|done]. bsplit. subst.
    unfold live. by rewrite Hv. }
  destruct (decide (tid = locate)) as [->|Hne].
  - assert (spec_apply locate u (Ls locate) = spec_remove (od_get_ref_num msg) (Ls locate)) as ->.
    { unfold spec_apply, u. cbn [mu_type mu_ticker_id]. by rewrite Z.eqb_refl. }
    apply (in_step_remove d); [apply Hs|done|]. intros ref' Hr'. rewrite add_tracked_live, Hput, Z.eqb_refl by done. done.
  - apply (other_books d _ _ _ locate); try done. intros ref Href. rewrite add_tracked_live, Hput by done.
    by rewrite (proj2 (Z.eqb_neq tid locate) Hne).
Qed.

Lemma vlive_item v ref s : vlive v ref = Some s → ov_items v !! Z.to_nat ref = Some s.
Proof using Type.
  unfold vlive, nonzero. destruct (_ !! _) as [s'|]; [|done]. simpl. destruct (os_qty s' =? 0); [done|]. by intros [= ->].
Qed.

(** Replacing a live order without moving the vector. *)
Lemma decodeOrderReplace_found d msg out v s :
  let ref := or_get_old_ref msg in let new_ref := or_get_new_ref msg in let locate := stockLocate (or_stock_locate msg) in
  0 ≤ ref → 0 ≤ new_ref → replacement d locate new_ref (or_get_shares msg) → findState locate ref d = Some (v, s) →
  ∃ d', decodeOrderReplace max_size msg out d =
      Ok (true, mkMarketUpdate (mu_seq_num out) (os_ticker_id s) REPLACE (os_side s) (wrapS 32 (swap32 (or_price msg)))
            (or_get_shares msg) ref new_ref, d') ∧
    ∀ tid ref', 0 ≤ ref' → live tid ref' d' =
      if tid =? locate then
        (if ref' =? ref then None
         else if ref' =? new_ref then
           nonzero (mkOrderState (os_side s) (wrapS 32 (swap32 (or_price msg))) (or_get_shares msg) (os_ticker_id s))
         else live locate ref' d)
      else live tid ref' d.
Proof using Hmax.
  intros ref new_ref locate Hr0 Hn0 ((Hnone & Hq0 & Hnew) & Hroom) Hf. unfold decodeOrderReplace.
  fold ref new_ref locate. rewrite Hf. destruct (findState_Some _ _ _ _ _ Hr0 Hf) as (Hv & Hvs & Hl & Hsz).
  assert (new_ref ≠ ref) as Hne by (intros Heq; rewrite Heq, Hl in Hnone; done).
  destruct (vec_grow_live max_size new_ref v) as (v1 & Hg & Hsz1 & Hv1); [lia|done|]. rewrite Hg. cbn [mbind outcome_bind].
  edestruct (vec_write_live new_ref) as (v2 & Hw & Hsz2 & Hv2); [split; [exact Hn0|exact Hsz1]|]. rewrite Hw. cbn [mbind outcome_bind].
  assert (ov_cap v = ov_cap v2) as Hcap.
  { apply vec_write_cap in Hw as ->. apply vec_grow_cap in Hg; [|lia]. rewrite bool_decide_false in Hg; [done|].
    intros [E ?]. specialize (Hroom v Hv E). lia. }
  unfold ref_read. cbn [vec_ref er_storage er_index]. rewrite bool_decide_true by done.
  assert (vlive v2 ref = Some s) as Hv2s.
  { rewrite Hv2, Hv1 by done. by rewrite (proj2 (Z.eqb_neq ref new_ref)) by congruence. }
  rewrite (vlive_item _ _ _ Hv2s). cbn [mbind outcome_bind]. eexists. split; [done|]. intros tid ref' Hr'.
  rewrite add_tracked_live, putState_live.
  - destruct (tid =? locate) eqn:Et; [|done]. destruct (ref' =? ref) eqn:Er; [done|]. rewrite Hv2, Hv1 by done.
    destruct (ref' =? new_ref); [done|]. unfold live. by rewrite Hv.
  - split; [done|]. unfold vlive in Hv2s. destruct (ov_items v2 !! Z.to_nat ref) eqn:Hi; [|done].
    apply lookup_lt_Some in Hi. unfold vec_size. lia.
  - done.
Qed.

Lemma decodeOrderReplace_step d Ls msg out :
  (∀ tid, in_step d tid (Ls tid)) → is_qty (or_get_shares msg) → is_u64 (or_get_old_ref msg) → is_u64 (or_get_new_ref msg) →
  replacement d (stockLocate (or_stock_locate msg)) (or_get_new_ref msg) (or_get_shares msg) →
  keeps_step Ls (mu_seq_num out) (decodeOrderReplace max_size msg out d).
Proof using Hmax.
  intros Hs Hq [Hr0 _] [Hn0 _] Hrep.
  destruct (findState (stockLocate (or_stock_locate msg)) (or_get_old_ref msg) d) as [[v s]|] eqn:Hf.
  2:{ unfold decodeOrderReplace. rewrite Hf. done. }
  destruct (decodeOrderReplace_found d msg out v s Hr0 Hn0 Hrep Hf) as (d' & -> & Hd').
  set (locate := stockLocate _) in *. set (ref := or_get_old_ref msg) in *. set (new_ref := or_get_new_ref msg) in *.
  destruct Hrep as ((Hnone & Hq0 & _) & _). destruct (findState_Some _ _ _ _ _ Hr0 Hf) as (Hv & Hvs & Hl & Hsz).
  destruct (in_step_order _ _ _ _ _ (Hs locate) Hr0 Hl) as (x & _ & -> & _). cbn [state_of os_ticker_id os_side] in *.
  assert (new_ref ≠ ref) as Hne by (intros Heq; rewrite Heq, Hl in Hnone; done).
  set (u := mkMarketUpdate _ locate _ _ _ _ _ _). split; [done|]. intros tid. cbn [books_after].
  destruct (decide (tid = locate)) as [->|Hnt].
  - assert (spec_apply locate u (Ls locate) = spec_add new_ref u (spec_remove ref (Ls locate))) as ->.
    { unfold spec_apply, u. cbn [mu_type mu_ticker_id mu_order_ref mu_new_ref]. rewrite Z.eqb_refl.
      rewrite (in_step_known d locate _ ref (Hs _) Hr0), Hl, (in_step_known d locate _ new_ref (Hs _) Hn0), Hnone. done. }
    set (d1 := putState locate ref v (set_os_qty 0 (state_of locate x)) d).
    assert (∀ ref', 0 ≤ ref' → live locate ref' d1 = if ref' =? ref then None else live locate ref' d) as Hd1.
    { intros ref' Hr'. unfold d1. rewrite putState_live, Z.eqb_refl by lia. destruct (ref' =? ref); [done|].
      unfold live. by rewrite Hv. }
    apply (in_step_add d1).
    + by apply (in_step_remove d).
    + done.
    + rewrite Hd1 by done. by rewrite (proj2 (Z.eqb_neq new_ref ref) Hne).
    + unfold is_qty in Hq. cbn [u mu_qty]. lia.
    + intros ref' Hr'. rewrite Hd', Hd1, Z.eqb_refl by done. destruct (ref' =? ref) eqn:E1, (ref' =? new_ref) eqn:E2; bsplit; try done.
      * congruence.
      * unfold nonzero. cbn [os_qty]. by rewrite (proj2 (Z.eqb_neq _ _) Hq0).
  - apply (other_books d _ _ _ locate); try done. intros ref' Hr'. rewrite Hd' by done.
    by rewrite (proj2 (Z.eqb_neq tid locate) Hnt).
Qed.

Lemma decodePayload_step d Ls msg_type msg out :
  (∀ tid, in_step d tid (Ls tid)) → Forall is_byte msg → length msg = payload_size msg_type → order_message d msg_type msg →
  keeps_step Ls (mu_seq_num out) (decodePayload max_size msg_type msg out d).
Proof using All.
  intros Hs Hb Hlen Hm. unfold payload_size, decodePayload, order_message in *.
  repeat match goal with |- context [if msg_type =? ?t then _ else _] => destruct (msg_type =? t) eqn:? end; try done.
  - destruct (ao_fields msg Hb Hlen). apply (trackOrder_step d Ls (mkMarketUpdate _ _ _ _ _ _ _ _)); try done. by left.
  - destruct (am_fields msg Hb Hlen). apply (trackOrder_step d Ls (mkMarketUpdate _ _ _ _ _ _ _ _)); try done. by right.
  - destruct (oe_fields msg Hb Hlen). apply (reduceState_step d Ls (mkMarketUpdate _ _ _ _ _ _ _ _)); try done. by left.
  - destruct (oc_fields msg Hb Hlen). apply (reduceState_step d Ls (mkMarketUpdate _ _ _ _ _ _ _ _)); try done. by right.
  - apply decodeOrderDelete_step; try done. by apply od_fields.
  - destruct (or_fields msg Hb Hlen) as (? & ? & ?). by apply decodeOrderReplace_step.
Qed.
End Messages.

(** ** Frames *)

Section Frames.
Context `{ByteOrder} `{ItchFormat} (max_size : Z).

Lemma decodePayload_flags ty msg out d ok u d' :
  decodePayload max_size ty msg out d = Ok (ok, u, d') →
  last_decoded_size_ d' = last_decoded_size_ d ∧ need_more_data_ d' = need_more_data_ d.
Proof using Type.
  unfold decodePayload, decodeSystemEvent, decodeAddOrder, decodeAddOrderMPID, trackOrder, decodeOrderExecuted,
    decodeOrderCancel, reduceState, decodeOrderDelete, decodeOrderReplace. intros Hr.
  repeat match goal with
  | Hx : (if ?b then _ else _) = Ok _ |- _ => destruct b
  | Hx : match findState ?a ?b ?c with _ => _ end = Ok _ |- _ => destruct (findState a b c) as [[]|]
  end; inv_ok; try done.
Qed.

Lemma lookup_type_app (wire more : list Z) : (8 < length wire)%nat → (wire ++ more) !! 8%nat = wire !! 8%nat.
Proof using Type. intros Hl. by rewrite lookup_app_l. Qed.

(** Complete frames do not depend on the bytes behind them. *)
Lemma decode_complete_app wire more out d ty :
  wire !! 8%nat = Some ty → (known_type ty = true → 8 + payload_size ty ≤ length wire)%nat →
  decode max_size (wire ++ more) out d = decode max_size wire out d.
Proof using Type.
  intros Ht Hsz. pose proof (lookup_lt_Some _ _ _ Ht) as Hl. unfold decode. rewrite lookup_app_l, Ht by done.
  destruct (known_type ty); [|done]. specialize (Hsz eq_refl). cbn [negb].
  rewrite !bool_decide_false by (rewrite ?length_app; lia).
  rewrite drop_app_le, !take_app_le by (rewrite ?length_drop; lia). done.
Qed.
End Frames.

(** ** The packed layout of ITCH 5.0 *)
Definition be (offset size : nat) (msg : list Z) : Z := bswap size (uint offset size msg).

Definition packed_itch : ItchFormat := {|
  MT_SYSTEM_EVENT := 83; MT_ADD_ORDER := 65; MT_ADD_ORDER_MPID := 70; MT_ORDER_EXECUTED := 69; MT_ORDER_CANCEL := 88;
  MT_ORDER_DELETE := 68; MT_ORDER_REPLACE := 85;
  sizeof_SystemEvent := 12; sizeof_AddOrder := 36; sizeof_AddOrderMPID := 40; sizeof_OrderExecuted := 31;
  sizeof_OrderCancel := 23; sizeof_OrderDelete := 19; sizeof_OrderReplace := 35;
  ao_stock_locate := uint 1 2; ao_buy_sell := uint 19 1; ao_price := uint 32 4; ao_get_shares := be 20 4; ao_get_ref := be 11 8;
  am_stock_locate := uint 1 2; am_buy_sell := uint 19 1; am_price := uint 32 4; am_get_shares := be 20 4; am_get_ref := be 11 8;
  oe_stock_locate := uint 1 2; oe_get_exec_shares := be 19 4; oe_get_ref := be 11 8; oe_get_match := be 23 8;
  oc_stock_locate := uint 1 2; oc_get_canceled := be 19 4; oc_get_ref := be 11 8;
  od_stock_locate := uint 1 2; od_get_ref_num := be 11 8;
  or_stock_locate := uint 1 2; or_price := uint 31 4; or_get_shares := be 27 4; or_get_old_ref := be 11 8;
  or_get_new_ref := be 19 8
|}.

Lemma packed_itch_laws : @ItchFormatLaws packed_itch.
Proof.
  split; simpl; try (intros bs Hb Hl); try (split_and!; first [apply (bswap_range 4)|apply (bswap_range 8)]).
  - apply (bool_decide_unpack _). by vm_compute.
  - repeat constructor.
Qed.

#[local] Existing Instances bswap_order packed_itch.

(** Frames of ticker 1, with sequence number [seq]. *)
Definition ex_be (n : nat) (z : Z) : list Z := reverse (le_bytes n z).
Definition ex_head (seq ty : Z) : list Z := ex_be 8 seq ++ [ty] ++ ex_be 2 1 ++ replicate 8 0.
Definition ex_add (seq ref side qty price : Z) : list Z :=
  ex_head seq 65 ++ ex_be 8 ref ++ [side] ++ ex_be 4 qty ++ replicate 8 32 ++ ex_be 4 price.
Definition ex_exec (seq ref qty : Z) : list Z := ex_head seq 69 ++ ex_be 8 ref ++ ex_be 4 qty ++ ex_be 8 7.
Definition ex_replace (seq ref new_ref qty price : Z) : list Z :=
  ex_head seq 85 ++ ex_be 8 ref ++ ex_be 8 new_ref ++ ex_be 4 qty ++ ex_be 4 price.
(** A snapshot control, without a sequence number. *)
Definition ex_ctl (locate ref : Z) : list Z := [68] ++ ex_be 2 locate ++ replicate 8 0 ++ ex_be 8 ref.

(** Decode frames one after the other, collecting the updates. *)
Fixpoint decode_all (frames : list (list Z)) (d : ItchDecoder) : outcome (list MarketUpdate * ItchDecoder) :=
  match frames with
  | [] => Ok ([], d)
  | f :: frames' =>
      '(ok, u, d) ← decode (2 ^ 20) f default_MarketUpdate d;
      '(us, d) ← decode_all frames' d;
      Ok (if (ok : bool) then u :: us else us, d)
  end.

Definition ex_decoder : ItchDecoder :=
  match decode_all [ex_add 1 5 66 30 1000] ItchDecoder_new with Ok (_, d) => d | _ => ItchDecoder_new end.

(** ** Properties *)

(** C23: The decoder stays in step with the books: if the orders it tracks are
    those resting in each ticker's book, decoding a complete order frame returns
    (no out-of-range access, no dangling reference), the update carries the
    frame's sequence number, and the tracked orders are again those resting in
    each book after the update, with the side and price the frame does not
    carry; a frame for an order that is not tracked is refused and changes
    nothing.  New references must be free and within memory, and a replacement
    must not move the vector. *)
Theorem decoder_tracks_book `{ByteOrder} `{ItchFormat} (HL : ItchFormatLaws) max_size wire ty out d Ls :
  max_size < 2 ^ 64 → Forall is_byte wire → wire !! 8%nat = Some ty → known_type ty = true →
  (8 + payload_size ty ≤ length wire)%nat → order_message max_size d ty (take (payload_size ty) (drop 8 wire)) →
  (∀ tid, in_step d tid (Ls tid)) →
  ∃ ok u d', decode max_size wire out d = Ok (ok, u, d') ∧ mu_seq_num u = swap64 (le_value (take 8 wire)) ∧
    last_decoded_size_ d' = payload_size ty ∧ need_more_data_ d' = false ∧
    ∀ tid, in_step d' tid (if ok then spec_apply tid u (Ls tid) else Ls tid).
Proof.
  intros Hmax Hb Ht Hk Hlen Hm Hs. set (msg := take _ _) in Hm. set (seq := swap64 (le_value (take 8 wire))).
  set (d0 := set_flags (payload_size ty) false (set_flags 0 false d)).
  assert (decode max_size wire out d = decodePayload max_size ty msg (set_seq seq out) d0) as Hd.
  { unfold decode. rewrite Ht, Hk. cbn [negb]. by rewrite bool_decide_false by lia. }
  assert (∀ tid, in_step d0 tid (Ls tid)) as Hs0 by (intros tid; by eapply in_step_frame).
  assert (Forall is_byte msg ∧ length msg = payload_size ty) as [Hbm Hlm].
  { split; [by apply Forall_take, Forall_drop|]. unfold msg. rewrite length_take, length_drop. lia. }
  pose proof (decodePayload_step max_size Hmax d0 Ls ty msg (set_seq seq out) Hs0 Hbm Hlm Hm) as Hstep.
  apply returns_ok in Hstep as ([[ok u] d'] & Hr & Hseq & Hin).
  destruct (decodePayload_flags _ _ _ _ _ _ _ _ Hr) as [Hf1 Hf2]. exists ok, u, d'. by rewrite Hd.
Qed.

Definition ex_Ls (tid : TickerId) : list Resting := if tid =? 1 then [mkResting 5 BUY 1000 30] else [].

Lemma ex_decoder_in_step tid : in_step ex_decoder tid (ex_Ls tid).
Proof.
  replace (in_step ex_decoder tid (ex_Ls tid)) with
    (in_step (mkDecoder {[1 := mkVec (replicate 5 OrderState_zero ++ [mkOrderState BUY 1000 30 1]) 6]} 1 36 false) tid (ex_Ls tid))
    by (f_equal; by vm_compute).
  unfold ex_Ls. destruct (tid =? 1) eqn:E; bsplit.
  - subst. split.
    + apply NoDup_singleton.
    + apply Forall_singleton. split; simpl; lia.
    + intros ref Href. unfold live. cbn [order_ref_map_]. rewrite lookup_singleton_eq. cbn [mbind option_bind order_at r_ref].
      unfold vlive. cbn [ov_items]. destruct (5 =? ref) eqn:E5; bsplit; [by subst|].
      destruct (decide (ref < 5)).
      * rewrite lookup_app_l by (rewrite length_replicate; lia). by rewrite lookup_replicate_2 by lia.
      * by rewrite lookup_ge_None_2 by (rewrite length_app, length_replicate; simpl; lia).
  - split; [constructor|constructor|]. intros ref _. unfold live. cbn [order_ref_map_]. by rewrite lookup_singleton_ne by congruence.
Qed.

Lemma decoder_tracks_book_witness :
  ∃ u d', decode (2 ^ 20) (ex_exec 2 5 10 ++ [1; 2]) default_MarketUpdate ex_decoder = Ok (true, u, d') ∧
    mu_seq_num u = 2 ∧ mu_price u = 1000 ∧ in_step d' 1 [mkResting 5 BUY 1000 20].
Proof.
  destruct (decoder_tracks_book packed_itch_laws (2 ^ 20) (ex_exec 2 5 10 ++ [1; 2]) 69 default_MarketUpdate ex_decoder ex_Ls)
    as (ok & u & d' & Hrun & Hseq & _ & _ & Hin).
  - reflexivity.
  - vm_compute. repeat constructor; discriminate.
  - reflexivity.
  - reflexivity.
  - vm_compute. repeat constructor.
  - exact I.
  - exact ex_decoder_in_step.
  - assert (ok = true ∧ mu_price u = 1000 ∧ spec_apply 1 u (ex_Ls 1) = [mkResting 5 BUY 1000 20]) as (-> & Hp & Hsp).
    { vm_compute in Hrun. injection Hrun as <- <- _. vm_compute. done. }
    exists u, d'. split; [exact Hrun|]. split; [rewrite Hseq; reflexivity|]. split; [exact Hp|].
    rewrite <- Hsp. exact (Hin 1).
Defined.

(** C28: Framing: a decoding call that asks for more data has consumed nothing
    and left the tracked orders and the output as they were; any other result,
    be it an update, a refusal or an unknown type, is the same whatever bytes
    follow the frame, and an update never claims more bytes than there are. *)
Theorem decode_framing `{ByteOrder} `{ItchFormat} max_size wire out d ok u d' :
  decode max_size wire out d = Ok (ok, u, d') →
  if need_more_data_ d' then
    ok = false ∧ u = out ∧ order_ref_map_ d' = order_ref_map_ d ∧ tracked_order_count_ d' = tracked_order_count_ d ∧
    last_decoded_size_ d' = 0%nat
  else (∀ more, decode max_size (wire ++ more) out d = Ok (ok, u, d')) ∧ (8 + last_decoded_size_ d' ≤ length wire)%nat.
Proof.
  intros Hr. destruct (wire !! 8%nat) as [ty|] eqn:Ht.
  2:{ unfold decode in Hr. rewrite Ht in Hr. by injection Hr as <- <- <-. }
  pose proof (lookup_lt_Some _ _ _ Ht) as Hl. destruct (known_type ty) eqn:Hk.
  2:{ pose proof Hr as Hr'. unfold decode in Hr'. rewrite Ht, Hk in Hr'. injection Hr' as <- <- <-. simpl. split; [|lia].
      intros more. rewrite (decode_complete_app max_size wire more out d ty); [done|done|congruence]. }
  destruct (decide (length wire < 8 + payload_size ty)%nat) as [Hs|Hs].
  { unfold decode in Hr. rewrite Ht, Hk, bool_decide_true in Hr by done. by injection Hr as <- <- <-. }
  pose proof Hr as Hr'. unfold decode in Hr'. rewrite Ht, Hk, bool_decide_false in Hr' by lia.
  destruct (decodePayload_flags _ _ _ _ _ _ _ _ Hr') as [Hf1 Hf2]. rewrite Hf1, Hf2. simpl. split; [|lia].
  intros more. rewrite (decode_complete_app max_size wire more out d ty); [done|done|lia].
Qed.

Lemma decode_framing_witness :
  ∃ u d', decode (2 ^ 20) (ex_exec 2 5 10) default_MarketUpdate ex_decoder = Ok (true, u, d') ∧
    decode (2 ^ 20) (ex_exec 2 5 10 ++ [9; 9; 9]) default_MarketUpdate ex_decoder = Ok (true, u, d').
Proof.
  destruct (decode (2 ^ 20) (ex_exec 2 5 10) default_MarketUpdate ex_decoder) as [[[ok u] d']| |] eqn:Hr;
    [|vm_compute in Hr; discriminate..].
  pose proof (decode_framing (2 ^ 20) (ex_exec 2 5 10) default_MarketUpdate ex_decoder ok u d' Hr) as Hf.
  assert (ok = true ∧ need_more_data_ d' = false) as [-> Hn] by (vm_compute in Hr; injection Hr as <- _ <-; done).
  rewrite Hn in Hf. destruct Hf as [Hf _]. exists u, d'. split; [reflexivity|]. exact (Hf [9; 9; 9]).
Defined.

(** A replace that moves the vector writes through a dangling reference:
    [decodeOrderReplace] takes a reference to the old order's state, grows the
    vector for the new reference, which moves it to new storage whenever the
    capacity is exceeded, and then stores through the old reference. *)
Theorem replace_dangles `{ByteOrder} `{ItchFormat} max_size msg out d v s :
  findState (stockLocate (or_stock_locate msg)) (or_get_old_ref msg) d = Some (v, s) →
  vec_size v ≤ or_get_new_ref msg → Z.of_nat (ov_cap v) ≤ or_get_new_ref msg →
  or_get_new_ref msg < max_size < 2 ^ 64 → decodeOrderReplace max_size msg out d = Undef.
Proof.
  intros Hf Hsz Hcap Hnew. unfold decodeOrderReplace. rewrite Hf.
  assert (0 ≤ or_get_new_ref msg) by (unfold vec_size in Hsz; lia).
  destruct (vec_grow_live max_size (or_get_new_ref msg) v) as (v1 & Hg & Hsz1 & _); [lia|lia|]. rewrite Hg. cbn [mbind outcome_bind].
  edestruct (vec_write_live (or_get_new_ref msg)) as (v2 & Hw & _ & _); [split; [|exact Hsz1]; lia|]. rewrite Hw. cbn [mbind outcome_bind].
  apply vec_grow_cap in Hg; [|lia]. rewrite bool_decide_true in Hg by done. apply vec_write_cap in Hw.
  unfold ref_read. cbn [vec_ref er_storage]. by rewrite bool_decide_false by congruence.
Qed.

Lemma replace_dangles_witness :
  decodeOrderReplace (2 ^ 20) (drop 8 (ex_replace 2 5 6 30 1001)) default_MarketUpdate ex_decoder = Undef ∧
  decode_all [ex_add 1 5 66 30 1000; ex_replace 2 5 6 30 1001] ItchDecoder_new = Undef.
Proof.
  split; [|vm_compute; reflexivity].
  destruct (findState 1 5 ex_decoder) as [[v s]|] eqn:Hf; [|vm_compute in Hf; discriminate].
  apply (replace_dangles (2 ^ 20) _ default_MarketUpdate ex_decoder v s).
  - exact Hf.
  - vm_compute in Hf. injection Hf as <- <-. vm_compute. discriminate.
  - vm_compute in Hf. injection Hf as <- <-. vm_compute. discriminate.
  - vm_compute. split; reflexivity.
Defined.

(** The count of tracked orders drifts: a replace adds one although the old
    order is gone, so after two adds and a replace the decoder reports three
    tracked orders while two are live. *)
Theorem replace_miscounts :
  match decode_all [ex_add 1 1 66 30 1000; ex_add 2 2 83 10 1002; ex_replace 3 1 3 30 1001] ItchDecoder_new with
  | Ok (us, d) => tracked_order_count_ d = 3 ∧ live 1 1 d = None ∧
      live 1 2 d = Some (mkOrderState SELL 1002 10 1) ∧ live 1 3 d = Some (mkOrderState BUY 1001 30 1) ∧ length us = 3%nat
  | _ => False
  end.
Proof. vm_compute. done. Qed.
