(* ===== verification/MarketData.v ===== *)
(** * [MarketDataConsumer] of [src/src/market_data/]

    The incremental feed, gap detection and the two recovery protocols: a full
    snapshot, or a replay of the missing frames, over TCP.  What the operating
    system returns is an argument: [net_ok] says that the calls checked by
    [ASSERT] in one start of a recovery succeeded, [TcpRead] is the result of one
    [recv].  The updates handed to the engine are also recorded in a history
    variable, because the engine consumes the queue. *)

From S2P Require Import Prelude Types QuantLink Bytes ItchDecoder.

(** ** [std::map<SeqNum, MarketUpdate>], in key order *)
Abbreviation QueuedUpdates := (list (SeqNum * MarketUpdate)).

(** [m[k] = u] *)
Fixpoint map_put (k : SeqNum) (u : MarketUpdate) (m : QueuedUpdates) : QueuedUpdates :=
  match m with
  | [] => [(k, u)]
  | (k', u') :: m' =>
      if k <? k' then (k, u) :: m
      else if k =? k' then (k, u) :: m'
      else (k', u') :: map_put k u m'
  end.

Inductive RecoveryMode : Type :=
| RM_None
| RM_Snapshot
| RM_Replay.

#[export] Instance RecoveryMode_eq_dec : EqDecision RecoveryMode.
Proof. solve_decision. Defined.

Definition REPLAY_CAPACITY : Z := 8192.

(** "NEXSUB" *)
Definition kRegistrationMagic : list Z := [78; 69; 88; 83; 85; 66].

Record MarketDataConsumer (Q : Type → Type) : Type := mkConsumer {
  incoming_md_updates_ : Q MarketUpdate;
  decoder_ : ItchDecoder;
  next_exp_inc_seq_num_ : SeqNum;
  in_recovery_ : bool;
  snapshot_have_start_ : bool;
  recovery_mode_ : RecoveryMode;
  replay_status_read_ : bool;
  replay_last_applied_ : SeqNum;
  snapshot_tcp_fd_ : Z;
  snapshot_tcp_buffer_ : list Z;
  incremental_queued_updates_ : QueuedUpdates;
  snapshot_queued_updates_ : list MarketUpdate;
  market_data_synchronized_ : bool;   (* the global gate *)
  md_inbound_ : list Z;               (* the socket's unread bytes *)
  open_fds_ : Z;                      (* sockets opened and not closed *)
  requests_ : list (list Z);          (* what was sent to the recovery server *)
  delivered_ : list MarketUpdate      (* history of successful pushes *)
}.
Arguments mkConsumer {Q} _ _ _ _ _ _ _ _ _ _ _ _ _ _ _ _ _.
Arguments incoming_md_updates_ {Q} _.
Arguments decoder_ {Q} _.
Arguments next_exp_inc_seq_num_ {Q} _.
Arguments in_recovery_ {Q} _.
Arguments snapshot_have_start_ {Q} _.
Arguments recovery_mode_ {Q} _.
Arguments replay_status_read_ {Q} _.
Arguments replay_last_applied_ {Q} _.
Arguments snapshot_tcp_fd_ {Q} _.
Arguments snapshot_tcp_buffer_ {Q} _.
Arguments incremental_queued_updates_ {Q} _.
Arguments snapshot_queued_updates_ {Q} _.
Arguments market_data_synchronized_ {Q} _.
Arguments md_inbound_ {Q} _.
Arguments open_fds_ {Q} _.
Arguments requests_ {Q} _.
Arguments delivered_ {Q} _.

Section Consumer.
Context `{ByteOrder} `{ItchFormat} {Q : Type → Type} `{SPSCQueue Q} (max_size : Z).
Abbreviation consumer := (MarketDataConsumer Q).
Implicit Types s : consumer.

Definition MarketDataConsumer_new (q : Q MarketUpdate) : consumer :=
  mkConsumer q ItchDecoder_new 0 false false RM_None false 0 (-1) [] [] [] false [] 0 [] [].

(** ** Field updates *)
Definition set_decoder (d : ItchDecoder) s : consumer :=
  mkConsumer (incoming_md_updates_ s) d (next_exp_inc_seq_num_ s) (in_recovery_ s) (snapshot_have_start_ s)
    (recovery_mode_ s) (replay_status_read_ s) (replay_last_applied_ s) (snapshot_tcp_fd_ s) (snapshot_tcp_buffer_ s)
    (incremental_queued_updates_ s) (snapshot_queued_updates_ s) (market_data_synchronized_ s) (md_inbound_ s) (open_fds_ s)
    (requests_ s) (delivered_ s).
Definition set_next_exp (n : SeqNum) s : consumer :=
  mkConsumer (incoming_md_updates_ s) (decoder_ s) n (in_recovery_ s) (snapshot_have_start_ s)
    (recovery_mode_ s) (replay_status_read_ s) (replay_last_applied_ s) (snapshot_tcp_fd_ s) (snapshot_tcp_buffer_ s)
    (incremental_queued_updates_ s) (snapshot_queued_updates_ s) (market_data_synchronized_ s) (md_inbound_ s) (open_fds_ s)
    (requests_ s) (delivered_ s).
(** [in_recovery_], [recovery_mode_] and the gate. *)
Definition set_mode (recovery : bool) (mode : RecoveryMode) (gate : bool) s : consumer :=
  mkConsumer (incoming_md_updates_ s) (decoder_ s) (next_exp_inc_seq_num_ s) recovery (snapshot_have_start_ s)
    mode (replay_status_read_ s) (replay_last_applied_ s) (snapshot_tcp_fd_ s) (snapshot_tcp_buffer_ s)
    (incremental_queued_updates_ s) (snapshot_queued_updates_ s) gate (md_inbound_ s) (open_fds_ s)
    (requests_ s) (delivered_ s).
Definition set_have_start (b : bool) s : consumer :=
  mkConsumer (incoming_md_updates_ s) (decoder_ s) (next_exp_inc_seq_num_ s) (in_recovery_ s) b
    (recovery_mode_ s) (replay_status_read_ s) (replay_last_applied_ s) (snapshot_tcp_fd_ s) (snapshot_tcp_buffer_ s)
    (incremental_queued_updates_ s) (snapshot_queued_updates_ s) (market_data_synchronized_ s) (md_inbound_ s) (open_fds_ s)
    (requests_ s) (delivered_ s).
Definition set_replay (read : bool) (last : SeqNum) s : consumer :=
  mkConsumer (incoming_md_updates_ s) (decoder_ s) (next_exp_inc_seq_num_ s) (in_recovery_ s) (snapshot_have_start_ s)
    (recovery_mode_ s) read last (snapshot_tcp_fd_ s) (snapshot_tcp_buffer_ s)
    (incremental_queued_updates_ s) (snapshot_queued_updates_ s) (market_data_synchronized_ s) (md_inbound_ s) (open_fds_ s)
    (requests_ s) (delivered_ s).
Definition set_buffer (l : list Z) s : consumer :=
  mkConsumer (incoming_md_updates_ s) (decoder_ s) (next_exp_inc_seq_num_ s) (in_recovery_ s) (snapshot_have_start_ s)
    (recovery_mode_ s) (replay_status_read_ s) (replay_last_applied_ s) (snapshot_tcp_fd_ s) l
    (incremental_queued_updates_ s) (snapshot_queued_updates_ s) (market_data_synchronized_ s) (md_inbound_ s) (open_fds_ s)
    (requests_ s) (delivered_ s).
Definition set_queued (inc : QueuedUpdates) (snap : list MarketUpdate) s : consumer :=
  mkConsumer (incoming_md_updates_ s) (decoder_ s) (next_exp_inc_seq_num_ s) (in_recovery_ s) (snapshot_have_start_ s)
    (recovery_mode_ s) (replay_status_read_ s) (replay_last_applied_ s) (snapshot_tcp_fd_ s) (snapshot_tcp_buffer_ s)
    inc snap (market_data_synchronized_ s) (md_inbound_ s) (open_fds_ s) (requests_ s) (delivered_ s).
Definition set_fd (fd opens : Z) s : consumer :=
  mkConsumer (incoming_md_updates_ s) (decoder_ s) (next_exp_inc_seq_num_ s) (in_recovery_ s) (snapshot_have_start_ s)
    (recovery_mode_ s) (replay_status_read_ s) (replay_last_applied_ s) fd (snapshot_tcp_buffer_ s)
    (incremental_queued_updates_ s) (snapshot_queued_updates_ s) (market_data_synchronized_ s) (md_inbound_ s) opens
    (requests_ s) (delivered_ s).
Definition set_requests (l : list (list Z)) s : consumer :=
  mkConsumer (incoming_md_updates_ s) (decoder_ s) (next_exp_inc_seq_num_ s) (in_recovery_ s) (snapshot_have_start_ s)
    (recovery_mode_ s) (replay_status_read_ s) (replay_last_applied_ s) (snapshot_tcp_fd_ s) (snapshot_tcp_buffer_ s)
    (incremental_queued_updates_ s) (snapshot_queued_updates_ s) (market_data_synchronized_ s) (md_inbound_ s) (open_fds_ s)
    l (delivered_ s).
Definition set_inbound (l : list Z) s : consumer :=
  mkConsumer (incoming_md_updates_ s) (decoder_ s) (next_exp_inc_seq_num_ s) (in_recovery_ s) (snapshot_have_start_ s)
    (recovery_mode_ s) (replay_status_read_ s) (replay_last_applied_ s) (snapshot_tcp_fd_ s) (snapshot_tcp_buffer_ s)
    (incremental_queued_updates_ s) (snapshot_queued_updates_ s) (market_data_synchronized_ s) l (open_fds_ s)
    (requests_ s) (delivered_ s).
Definition set_incoming (q : Q MarketUpdate) (log : list MarketUpdate) s : consumer :=
  mkConsumer q (decoder_ s) (next_exp_inc_seq_num_ s) (in_recovery_ s) (snapshot_have_start_ s)
    (recovery_mode_ s) (replay_status_read_ s) (replay_last_applied_ s) (snapshot_tcp_fd_ s) (snapshot_tcp_buffer_ s)
    (incremental_queued_updates_ s) (snapshot_queued_updates_ s) (market_data_synchronized_ s) (md_inbound_ s) (open_fds_ s)
    (requests_ s) log.

(** [++n] and [--n] of a 64-bit sequence number *)
Definition succ64 (n : SeqNum) : SeqNum := wrapU 64 (n + 1).
Definition pred64 (n : SeqNum) : SeqNum := wrapU 64 (n - 1).

(** [ASSERT(incoming_md_updates_->push(update), ...)] *)
Definition push (u : MarketUpdate) s : outcome consumer :=
  match q_push u (incoming_md_updates_ s) with
  | (true, q) => Ok (set_incoming q (delivered_ s ++ [u]) s)
  | (false, _) => Halt
  end.

Fixpoint push_list (us : list MarketUpdate) s : outcome consumer :=
  match us with
  | [] => Ok s
  | u :: us' => s ← push u s; push_list us' s
  end.

(** [close(snapshot_tcp_fd_); snapshot_tcp_fd_ = -1;] *)
Definition close_tcp s : consumer := set_fd (-1) (open_fds_ s - 1) s.
Definition close_tcp_if_open s : consumer := if snapshot_tcp_fd_ s =? -1 then s else close_tcp s.

(** ** Recovery *)

(** The socket calls of both start functions: [fd] is what [socket] returns,
    [net_ok] that the other calls succeed; each is asserted. *)
Definition open_tcp (net_ok : bool) (fd : Z) (request : list Z) s : outcome consumer :=
  if (0 <=? fd) && net_ok then Ok (set_requests (requests_ s ++ [request]) (set_fd fd (open_fds_ s + 1) s)) else Halt.

Definition startSnapshotSync (net_ok : bool) (fd : Z) s : outcome consumer :=
  let s := set_mode true RM_Snapshot false s in
  let s := set_have_start false s in
  let s := set_buffer [] (set_queued [] [] s) in
  open_tcp net_ok fd [83] s.

Definition startReplaySync (net_ok : bool) (fd : Z) (client_seq : SeqNum) (fresh : bool) s : outcome consumer :=
  let s := set_mode true RM_Replay false s in
  let s := set_replay false client_seq s in
  let s := if fresh then set_queued [] [] s else s in
  let s := set_buffer [] s in
  open_tcp net_ok fd (82 :: le_bytes 8 (swap64 client_seq)) s.

Definition abortSnapshotSync s : consumer :=
  let s := set_have_start false s in
  let s := set_queued [] [] s in
  let s := set_mode false RM_None false s in
  close_tcp_if_open s.

(** The contiguity test of both finish functions: the next expected number, or
    [None] at a hole. *)
Fixpoint contiguous_from (expected : SeqNum) (m : QueuedUpdates) : option SeqNum :=
  match m with
  | [] => Some expected
  | (seq_num, _) :: m' =>
      if seq_num <? expected then contiguous_from expected m'
      else if negb (seq_num =? expected) then None
      else contiguous_from (succ64 expected) m'
  end.

(** What the second loop pushes: the queued updates from [resume_seq] on. *)
Definition pending_from (resume_seq : SeqNum) (m : QueuedUpdates) : list MarketUpdate :=
  (filter (λ x, resume_seq ≤ x.1) m).*2.

Definition finishSnapshotSync (resume_seq : SeqNum) s : outcome consumer :=
  match contiguous_from resume_seq (incremental_queued_updates_ s) with
  | None => Ok (set_queued (incremental_queued_updates_ s) [] s)
  | Some expected =>
      s ← push_list (snapshot_queued_updates_ s) s;
      s ← push_list (pending_from resume_seq (incremental_queued_updates_ s)) s;
      let s := set_queued [] (snapshot_queued_updates_ s) s in
      let s := set_next_exp expected s in
      let s := set_mode false RM_None true s in
      Ok (close_tcp (set_queued [] [] s))
  end.

Definition finishReplaySync s : outcome consumer :=
  let resume_seq := succ64 (replay_last_applied_ s) in
  match contiguous_from resume_seq (incremental_queued_updates_ s) with
  | None => Ok (abortSnapshotSync s)
  | Some expected =>
      s ← push_list (snapshot_queued_updates_ s) s;
      s ← push_list (pending_from resume_seq (incremental_queued_updates_ s)) s;
      let s := set_queued [] (snapshot_queued_updates_ s) s in
      let s := set_next_exp expected s in
      let s := set_mode false RM_None true s in
      Ok (close_tcp_if_open (set_buffer [] (set_queued [] [] s)))
  end.

Definition processSnapshot (update : MarketUpdate) s : outcome consumer :=
  if negb (in_recovery_ s) then Ok s
  else if bool_decide (mu_type update = SNAPSHOT_START) then
    Ok (set_queued (incremental_queued_updates_ s) [update] (set_decoder (reset (decoder_ s)) (set_have_start true s)))
  else if negb (snapshot_have_start_ s) then Ok s
  else
    let s := set_queued (incremental_queued_updates_ s) (snapshot_queued_updates_ s ++ [update]) s in
    if bool_decide (mu_type update = SNAPSHOT_END)
    then finishSnapshotSync (succ64 (mu_order_ref update)) (set_have_start false s)
    else Ok s.

(** ** The incremental feed *)

Definition queueIncremental (update : MarketUpdate) s : consumer :=
  set_queued (map_put (mu_seq_num update) update (incremental_queued_updates_ s)) (snapshot_queued_updates_ s) s.

Definition detectGap (net_ok : bool) (fd : Z) (received_seq : SeqNum) s : outcome consumer :=
  if in_recovery_ s then Ok s
  else
    let s := set_mode true (recovery_mode_ s) false s in
    let gap := wrapU 64 (received_seq - next_exp_inc_seq_num_ s) in
    if gap <=? REPLAY_CAPACITY then startReplaySync net_ok fd (pred64 (next_exp_inc_seq_num_ s)) true s
    else startSnapshotSync net_ok fd s.

Definition processIncremental (net_ok : bool) (fd : Z) (update : MarketUpdate) s : outcome consumer :=
  if in_recovery_ s then Ok (queueIncremental update s)
  else
    let expected := next_exp_inc_seq_num_ s in
    if expected =? 0 then push update (set_next_exp (succ64 (mu_seq_num update)) s)
    else if mu_seq_num update =? expected then
      s ← push update s;
      Ok (set_next_exp (succ64 (next_exp_inc_seq_num_ s)) s)
    else if expected <? mu_seq_num update then
      s ← detectGap net_ok fd (mu_seq_num update) s;
      Ok (queueIncremental update s)
    else Ok s.

(** [for (; i + 9 <= valid;)] of [recvCallback]: the offset it stops at.  Every
    round advances, so [valid] rounds are enough. *)
Fixpoint recv_loop (net_ok : bool) (fd : Z) (fuel : nat) (data : list Z) (i : nat) s : outcome (nat * consumer) :=
  match fuel with
  | O => Ok (i, s)
  | S fuel' =>
      let wire := drop i data in
      if bool_decide (length wire < 9)%nat then Ok (i, s)
      else if bool_decide (take 6 wire = kRegistrationMagic) then recv_loop net_ok fd fuel' data (i + 6) s
      else
        '(ok, update, d) ← decode max_size wire default_MarketUpdate (decoder_ s);
        let s := set_decoder d s in
        if (ok : bool) then
          s ← processIncremental net_ok fd update s;
          recv_loop net_ok fd fuel' data (i + 8 + last_decoded_size_ (decoder_ s)) s
        else if need_more_data_ d then Ok (i, s)
        else recv_loop net_ok fd fuel' data (i + 1) s
  end.

Definition md_recvCallback (net_ok : bool) (fd : Z) s : outcome consumer :=
  if bool_decide (length (md_inbound_ s) < 9)%nat then Ok s
  else
    '(i, s) ← recv_loop net_ok fd (length (md_inbound_ s)) (md_inbound_ s) 0 s;
    Ok (set_inbound (drop i (md_inbound_ s)) s).

(** ** The recovery stream *)

(** The frame loop of [processReplay]; [None] is the early return after an
    abort, which leaves the buffer as it is. *)
Fixpoint replay_loop (fuel : nat) (buffer : list Z) (offset : nat) s : outcome (option nat * consumer) :=
  match fuel with
  | O => Ok (Some offset, s)
  | S fuel' =>
      if bool_decide (length buffer ≤ offset)%nat then Ok (Some offset, s)
      else
        '(ok, update, d) ← decode max_size (drop offset buffer) default_MarketUpdate (decoder_ s);
        let s := set_decoder d s in
        if negb ok then Ok (Some offset, s)
        else if negb (mu_seq_num update =? succ64 (replay_last_applied_ s)) then Ok (None, abortSnapshotSync s)
        else
          let s := set_replay (replay_status_read_ s) (mu_seq_num update) s in
          let s := set_queued (incremental_queued_updates_ s) (snapshot_queued_updates_ s ++ [update]) s in
          replay_loop fuel' buffer (offset + 8 + last_decoded_size_ d) s
  end.

Definition replay_frames s : outcome consumer :=
  '(r, s) ← replay_loop (length (snapshot_tcp_buffer_ s)) (snapshot_tcp_buffer_ s) 0 s;
  match r with
  | Some offset => Ok (set_buffer (drop offset (snapshot_tcp_buffer_ s)) s)
  | None => Ok s
  end.

Definition processReplay (net_ok : bool) (fd : Z) s : outcome consumer :=
  if replay_status_read_ s then replay_frames s
  else match snapshot_tcp_buffer_ s with
  | [] => Ok s
  | status :: rest =>
      let s := set_replay true (replay_last_applied_ s) (set_buffer rest s) in
      if status =? 82 then replay_frames s
      else if status =? 78 then startSnapshotSync net_ok fd (close_tcp s)
      else if status =? 67 then finishReplaySync (close_tcp s)
      else Ok (abortSnapshotSync s)
  end.

Definition onSnapshotTcpEof (net_ok : bool) (fd : Z) s : outcome consumer :=
  if bool_decide (recovery_mode_ s = RM_Replay) && replay_status_read_ s && bool_decide (snapshot_tcp_buffer_ s = [])
  then finishReplaySync s
  else if bool_decide (recovery_mode_ s = RM_Replay) && replay_status_read_ s
  then startReplaySync net_ok fd (replay_last_applied_ s) false (close_tcp s)
  else Ok (abortSnapshotSync s).

Fixpoint snapshot_loop (fuel : nat) (buffer : list Z) (offset : nat) s : outcome (nat * consumer) :=
  match fuel with
  | O => Ok (offset, s)
  | S fuel' =>
      if bool_decide (length buffer ≤ offset)%nat then Ok (offset, s)
      else
        '(ok, update, d) ← decodeSnapshot max_size (drop offset buffer) default_MarketUpdate (decoder_ s);
        let s := set_decoder d s in
        if negb ok then Ok (offset, s)
        else
          s ← processSnapshot update s;
          snapshot_loop fuel' buffer (offset + last_decoded_size_ d) s
  end.

(** The result of [recv] on the recovery socket. *)
Inductive TcpRead : Type :=
| TcpData (bytes : list Z)
| TcpEof
| TcpWouldBlock
| TcpError.

Definition readSnapshotTcp (net_ok : bool) (fd : Z) (r : TcpRead) s : outcome consumer :=
  match r with
  | TcpEof | TcpError => onSnapshotTcpEof net_ok fd s
  | TcpWouldBlock => Ok s
  | TcpData bytes =>
      let s := set_buffer (snapshot_tcp_buffer_ s ++ bytes) s in
      if bool_decide (recovery_mode_ s = RM_Replay) then processReplay net_ok fd s
      else
        '(offset, s) ← snapshot_loop (length (snapshot_tcp_buffer_ s)) (snapshot_tcp_buffer_ s) 0 s;
        Ok (set_buffer (drop offset (snapshot_tcp_buffer_ s)) s)
  end.

(** ** The thread *)

(** What one round of [run] meets: a datagram's bytes and the recovery socket's
    answer, and for each of the two the system calls of a recovery it starts
    (each starts at most one). *)
Record Round : Type := mkRoundCalls {
  rd_datagram : list Z;
  rd_tcp : TcpRead;
  rd_net_ok : bool;
  rd_fd : Z;
  rd_tcp_net_ok : bool;
  rd_tcp_fd : Z
}.

(** [sendAndRecv] appends what arrived and calls back; then the recovery socket
    is read if a recovery is on. *)
Definition run_round (r : Round) s : outcome consumer :=
  s ← match rd_datagram r with
      | [] => Ok s
      | bytes => md_recvCallback (rd_net_ok r) (rd_fd r) (set_inbound (md_inbound_ s ++ bytes) s)
      end;
  if in_recovery_ s then readSnapshotTcp (rd_tcp_net_ok r) (rd_tcp_fd r) (rd_tcp r) s else Ok s.

(** [start] up to the creation of the thread. *)
Definition start (net_ok : bool) (fd : Z) s : outcome consumer := startSnapshotSync net_ok fd s.
End Consumer.

(** A round whose two parts get the same answers to their system calls. *)
Abbreviation mkRound datagram tcp net_ok fd := (mkRoundCalls datagram tcp net_ok fd net_ok fd).
