(* ===== verification/RecoveryInv.v ===== *)
(** * The recovery state machine keeps the update stream whole

    What every reachable state of [MarketDataConsumer] satisfies, and that the
    updates handed to the engine form one stream without holes: consecutive
    sequence numbers, restarted only by complete snapshots. *)

From S2P Require Import Prelude Types QuantLink Bytes ItchDecoder DecoderProperties MarketData.

#[local] Arguments Z.eqb : simpl never.

(** ** Streams *)

(** [us] carries the numbers from [n] up to, not including, [m]. *)
Fixpoint chain (n : SeqNum) (us : list MarketUpdate) (m : SeqNum) : Prop :=
  match us with
  | [] => n = m
  | u :: us' => mu_seq_num u = n ∧ chain (succ64 n) us' m
  end.

(** A snapshot: from its start marker to its end marker, which names the last
    incremental it contains. *)
Definition snapshot_body (l : list MarketUpdate) : Prop :=
  ∃ first body, l = first :: body ∧ mu_type first = SNAPSHOT_START ∧
    Forall (λ u, mu_type u ≠ SNAPSHOT_START ∧ mu_type u ≠ SNAPSHOT_END) body.
Definition snapshot_burst (l : list MarketUpdate) (last : SeqNum) : Prop :=
  ∃ front fin, l = front ++ [fin] ∧ snapshot_body front ∧ mu_type fin = SNAPSHOT_END ∧ mu_order_ref fin = last.

(** What the engine may be given, and the number it comes to expect. *)
Inductive stream : list MarketUpdate → SeqNum → Prop :=
| stream_nil : stream [] 0
| stream_first l u : stream l 0 → stream (l ++ [u]) (succ64 (mu_seq_num u))
| stream_next l n u : stream l n → mu_seq_num u = n → stream (l ++ [u]) (succ64 n)
| stream_snapshot l n b last : stream l n → snapshot_burst b last → stream (l ++ b) (succ64 last).

Lemma stream_chain l n us m : stream l n → chain n us m → stream (l ++ us) m.
Proof.
  revert l n. induction us as [|u us IH]; intros l n Hs Hc; simpl in Hc; [subst; by rewrite app_nil_r|].
  destruct Hc as [Hu Hc]. rewrite cons_middle, app_assoc. eapply IH; [|exact Hc]. by apply stream_next.
Qed.

Lemma chain_snoc n us m u : chain n us m → mu_seq_num u = m → chain n (us ++ [u]) (succ64 m).
Proof.
  revert n. induction us as [|x us IH]; intros n; simpl; [by intros -> ->|]. intros [Hx Hc] Hu. split; [done|by apply IH].
Qed.

Lemma succ64_range n : 0 ≤ succ64 n < 2 ^ 64.
Proof. apply wrapU_range. lia. Qed.

Lemma succ64_pred64 n : 0 ≤ n < 2 ^ 64 → succ64 (pred64 n) = n.
Proof.
  intros Hn. unfold succ64, pred64, wrapU. rewrite Zplus_mod_idemp_l. replace (n - 1 + 1) with n by lia. by apply Z.mod_small.
Qed.

Lemma stream_range l n : stream l n → 0 ≤ n < 2 ^ 64.
Proof. intros [| | |]; [lia|apply succ64_range..]. Qed.

(** ** Queued updates *)

Definition wf_queued (m : QueuedUpdates) : Prop :=
  Sorted.StronglySorted (λ x y : SeqNum * MarketUpdate, x.1 < y.1) m ∧ Forall (λ x, mu_seq_num x.2 = x.1) m.

Lemma map_put_Forall (P : SeqNum * MarketUpdate → Prop) k u m : P (k, u) → Forall P m → Forall P (map_put k u m).
Proof.
  intros Hk. induction 1 as [|[k' u'] m Hx Hm IH]; simpl; [by constructor|].
  destruct (k <? k'); [by repeat constructor|]. destruct (k =? k'); by constructor.
Qed.

Lemma wf_queued_put u m : wf_queued m → wf_queued (map_put (mu_seq_num u) u m).
Proof.
  intros [Hs Hk]. split; [|by apply map_put_Forall]. induction m as [|[k' u'] m IH]; simpl; [by repeat constructor|].
  apply Sorted.StronglySorted_inv in Hs as [Hs Hm]. apply Forall_cons in Hk as [_ Hk].
  destruct (_ <? k') eqn:E1; bsplit.
  - constructor; [by constructor|]. constructor; [simpl; lia|]. eapply Forall_impl; [exact Hm|]. simpl. lia.
  - destruct (_ =? k') eqn:E2; bsplit.
    + constructor; [done|]. eapply Forall_impl; [exact Hm|]. simpl. lia.
    + constructor; [by apply IH|]. apply map_put_Forall; [simpl; lia|done].
Qed.

Lemma pending_from_all r m : Forall (λ x, r ≤ x.1) m → pending_from r m = m.*2.
Proof.
  unfold pending_from. induction 1 as [|x m Hx Hm IH]; [done|]. rewrite filter_cons_True by done. rewrite !fmap_cons. by f_equal.
Qed.

(** The contiguity test accepts exactly a chain. *)
Lemma contiguous_from_chain m : wf_queued m → ∀ e e', 0 ≤ e < 2 ^ 64 →
  contiguous_from e m = Some e' → chain e (pending_from e m) e'.
Proof.
  intros [Hs Hk]. induction Hs as [|[k u] m Hs IH Hm]; intros e e' He; simpl; [by intros [= ->]|].
  apply Forall_cons in Hk as [Hu Hk]. simpl in Hu. specialize (IH Hk).
  destruct (k <? e) eqn:E1; bsplit.
  - unfold pending_from. rewrite filter_cons_False by (simpl; lia). by apply IH.
  - destruct (k =? e) eqn:E2; bsplit; [|done]. subst k. intros Hc. unfold pending_from.
    rewrite filter_cons_True by (simpl; lia). cbn [fmap list_fmap snd]. split; [done|].
    assert (∀ r, r ≤ e + 1 → pending_from r m = m.*2) as Hall.
    { intros r Hr. apply pending_from_all. eapply Forall_impl; [exact Hm|]. simpl. lia. }
    change (chain (succ64 e) (pending_from e m) e'). rewrite Hall by lia.
    destruct (decide (e = 2 ^ 64 - 1)) as [->|Hne].
    + destruct m as [|[k' u'] m']; [by injection Hc as <-|]. exfalso. apply Forall_cons in Hm as [Hk' _]. simpl in Hk'.
      change (succ64 (2 ^ 64 - 1)) with 0 in Hc. simpl in Hc. rewrite (proj2 (Z.ltb_ge k' 0)) in Hc by lia.
      by rewrite (proj2 (Z.eqb_neq k' 0)) in Hc by lia.
    + assert (succ64 e = e + 1) as He1 by (apply wrapU_small; lia). rewrite He1 in *.
      rewrite <- (Hall (e + 1)) by lia. apply IH; [lia|done].
Qed.

(** ** The invariant *)

Section Invariant.
Context `{ByteOrder} `{ItchFormat} {Q : Type → Type} `{SPSCQueueLaws Q} (max_size : Z).
Context (popped : list MarketUpdate).   (* what the engine has taken so far *)
Implicit Types s : MarketDataConsumer Q.

Definition fifo s : Prop := popped ++ q_items (incoming_md_updates_ s) = delivered_ s.

Record consumer_ok s : Prop := {
  co_mode : in_recovery_ s = negb (bool_decide (recovery_mode_ s = RM_None));
  co_fd : in_recovery_ s = negb (snapshot_tcp_fd_ s =? -1);
  co_open : open_fds_ s = if in_recovery_ s then 1 else 0;
  co_gate : market_data_synchronized_ s = true → in_recovery_ s = false;
  co_queued : wf_queued (incremental_queued_updates_ s);
  co_idle : recovery_mode_ s = RM_None → incremental_queued_updates_ s = [] ∧ snapshot_queued_updates_ s = [];
  co_have_start : snapshot_have_start_ s = true → recovery_mode_ s = RM_Snapshot;
  co_snapshot : recovery_mode_ s = RM_Snapshot →
    if snapshot_have_start_ s then snapshot_body (snapshot_queued_updates_ s) else snapshot_queued_updates_ s = [];
  co_replay : recovery_mode_ s = RM_Replay →
    chain (next_exp_inc_seq_num_ s) (snapshot_queued_updates_ s) (succ64 (replay_last_applied_ s));
  co_stream : stream (delivered_ s) (next_exp_inc_seq_num_ s);
  co_fifo : fifo s
}.

Lemma wf_queued_nil : wf_queued [].
Proof using Type. split; constructor. Qed.

(** Fields the invariant does not mention. *)
Lemma consumer_ok_decoder d s : consumer_ok s → consumer_ok (set_decoder d s).
Proof using Type. intros []. by split. Qed.
Lemma consumer_ok_buffer l s : consumer_ok s → consumer_ok (set_buffer l s).
Proof using Type. intros []. by split. Qed.
Lemma consumer_ok_inbound l s : consumer_ok s → consumer_ok (set_inbound l s).
Proof using Type. intros []. by split. Qed.

Lemma push_run u s s' : push u s = Ok s' → ∃ q, s' = set_incoming q (delivered_ s ++ [u]) s.
Proof using Type. unfold push. destruct (q_push _ _) as [[] q]; [|done]. intros [= <-]. eauto. Qed.

Lemma push_list_run us s s' : push_list us s = Ok s' → ∃ q, s' = set_incoming q (delivered_ s ++ us) s.
Proof using Type.
  revert s. induction us as [|u us IH]; intros s; cbn [push_list].
  - intros [= <-]. exists (incoming_md_updates_ s). rewrite app_nil_r. by destruct s.
  - intros (s1 & Hp & Hl)%bind_Ok_inv. destruct (push_run _ _ _ Hp) as (q1 & ->).
    destruct (IH _ Hl) as (q2 & ->). exists q2. cbn [set_incoming delivered_]. by rewrite <- app_assoc.
Qed.

Lemma push_fifo u s s' : push u s = Ok s' → fifo s → fifo s'.
Proof using Type*.
  unfold push. destruct (q_push _ _) as [[] q] eqn:Hq; [|done]. intros [= <-].
  unfold fifo. simpl. rewrite (q_push_true _ _ _ _ Hq). intros <-. by rewrite app_assoc.
Qed.

Lemma push_list_fifo us s s' : push_list us s = Ok s' → fifo s → fifo s'.
Proof using Type*.
  revert s. induction us as [|u us IH]; intros s; cbn [push_list]; [by intros [= <-]|].
  intros (s1 & Hp & Hl)%bind_Ok_inv Hf. by eapply IH, push_fifo.
Qed.

(** Opening a recovery, when no socket is open. *)
Lemma open_tcp_run net_ok fd req s s' :
  open_tcp net_ok fd req s = Ok s' → 0 ≤ fd ∧ s' = set_requests (requests_ s ++ [req]) (set_fd fd (open_fds_ s + 1) s).
Proof using Type. unfold open_tcp. destruct (_ && _) eqn:E; [|done]. apply andb_true_iff in E as [?%Z.leb_le _]. by intros [= <-]. Qed.

Lemma startSnapshotSync_ok net_ok fd s s' :
  stream (delivered_ s) (next_exp_inc_seq_num_ s) → fifo s → open_fds_ s = 0 →
  startSnapshotSync net_ok fd s = Ok s' → consumer_ok s'.
Proof using Type.
  intros Hs Hf Ho [Hfd ->]%open_tcp_run. split; simpl; try done; try lia. apply wf_queued_nil.
Qed.

Lemma startReplaySync_ok net_ok fd seq (fresh : bool) s s' :
  stream (delivered_ s) (next_exp_inc_seq_num_ s) → fifo s → open_fds_ s = 0 → snapshot_have_start_ s = false →
  wf_queued (incremental_queued_updates_ s) →
  chain (next_exp_inc_seq_num_ s) (if fresh then [] else snapshot_queued_updates_ s) (succ64 seq) →
  startReplaySync net_ok fd seq fresh s = Ok s' → consumer_ok s'.
Proof using Type.
  intros Hs Hf Ho Hst Hq Hc [Hfd ->]%open_tcp_run. assert (negb (fd =? -1) = true) as Hn by (rewrite (proj2 (Z.eqb_neq _ _)); [done|lia]).
  destruct fresh; split; simpl; try done; try lia; try congruence. apply wf_queued_nil.
Qed.

Lemma abortSnapshotSync_ok s :
  stream (delivered_ s) (next_exp_inc_seq_num_ s) → fifo s → open_fds_ s = (if snapshot_tcp_fd_ s =? -1 then 0 else 1) →
  consumer_ok (abortSnapshotSync s).
Proof using Type.
  intros Hs Hf Ho. unfold abortSnapshotSync, close_tcp_if_open.
  cbn [set_mode set_queued set_have_start snapshot_tcp_fd_]. destruct (snapshot_tcp_fd_ s =? -1) eqn:E.
  - split; simpl; try done; [by rewrite E|apply wf_queued_nil].
  - split; simpl; try done; [lia|apply wf_queued_nil].
Qed.

Lemma consumer_ok_abort s : consumer_ok s → consumer_ok (abortSnapshotSync s).
Proof using Type.
  intros [? Hfd Ho ? ? ? ? ? ? Hs Hf]. apply abortSnapshotSync_ok; [done..|]. rewrite Ho, Hfd. by destruct (_ =? -1).
Qed.

(** Closing it. *)
Lemma finishSnapshotSync_ok last s s' :
  in_recovery_ s = true → recovery_mode_ s = RM_Snapshot → snapshot_tcp_fd_ s ≠ -1 → open_fds_ s = 1 →
  market_data_synchronized_ s = false → snapshot_have_start_ s = false → wf_queued (incremental_queued_updates_ s) →
  stream (delivered_ s) (next_exp_inc_seq_num_ s) → fifo s → snapshot_burst (snapshot_queued_updates_ s) last →
  finishSnapshotSync (succ64 last) s = Ok s' → consumer_ok s'.
Proof using Type*.
  intros Hrec Hmode Hfd Ho Hg Hst Hq Hs Hf Hb. unfold finishSnapshotSync.
  destruct (contiguous_from _ _) as [expected|] eqn:Hc.
  - intros (s1 & Hp1 & Hr)%bind_Ok_inv. pose proof (push_list_fifo _ _ _ Hp1 Hf) as Hf1. destruct (push_list_run _ _ _ Hp1) as (q1 & ->).
    apply bind_Ok_inv in Hr as (s2 & Hp2 & Hr). 
    pose proof (push_list_fifo _ _ _ Hp2 Hf1) as Hf2. destruct (push_list_run _ _ _ Hp2) as (q2 & ->). injection Hr as <-.
    apply contiguous_from_chain in Hc; [|done|apply succ64_range].
    pose proof (stream_chain _ _ _ _ (stream_snapshot _ _ _ _ Hs Hb) Hc) as Hs'.
    split; simpl; try done; [lia|apply wf_queued_nil|congruence].
  - intros [= <-]. split; simpl; rewrite ?Hmode; try done; try congruence.
    + by rewrite (proj2 (Z.eqb_neq _ _) Hfd).
    + by rewrite Hrec.
    + by rewrite Hst.
Qed.

Lemma finishReplaySync_ok s s' :
  open_fds_ s = (if snapshot_tcp_fd_ s =? -1 then 0 else 1) → snapshot_have_start_ s = false →
  wf_queued (incremental_queued_updates_ s) → stream (delivered_ s) (next_exp_inc_seq_num_ s) → fifo s →
  chain (next_exp_inc_seq_num_ s) (snapshot_queued_updates_ s) (succ64 (replay_last_applied_ s)) →
  finishReplaySync s = Ok s' → consumer_ok s'.
Proof using Type*.
  intros Ho Hst Hq Hs Hf Hch. unfold finishReplaySync. destruct (contiguous_from _ _) as [expected|] eqn:Hc.
  - intros (s1 & Hp1 & Hr)%bind_Ok_inv. pose proof (push_list_fifo _ _ _ Hp1 Hf) as Hf1. destruct (push_list_run _ _ _ Hp1) as (q1 & ->).
    apply bind_Ok_inv in Hr as (s2 & Hp2 & Hr). 
    pose proof (push_list_fifo _ _ _ Hp2 Hf1) as Hf2. destruct (push_list_run _ _ _ Hp2) as (q2 & ->). injection Hr as <-.
    apply contiguous_from_chain in Hc; [|done|apply succ64_range].
    pose proof (stream_chain _ _ _ _ (stream_chain _ _ _ _ Hs Hch) Hc) as Hs'.
    unfold close_tcp_if_open. cbn [set_buffer set_queued set_mode set_next_exp set_incoming snapshot_tcp_fd_].
    destruct (snapshot_tcp_fd_ s =? -1) eqn:E; split; simpl; try done; try congruence; try apply wf_queued_nil; lia.
  - intros [= <-]. by apply abortSnapshotSync_ok.
Qed.

(** ** Every operation keeps it *)

Lemma consumer_ok_fds s : consumer_ok s → open_fds_ s = if snapshot_tcp_fd_ s =? -1 then 0 else 1.
Proof using Type. intros [? Hfd -> ? ? ? ? ? ? ? ?]. rewrite Hfd. by destruct (_ =? -1). Qed.

Lemma recovering s : consumer_ok s → recovery_mode_ s ≠ RM_None →
  in_recovery_ s = true ∧ snapshot_tcp_fd_ s ≠ -1 ∧ open_fds_ s = 1 ∧ market_data_synchronized_ s = false.
Proof using Type.
  intros [Hm Hfd Ho Hg ? ? ? ? ? ? ?] Hne. rewrite bool_decide_false in Hm by done. simpl in Hm. rewrite Hm in *.
  split_and!; try done.
  - intros E. by rewrite E, Z.eqb_refl in Hfd.
  - destruct (market_data_synchronized_ s); [by specialize (Hg eq_refl)|done].
Qed.

Lemma processSnapshot_ok u s s' : consumer_ok s → recovery_mode_ s ≠ RM_Replay → processSnapshot u s = Ok s' → consumer_ok s'.
Proof using Type*.
  intros Hok Hnr. unfold processSnapshot. destruct (in_recovery_ s) eqn:Hrec; [|by intros [= <-]]. cbn [negb].
  assert (recovery_mode_ s = RM_Snapshot) as Hmode.
  { pose proof (co_mode _ Hok) as Hm. destruct (recovery_mode_ s); [|done|done]. rewrite Hrec in Hm. done. }
  destruct (recovering s Hok) as (_ & Hfd & Ho & Hg); [by rewrite Hmode|].
  case_bool_decide as Hst.
  { intros [= <-]. destruct Hok. split; simpl; try done; try congruence. intros _. exists u, []. by split_and!. }
  destruct (snapshot_have_start_ s) eqn:Hhs; [|by intros [= <-]]. cbn [negb].
  pose proof (co_snapshot _ Hok Hmode) as Hbody. rewrite Hhs in Hbody.
  case_bool_decide as Hend.
  - intros Hf. eapply finishSnapshotSync_ok; [..|exact Hf]; simpl; try done; try apply Hok.
    exists (snapshot_queued_updates_ s), u. by split_and!.
  - intros [= <-]. destruct Hok. split; simpl; try done; try congruence. rewrite Hhs. intros _.
    destruct Hbody as (first & body & -> & Hfirst & Hbody). exists first, (body ++ [u]). split_and!; try done.
    apply Forall_app. split; [done|by apply Forall_singleton].
Qed.

Lemma queueIncremental_ok u s : consumer_ok s → in_recovery_ s = true → consumer_ok (queueIncremental u s).
Proof using Type.
  intros Hok Hrec. destruct Hok as [Hm ? ? ? Hq ? ? ? ? ? ?]. split; simpl; try done.
  - by apply wf_queued_put.
  - intros E. rewrite Hrec, E in Hm. done.
Qed.

Lemma idle s : consumer_ok s → in_recovery_ s = false → recovery_mode_ s = RM_None ∧ open_fds_ s = 0 ∧ snapshot_have_start_ s = false.
Proof using Type.
  intros [Hm ? Ho ? ? ? Hst ? ? ? ?] Hrec. rewrite Hrec in *. split_and!; try done.
  - destruct (recovery_mode_ s); done.
  - destruct (snapshot_have_start_ s); [|done]. specialize (Hst eq_refl). rewrite Hst in Hm. done.
Qed.

Lemma detectGap_ok net_ok fd seq s s' :
  consumer_ok s → in_recovery_ s = false → detectGap net_ok fd seq s = Ok s' →
  consumer_ok s' ∧ in_recovery_ s' = true.
Proof using Type.
  intros Hok Hrec. unfold detectGap. rewrite Hrec. destruct (idle s Hok Hrec) as (Hmode & Ho & Hst).
  pose proof (co_stream _ Hok) as Hs. destruct (_ <=? REPLAY_CAPACITY); intros Hr; (split; [|by apply open_tcp_run in Hr as [_ ->]]).
  - eapply startReplaySync_ok; [..|exact Hr]; simpl; try done; [apply Hok..|]. rewrite succ64_pred64; [done|].
    by eapply stream_range.
  - eapply startSnapshotSync_ok; [..|exact Hr]; try done. apply Hok.
Qed.

Lemma push_next_ok u s s' n :
  consumer_ok s → in_recovery_ s = false → stream (delivered_ s ++ [u]) n → push u s = Ok s' → consumer_ok (set_next_exp n s').
Proof using Type*.
  intros Hok Hrec Hs Hp. pose proof (push_fifo _ _ _ Hp (co_fifo _ Hok)) as Hf. apply push_run in Hp as (q & ->). destruct (idle s Hok Hrec) as (Hmode & _). destruct Hok.
  split; simpl; try done; congruence.
Qed.

Lemma processIncremental_ok net_ok fd u s s' :
  consumer_ok s → processIncremental net_ok fd u s = Ok s' → consumer_ok s'.
Proof using Type*.
  intros Hok. unfold processIncremental. destruct (in_recovery_ s) eqn:Hrec.
  { intros [= <-]. by apply queueIncremental_ok. }
  pose proof (co_stream _ Hok) as Hs. destruct (next_exp_inc_seq_num_ s =? 0) eqn:E0; bsplit.
  { intros Hp. pose proof (push_fifo _ _ _ Hp (co_fifo _ Hok)) as Hf. apply push_run in Hp as (q & ->). destruct (idle s Hok Hrec) as (Hmode & _). rewrite E0 in Hs.
    pose proof (stream_first _ u Hs) as Hs'. destruct Hok. split; simpl; try done; congruence. }
  destruct (mu_seq_num u =? _) eqn:E1; bsplit.
  { intros (s1 & Hp & Hr)%bind_Ok_inv. injection Hr as <-. pose proof Hp as (q & ->)%push_run. cbn [set_incoming next_exp_inc_seq_num_].
    eapply push_next_ok; try done. by apply stream_next. }
  destruct (_ <? _); [|by intros [= <-]]. intros (s1 & Hg & Hr)%bind_Ok_inv. injection Hr as <-.
  destruct (detectGap_ok _ _ _ _ _ Hok Hrec Hg). by apply queueIncremental_ok.
Qed.

(** ** The loops *)

Lemma processSnapshot_mode u s s' :
  recovery_mode_ s ≠ RM_Replay → processSnapshot u s = Ok s' → recovery_mode_ s' ≠ RM_Replay.
Proof using Type.
  intros Hm. unfold processSnapshot, finishSnapshotSync. intros Hr.
  repeat match goal with
  | Hx : (if ?b then _ else _) = Ok _ |- _ => destruct b
  | Hx : match ?o with Some _ => _ | None => _ end = Ok _ |- _ => destruct o
  | Hx : _ ≫= _ = Ok _ |- _ => apply bind_Ok_inv in Hx as (? & (? & ->)%push_list_run & Hx)
  | Hx : Ok _ = Ok _ |- _ => injection Hx as <-
  end; done.
Qed.

Lemma snapshot_loop_ok fuel buffer : ∀ offset s offset' s',
  consumer_ok s → recovery_mode_ s ≠ RM_Replay →
  snapshot_loop max_size fuel buffer offset s = Ok (offset', s') → consumer_ok s'.
Proof using Type*.
  induction fuel as [|fuel IH]; intros offset s offset' s' Hok Hm; cbn [snapshot_loop]; [by intros [= _ <-]|].
  case_bool_decide; [by intros [= _ <-]|]. intros ([[ok u] d] & _ & Hr)%bind_Ok_inv. destruct ok; cbn [negb] in Hr.
  2:{ injection Hr as _ <-. by apply consumer_ok_decoder. }
  apply bind_Ok_inv in Hr as (s1 & Hp & Hr). eapply IH; [..|exact Hr].
  - eapply processSnapshot_ok; [..|exact Hp]; [by apply consumer_ok_decoder|done].
  - by eapply processSnapshot_mode; [|exact Hp].
Qed.

(** A frame of the replay extends the chain. *)
Lemma replay_frame_ok u s :
  consumer_ok s → recovery_mode_ s = RM_Replay → mu_seq_num u = succ64 (replay_last_applied_ s) →
  consumer_ok (set_queued (incremental_queued_updates_ s) (snapshot_queued_updates_ s ++ [u])
                 (set_replay (replay_status_read_ s) (mu_seq_num u) s)).
Proof using Type.
  intros Hok Hm Hu. pose proof (co_replay _ Hok Hm) as Hch. destruct Hok. split; simpl; try done; try congruence.
  intros _. rewrite Hu. by apply chain_snoc.
Qed.

Lemma replay_loop_ok fuel buffer : ∀ offset s r s',
  consumer_ok s → recovery_mode_ s = RM_Replay → replay_loop max_size fuel buffer offset s = Ok (r, s') → consumer_ok s'.
Proof using Type.
  induction fuel as [|fuel IH]; intros offset s r s' Hok Hm; cbn [replay_loop]; [by intros [= _ <-]|].
  case_bool_decide; [by intros [= _ <-]|]. intros ([[ok u] d] & _ & Hr)%bind_Ok_inv.
  apply (consumer_ok_decoder d) in Hok. destruct ok; cbn [negb] in Hr; [|by injection Hr as _ <-].
  destruct (mu_seq_num u =? _) eqn:E; cbn [negb] in Hr; bsplit.
  2:{ injection Hr as _ <-. by apply consumer_ok_abort. }
  eapply IH; [| |exact Hr]; [exact (replay_frame_ok u (set_decoder d s) Hok Hm E)|done].
Qed.

Lemma replay_frames_ok s s' : consumer_ok s → recovery_mode_ s = RM_Replay → replay_frames max_size s = Ok s' → consumer_ok s'.
Proof using Type.
  intros Hok Hm. unfold replay_frames. intros ([r s1] & Hl & Hr)%bind_Ok_inv.
  apply replay_loop_ok in Hl; [|done|done]. destruct r; injection Hr as <-; [by apply consumer_ok_buffer|done].
Qed.

Lemma consumer_ok_status b s : consumer_ok s → consumer_ok (set_replay b (replay_last_applied_ s) s).
Proof using Type. intros []. by split. Qed.

Lemma processReplay_ok net_ok fd s s' :
  consumer_ok s → recovery_mode_ s = RM_Replay → processReplay max_size net_ok fd s = Ok s' → consumer_ok s'.
Proof using Type*.
  intros Hok Hm. unfold processReplay. destruct (replay_status_read_ s); [by apply replay_frames_ok|].
  destruct (snapshot_tcp_buffer_ s) as [|status rest]; [by intros [= <-]|].
  assert (consumer_ok (set_replay true (replay_last_applied_ s) (set_buffer rest s))) as Hok'.
  { apply (consumer_ok_status true (set_buffer rest s)). by apply consumer_ok_buffer. }
  destruct (recovering s Hok) as (_ & Hfd0 & Ho & _); [by rewrite Hm|].
  assert (snapshot_have_start_ s = false) as Hst.
  { destruct (snapshot_have_start_ s) eqn:E; [|done]. pose proof (co_have_start _ Hok E). congruence. }
  destruct (status =? 82); [by apply replay_frames_ok|]. destruct (status =? 78).
  { intros Hr. eapply startSnapshotSync_ok; [..|exact Hr]; [apply Hok|exact (co_fifo _ Hok)|simpl; lia]. }
  destruct (status =? 67).
  - intros Hr. eapply finishReplaySync_ok; [..|exact Hr]; try done; simpl; [lia|apply Hok|apply Hok|exact (co_fifo _ Hok)|by apply Hok].
  - intros [= <-]. by apply consumer_ok_abort.
Qed.

Lemma onSnapshotTcpEof_ok net_ok fd s s' :
  consumer_ok s → onSnapshotTcpEof net_ok fd s = Ok s' → consumer_ok s'.
Proof using Type*.
  intros Hok. unfold onSnapshotTcpEof.
  destruct (bool_decide (recovery_mode_ s = RM_Replay)) eqn:Em; cbn [andb]; [|intros [= <-]; by apply consumer_ok_abort].
  bsplit. destruct (recovering s Hok) as (_ & _ & Ho & _); [by rewrite Em|].
  assert (snapshot_have_start_ s = false) as Hst.
  { destruct (snapshot_have_start_ s) eqn:E; [|done]. pose proof (co_have_start _ Hok E). congruence. }
  destruct (replay_status_read_ s); cbn [andb]; [|intros [= <-]; by apply consumer_ok_abort].
  case_bool_decide; intros Hr.
  - eapply finishReplaySync_ok; [..|exact Hr]; try done; [by apply consumer_ok_fds|apply Hok|apply Hok|exact (co_fifo _ Hok)|by apply Hok].
  - eapply startReplaySync_ok; [..|exact Hr]; try done; simpl; [apply Hok|exact (co_fifo _ Hok)|lia|apply Hok|by apply Hok].
Qed.

Lemma readSnapshotTcp_ok net_ok fd r s s' :
  consumer_ok s → readSnapshotTcp max_size net_ok fd r s = Ok s' → consumer_ok s'.
Proof using Type*.
  intros Hok. destruct r as [bytes| | |]; cbn [readSnapshotTcp];
    [|by apply onSnapshotTcpEof_ok|by intros [= <-]|by apply onSnapshotTcpEof_ok].
  apply (consumer_ok_buffer (snapshot_tcp_buffer_ s ++ bytes)) in Hok. case_bool_decide as Hm; [by apply processReplay_ok|].
  intros ([offset s1] & Hl & Hr)%bind_Ok_inv. injection Hr as <-. apply consumer_ok_buffer.
  by eapply snapshot_loop_ok; [..|exact Hl].
Qed.

Lemma recv_loop_ok net_ok fd fuel data : ∀ i s i' s',
  consumer_ok s → recv_loop max_size net_ok fd fuel data i s = Ok (i', s') → consumer_ok s'.
Proof using Type*.
  induction fuel as [|fuel IH]; intros i s i' s' Hok; cbn [recv_loop]; [by intros [= _ <-]|].
  case_bool_decide; [by intros [= _ <-]|]. case_bool_decide; [by apply IH|].
  intros ([[ok u] d] & _ & Hr)%bind_Ok_inv. apply (consumer_ok_decoder d) in Hok. destruct ok.
  - apply bind_Ok_inv in Hr as (s1 & Hp & Hr). eapply IH; [|exact Hr]. by eapply processIncremental_ok; [..|exact Hp].
  - destruct (need_more_data_ d); [by injection Hr as _ <-|]. by eapply IH; [|exact Hr].
Qed.

Lemma run_round_ok r s s' : consumer_ok s → run_round max_size r s = Ok s' → consumer_ok s'.
Proof using Type*.
  intros Hok. unfold run_round. intros (s1 & Hd & Hr)%bind_Ok_inv.
  assert (consumer_ok s1) as Hok1.
  { destruct (rd_datagram r) as [|b bytes]; [by injection Hd as <-|]. unfold md_recvCallback in Hd.
    apply (consumer_ok_inbound (md_inbound_ s ++ b :: bytes)) in Hok. case_bool_decide; [by injection Hd as <-|].
    apply bind_Ok_inv in Hd as ([i s2] & Hl & Hd). injection Hd as <-. apply consumer_ok_inbound.
    by eapply recv_loop_ok; [..|exact Hl]. }
  destruct (in_recovery_ s1); [by eapply readSnapshotTcp_ok; [..|exact Hr]|by injection Hr as <-].
Qed.

End Invariant.

(** ** Reachable states *)

Section Reachable.
Context `{ByteOrder} `{ItchFormat} {Q : Type → Type} `{SPSCQueue Q} (max_size : Z).
Implicit Types s : MarketDataConsumer Q.

(** A run of the program from [start]: rounds of the consumer's thread and the
    engine taking updates from the queue, in any order.  The list is what the
    engine has taken. *)
Inductive consumer_run : list MarketUpdate → MarketDataConsumer Q → Prop :=
| run_start q net_ok fd s : q_items q = [] →
    start net_ok fd (MarketDataConsumer_new q) = Ok s → consumer_run [] s
| run_consumer popped r s s' : consumer_run popped s → run_round max_size r s = Ok s' → consumer_run popped s'
| run_engine popped s u q : consumer_run popped s → q_pop (incoming_md_updates_ s) = Some (u, q) →
    consumer_run (popped ++ [u]) (set_incoming q (delivered_ s) s).

Lemma consumer_run_ok `{!SPSCQueueLaws Q} popped s : consumer_run popped s → consumer_ok popped s.
Proof using Type.
  induction 1 as [q net_ok fd s Hq Hs|popped r s s' _ IH Hr|popped s u q _ IH Hp].
  - eapply startSnapshotSync_ok; [..|exact Hs]; [constructor|exact Hq|done].
  - by eapply run_round_ok.
  - destruct IH as [? ? ? ? ? ? ? ? ? ? Hf]. split; try done. unfold fifo in *. rewrite <- app_assoc. simpl.
    by rewrite <- (q_pop_Some _ _ _ _ Hp).
Qed.
End Reachable.
