(* ===== verification/RecoveryProperties.v ===== *)
(** * Properties of the market-data consumer

    The recovery state machine is consistent in every reachable state, the
    engine's update stream has no holes, the datagram boundaries of the feed do
    not matter, and a replay closes the gap it was requested for. *)

From S2P Require Import Prelude Types QuantLink Bytes ItchDecoder DecoderProperties MarketData RecoveryInv.

(** ** Decoding and the consumer's flags *)

Section Feed.
Context `{ByteOrder} `{ItchFormat} {Q : Type → Type} `{SPSCQueue Q} (max_size : Z) (net_ok : bool) (fd : Z).
Implicit Types s : MarketDataConsumer Q.

Lemma decode_flags wire out n b d : decode max_size wire out (set_flags n b d) = decode max_size wire out d.
Proof using Type. done. Qed.

(** A result that does not ask for more is the same with more bytes behind. *)
Lemma decode_settled wire more out d ok u d' :
  decode max_size wire out d = Ok (ok, u, d') → need_more_data_ d' = false →
  decode max_size (wire ++ more) out d = Ok (ok, u, d').
Proof using Type.
  intros Hr Hn. destruct (wire !! 8%nat) as [ty|] eqn:Ht.
  2:{ unfold decode in Hr. rewrite Ht in Hr. by injection Hr as <- <- <-. }
  rewrite (decode_complete_app max_size wire more out d ty Ht); [done|]. intros Hk.
  destruct (decide (length wire < 8 + payload_size ty)%nat) as [Hs|Hs]; [|lia].
  unfold decode in Hr. rewrite Ht, Hk, bool_decide_true in Hr by done. by injection Hr as <- <- <-.
Qed.

(** Failures of decoding do not depend on what follows either. *)
Lemma decode_more_stuck wire out d ok u d' :
  decode max_size wire out d = Ok (ok, u, d') → need_more_data_ d' = true →
  ok = false ∧ d' = set_flags 0 true d.
Proof using Type.
  unfold decode. destruct (wire !! 8%nat) as [ty|]; [|by intros [= <- _ <-]].
  destruct (known_type ty); cbn [negb]; [|by intros [= <- _ <-]].
  case_bool_decide; [by intros [= <- _ <-]|]. intros Hr Hn.
  apply decodePayload_flags in Hr as [_ Hf]. by rewrite Hn in Hf.
Qed.

Lemma decode_failed wire more out d r :
  decode max_size wire out d = r → (∀ x, r ≠ Ok x) → decode max_size (wire ++ more) out d = r.
Proof using Type.
  intros Hr Hf. destruct (wire !! 8%nat) as [ty|] eqn:Ht.
  2:{ unfold decode in Hr. rewrite Ht in Hr. subst. by destruct (Hf _ eq_refl). }
  rewrite (decode_complete_app max_size wire more out d ty Ht); [done|]. intros Hk.
  destruct (decide (length wire < 8 + payload_size ty)%nat) as [Hs|Hs]; [|lia].
  unfold decode in Hr. rewrite Ht, Hk, bool_decide_true in Hr by done. subst. by destruct (Hf _ eq_refl).
Qed.

(** ** The feed as a stream of bytes *)

(** [recv_loop] on the unread bytes themselves; returns what is left. *)
Fixpoint recv_wire (fuel : nat) (wire : list Z) s : outcome (list Z * MarketDataConsumer Q) :=
  match fuel with
  | O => Ok (wire, s)
  | S fuel' =>
      if bool_decide (length wire < 9)%nat then Ok (wire, s)
      else if bool_decide (take 6 wire = kRegistrationMagic) then recv_wire fuel' (drop 6 wire) s
      else
        '(ok, update, d) ← decode max_size wire default_MarketUpdate (decoder_ s);
        let s := set_decoder d s in
        if (ok : bool) then
          s ← processIncremental net_ok fd update s;
          recv_wire fuel' (drop (8 + last_decoded_size_ (decoder_ s)) wire) s
        else if need_more_data_ d then Ok (wire, s)
        else recv_wire fuel' (drop 1 wire) s
  end.

Lemma recv_loop_wire fuel data : ∀ i s,
  ('(i', s') ← recv_loop max_size net_ok fd fuel data i s; Ok (drop i' data, s')) = recv_wire fuel (drop i data) s.
Proof using Type.
  induction fuel as [|fuel IH]; intros i s; cbn [recv_loop recv_wire]; [done|].
  case_bool_decide; [done|]. case_bool_decide.
  { rewrite IH, drop_drop. done. }
  destruct (decode _ _ _ _) as [[[ok u] d]| |]; cbn [mbind outcome_bind]; [|done|done]. destruct ok.
  - destruct (processIncremental _ _ _ _) as [s1| |]; cbn [mbind outcome_bind]; [|done|done].
    rewrite IH, drop_drop. by rewrite Nat.add_assoc.
  - destruct (need_more_data_ d); [done|]. by rewrite IH, drop_drop.
Qed.

(** More fuel than bytes changes nothing. *)
Lemma recv_wire_fuel fuel fuel' wire : (length wire ≤ fuel)%nat → (length wire ≤ fuel')%nat →
  ∀ s, recv_wire fuel wire s = recv_wire fuel' wire s.
Proof using Type.
  revert fuel' wire. induction fuel as [|fuel IH]; intros [|fuel'] wire Hf Hf' s; cbn [recv_wire]; try done.
  - by rewrite bool_decide_true by lia.
  - by rewrite bool_decide_true by lia.
  - case_bool_decide; [done|]. case_bool_decide; [apply IH; rewrite length_drop; lia|].
    destruct (decode _ _ _ _) as [[[ok u] d]| |]; cbn [mbind outcome_bind]; [|done|done]. destruct ok.
    + destruct (processIncremental _ _ _ _) as [s1| |]; cbn [mbind outcome_bind]; [|done|done].
      apply IH; rewrite length_drop; lia.
    + destruct (need_more_data_ d); [done|]. apply IH; rewrite length_drop; lia.
Qed.

Definition recv_all (wire : list Z) s : outcome (list Z * MarketDataConsumer Q) := recv_wire (length wire) wire s.

Lemma recv_all_step wire s : (9 ≤ length wire)%nat →
  recv_all wire s =
    if bool_decide (take 6 wire = kRegistrationMagic) then recv_all (drop 6 wire) s
    else
      '(ok, update, d) ← decode max_size wire default_MarketUpdate (decoder_ s);
      let s := set_decoder d s in
      if (ok : bool) then
        s ← processIncremental net_ok fd update s;
        recv_all (drop (8 + last_decoded_size_ (decoder_ s)) wire) s
      else if need_more_data_ d then Ok (wire, s)
      else recv_all (drop 1 wire) s.
Proof using Type.
  intros Hl. unfold recv_all at 1. destruct (length wire) as [|n] eqn:Hn; [lia|]. cbn [recv_wire].
  rewrite bool_decide_false by lia. case_bool_decide; [apply recv_wire_fuel; rewrite length_drop; lia|].
  destruct (decode _ _ _ _) as [[[ok u] d]| |]; cbn [mbind outcome_bind]; [|done|done]. destruct ok.
  - destruct (processIncremental _ _ _ _) as [s1| |]; cbn [mbind outcome_bind]; [|done|done].
    apply recv_wire_fuel; rewrite length_drop; lia.
  - destruct (need_more_data_ d); [done|]. apply recv_wire_fuel; rewrite length_drop; lia.
Qed.

Lemma recv_all_short wire s : (length wire < 9)%nat → recv_all wire s = Ok (wire, s).
Proof using Type. intros Hl. unfold recv_all. destruct (length wire) eqn:E; cbn [recv_wire]; [done|]. by rewrite bool_decide_true by lia. Qed.

Lemma decode_ok_length wire out d u d' :
  decode max_size wire out d = Ok (true, u, d') → need_more_data_ d' = false ∧ (8 + last_decoded_size_ d' ≤ length wire)%nat.
Proof using Type.
  unfold decode. destruct (wire !! 8%nat) as [ty|]; [|done]. destruct (known_type ty); cbn [negb]; [|done].
  case_bool_decide; [done|]. intros Hr. apply decodePayload_flags in Hr as [-> ->]. simpl. split; [done|lia].
Qed.

(** What a step leaves alone. *)
Lemma processIncremental_frame u s s' :
  processIncremental net_ok fd u s = Ok s' → decoder_ s' = decoder_ s ∧ md_inbound_ s' = md_inbound_ s.
Proof using Type.
  unfold processIncremental, detectGap, startReplaySync, startSnapshotSync. intros Hr.
  repeat match goal with
  | Hx : (if ?b then _ else _) = Ok _ |- _ => destruct b
  | Hx : _ ≫= _ = Ok _ |- _ => apply bind_Ok_inv in Hx as (? & ? & Hx)
  | Hx : push _ _ = Ok _ |- _ => apply push_run in Hx as (? & ->)
  | Hx : open_tcp _ _ _ _ = Ok _ |- _ => apply open_tcp_run in Hx as [_ ->]
  | Hx : Ok _ = Ok _ |- _ => injection Hx as <-
  end; done.
Qed.

Lemma recv_wire_inbound fuel : ∀ wire s rest s', recv_wire fuel wire s = Ok (rest, s') → md_inbound_ s' = md_inbound_ s.
Proof using Type.
  induction fuel as [|fuel IH]; intros wire s rest s'; cbn [recv_wire]; [by intros [= _ <-]|].
  case_bool_decide; [by intros [= _ <-]|]. case_bool_decide; [apply IH|].
  intros ([[ok u] d] & _ & Hr)%bind_Ok_inv. destruct ok.
  - apply bind_Ok_inv in Hr as (s1 & Hp & Hr). apply processIncremental_frame in Hp as [_ Hp]. rewrite (IH _ _ _ _ Hr), Hp. done.
  - destruct (need_more_data_ d); [by injection Hr as _ <-|]. by rewrite (IH _ _ _ _ Hr).
Qed.

(** Reading on where the first part stopped is reading both parts at once. *)
Lemma recv_all_app b c : ∀ s, recv_all (b ++ c) s = ('(rest, s1) ← recv_all b s; recv_all (rest ++ c) s1).
Proof using Type.
  remember (length b) as n eqn:Hn. revert b Hn. induction n as [n IH] using lt_wf_ind. intros b Hn s.
  destruct (decide (length b < 9)%nat) as [Hs|Hs]; [by rewrite (recv_all_short b) by done|].
  assert (∀ k, (0 < k ≤ length b)%nat → ∀ s, recv_all (drop k (b ++ c)) s =
    ('(rest, s1) ← recv_all (drop k b) s; recv_all (rest ++ c) s1)) as IH'.
  { intros k Hk s'. rewrite drop_app_le by lia. apply (IH (length (drop k b))); [rewrite length_drop; lia|done]. }
  rewrite (recv_all_step (b ++ c)), (recv_all_step b) by (rewrite ?length_app; lia). rewrite take_app_le by lia.
  case_bool_decide as Hmagic; [by rewrite (IH' 6%nat) by lia|].
  destruct (decode max_size b default_MarketUpdate (decoder_ s)) as [[[ok u] d]| |] eqn:Hd.
  2,3: by rewrite (decode_failed _ c _ _ _ Hd).
  cbn [mbind outcome_bind]. destruct (need_more_data_ d) eqn:Hm.
  - destruct (decode_more_stuck _ _ _ _ _ _ Hd Hm) as [-> ->]. cbn [mbind outcome_bind].
    rewrite (recv_all_step (b ++ c)) by (rewrite length_app; lia). rewrite take_app_le by lia. rewrite bool_decide_false by done.
    done.
  - rewrite (decode_settled _ c _ _ _ _ _ Hd Hm). cbn [mbind outcome_bind]. rewrite Hm. destruct ok; [|by rewrite (IH' 1%nat) by lia].
    destruct (processIncremental _ _ _ _) as [s1| |] eqn:Hp; cbn [mbind outcome_bind]; [|done|done].
    apply processIncremental_frame in Hp as [-> _]. destruct (decode_ok_length _ _ _ _ _ Hd) as [_ Hle].
    by rewrite IH' by (simpl; lia).
Qed.

(** The callback, on a buffer that just grew. *)
Definition receive (bytes : list Z) s : outcome (MarketDataConsumer Q) :=
  md_recvCallback max_size net_ok fd (set_inbound (md_inbound_ s ++ bytes) s).

(** The unread bytes play no part in a step. *)
Definition map_ok {A B} (f : A → B) (r : outcome A) : outcome B := x ← r; Ok (f x).

Lemma processIncremental_inbound l u s :
  processIncremental net_ok fd u (set_inbound l s) = map_ok (set_inbound l) (processIncremental net_ok fd u s).
Proof using Type.
  unfold processIncremental, detectGap, startReplaySync, startSnapshotSync, open_tcp, push, map_ok.
  cbn [set_inbound set_mode set_next_exp in_recovery_ next_exp_inc_seq_num_ incoming_md_updates_].
  repeat match goal with
  | |- context [if ?b then _ else _] => destruct b
  | |- context [q_push ?u ?q] => destruct (q_push u q)
  end; done.
Qed.

Lemma recv_wire_set_inbound fuel l : ∀ wire s,
  recv_wire fuel wire (set_inbound l s) = map_ok (λ x, (x.1, set_inbound l x.2)) (recv_wire fuel wire s).
Proof using Type.
  induction fuel as [|fuel IH]; intros wire s; cbn [recv_wire]; [done|].
  case_bool_decide; [done|]. case_bool_decide; [apply IH|]. change (decoder_ (set_inbound l s)) with (decoder_ s).
  destruct (decode _ _ _ _) as [[[ok u] d]| |]; cbn [mbind outcome_bind]; [|done|done].
  change (set_decoder d (set_inbound l s)) with (set_inbound l (set_decoder d s)).
  destruct ok; [|destruct (need_more_data_ d); [done|apply IH]].
  rewrite processIncremental_inbound. destruct (processIncremental _ _ _ _) as [s1| |]; cbn [map_ok mbind outcome_bind]; [|done|done].
  apply IH.
Qed.

Lemma receive_all bytes s :
  receive bytes s = map_ok (λ x, set_inbound x.1 x.2) (recv_all (md_inbound_ s ++ bytes) s).
Proof using Type.
  unfold receive, md_recvCallback. set (data := md_inbound_ s ++ bytes). change (md_inbound_ (set_inbound data s)) with data.
  case_bool_decide as Hl; [by rewrite recv_all_short by done|].
  pose proof (recv_loop_wire (length data) data 0 (set_inbound data s)) as Hw. rewrite drop_0, recv_wire_set_inbound in Hw.
  fold (recv_all data s) in Hw. unfold map_ok in *.
  destruct (recv_loop _ _ _ _ _ _ _) as [[i s1]| |], (recv_all data s) as [[rest s2]| |]; cbn [mbind outcome_bind] in *; try done.
  injection Hw as <- ->. done.
Qed.

(** Datagrams one by one. *)
Fixpoint receive_list (chunks : list (list Z)) s : outcome (MarketDataConsumer Q) :=
  match chunks with
  | [] => Ok s
  | bytes :: chunks' => s ← receive bytes s; receive_list chunks' s
  end.

Lemma receive_app b c s : (s1 ← receive b s; receive c s1) = receive (b ++ c) s.
Proof using Type.
  rewrite !receive_all, app_assoc, (recv_all_app (_ ++ b)). unfold map_ok.
  destruct (recv_all (md_inbound_ s ++ b) s) as [[rest s1]| |] eqn:Hr; cbn [mbind outcome_bind]; [|done|done].
  rewrite receive_all. unfold map_ok, recv_all. cbn [fst snd]. change (md_inbound_ (set_inbound rest s1)) with rest.
  rewrite recv_wire_set_inbound. unfold map_ok. destruct (recv_wire _ (rest ++ c) s1) as [[r s2]| |]; done.
Qed.

(** C16: the boundaries of the datagrams do not matter: receiving a non-empty
    sequence of byte chunks one callback at a time leaves the consumer (its
    decoder, sequence numbers, recovery state, queues, unread bytes) exactly as
    one callback on their concatenation does, and ends the process in the same
    cases. *)
Theorem feed_chunking bytes chunks s : receive_list (bytes :: chunks) s = receive (bytes ++ concat chunks) s.
Proof using Type.
  revert bytes s. induction chunks as [|c chunks IH]; intros bytes s.
  - cbn [receive_list concat]. rewrite app_nil_r. destruct (receive bytes s); done.
  - cbn [receive_list concat] in *. rewrite <- receive_app. destruct (receive bytes s) as [s1| |]; [|done|done]. apply IH.
Qed.

End Feed.

(** ** A replay, chunk by chunk *)

Section Replay.
Context `{ByteOrder} `{ItchFormat} {Q : Type → Type} `{SPSCQueue Q} (max_size : Z) (popped : list MarketUpdate).
Implicit Types base s : MarketDataConsumer Q.

(** [frames] are complete frames that [decode] turns, one after the other, into
    [us], from the order states of [d]. *)
Fixpoint decodes (frames : list (list Z)) (us : list MarketUpdate) (d : ItchDecoder) : Prop :=
  match frames, us with
  | [], [] => True
  | f :: frames', u :: us' => ∃ d',
      decode max_size f default_MarketUpdate d = Ok (true, u, d') ∧ length f = (8 + last_decoded_size_ d')%nat ∧
      decodes frames' us' d'
  | _, _ => False
  end.

(** A strict prefix of a frame asks for more. *)
Lemma decode_prefix wire more out d u d' : more ≠ [] →
  decode max_size (wire ++ more) out d = Ok (true, u, d') → length (wire ++ more) = (8 + last_decoded_size_ d')%nat →
  decode max_size wire out d = Ok (false, out, set_flags 0 true d).
Proof using Type.
  intros Hm Hd Hl. assert (0 < length more)%nat by (destruct more; [done|simpl; lia]). rewrite length_app in Hl.
  destruct (wire !! 8%nat) as [ty|] eqn:Ht; [|by unfold decode; rewrite Ht].
  unfold decode in Hd |- *. rewrite lookup_app_l in Hd by (apply lookup_lt_Some in Ht; lia). rewrite Ht in *.
  destruct (known_type ty); cbn [negb] in *; [|done]. 
  match type of Hd with context [bool_decide ?P] => destruct (bool_decide P); [done|] end.
  apply decodePayload_flags in Hd as [Hd _]. simpl in Hd. rewrite bool_decide_true by lia. done.
Qed.

(** The consumer while it reads the frames of a replay. *)
Definition replay_state base (d : ItchDecoder) (b : list Z) (got : list MarketUpdate) (last : SeqNum)
    : MarketDataConsumer Q :=
  mkConsumer (incoming_md_updates_ base) d (next_exp_inc_seq_num_ base) (in_recovery_ base) (snapshot_have_start_ base)
    (recovery_mode_ base) true last (snapshot_tcp_fd_ base) b (incremental_queued_updates_ base) got
    (market_data_synchronized_ base) (md_inbound_ base) (open_fds_ base) (requests_ base) (delivered_ base).

(** What remains of the replay: [b] buffered and [more] to come are the bytes of
    frames that carry [us], the numbers after [last] up to [m]. *)
Definition to_come (m : SeqNum) (us : list MarketUpdate) (last : SeqNum) (d : ItchDecoder) (b more : list Z) : Prop :=
  ∃ frames, b ++ more = concat frames ∧ decodes frames us d ∧ chain (succ64 last) us m.
Definition short_of_frame (m : SeqNum) (us : list MarketUpdate) (last : SeqNum) (d : ItchDecoder) (b more : list Z) : Prop :=
  ∃ frames, b ++ more = concat frames ∧ decodes frames us d ∧ chain (succ64 last) us m ∧
    match frames with [] => True | f :: _ => (length b < length f)%nat end.

(** Either a whole frame is buffered, or only a strict prefix of it. *)
Lemma frame_split (b more f rest : list Z) : b ++ more = f ++ rest →
  (∃ t, b = f ++ t ∧ t ++ more = rest) ∨ (∃ t, t ≠ [] ∧ f = b ++ t ∧ more = t ++ rest).
Proof using Type.
  intros [(t & -> & ->)|([|x t] & -> & ->)]%app_eq_inv; [left; eauto| |right; by exists (x :: t)].
  left. exists []. by rewrite !app_nil_r.
Qed.

Lemma replay_loop_run base b more m : ∀ fuel offset d got last us,
  (offset ≤ length b ≤ fuel + offset)%nat → to_come m us last d (drop offset b) more →
  ∃ offset' d' us1 us2 last',
    replay_loop max_size fuel b offset (replay_state base d b got last) =
      Ok (Some offset', replay_state base d' b (got ++ us1) last') ∧
    us = us1 ++ us2 ∧ short_of_frame m us2 last' d' (drop offset' b) more.
Proof using Type.
  induction fuel as [|fuel IH]; intros offset d got last us Hf (frames & Hb & Hd & Hc); cbn [replay_loop].
  { exists offset, d, [], us, last. rewrite app_nil_r. split_and!; [done..|]. exists frames. split_and!; try done.
    destruct frames as [|f frames], us; try done. destruct Hd as (? & _ & Hl & _). rewrite Hl, length_drop. lia. }
  case_bool_decide as Hend.
  { exists offset, d, [], us, last. rewrite app_nil_r. split_and!; [done..|]. exists frames. split_and!; try done.
    destruct frames as [|f frames], us; try done. destruct Hd as (? & _ & Hl & _). rewrite Hl, length_drop. lia. }
  destruct frames as [|f frames], us as [|u us]; try done.
  { assert (length (drop offset b ++ more) = 0%nat) as E by (by rewrite Hb). rewrite length_app, length_drop in E. lia. }
  destruct Hd as (d1 & Hd & Hl & Hds), Hc as [Hu Hc]. cbn [concat] in Hb.
  change (decoder_ (replay_state base d b got last)) with d.
  destruct (frame_split _ _ _ _ Hb) as [(t & Hb' & Hm)|(t & Ht & Hf' & Hm)].
  - destruct (decode_ok_length _ _ _ _ _ _ Hd) as [Hmore _]. rewrite Hb', (decode_settled _ _ t _ _ _ _ _ Hd Hmore).
    cbn [mbind outcome_bind negb]. change (replay_last_applied_ (set_decoder d1 _)) with last.
    rewrite (proj2 (Z.eqb_eq _ _) Hu). cbn [negb].
    assert (drop (length f + offset) b = t) as Ht by (by rewrite Nat.add_comm, <- drop_drop, Hb', drop_app_length).
    destruct (IH (offset + 8 + last_decoded_size_ d1)%nat d1 (got ++ [u]) (mu_seq_num u) us) as (o' & d' & us1 & us2 & last' & Hr & -> & Hs).
    + apply (f_equal length) in Hb'. rewrite length_app, length_drop in Hb'. lia.
    + exists frames. rewrite Hu. replace (offset + 8 + last_decoded_size_ d1)%nat with (length f + offset)%nat by lia. by rewrite Ht.
    + exists o', d', (u :: us1), us2, last'. rewrite <- app_assoc in Hr. done.
  - rewrite Hf' in Hd, Hl. rewrite (decode_prefix _ _ _ _ _ _ Ht Hd Hl). cbn [mbind outcome_bind negb].
    exists offset, (set_flags 0 true d), [], (u :: us), last. rewrite app_nil_r. split_and!; [done..|].
    exists (f :: frames). subst f. split_and!; try done; [by exists d1|]. rewrite length_app. destruct t; [done|simpl; lia].
Qed.

Lemma short_to_come m us last d b c more :
  short_of_frame m us last d b (c ++ more) → to_come m us last d (b ++ c) more.
Proof using Type. intros (frames & Hb & Hd & Hc & _). exists frames. by rewrite <- app_assoc. Qed.

Lemma replay_frames_run base b more m d got last us : to_come m us last d b more →
  ∃ b' d' us1 us2 last',
    replay_frames max_size (replay_state base d b got last) = Ok (replay_state base d' b' (got ++ us1) last') ∧
    us = us1 ++ us2 ∧ short_of_frame m us2 last' d' b' more.
Proof using Type.
  intros Hc. unfold replay_frames. change (snapshot_tcp_buffer_ (replay_state base d b got last)) with b.
  destruct (replay_loop_run base b more m (length b) 0 d got last us) as (o & d' & us1 & us2 & last' & -> & -> & Hs); [lia|done|].
  by exists (drop o b), d', us1, us2, last'.
Qed.

(** A datagram-free round. *)
Definition tcp_round (net_ok : bool) (fd : Z) (r : TcpRead) : Round := mkRound [] r net_ok fd.

Fixpoint run_rounds (rs : list Round) s : outcome (MarketDataConsumer Q) :=
  match rs with
  | [] => Ok s
  | r :: rs' => s ← run_round max_size r s; run_rounds rs' s
  end.

Lemma run_rounds_app rs rs' s : run_rounds (rs ++ rs') s = (s1 ← run_rounds rs s; run_rounds rs' s1).
Proof using Type.
  revert s. induction rs as [|r rs IH]; intros s; [done|]. cbn [run_rounds app].
  destruct (run_round max_size r s); cbn [mbind outcome_bind]; [apply IH|done|done].
Qed.

(** A read that brings bytes of the answer, or nothing yet. *)
Definition is_answer (r : TcpRead) : Prop := match r with TcpData _ | TcpWouldBlock => True | TcpEof | TcpError => False end.
Definition read_bytes (r : TcpRead) : list Z := match r with TcpData c => c | _ => [] end.

Lemma run_tcp_round net_ok fd r s : in_recovery_ s = true → run_round max_size (tcp_round net_ok fd r) s = readSnapshotTcp max_size net_ok fd r s.
Proof using Type. intros Hrec. unfold run_round. cbn [tcp_round rd_datagram rd_tcp mbind outcome_bind]. by rewrite Hrec. Qed.

Lemma replay_rounds_run base net_ok fd reads m : in_recovery_ base = true → recovery_mode_ base = RM_Replay → Forall is_answer reads →
  ∀ d b got last us, short_of_frame m us last d b (concat (read_bytes <$> reads)) →
  ∃ b' d' us1 us2 last',
    run_rounds (tcp_round net_ok fd <$> reads) (replay_state base d b got last) =
      Ok (replay_state base d' b' (got ++ us1) last') ∧
    us = us1 ++ us2 ∧ short_of_frame m us2 last' d' b' [].
Proof using Type.
  intros Hrec Hmode. induction 1 as [|r reads Hr _ IH]; intros d b got last us Hs.
  { exists b, d, [], us, last. rewrite app_nil_r. by split_and!. }
  rewrite fmap_cons. cbn [run_rounds]. rewrite run_tcp_round by done. destruct r as [c| | |]; try done.
  2:{ cbn [readSnapshotTcp mbind outcome_bind]. by apply IH. }
  cbn [fmap list_fmap read_bytes concat] in Hs. apply short_to_come in Hs.
  destruct (replay_frames_run base _ _ _ _ got _ _ Hs) as (b1 & d1 & us1 & us2 & last1 & Hr1 & -> & Hs1).
  cbn [readSnapshotTcp]. rewrite bool_decide_true by done.
  change (processReplay _ _ _ _) with (replay_frames max_size (replay_state base d (b ++ c) got last)). rewrite Hr1.
  cbn [mbind outcome_bind]. destruct (IH d1 b1 (got ++ us1) last1 us2 Hs1) as (b2 & d2 & us3 & us4 & last2 & -> & -> & Hs2).
  exists b2, d2, (us1 ++ us3), us4, last2. by rewrite !app_assoc.
Qed.

(** Nothing buffered is left when nothing is to come. *)
Lemma short_done m us last d b : short_of_frame m us last d b [] → b = [] ∧ us = [] ∧ succ64 last = m.
Proof using Type.
  intros ([|f frames] & Hb & Hd & Hc & Hs); rewrite app_nil_r in Hb; subst; cbn [concat] in *.
  - destruct us; done.
  - rewrite length_app in Hs. lia.
Qed.

(** ** Room for the updates *)
Fixpoint accepts (us : list MarketUpdate) (q : Q MarketUpdate) : bool :=
  match us with
  | [] => true
  | u :: us' => let '(ok, q') := q_push u q in ok && accepts us' q'
  end.

Lemma push_list_accepts us vs s : accepts (us ++ vs) (incoming_md_updates_ s) = true →
  ∃ q, push_list us s = Ok (set_incoming q (delivered_ s ++ us) s) ∧ accepts vs q = true.
Proof using Type.
  revert s. induction us as [|u us IH]; intros s Ha; cbn [push_list].
  { exists (incoming_md_updates_ s). rewrite app_nil_r. by destruct s. }
  cbn [app accepts] in Ha. unfold push. destruct (q_push u _) as [ok q]. apply andb_true_iff in Ha as [-> Ha].
  cbn [mbind outcome_bind]. destruct (IH (set_incoming q (delivered_ s ++ [u]) s) Ha) as (q' & -> & Ha').
  exists q'. unfold set_incoming at 1. cbn [set_incoming delivered_]. rewrite <- app_assoc. done.
Qed.

(** The consumer once the replay for [u] is requested. *)
Definition gap_base (u : MarketUpdate) s (n : SeqNum) (fd : Z) : MarketDataConsumer Q :=
  mkConsumer (incoming_md_updates_ s) (decoder_ s) (next_exp_inc_seq_num_ s) true (snapshot_have_start_ s)
    RM_Replay false (n - 1) fd [] [(mu_seq_num u, u)] [] false (md_inbound_ s) 1
    (requests_ s ++ [82 :: le_bytes 8 (swap64 (n - 1))]) (delivered_ s).

(** The live update that reveals the gap. *)
Lemma gap_run net_fd u s n : consumer_ok popped s → in_recovery_ s = false → next_exp_inc_seq_num_ s = n → 0 < n →
  n < mu_seq_num u < 2 ^ 64 → mu_seq_num u - n ≤ REPLAY_CAPACITY → 0 ≤ net_fd →
  processIncremental true net_fd u s =
    Ok (gap_base u s n net_fd).
Proof using Type.
  intros Hok Hrec Hn Hpos Hm Hgap Hfd. unfold processIncremental. rewrite Hrec, Hn.
  rewrite (proj2 (Z.eqb_neq n 0)), (proj2 (Z.eqb_neq (mu_seq_num u) n)), (proj2 (Z.ltb_lt n (mu_seq_num u))) by lia.
  unfold detectGap. rewrite Hrec. cbn [set_mode next_exp_inc_seq_num_]. rewrite Hn. unfold wrapU at 1.
  rewrite Z.mod_small, (proj2 (Z.leb_le _ _) Hgap) by lia. unfold startReplaySync, open_tcp.
  rewrite (proj2 (Z.leb_le _ _) Hfd). cbn [andb mbind outcome_bind].
  replace (pred64 n) with (n - 1) by (symmetry; apply wrapU_small; lia).
  destruct (idle _ s Hok Hrec) as (_ & Ho & _). unfold gap_base. simpl. by rewrite Ho.
Qed.

Lemma receive_gap f u d fd s n : consumer_ok popped s → in_recovery_ s = false → md_inbound_ s = [] →
  next_exp_inc_seq_num_ s = n → 0 < n → n < mu_seq_num u < 2 ^ 64 → mu_seq_num u - n ≤ REPLAY_CAPACITY →
  take 6 f ≠ kRegistrationMagic → decode max_size f default_MarketUpdate (decoder_ s) = Ok (true, u, d) →
  length f = (8 + last_decoded_size_ d)%nat → 0 ≤ fd → receive max_size true fd f s = Ok (gap_base u (set_decoder d s) n fd).
Proof using Type.
  intros Hok Hrec Hin Hn Hpos Hm Hgap Hmagic Hd Hl Hfd. rewrite receive_all, Hin. cbn [app].
  assert (9 ≤ length f)%nat as H9.
  { destruct (f !! 8%nat) as [ty|] eqn:E; [by apply lookup_lt_Some in E|]. unfold decode in Hd. by rewrite E in Hd. }
  rewrite recv_all_step by done. rewrite bool_decide_false, Hd by done. cbn [mbind outcome_bind].
  rewrite (gap_run fd u (set_decoder d s) n) by (done || by apply consumer_ok_decoder). cbn [mbind outcome_bind].
  match goal with |- context [last_decoded_size_ ?x] => change x with d end. rewrite <- Hl, drop_all, recv_all_short by (simpl; lia).
  unfold gap_base, map_ok. cbn. by rewrite Hin.
Qed.

(** The status byte. *)
Lemma status_run net_ok fd b s : recovery_mode_ s = RM_Replay → replay_status_read_ s = false → snapshot_tcp_buffer_ s = [] →
  readSnapshotTcp max_size net_ok fd (TcpData (82 :: b)) s =
    replay_frames max_size (replay_state s (decoder_ s) b (snapshot_queued_updates_ s) (replay_last_applied_ s)).
Proof using Type.
  intros Hm Hst Hb. cbn [readSnapshotTcp]. rewrite Hb, bool_decide_true by done. cbn [app].
  unfold processReplay. change (replay_status_read_ (set_buffer _ s)) with (replay_status_read_ s). rewrite Hst. done.
Qed.

(** The whole answer, from the request on. *)
Lemma replay_answer_run base net_ok fd reads frames us m : in_recovery_ base = true → recovery_mode_ base = RM_Replay →
  replay_status_read_ base = false → snapshot_tcp_buffer_ base = [] → snapshot_queued_updates_ base = [] → Forall is_answer reads →
  concat (read_bytes <$> reads) = 82 :: concat frames → decodes frames us (decoder_ base) → chain (succ64 (replay_last_applied_ base)) us m →
  ∃ d last, run_rounds (tcp_round net_ok fd <$> reads) base = Ok (replay_state base d [] us last) ∧ succ64 last = m.
Proof using Type.
  intros Hrec Hmode Hst Hbuf Hsnap Ha Hb Hds Hc. revert Hb. induction Ha as [|r reads Hr Ha IH]; intros Hb; [done|].
  rewrite fmap_cons. cbn [run_rounds]. rewrite run_tcp_round by done. cbn [fmap list_fmap concat] in Hb.
  destruct r as [[|x c]| | |]; try done.
  - cbn [readSnapshotTcp]. rewrite Hbuf, bool_decide_true by done. unfold processReplay.
    change (replay_status_read_ (set_buffer _ base)) with (replay_status_read_ base). rewrite Hst. cbn [app set_buffer snapshot_tcp_buffer_].
    cbn [mbind outcome_bind]. replace (set_buffer [] base) with base by (destruct base; simpl in *; by subst). by apply IH.
  - cbn [read_bytes app] in Hb. injection Hb as -> Hb. rewrite status_run, Hsnap by done.
    assert (to_come m us (replay_last_applied_ base) (decoder_ base) c (concat (read_bytes <$> reads))) as Ht by (by exists frames).
    destruct (replay_frames_run base _ _ _ _ [] _ _ Ht) as (b1 & d1 & us1 & us2 & last1 & -> & -> & Hs1). cbn [mbind outcome_bind].
    destruct (replay_rounds_run base net_ok fd reads _ Hrec Hmode Ha _ _ ([] ++ us1) _ _ Hs1)
      as (b2 & d2 & us3 & us4 & last2 & -> & -> & Hs2).
    destruct (short_done _ _ _ _ _ Hs2) as (-> & -> & Hlast). exists d2, last2. by rewrite app_nil_r.
  - cbn [readSnapshotTcp mbind outcome_bind]. by apply IH.
Qed.

(** The end of the stream, when the buffer is empty. *)
Lemma finish_gap_run u s fd us : recovery_mode_ s = RM_Replay → in_recovery_ s = true → replay_status_read_ s = true →
  snapshot_tcp_buffer_ s = [] → incremental_queued_updates_ s = [(mu_seq_num u, u)] → snapshot_queued_updates_ s = us →
  succ64 (replay_last_applied_ s) = mu_seq_num u → accepts (us ++ [u]) (incoming_md_updates_ s) = true → ∃ s',
  run_round max_size (tcp_round true fd TcpEof) s = Ok s' ∧ delivered_ s' = delivered_ s ++ us ++ [u] ∧
  next_exp_inc_seq_num_ s' = succ64 (mu_seq_num u) ∧ in_recovery_ s' = false ∧ market_data_synchronized_ s' = true ∧
  requests_ s' = requests_ s.
Proof using Type.
  intros Hmode Hrec Hst Hb Hinc Hsnap Hl Ha. unfold run_round. cbn [tcp_round rd_datagram rd_tcp mbind outcome_bind].
  rewrite Hrec. cbn [readSnapshotTcp]. unfold onSnapshotTcpEof. rewrite Hmode, Hst, Hb, !bool_decide_true by done. cbn [andb].
  unfold finishReplaySync. rewrite Hl, Hinc, Hsnap. cbn [contiguous_from]. rewrite Z.ltb_irrefl, Z.eqb_refl. cbn [negb].
  destruct (push_list_accepts us [u] s Ha) as (q & -> & Ha'). cbn [mbind outcome_bind].
  change (incremental_queued_updates_ (set_incoming q _ s)) with (incremental_queued_updates_ s). rewrite Hinc, pending_from_all by (apply Forall_singleton; simpl; lia).
  cbn [fmap list_fmap snd]. destruct (push_list_accepts [u] [] (set_incoming q (delivered_ s ++ us) s) Ha') as (q' & Hp & _).
  rewrite Hp. cbn [mbind outcome_bind]. eexists. split; [done|].
  unfold close_tcp_if_open. match goal with |- context [if ?b then _ else _] => destruct b end;
    cbn; rewrite <- app_assoc; done.
Qed.

(** C13: a gap is closed by the replay it requests, when the frames concerned
    decode.  An idle consumer expecting [n > 0], with no unread bytes, receives a
    datagram with the frame of [u], numbered [m > n] at most 8192 later; it asks
    for the frames after [n - 1] (the socket calls succeed); the server answers
    with the status byte and the frames of the missing numbers [n .. m - 1], and
    closes.  The answer is cut into reads in any way, the first of them in the
    round of the datagram or later, with any number of reads that would block
    before, between and after.  Conditions: the decoder takes the late frame first
    and then the missing ones, and must decode each of them in that order
    ([decodes]; this excludes a missing system event, and, for example, a late
    execution of an order that a missing frame adds, or a late delete of one it
    executes); no further datagram arrives until the answer is complete; the
    datagram does not begin with the registration token; the engine's queue has
    room.  Then the rounds all run, every missing update and [u] are handed to the
    engine once and in order, [m + 1] is expected, recovery is over and trading is
    open again. *)
Theorem replay_closes_gap f u frames us fd s n first reads :
  consumer_ok popped s → in_recovery_ s = false → md_inbound_ s = [] → next_exp_inc_seq_num_ s = n → 0 < n →
  n < mu_seq_num u < 2 ^ 64 → mu_seq_num u - n ≤ REPLAY_CAPACITY → take 6 f ≠ kRegistrationMagic → 0 ≤ fd →
  decodes (f :: frames) (u :: us) (decoder_ s) → chain n us (mu_seq_num u) →
  Forall is_answer (first :: reads) → concat (read_bytes <$> first :: reads) = 82 :: concat frames →
  accepts (us ++ [u]) (incoming_md_updates_ s) = true →
  ∃ s', run_rounds (mkRound f first true fd :: (tcp_round true fd <$> reads) ++ [tcp_round true fd TcpEof]) s = Ok s' ∧
    delivered_ s' = delivered_ s ++ us ++ [u] ∧ next_exp_inc_seq_num_ s' = succ64 (mu_seq_num u) ∧
    in_recovery_ s' = false ∧ market_data_synchronized_ s' = true ∧
    requests_ s' = requests_ s ++ [82 :: le_bytes 8 (swap64 (n - 1))].
Proof using Type.
  intros Hok Hrec Hin Hn Hpos Hm Hgap Hmagic Hfd (d & Hd & Hl & Hds) Hc Hans Hb Ha.
  set (base := gap_base u (set_decoder d s) n fd).
  assert (run_round max_size (mkRound f first true fd) s = run_round max_size (tcp_round true fd first) base) as Hfirst.
  { pose proof (receive_gap f u d fd s n Hok Hrec Hin Hn Hpos Hm Hgap Hmagic Hd Hl Hfd) as Hr. unfold receive in Hr.
    rewrite run_tcp_round by done. unfold run_round. cbn [rd_datagram rd_tcp rd_net_ok rd_fd rd_tcp_net_ok rd_tcp_fd].
    destruct f as [|x f]; [done|]. rewrite Hr. done. }
  assert (succ64 (n - 1) = n) as Hn1 by (rewrite <- (wrapU_small 64 (n - 1)) by lia; apply succ64_pred64; lia).
  destruct (replay_answer_run base true fd (first :: reads) frames us (mu_seq_num u)) as (d2 & last2 & Hrun & Hlast); try done.
  { change (replay_last_applied_ base) with (n - 1). by rewrite Hn1. }
  cbn [run_rounds]. rewrite Hfirst. rewrite fmap_cons in Hrun. cbn [run_rounds] in Hrun.
  destruct (run_round max_size (tcp_round true fd first) base) as [s1| |]; cbn [mbind outcome_bind] in Hrun |- *; [|done|done].
  rewrite run_rounds_app, Hrun. cbn [mbind outcome_bind].
  destruct (finish_gap_run u (replay_state base d2 [] us last2) fd us) as (s' & Hs' & Hdel & Hrest); try done.
  exists s'. cbn [run_rounds]. by rewrite Hs'.
Qed.

End Replay.

(** ** Every run *)

Section Runs.
Context `{ByteOrder} `{ItchFormat} {Q : Type → Type} `{SPSCQueueLaws Q} (max_size : Z).
Implicit Types s : MarketDataConsumer Q.

(** C15: in every reachable state, a recovery is on exactly when a recovery mode is
    set and the recovery socket is open; exactly that one socket is open, so none
    leaks over any number of recoveries; trading is closed while a recovery is
    on; and outside a recovery nothing is left queued. *)
Theorem recovery_consistent popped s : consumer_run max_size popped s →
  if in_recovery_ s
  then recovery_mode_ s ≠ RM_None ∧ snapshot_tcp_fd_ s ≠ -1 ∧ open_fds_ s = 1 ∧ market_data_synchronized_ s = false
  else recovery_mode_ s = RM_None ∧ snapshot_tcp_fd_ s = -1 ∧ open_fds_ s = 0 ∧ snapshot_have_start_ s = false ∧
       incremental_queued_updates_ s = [] ∧ snapshot_queued_updates_ s = [].
Proof using Type*.
  intros Hrun. pose proof (consumer_run_ok _ _ _ Hrun) as Hok. destruct (in_recovery_ s) eqn:Hrec.
  - assert (recovery_mode_ s ≠ RM_None) as Hm.
    { intros E. pose proof (co_mode _ _ Hok) as Hm. rewrite Hrec, E in Hm. done. }
    destruct (recovering popped s Hok Hm) as (_ & ?). done.
  - destruct (idle popped s Hok Hrec) as (Hm & Ho & Hst). destruct (co_idle _ _ Hok Hm) as [Hq1 Hq2].
    pose proof (co_fd _ _ Hok) as Hfd. rewrite Hrec in Hfd. apply eq_sym, negb_false_iff, Z.eqb_eq in Hfd. by split_and!.
Qed.

(** C12: whatever datagrams arrive, in whatever pieces and order, with whatever
    losses, duplicates, recovery answers and failures, the updates handed to the
    engine form a stream without holes: each update is numbered one more than
    the one before it, except that the first may carry any number and that a
    complete snapshot, from its start marker to its end marker, may restart the
    numbering after the last incremental it contains.  What the engine has taken
    is a prefix of that stream and what waits in the queue is the rest. *)
Theorem delivered_stream_whole popped s : consumer_run max_size popped s →
  stream (delivered_ s) (next_exp_inc_seq_num_ s) ∧ delivered_ s = popped ++ q_items (incoming_md_updates_ s).
Proof using Type*. intros Hrun. pose proof (consumer_run_ok _ _ _ Hrun) as Hok. split; [apply Hok|]. symmetry. exact (co_fifo _ _ Hok). Qed.
End Runs.

(** ** Examples *)

#[local] Existing Instances bswap_order packed_itch.

Definition ex_queue (cap : nat) : BQueue MarketUpdate := mkBQueue cap [].
Definition ex_boot (cap : nat) : outcome (MarketDataConsumer BQueue) := start true 3 (MarketDataConsumer_new (ex_queue cap)).
Definition ex_feed (bytes : list Z) : Round := mkRound bytes TcpWouldBlock true 3.
Definition ex_result (cap : nat) (rs : list Round) : outcome (MarketDataConsumer BQueue) :=
  s ← ex_boot cap; run_rounds (2 ^ 20) rs s.
Definition ex_run (cap : nat) (rs : list Round) : MarketDataConsumer BQueue :=
  match ex_result cap rs with Ok s => s | _ => MarketDataConsumer_new (ex_queue cap) end.
Definition is_ok {A} (r : outcome A) : bool := match r with Ok _ => true | _ => false end.

Lemma run_rounds_run `{ByteOrder} `{ItchFormat} `{SPSCQueue Q} max_size popped rs (s s' : MarketDataConsumer Q) :
  consumer_run max_size popped s → run_rounds max_size rs s = Ok s' →
  consumer_run max_size popped s'.
Proof.
  revert s. induction rs as [|r rs IH]; intros s Hs; cbn [run_rounds]; [by intros [= <-]|].
  intros (s1 & H1' & H2')%bind_Ok_inv. eapply IH; [|exact H2']. by eapply run_consumer.
Qed.

Lemma ex_run_run cap rs : is_ok (ex_result cap rs) = true → consumer_run (2 ^ 20) [] (ex_run cap rs).
Proof.
  unfold ex_run, ex_result. destruct (ex_boot cap) as [s0| |] eqn:Hs; cbn [mbind outcome_bind]; [|done|done].
  destruct (run_rounds _ rs s0) as [s| |] eqn:Hr; [|done|done]. intros _. eapply run_rounds_run; [|exact Hr].
  by eapply run_start; [..|exact Hs].
Qed.

(** The snapshot server is down at start; the feed then starts at 7. *)
Definition ex_rounds : list Round := [tcp_round true 3 TcpEof; ex_feed (ex_add 7 5 66 30 1000)].
Definition ex_idle : MarketDataConsumer BQueue := ex_run 16 ex_rounds.

Lemma ex_idle_run : consumer_run (2 ^ 20) [] ex_idle.
Proof. apply ex_run_run; by vm_compute. Qed.

(** [decodes], by running the decoder. *)
Fixpoint decode_frames `{ByteOrder} `{ItchFormat} (max_size : Z) (frames : list (list Z)) (d : ItchDecoder)
    : option (list MarketUpdate) :=
  match frames with
  | [] => Some []
  | f :: frames' =>
      match decode max_size f default_MarketUpdate d with
      | Ok (true, u, d') =>
          if bool_decide (length f = 8 + last_decoded_size_ d')%nat then cons u <$> decode_frames max_size frames' d' else None
      | _ => None
      end
  end.

Lemma decode_frames_decodes `{ByteOrder} `{ItchFormat} max_size frames : ∀ us d,
  decode_frames max_size frames d = Some us → decodes max_size frames us d.
Proof.
  induction frames as [|f frames IH]; intros us d; simpl; [by intros [= <-]|].
  destruct (decode _ _ _ _) as [[[[] u] d']| |]; try done. case_bool_decide as Hl; [|done].
  intros (us' & Hf & ->)%fmap_Some. exists d'. split_and!; [done|done|]. by apply IH.
Qed.

(** 10 arrives; 8 and 9 are missing and come back two rounds later in three
    pieces, the cuts inside the frames, with another empty round between. *)
Definition ex_live : list Z := ex_add 10 9 83 20 1010.
Definition ex_missing : list (list Z) := [ex_add 8 6 66 15 990; ex_exec 9 5 10].
Definition ex_updates : list MarketUpdate := default [] (decode_frames (2 ^ 20) (ex_live :: ex_missing) (decoder_ ex_idle)).
Definition ex_answer : list Z := concat ex_missing.
Definition ex_reads : list TcpRead :=
  [TcpWouldBlock; TcpData (82 :: take 20 ex_answer); TcpWouldBlock; TcpData (take 15 (drop 20 ex_answer)); TcpData (drop 35 ex_answer)].
Definition ex_gap_rounds : list Round :=
  mkRound ex_live TcpWouldBlock true 3 :: (tcp_round true 3 <$> ex_reads) ++ [tcp_round true 3 TcpEof].

Lemma replay_closes_gap_witness : ∃ s',
  run_rounds (2 ^ 20) ex_gap_rounds ex_idle = Ok s' ∧ mu_seq_num <$> delivered_ s' = [7; 8; 9; 10] ∧
  next_exp_inc_seq_num_ s' = 11 ∧ market_data_synchronized_ s' = true.
Proof.
  destruct (replay_closes_gap (2 ^ 20) [] ex_live (default default_MarketUpdate (head ex_updates)) ex_missing (tail ex_updates) 3 ex_idle 8
              TcpWouldBlock ex_reads) as (s' & Hr & Hd & Hn & _ & Hg & _).
  - apply (consumer_run_ok (2 ^ 20)), ex_idle_run.
  - by vm_compute.
  - by vm_compute.
  - by vm_compute.
  - done.
  - by vm_compute.
  - by vm_compute.
  - by vm_compute.
  - done.
  - apply decode_frames_decodes. by vm_compute.
  - by vm_compute.
  - by repeat constructor.
  - by vm_compute.
  - by vm_compute.
  - exists s'. split_and!; [exact Hr|rewrite Hd; by vm_compute|rewrite Hn; by vm_compute|exact Hg].
Defined.

Definition ex_gap : MarketDataConsumer BQueue := ex_run 16 (ex_rounds ++ [ex_feed ex_live]).

Lemma recovery_consistent_witness :
  in_recovery_ ex_gap = true ∧ open_fds_ ex_gap = 1 ∧ market_data_synchronized_ ex_gap = false.
Proof.
  assert (in_recovery_ ex_gap = true) as Hrec by (by vm_compute).
  pose proof (recovery_consistent (2 ^ 20) [] ex_gap) as Hc. rewrite Hrec in Hc.
  destruct Hc as (_ & _ & Ho & Hg); [apply ex_run_run; by vm_compute|]. by split_and!.
Defined.

Definition ex_closed : MarketDataConsumer BQueue := ex_run 16 (ex_rounds ++ ex_gap_rounds).

Lemma delivered_stream_whole_witness :
  stream (delivered_ ex_closed) 11 ∧ mu_seq_num <$> q_items (incoming_md_updates_ ex_closed) = [7; 8; 9; 10].
Proof.
  destruct (delivered_stream_whole (2 ^ 20) [] ex_closed) as [Hs Hq].
  - apply ex_run_run; by vm_compute.
  - replace (next_exp_inc_seq_num_ ex_closed) with 11 in Hs by (by vm_compute). split; [exact Hs|by vm_compute].
Defined.

(** ** What the model shows *)

(** A snapshot that fails at start leaves the consumer accepting any first
    number with trading closed: the updates are queued, and an engine that waits
    for the gate does not take them, so the queue fills and the assertion ends
    the process. *)
Theorem boot_abort_overruns :
  in_recovery_ ex_idle = false ∧ market_data_synchronized_ ex_idle = false ∧ length (delivered_ ex_idle) = 1%nat ∧
  ex_result 2 (ex_rounds ++ [ex_feed (ex_add 8 6 66 30 1000); ex_feed (ex_add 9 7 66 30 1000)]) = Halt.
Proof. by vm_compute. Qed.

(** After such a start the first gap closed by a replay opens trading, although
    no snapshot was ever applied. *)
Theorem gate_without_snapshot :
  market_data_synchronized_ ex_closed = true ∧ Forall (λ u, mu_type u ≠ SNAPSHOT_END) (delivered_ ex_closed).
Proof. split; [by vm_compute|]. by apply (bool_decide_unpack _); vm_compute. Qed.

(** A frame that decodes to nothing, such as a system event, is not skipped in a
    replay: the stream ends with it still buffered and the same replay is asked
    for again, from the same number and with nothing gained. *)
Definition ex_system (seq : Z) : list Z := ex_head seq 83 ++ [79].
Definition ex_stalled (n : nat) : MarketDataConsumer BQueue :=
  ex_run 16 (ex_rounds ++ [ex_feed ex_live] ++
             concat (replicate n [tcp_round true 3 (TcpData (82 :: ex_system 8)); tcp_round true 3 TcpEof])).

Theorem system_event_stalls_replay :
  in_recovery_ (ex_stalled 3) = true ∧ requests_ (ex_stalled 3) = requests_ ex_gap ++ replicate 3 (82 :: le_bytes 8 (swap64 7)) ∧
  delivered_ (ex_stalled 3) = delivered_ ex_gap ∧ snapshot_queued_updates_ (ex_stalled 3) = [] ∧
  match decode (2 ^ 20) (ex_system 8) default_MarketUpdate (decoder_ ex_gap) with
  | Ok (ok, _, d) => ok = false ∧ need_more_data_ d = false
  | _ => False
  end.
Proof. by vm_compute. Qed.
