(* ===== verification/SnapshotSync.v ===== *)
(** * A snapshot synchronises the consumer

    The reading of a snapshot over TCP, chunk by chunk, and what its end does
    with the incrementals that were queued meanwhile; then what the reset of the
    decoder at the start of a snapshot loses. *)

From S2P Require Import Prelude Types QuantLink Bytes ItchDecoder DecoderProperties MarketData RecoveryInv RecoveryProperties.

Section Snapshot.
Context `{ByteOrder} `{ItchFormat} {Q : Type → Type} `{SPSCQueue Q} (max_size : Z).
Implicit Types base s : MarketDataConsumer Q.

(** ** Messages of a snapshot *)

Lemma decodeSnapshot_true wire out d u d' :
  decodeSnapshot max_size wire out d = Ok (true, u, d') → ∃ ty rest,
    wire = ty :: rest ∧ known_type ty = true ∧ last_decoded_size_ d' = payload_size ty ∧ (payload_size ty ≤ length wire)%nat.
Proof using Type.
  unfold decodeSnapshot. destruct wire as [|ty rest]; [done|]. destruct (known_type ty) eqn:Hk; cbn [negb]; [|done].
  case_bool_decide as Hs; [done|]. intros [Hf _]%decodePayload_flags. exists ty, rest. split_and!; [done|done|done|lia].
Qed.

(** A message is decoded from its own bytes only. *)
Lemma decodeSnapshot_app f more out d u d' :
  decodeSnapshot max_size f out d = Ok (true, u, d') → decodeSnapshot max_size (f ++ more) out d = Ok (true, u, d').
Proof using Type.
  intros Hd. destruct (decodeSnapshot_true _ _ _ _ _ Hd) as (ty & rest & -> & Hk & _ & Hl).
  unfold decodeSnapshot in *. cbn [app]. rewrite Hk in *. cbn [negb] in *. rewrite bool_decide_false in Hd by lia.
  rewrite bool_decide_false by (cbn [length] in *; rewrite length_app; lia).
  change (ty :: rest ++ more) with ((ty :: rest) ++ more). by rewrite take_app_le by lia.
Qed.

Lemma decodeSnapshot_prefix wire more out d u d' : wire ≠ [] → more ≠ [] →
  decodeSnapshot max_size (wire ++ more) out d = Ok (true, u, d') → length (wire ++ more) = last_decoded_size_ d' →
  decodeSnapshot max_size wire out d = Ok (false, set_seq 0 out, set_flags 0 (need_more_data_ d) d).
Proof using Type.
  intros Hw Hm Hd Hl. destruct (decodeSnapshot_true _ _ _ _ _ Hd) as (ty & rest & Hc & Hk & Hs & _).
  destruct wire as [|ty' wire]; [done|]. injection Hc as -> _. unfold decodeSnapshot. rewrite Hk. cbn [negb].
  rewrite bool_decide_true; [done|]. rewrite length_app in Hl. destruct more; [done|]. cbn [length] in *. lia.
Qed.

(** The decoder after a message: the start marker makes the consumer reset it. *)
Definition after_message (u : MarketUpdate) (d : ItchDecoder) : ItchDecoder :=
  if bool_decide (mu_type u = SNAPSHOT_START) then reset d else d.

(** [msgs] are complete messages that [decodeSnapshot] turns, one after the
    other, into [us]. *)
Fixpoint snapshot_decodes (msgs : list (list Z)) (us : list MarketUpdate) (d : ItchDecoder) : Prop :=
  match msgs, us with
  | [], [] => True
  | f :: msgs', u :: us' => ∃ d',
      decodeSnapshot max_size f default_MarketUpdate d = Ok (true, u, d') ∧ length f = last_decoded_size_ d' ∧
      snapshot_decodes msgs' us' (after_message u d')
  | _, _ => False
  end.

(** ** The state while a snapshot is read *)

Definition snapshot_state base (d : ItchDecoder) (b : list Z) (have : bool) (got : list MarketUpdate) : MarketDataConsumer Q :=
  mkConsumer (incoming_md_updates_ base) d (next_exp_inc_seq_num_ base) (in_recovery_ base) have
    (recovery_mode_ base) (replay_status_read_ base) (replay_last_applied_ base) (snapshot_tcp_fd_ base) b
    (incremental_queued_updates_ base) got (market_data_synchronized_ base) (md_inbound_ base) (open_fds_ base)
    (requests_ base) (delivered_ base).

(** What is left of the snapshot: all of it, or what follows the start marker. *)
Definition burst_left (have : bool) (got us : list MarketUpdate) (last : SeqNum) : Prop :=
  if have then ∃ body fin, us = body ++ [fin] ∧ Forall (λ u, mu_type u ≠ SNAPSHOT_START ∧ mu_type u ≠ SNAPSHOT_END) body ∧
                           mu_type fin = SNAPSHOT_END ∧ mu_order_ref fin = last
  else got = [] ∧ snapshot_burst us last.

Lemma burst_left_nonempty have got us last : burst_left have got us last → us ≠ [].
Proof using Type.
  destruct have; [intros ([] & fin & -> & _)|intros [_ ([] & fin & -> & _)]]; done.
Qed.

(** One message: it is queued, or it is the last one. *)
Lemma message_run base d b have got u us last : in_recovery_ base = true → burst_left have got (u :: us) last →
  (us ≠ [] ∧ burst_left true (got ++ [u]) us last ∧
   processSnapshot u (snapshot_state base d b have got) = Ok (snapshot_state base (after_message u d) b true (got ++ [u]))) ∨
  (us = [] ∧ after_message u d = d ∧
   processSnapshot u (snapshot_state base d b have got) = finishSnapshotSync (succ64 last) (snapshot_state base d b false (got ++ [u]))).
Proof using Type.
  intros Hrec Hl. unfold processSnapshot, after_message. change (in_recovery_ (snapshot_state base d b have got)) with (in_recovery_ base).
  rewrite Hrec. cbn [negb]. destruct have.
  - destruct Hl as ([|u' body] & fin & Hus & Hbody & Hfin & <-); injection Hus as -> ->.
    + right. rewrite (bool_decide_false (mu_type fin = SNAPSHOT_START)), (bool_decide_true (mu_type fin = SNAPSHOT_END)) by congruence. done.
    + apply Forall_cons in Hbody as [[H1' H2'] Hbody]. left.
      rewrite !bool_decide_false by done. split_and!; [by destruct body| |done]. by exists body, fin.
  - destruct Hl as [-> (front & fin & Hus & (first & body & -> & Hfirst & Hbody) & Hfin & <-)]. injection Hus as -> ->. left.
    rewrite bool_decide_true by done. split_and!; [by destruct body| |done]. by exists body, fin.
Qed.

(** ** The loop *)

Definition snapshot_to_come (us : list MarketUpdate) (d : ItchDecoder) (b more : list Z) : Prop :=
  ∃ msgs, b ++ more = concat msgs ∧ snapshot_decodes msgs us d.
Definition short_of_message (us : list MarketUpdate) (d : ItchDecoder) (b more : list Z) : Prop :=
  ∃ msgs, b ++ more = concat msgs ∧ snapshot_decodes msgs us d ∧ match msgs with [] => True | f :: _ => (length b < length f)%nat end.

(** The flags play no part in decoding a message. *)
Lemma decodeSnapshot_size n wire out d :
  decodeSnapshot max_size wire out (set_flags n (need_more_data_ d) d) = decodeSnapshot max_size wire out d.
Proof using Type. done. Qed.

Lemma snapshot_decodes_size n msgs us d : snapshot_decodes msgs us d → snapshot_decodes msgs us (set_flags n (need_more_data_ d) d).
Proof using Type. by destruct msgs, us. Qed.

Lemma message_nonempty f out d u d' : decodeSnapshot max_size f out d = Ok (true, u, d') → (0 < length f)%nat.
Proof using Type. intros (ty & rest & -> & _)%decodeSnapshot_true. simpl. lia. Qed.

(** Short of a whole message, nothing happens. *)
Lemma snapshot_loop_short fuel base b more d have got us offset : (offset ≤ length b)%nat →
  short_of_message us d (drop offset b) more → ∃ d',
  snapshot_loop max_size fuel b offset (snapshot_state base d b have got) = Ok (offset, snapshot_state base d' b have got) ∧
  short_of_message us d' (drop offset b) more.
Proof using Type.
  intros Hoff Hs. destruct fuel as [|fuel]; cbn [snapshot_loop]; [by exists d|]. case_bool_decide; [by exists d|].
  destruct Hs as ([|f msgs] & Hb & Hds & Hs).
  { exfalso. apply (f_equal length) in Hb. rewrite length_app, length_drop in Hb. simpl in Hb. lia. }
  destruct us as [|u us]; [done|]. pose proof Hds as (d1 & Hd & Hl & _). cbn [concat] in Hb.
  destruct (frame_split _ _ _ _ Hb) as [(t & Hb' & _)|(t & Ht & -> & Hm)].
  { apply (f_equal length) in Hb'. rewrite length_app in Hb'. lia. }
  change (decoder_ (snapshot_state base d b have got)) with d.
  assert (drop offset b ≠ []) as Hne by (intros E; apply (f_equal length) in E; rewrite length_drop in E; simpl in E; lia).
  rewrite (decodeSnapshot_prefix _ _ _ _ _ _ Hne Ht Hd Hl).
  cbn [mbind outcome_bind negb]. eexists. split; [done|]. exists ((drop offset b ++ t) :: msgs).
  split_and!; [done|by apply snapshot_decodes_size|done].
Qed.

Lemma snapshot_loop_end fuel b s : snapshot_loop max_size fuel b (length b) s = Ok (length b, s).
Proof using Type. destruct fuel; cbn [snapshot_loop]; [done|]. by rewrite bool_decide_true. Qed.

Lemma snapshot_loop_run base b more last : in_recovery_ base = true → ∀ fuel offset d have got us,
  (offset ≤ length b ≤ fuel + offset)%nat → burst_left have got us last → snapshot_to_come us d (drop offset b) more →
  (∃ offset' d' have' got' us',
     snapshot_loop max_size fuel b offset (snapshot_state base d b have got) = Ok (offset', snapshot_state base d' b have' got') ∧
     got' ++ us' = got ++ us ∧ burst_left have' got' us' last ∧ short_of_message us' d' (drop offset' b) more) ∨
  (more = [] ∧ ∃ d', snapshot_loop max_size fuel b offset (snapshot_state base d b have got) =
     (s ← finishSnapshotSync (succ64 last) (snapshot_state base d' b false (got ++ us)); Ok (length b, s))).
Proof using Type.
  intros Hrec. induction fuel as [|fuel IH]; intros offset d have got us Hf Hl (msgs & Hb & Hds);
    (destruct us as [|u us]; [by apply burst_left_nonempty in Hl|]); (destruct msgs as [|f msgs]; [done|]);
    (destruct (decide (length (drop offset b) < length f)%nat) as [Hs|Hs];
     [left; match goal with |- context [snapshot_loop _ ?n b offset _] =>
        destruct (snapshot_loop_short n base b more d have got (u :: us) offset ltac:(lia)) as (d' & Hr & Hs');
          [by exists (f :: msgs)|] end; by exists offset, d', have, got, (u :: us)|]).
  all: destruct Hds as (d1 & Hd & Hlen & Hds); pose proof (message_nonempty _ _ _ _ _ Hd); rewrite length_drop in Hs.
  { exfalso. lia. }
  cbn [concat] in Hb. destruct (frame_split _ _ _ _ Hb) as [(t & Hb' & Hm)|(t & Ht & -> & _)].
  2:{ exfalso. rewrite length_app, length_drop in Hs. destruct t; [done|]. simpl in Hs. lia. }
  cbn [snapshot_loop]. rewrite bool_decide_false by lia. change (decoder_ (snapshot_state base d b have got)) with d.
  rewrite Hb', (decodeSnapshot_app _ t _ _ _ _ Hd). cbn [mbind outcome_bind negb].
  change (set_decoder d1 (snapshot_state base d b have got)) with (snapshot_state base d1 b have got).
  assert (drop (offset + length f) b = t) as Ht by (by rewrite <- drop_drop, Hb', drop_app_length).
  assert (offset + length f + length t = length b)%nat as Hlb.
  { apply (f_equal length) in Hb'. rewrite length_app, length_drop in Hb'. lia. }
  rewrite <- Hlen. destruct (message_run base d1 b have got u us last Hrec Hl) as [(_ & Hl' & ->)|(-> & _ & ->)]; cbn [mbind outcome_bind].
  - destruct (IH (offset + length f)%nat (after_message u d1) true (got ++ [u]) us) as [Hr|Hr]; [lia|done| | |].
    + exists msgs. by rewrite Ht.
    + left. by rewrite <- app_assoc in Hr.
    + right. by rewrite <- app_assoc in Hr.
  - destruct msgs; [|done]. cbn [concat] in Hm. apply app_nil in Hm as [-> ->]. right. split; [done|]. exists d1.
    cbn [length] in Hlb. rewrite Nat.add_0_r in Hlb. rewrite Hlb.
    destruct (finishSnapshotSync _ _); cbn [mbind outcome_bind]; [apply snapshot_loop_end|done|done].
Qed.

(** ** Rounds *)

(** The snapshot's bytes [c] arrive. *)
Lemma snapshot_round_run base net_ok fd c more last d b have got us :
  in_recovery_ base = true → recovery_mode_ base = RM_Snapshot → burst_left have got us last → short_of_message us d b (c ++ more) →
  (∃ d' b' have' got' us',
     run_round max_size (tcp_round net_ok fd (TcpData c)) (snapshot_state base d b have got) = Ok (snapshot_state base d' b' have' got') ∧
     got' ++ us' = got ++ us ∧ burst_left have' got' us' last ∧ short_of_message us' d' b' more) ∨
  (more = [] ∧ ∃ d' b', run_round max_size (tcp_round net_ok fd (TcpData c)) (snapshot_state base d b have got) =
     (s ← finishSnapshotSync (succ64 last) (snapshot_state base d' b' false (got ++ us));
      Ok (set_buffer (drop (length b') (snapshot_tcp_buffer_ s)) s))).
Proof using Type.
  intros Hrec Hmode Hl (msgs & Hb & Hds & _). unfold run_round. cbn [tcp_round rd_datagram rd_tcp mbind outcome_bind].
  change (in_recovery_ (snapshot_state base d b have got)) with (in_recovery_ base). rewrite Hrec. cbn [readSnapshotTcp].
  change (recovery_mode_ (set_buffer _ _)) with (recovery_mode_ base). rewrite Hmode, bool_decide_false by done.
  change (set_buffer _ (snapshot_state base d b have got)) with (snapshot_state base d (b ++ c) have got).
  change (snapshot_tcp_buffer_ (snapshot_state base d (b ++ c) have got)) with (b ++ c).
  destruct (snapshot_loop_run base (b ++ c) more last Hrec (length (b ++ c)) 0 d have got us)
    as [(o & d' & have' & got' & us' & -> & Hr)|(-> & d' & ->)]; [lia|done|exists msgs; by rewrite drop_0, <- app_assoc|left|right].
  - by exists d', (drop o (b ++ c)), have', got', us'.
  - split; [done|]. exists d', (b ++ c). by destruct (finishSnapshotSync _ _).
Qed.

Lemma snapshot_rounds_run base net_ok fd chunks last : in_recovery_ base = true → recovery_mode_ base = RM_Snapshot →
  Forall (λ c, c ≠ []) chunks → ∀ d b have got us,
  burst_left have got us last → short_of_message us d b (concat chunks) → ∃ d' b',
  run_rounds max_size ((λ c, tcp_round net_ok fd (TcpData c)) <$> chunks) (snapshot_state base d b have got) =
    (s ← finishSnapshotSync (succ64 last) (snapshot_state base d' b' false (got ++ us));
     Ok (set_buffer (drop (length b') (snapshot_tcp_buffer_ s)) s)).
Proof using Type.
  intros Hrec Hmode. induction 1 as [|c chunks Hc Hcs IH]; intros d b have got us Hl Hs.
  { exfalso. apply burst_left_nonempty in Hl. destruct Hs as ([|f msgs] & Hb & Hds & Hs), us as [|u us]; try done.
    cbn [concat] in Hb. rewrite app_nil_r in Hb. subst b. rewrite length_app in Hs. lia. }
  cbn [concat] in Hs. rewrite fmap_cons. cbn [run_rounds].
  destruct (snapshot_round_run base net_ok fd c _ last d b have got us Hrec Hmode Hl Hs)
    as [(d' & b' & have' & got' & us' & -> & Hg & Hl' & Hs')|(Hm & d' & b' & ->)].
  - cbn [mbind outcome_bind]. destruct (IH _ _ _ _ _ Hl' Hs') as (d2 & b2 & ->). exists d2, b2. by rewrite Hg.
  - exists d', b'. destruct Hcs as [|c' chunks Hc' _]; [|by destruct c']. cbn [fmap list_fmap run_rounds].
    by destruct (finishSnapshotSync _ _).
Qed.

(** The end of the snapshot. *)
Lemma finishSnapshotSync_run last d b us base (popped : list MarketUpdate) : consumer_ok popped base → recovery_mode_ base = RM_Snapshot →
  accepts (us ++ pending_from last (incremental_queued_updates_ base)) (incoming_md_updates_ base) = true → ∃ s',
  finishSnapshotSync last (snapshot_state base d b false us) = Ok s' ∧
  match contiguous_from last (incremental_queued_updates_ base) with
  | Some expected =>
      delivered_ s' = delivered_ base ++ us ++ pending_from last (incremental_queued_updates_ base) ∧
      next_exp_inc_seq_num_ s' = expected ∧ in_recovery_ s' = false ∧ market_data_synchronized_ s' = true ∧ open_fds_ s' = 0
  | None =>
      delivered_ s' = delivered_ base ∧ incremental_queued_updates_ s' = incremental_queued_updates_ base ∧
      in_recovery_ s' = true ∧ market_data_synchronized_ s' = false ∧ open_fds_ s' = 1
  end.
Proof using Type.
  intros Hok Hmode Ha. destruct (recovering _ base Hok) as (Hrec & _ & Ho & Hg); [by rewrite Hmode|].
  unfold finishSnapshotSync. change (incremental_queued_updates_ (snapshot_state base d b false us)) with (incremental_queued_updates_ base).
  destruct (contiguous_from _ _) as [expected|]; [|by eexists].
  set (m := pending_from last (incremental_queued_updates_ base)) in *.
  destruct (push_list_accepts us m (snapshot_state base d b false us) Ha) as (q & Hp & Ha').
  change (snapshot_queued_updates_ (snapshot_state base d b false us)) with us. rewrite Hp. cbn [mbind outcome_bind].
  change (pending_from last (incremental_queued_updates_ (set_incoming _ _ _))) with m.
  rewrite <- (app_nil_r m) in Ha'.
  destruct (push_list_accepts m [] (set_incoming q (delivered_ base ++ us) (snapshot_state base d b false us)) Ha') as (q' & Hp' & _).
  change (delivered_ (snapshot_state base d b false us)) with (delivered_ base). rewrite Hp'. cbn [mbind outcome_bind].
  eexists. split; [done|]. cbn. rewrite <- app_assoc, Ho. done.
Qed.

(** C14: a snapshot synchronises the consumer.  A consumer that waits for a
    snapshot (at start, or after a gap too large to replay) and has queued some
    incrementals meanwhile reads the messages of a complete snapshot, whose end
    marker names [last], cut into TCP chunks in any way.  If the queued numbers
    continue from [last + 1] without a hole and the queue has room, the engine is
    given exactly the snapshot and then the queued updates after [last]; the
    number after them is expected, recovery is over, trading is open and the
    socket is closed.  If there is a hole, nothing is handed over, the queued
    updates are kept and the consumer stays closed and waits on the same
    connection. *)
Theorem snapshot_synchronises popped msgs us last fd s chunks :
  consumer_ok popped s → recovery_mode_ s = RM_Snapshot → snapshot_have_start_ s = false → snapshot_tcp_buffer_ s = [] →
  snapshot_decodes msgs us (decoder_ s) → snapshot_burst us last → concat chunks = concat msgs → Forall (λ c, c ≠ []) chunks →
  accepts (us ++ pending_from (succ64 last) (incremental_queued_updates_ s)) (incoming_md_updates_ s) = true →
  ∃ s', run_rounds max_size ((λ c, tcp_round true fd (TcpData c)) <$> chunks) s = Ok s' ∧
    match contiguous_from (succ64 last) (incremental_queued_updates_ s) with
    | Some expected =>
        delivered_ s' = delivered_ s ++ us ++ pending_from (succ64 last) (incremental_queued_updates_ s) ∧
        next_exp_inc_seq_num_ s' = expected ∧ in_recovery_ s' = false ∧ market_data_synchronized_ s' = true ∧ open_fds_ s' = 0
    | None =>
        delivered_ s' = delivered_ s ∧ incremental_queued_updates_ s' = incremental_queued_updates_ s ∧
        in_recovery_ s' = true ∧ market_data_synchronized_ s' = false ∧ open_fds_ s' = 1
    end.
Proof using Type.
  intros Hok Hmode Hst Hb Hds Hburst Hc Hne Ha. destruct (recovering _ s Hok) as (Hrec & _); [by rewrite Hmode|].
  pose proof (co_snapshot _ _ Hok Hmode) as Hq. rewrite Hst in Hq.
  assert (s = snapshot_state s (decoder_ s) [] false []) as Es.
  { rewrite <- Hb, <- Hq, <- Hst. by destruct s. }
  destruct (snapshot_rounds_run s true fd chunks last Hrec Hmode Hne (decoder_ s) [] false [] us) as (d' & b' & Hr); [done| |].
  { exists msgs. split_and!; [by rewrite <- Hc|done|]. destruct msgs as [|f msgs], us; try done.
    destruct Hds as (? & ?%message_nonempty & _). simpl. lia. }
  rewrite <- Es in Hr. destruct (finishSnapshotSync_run (succ64 last) d' b' us s popped Hok Hmode Ha) as (s' & Hf & Hs').
  rewrite Hr. cbn [app]. rewrite Hf. cbn [mbind outcome_bind]. eexists. split; [done|]. exact Hs'.
Qed.
End Snapshot.

(** ** Examples *)

#[local] Existing Instances bswap_order packed_itch.

Fixpoint decode_messages (msgs : list (list Z)) (d : ItchDecoder) : option (list MarketUpdate) :=
  match msgs with
  | [] => Some []
  | f :: msgs' =>
      match decodeSnapshot (2 ^ 20) f default_MarketUpdate d with
      | Ok (true, u, d') =>
          if bool_decide (length f = last_decoded_size_ d') then cons u <$> decode_messages msgs' (after_message u d') else None
      | _ => None
      end
  end.

Lemma decode_messages_decodes msgs : ∀ us d, decode_messages msgs d = Some us → snapshot_decodes (2 ^ 20) msgs us d.
Proof.
  induction msgs as [|f msgs IH]; intros us d; simpl; [by intros [= <-]|].
  destruct (decodeSnapshot _ _ _ _) as [[[[] u] d']| |]; try done. case_bool_decide as Hl; [|done].
  intros (us' & Hf & ->)%fmap_Some. exists d'. split_and!; [done|done|]. by apply IH.
Qed.

(** The order 6 is added live as number 42 before the snapshot arrives, which
    holds the orders 4 and 5 and ends at 41. *)
Definition ex_waiting : MarketDataConsumer BQueue := ex_run 16 [ex_feed (ex_add 42 6 66 20 999)].
Definition ex_msgs : list (list Z) :=
  [ex_ctl CTL_SNAPSHOT_START 0; drop 8 (ex_add 0 4 66 30 1000); drop 8 (ex_add 0 5 83 10 1001); ex_ctl CTL_SNAPSHOT_END 41].
Definition ex_snapshot_chunks : list (list Z) := [take 30 (concat ex_msgs); drop 30 (concat ex_msgs)].
Definition ex_burst : list MarketUpdate := default [] (decode_messages ex_msgs (decoder_ ex_waiting)).
Definition ex_sync_rounds : list Round := (λ c, tcp_round true 3 (TcpData c)) <$> ex_snapshot_chunks.
Definition ex_synced (more : list Round) : MarketDataConsumer BQueue :=
  ex_run 16 ([ex_feed (ex_add 42 6 66 20 999)] ++ ex_sync_rounds ++ more).

Lemma ex_burst_snapshot : snapshot_burst ex_burst 41.
Proof.
  exists (take 3 ex_burst), (default default_MarketUpdate (last ex_burst)). split_and!; [by vm_compute| |by vm_compute..].
  exists (default default_MarketUpdate (head ex_burst)), (take 2 (tail ex_burst)). split_and!; [by vm_compute..|].
  apply (bool_decide_unpack _). by vm_compute.
Qed.

Lemma snapshot_synchronises_witness : ∃ s',
  run_rounds (2 ^ 20) ex_sync_rounds ex_waiting = Ok s' ∧ mu_seq_num <$> delivered_ s' = [0; 0; 0; 0; 42] ∧
  next_exp_inc_seq_num_ s' = 43 ∧ market_data_synchronized_ s' = true ∧ open_fds_ s' = 0.
Proof.
  destruct (snapshot_synchronises (2 ^ 20) [] ex_msgs ex_burst 41 3 ex_waiting ex_snapshot_chunks) as (s' & Hr & Hs').
  - apply (consumer_run_ok (2 ^ 20)), ex_run_run; by vm_compute.
  - by vm_compute.
  - by vm_compute.
  - by vm_compute.
  - apply decode_messages_decodes. by vm_compute.
  - exact ex_burst_snapshot.
  - by vm_compute.
  - by repeat constructor.
  - by vm_compute.
  - replace (contiguous_from (succ64 41) (incremental_queued_updates_ ex_waiting)) with (Some 43) in Hs' by (by vm_compute).
    destruct Hs' as (Hd & Hn & _ & Hg & Ho). exists s'. split_and!; [exact Hr|rewrite Hd; by vm_compute|exact Hn|exact Hg|exact Ho].
Defined.

(** ** What the model shows *)

(** The decoder is reset when the start marker is processed, also of the orders
    of incrementals that were decoded and queued before it.  Such an order is in
    the engine's stream and unknown to the decoder: its execution, number 43,
    does not decode, the next number reveals a gap, and the replay of 43 does
    not decode either, so the same replay is requested again and again. *)
Definition ex_forgotten (n : nat) : MarketDataConsumer BQueue :=
  ex_synced ([ex_feed (ex_exec 43 6 5); ex_feed (ex_add 44 7 66 20 999)] ++
             concat (replicate n [tcp_round true 3 (TcpData (82 :: ex_exec 43 6 5)); tcp_round true 3 TcpEof])).

Theorem snapshot_forgets_queued_orders :
  existsb (λ u, mu_order_ref u =? 6) (delivered_ (ex_synced [])) = true ∧ findState 1 6 (decoder_ (ex_synced [])) = None ∧
  mu_seq_num <$> delivered_ (ex_synced [ex_feed (ex_exec 43 6 5)]) = [0; 0; 0; 0; 42] ∧
  in_recovery_ (ex_forgotten 3) = true ∧ delivered_ (ex_forgotten 3) = delivered_ (ex_synced []) ∧
  requests_ (ex_forgotten 3) = [83] :: replicate 4 (82 :: le_bytes 8 (swap64 42)).
Proof. by vm_compute. Qed.
