(* ===== verification/FeedRegistration.v ===== *)
(** * Registration with the feed gateway, [src/src/market_data/market_data_consumer.cpp]

    The datagrams that keep the consumer subscribed to the incremental feed, the
    multicast membership of the constructor, and the thread loop that ties them
    to the rounds of [MarketData].  Address parsing belongs to the operating
    system and [getIfaceIP] to QuantLink: both are an interface.  A clock reading
    is an argument of the operation that takes it. *)

From stdpp Require Import strings.
From S2P Require Import Prelude Types QuantLink Bytes ItchDecoder MarketData RecoveryProperties.

(** [inet_addr] followed by [ntohl], and QuantLink's [getIfaceIP]. *)
Class NetAddresses : Type := {
  host_addr : string → Z;
  getIfaceIP : string → string
}.

(** One second. *)
Definition kRegistrationIntervalNs : Z := 1000 * 1000 * 1000.

Record FeedRegistration : Type := mkFeedRegistration {
  iface_ : string;
  incremental_ip_ : string;
  incremental_port_ : Z;
  receive_port_ : Z;
  last_registration_ns_ : Z;
  sent_at_ : list Z    (* history: the stamps of the datagrams sent *)
}.

Definition set_last_registration (now : Z) (r : FeedRegistration) : FeedRegistration :=
  mkFeedRegistration (iface_ r) (incremental_ip_ r) (incremental_port_ r) (receive_port_ r) now (sent_at_ r).
Definition log_send (now : Z) (r : FeedRegistration) : FeedRegistration :=
  mkFeedRegistration (iface_ r) (incremental_ip_ r) (incremental_port_ r) (receive_port_ r) (last_registration_ns_ r)
    (sent_at_ r ++ [now]).

Section Registration.
Context `{NetAddresses}.
Implicit Types r : FeedRegistration.

Definition isOwnAddress (ip : string) r : bool :=
  let addr := host_addr ip in
  if Z.land addr 0xFF000000 =? 0x7F000000 then true else String.eqb ip (getIfaceIP (iface_ r)).

Definition sendRegistration (now : Z) r : FeedRegistration :=
  let r := set_last_registration now r in
  if (incremental_port_ r =? receive_port_ r) && isOwnAddress (incremental_ip_ r) r then r
  else log_send now r.

(** The group to join: [None] for a unicast feed, else the interface's address,
    [INADDR_ANY] when it has none. *)
Definition membership r : option Z :=
  if Z.land (host_addr (incremental_ip_ r)) 0xF0000000 =? 0xE0000000 then
    let iface_ip := getIfaceIP (iface_ r) in
    Some (if String.eqb iface_ip "" then 0 else host_addr iface_ip)
  else None.

(** The constructor registers once. *)
Definition FeedRegistration_new (iface incremental_ip : string) (incremental_port receive_port now : Z) : FeedRegistration :=
  sendRegistration now (mkFeedRegistration iface incremental_ip incremental_port receive_port 0 []).

(** The timer of [run]: [test] is the reading of the condition, [stamp] the later
    one that [sendRegistration] takes (not taken when nothing is due). *)
Definition register_if_due (test stamp : Z) r : outcome FeedRegistration :=
  elapsed ← chkS 64 (test - last_registration_ns_ r);
  Ok (if kRegistrationIntervalNs <? elapsed then sendRegistration stamp r else r).

Context `{ByteOrder} `{ItchFormat} {Q : Type → Type} `{SPSCQueue Q} (max_size : Z).

(** The loop of [run]: per round, the two clock readings and what the round
    meets. *)
Fixpoint run (rounds : list (Z * Z * Round)) (st : FeedRegistration * MarketDataConsumer Q)
    : outcome (FeedRegistration * MarketDataConsumer Q) :=
  match rounds with
  | [] => Ok st
  | (test, stamp, round) :: rounds' =>
      r ← register_if_due test stamp st.1;
      s ← run_round max_size round st.2;
      run rounds' (r, s)
  end.
End Registration.

(** ** The subscription stays alive *)

(** The clock readings of the rounds, after a round with the readings [test] and
    [stamp]: none is before an earlier one, tests are at most [step] apart, and a
    stamp is read at most [delay] after its test. *)
Fixpoint paced (step delay test stamp : Z) (ts : list (Z * Z)) : Prop :=
  match ts with
  | [] => True
  | (test', stamp') :: ts' =>
      stamp ≤ test' ≤ test + step ∧ test' ≤ stamp' ≤ test' + delay ∧ paced step delay test' stamp' ts'
  end.

(** Consecutive elements differ by more than [lo] and at most [hi]. *)
Fixpoint spaced (lo hi : Z) (l : list Z) : Prop :=
  match l with
  | a :: (b :: _) as l' => lo < b - a ≤ hi ∧ spaced lo hi l'
  | _ => True
  end.

Lemma spaced_snoc lo hi l a b : spaced lo hi (l ++ [a]) → lo < b - a ≤ hi → spaced lo hi (l ++ [a] ++ [b]).
Proof.
  intros Hl Hb. induction l as [|x l IH]; [done|]. destruct l as [|y l]; simpl in *; [naive_solver|].
  destruct Hl as [Hx Hl]. split; [done|]. by apply IH.
Qed.

Section Alive.
Context `{NetAddresses} `{ByteOrder} `{ItchFormat} {Q : Type → Type} `{SPSCQueue Q} (max_size step delay : Z).
Implicit Types r : FeedRegistration.

(** The datagram would come back to the sender. *)
Definition loops_back r : bool := (incremental_port_ r =? receive_port_ r) && isOwnAddress (incremental_ip_ r) r.

(** The subscription after a round: last renewed at most an interval before its
    test. *)
Record alive (test stamp : Z) r : Prop := {
  al_remote : loops_back r = false;
  al_last : ∃ l, sent_at_ r = l ++ [last_registration_ns_ r];
  al_spaced : spaced kRegistrationIntervalNs (kRegistrationIntervalNs + step + delay) (sent_at_ r);
  al_fresh : 0 ≤ last_registration_ns_ r ≤ stamp ∧ test ≤ last_registration_ns_ r + kRegistrationIntervalNs
}.

Lemma register_if_due_alive test stamp test' stamp' r :
  alive test stamp r → stamp ≤ test' ≤ test + step → test' ≤ stamp' ≤ test' + delay → test' < 2 ^ 63 →
  returns (register_if_due test' stamp' r) (λ r', alive test' stamp' r' ∧ head (sent_at_ r') = head (sent_at_ r)).
Proof using Type.
  intros [Hr (l & Hl) Hs Hf] Ht Hst H63. unfold register_if_due. rewrite chkS_ok by lia. cbn [mbind outcome_bind returns].
  destruct (kRegistrationIntervalNs <? _) eqn:E; bsplit.
  2:{ split; [|done]. split; try done; [by exists l|lia]. }
  unfold sendRegistration. change (_ && _) with (loops_back r). rewrite Hr. split; [split|]; simpl; try done.
  - by exists (sent_at_ r).
  - rewrite Hl in Hs |- *. rewrite <- app_assoc. apply spaced_snoc; [done|lia].
  - unfold kRegistrationIntervalNs in *. lia.
  - rewrite Hl. by destruct l.
Qed.

Lemma run_alive rounds : ∀ test stamp r, alive test stamp r → paced step delay test stamp rounds.*1 →
  Forall (λ x, x.1.1 < 2 ^ 63) rounds →
  ∃ r' stamp', alive (default test (last rounds.*1.*1)) stamp' r' ∧ head (sent_at_ r') = head (sent_at_ r) ∧
    ∀ s : MarketDataConsumer Q, run max_size rounds (r, s) = (s' ← run_rounds max_size rounds.*2 s; Ok (r', s')).
Proof using Type.
  induction rounds as [|[[test' stamp'] round] rounds IH]; intros test stamp r Ha Hp Hf; [by exists r, stamp|].
  apply Forall_cons in Hf as [H63 Hf]. destruct Hp as (Ht & Hst & Hp).
  pose proof (register_if_due_alive test stamp test' stamp' r Ha Ht Hst H63) as (r1 & Hr1 & Ha1 & Hh)%returns_ok.
  destruct (IH test' stamp' r1 Ha1 Hp Hf) as (r2 & st2 & Ha2 & Hh2 & Hr2). exists r2, st2. split_and!.
  - rewrite !fmap_cons, last_cons. by destruct (last rounds.*1.*1).
  - by rewrite Hh2.
  - intros s. cbn [run fst snd]. rewrite Hr1. cbn [fmap list_fmap run_rounds mbind outcome_bind snd].
    destruct (run_round max_size round s); cbn [mbind outcome_bind]; [apply Hr2|done|done].
Qed.
End Alive.

(** C17: the subscription to the feed stays alive.  A consumer whose datagrams do
    not come back to itself registers when it is built, at [t0].  If the epoch
    clock never steps back (and stays under 2^63), two tests of the timer are at
    most [step] apart, and the clock of a registration is read at most [delay]
    after its test, then, whatever the rounds meet, the elapsed time never
    overflows (the loop returns when its rounds do), the first datagram was
    stamped [t0], the stamps of two consecutive datagrams are more than one second
    and at most one second plus [step] plus [delay] apart, and at the last test at
    most one second has passed since the latest stamp. *)
Theorem registration_kept_alive `{NetAddresses} `{ByteOrder} `{ItchFormat} {Q : Type → Type} `{SPSCQueue Q} max_size step delay
    iface ip port receive_port t0 rounds :
  0 ≤ t0 < 2 ^ 63 → (port =? receive_port) && isOwnAddress ip (mkFeedRegistration iface ip port receive_port t0 []) = false →
  paced step delay t0 t0 rounds.*1 → Forall (λ x, x.1.1 < 2 ^ 63) rounds →
  ∃ r', (∀ s : MarketDataConsumer Q,
           run max_size rounds (FeedRegistration_new iface ip port receive_port t0, s) =
             (s' ← run_rounds max_size rounds.*2 s; Ok (r', s'))) ∧
    head (sent_at_ r') = Some t0 ∧ spaced kRegistrationIntervalNs (kRegistrationIntervalNs + step + delay) (sent_at_ r') ∧
    ∃ t, last (sent_at_ r') = Some t ∧ default t0 (last rounds.*1.*1) ≤ t + kRegistrationIntervalNs.
Proof.
  intros Ht0 Hremote Hp Hf.
  assert (FeedRegistration_new iface ip port receive_port t0 = mkFeedRegistration iface ip port receive_port t0 [t0]) as ->.
  { unfold FeedRegistration_new, sendRegistration. cbn [set_last_registration incremental_port_ receive_port_ incremental_ip_].
    unfold set_last_registration. cbn [iface_ incremental_ip_ incremental_port_ receive_port_ sent_at_]. by rewrite Hremote. }
  destruct (run_alive (Q := Q) max_size step delay rounds t0 t0 (mkFeedRegistration iface ip port receive_port t0 [t0]))
    as (r' & stamp' & [_ (l & Hl) Hs Hfr] & Hh & Hrun); [|done..|].
  { split; simpl; try done; [by exists []|unfold kRegistrationIntervalNs; lia]. }
  exists r'. split_and!; try done. exists (last_registration_ns_ r'). rewrite Hl, last_snoc. split; [done|lia].
Qed.

(** Idle rounds 0.6 seconds apart, stamps a millisecond after their tests, on
    the program's default ports. *)
Definition ex_net : NetAddresses := {| host_addr _ := 2130706433; getIfaceIP _ := "127.0.0.1"%string |}.
#[local] Existing Instances ex_net bswap_order DecoderProperties.packed_itch.
Definition ex_times : list (Z * Z * Round) :=
  (λ k, (5000000000 + 600000000 * k, 5001000000 + 600000000 * k, mkRound [] TcpWouldBlock true 3)) <$> [1; 2; 3; 4].

Lemma registration_kept_alive_witness : ∃ r' : FeedRegistration,
  run (2 ^ 20) ex_times (FeedRegistration_new "lo" "127.0.0.1" 21001 22001 5000000000, MarketDataConsumer_new (ex_queue 1)) =
    Ok (r', MarketDataConsumer_new (ex_queue 1)) ∧
  sent_at_ r' = [5000000000; 6201000000; 7401000000].
Proof.
  destruct (registration_kept_alive (Q := BQueue) (2 ^ 20) 600000000 1000000 "lo" "127.0.0.1" 21001 22001 5000000000 ex_times)
    as (r' & Hrun & _); [lia|done|by vm_compute|by repeat constructor|].
  exists r'. specialize (Hrun (MarketDataConsumer_new (ex_queue 1))). cbn [mbind outcome_bind] in Hrun.
  split; [exact Hrun|]. assert (r' = match run (2 ^ 20) ex_times (FeedRegistration_new "lo" "127.0.0.1" 21001 22001 5000000000,
    MarketDataConsumer_new (ex_queue 1)) with Ok (r, _) => r | _ => r' end) as -> by (by rewrite Hrun). by vm_compute.
Defined.
