(* ===== verification/Main.v ===== *)
(** * The main program, [src/src/main.cpp]

    Command line, construction and registration, the wait for the first
    synchronisation and the session summary.  [argv] is the list of its strings
    after the program's name; text written to the terminal is not modelled, the
    values printed by the summary are. *)

From Stdlib Require Import Ascii.
From stdpp Require Import strings.
From S2P Require Import Prelude Types OrderIdAllocator PnLTracker RiskManager QuantLink OrderManager.
From S2P Require Import MarketOrderBook Features Strategy TradeEngine.

(** ** [Config] *)
Record Config : Type := mkConfig {
  gateway_ip : string;
  gateway_port : Z;
  mcast_iface : string;
  snapshot_ip : string;
  snapshot_port : Z;
  incremental_ip : string;
  incremental_port : Z;
  receive_port : Z;
  cfg_tickers : list TickerId;
  cfg_limits : RiskLimits;
  cfg_signal : IocSignalConfig;
  core_consumer : Z;
  core_engine : Z;
  core_gateway : Z
}.

Definition Config_new : Config :=
  mkConfig "127.0.0.1" 11000 "lo" "127.0.0.1" 21003 "127.0.0.1" 21001 22001 [1] (mkRiskLimits 100 10 100000000)
    (mkIocSignalConfig 10 300000) (-1) (-1) (-1).

(** ** [std::atoi], [std::atoll] *)

Definition code (c : ascii) : Z := Z.of_N (N_of_ascii c).
Definition is_space (c : ascii) : bool := (code c =? 32) || ((9 <=? code c) && (code c <=? 13)).
Definition is_digit (c : ascii) : bool := (48 <=? code c) && (code c <=? 57).

Fixpoint skip_spaces (s : string) : string :=
  match s with
  | String c s' => if is_space c then skip_spaces s' else s
  | EmptyString => s
  end.

Fixpoint digits (acc : Z) (s : string) : Z :=
  match s with
  | String c s' => if is_digit c then digits (10 * acc + (code c - 48)) s' else acc
  | EmptyString => acc
  end.

(** The value of the longest numeric prefix, 0 when there is none; a value that
    does not fit the result type is undefined behaviour. *)
Definition ato (w : Z) (s : string) : outcome Z :=
  chkS w (match skip_spaces s with
          | String c s' => if code c =? 45 then - digits 0 s' else if code c =? 43 then digits 0 s' else digits 0 (String c s')
          | EmptyString => 0
          end).
Definition atoi : string → outcome Z := ato 32.
Definition atoll : string → outcome Z := ato 64.

(** ** [parseArgs] *)

Definition with_limits (l : RiskLimits) (c : Config) : Config :=
  mkConfig (gateway_ip c) (gateway_port c) (mcast_iface c) (snapshot_ip c) (snapshot_port c) (incremental_ip c)
    (incremental_port c) (receive_port c) (cfg_tickers c) l (cfg_signal c) (core_consumer c) (core_engine c) (core_gateway c).
Definition with_signal (g : IocSignalConfig) (c : Config) : Config :=
  mkConfig (gateway_ip c) (gateway_port c) (mcast_iface c) (snapshot_ip c) (snapshot_port c) (incremental_ip c)
    (incremental_port c) (receive_port c) (cfg_tickers c) (cfg_limits c) g (core_consumer c) (core_engine c) (core_gateway c).
Definition with_tickers (l : list TickerId) (c : Config) : Config :=
  mkConfig (gateway_ip c) (gateway_port c) (mcast_iface c) (snapshot_ip c) (snapshot_port c) (incremental_ip c)
    (incremental_port c) (receive_port c) l (cfg_limits c) (cfg_signal c) (core_consumer c) (core_engine c) (core_gateway c).
Definition with_gateway (ip : string) (port : Z) (c : Config) : Config :=
  mkConfig ip port (mcast_iface c) (snapshot_ip c) (snapshot_port c) (incremental_ip c)
    (incremental_port c) (receive_port c) (cfg_tickers c) (cfg_limits c) (cfg_signal c) (core_consumer c) (core_engine c)
    (core_gateway c).
Definition with_feed (iface sip : string) (sport : Z) (iip : string) (iport rport : Z) (c : Config) : Config :=
  mkConfig (gateway_ip c) (gateway_port c) iface sip sport iip iport rport (cfg_tickers c) (cfg_limits c) (cfg_signal c)
    (core_consumer c) (core_engine c) (core_gateway c).
Definition with_cores (consumer engine gateway : Z) (c : Config) : Config :=
  mkConfig (gateway_ip c) (gateway_port c) (mcast_iface c) (snapshot_ip c) (snapshot_port c) (incremental_ip c)
    (incremental_port c) (receive_port c) (cfg_tickers c) (cfg_limits c) (cfg_signal c) consumer engine gateway.

(** The options that take a value: what the value does to the configuration.
    Narrowing assignments to the 32-bit unsigned fields wrap. *)
Definition option_value (arg : string) : option (string → Config → outcome Config) :=
  if String.eqb arg "--gateway-ip" then Some (λ v c, Ok (with_gateway v (gateway_port c) c))
  else if String.eqb arg "--gateway-port" then Some (λ v c, n ← atoi v; Ok (with_gateway (gateway_ip c) n c))
  else if String.eqb arg "--mcast-iface" then
    Some (λ v c, Ok (with_feed v (snapshot_ip c) (snapshot_port c) (incremental_ip c) (incremental_port c) (receive_port c) c))
  else if String.eqb arg "--snapshot-ip" then
    Some (λ v c, Ok (with_feed (mcast_iface c) v (snapshot_port c) (incremental_ip c) (incremental_port c) (receive_port c) c))
  else if String.eqb arg "--snapshot-port" then
    Some (λ v c, n ← atoi v; Ok (with_feed (mcast_iface c) (snapshot_ip c) n (incremental_ip c) (incremental_port c) (receive_port c) c))
  else if String.eqb arg "--incremental-ip" then
    Some (λ v c, Ok (with_feed (mcast_iface c) (snapshot_ip c) (snapshot_port c) v (incremental_port c) (receive_port c) c))
  else if String.eqb arg "--incremental-port" then
    Some (λ v c, n ← atoi v; Ok (with_feed (mcast_iface c) (snapshot_ip c) (snapshot_port c) (incremental_ip c) n (receive_port c) c))
  else if String.eqb arg "--receive-port" then
    Some (λ v c, n ← atoi v; Ok (with_feed (mcast_iface c) (snapshot_ip c) (snapshot_port c) (incremental_ip c) (incremental_port c) n c))
  else if String.eqb arg "--ticker" then Some (λ v c, n ← atoi v; Ok (with_tickers (cfg_tickers c ++ [wrapU 32 n]) c))
  else if String.eqb arg "--position-limit" then
    Some (λ v c, n ← atoll v; Ok (with_limits (mkRiskLimits n (max_order_qty (cfg_limits c)) (max_order_notional (cfg_limits c))) c))
  else if String.eqb arg "--order-limit" then
    Some (λ v c, n ← atoi v;
      Ok (with_limits (mkRiskLimits (max_abs_position (cfg_limits c)) (wrapU 32 n) (max_order_notional (cfg_limits c))) c))
  else if String.eqb arg "--notional-limit" then
    Some (λ v c, n ← atoll v; Ok (with_limits (mkRiskLimits (max_abs_position (cfg_limits c)) (max_order_qty (cfg_limits c)) n) c))
  else if String.eqb arg "--ioc-qty" then
    Some (λ v c, n ← atoi v; Ok (with_signal (mkIocSignalConfig (wrapU 32 n) (entry_imbalance (cfg_signal c))) c))
  else if String.eqb arg "--imbalance" then
    Some (λ v c, n ← atoi v; Ok (with_signal (mkIocSignalConfig (order_qty (cfg_signal c)) n) c))
  else if String.eqb arg "--core-consumer" then Some (λ v c, n ← atoi v; Ok (with_cores n (core_engine c) (core_gateway c) c))
  else if String.eqb arg "--core-engine" then Some (λ v c, n ← atoi v; Ok (with_cores (core_consumer c) n (core_gateway c) c))
  else if String.eqb arg "--core-gateway" then Some (λ v c, n ← atoi v; Ok (with_cores (core_consumer c) (core_engine c) n c))
  else None.

(** The loop over [argv]: a configuration, or the exit code of the process. *)
Fixpoint parse_loop (args : list string) (cfg : Config) : outcome (Config + Z) :=
  match args with
  | [] => Ok (inl cfg)
  | arg :: rest =>
      match option_value arg with
      | Some set =>
          match rest with
          | [] => Ok (inr 1)                       (* nextArg: missing value *)
          | value :: rest' => cfg ← set value cfg; parse_loop rest' cfg
          end
      | None => if String.eqb arg "--help" then Ok (inr 0) else Ok (inr 1)
      end
  end.

Definition parseArgs (args : list string) : outcome (Config + Z) := parse_loop args Config_new.

(** ** [main] *)

Definition MaxSlots : nat := 4.
Definition MaxTickers : nat := 16.
Definition MaxPendingOrders : nat := 64.
Definition MaxOrders : nat := 256.
(** The default of the last constructor argument. *)
Definition book_pool_size : nat := Z.to_nat 65536.

Section Main.
Context {P : Type} `{ObjectPool P} {Q : Type → Type} `{SPSCQueue Q}.
#[local] Instance taker : Strategy P Q TradingFeatures IocSignalConfig := LiquidityTaker_strategy MaxPendingOrders MaxOrders.
Abbreviation Engine := (TradeEngine P Q TradingFeatures IocSignalConfig).

(** [for (TickerId ticker : cfg.tickers) if (!engine.registerTicker(...)) return 1;] *)
Fixpoint register_all (tickers : list TickerId) (limits : RiskLimits) (e : Engine) : outcome (Engine + Z) :=
  match tickers with
  | [] => Ok (inl e)
  | ticker :: tickers' =>
      '(ok, e) ← registerTicker MaxSlots MaxTickers 0 ticker limits e;
      if negb ok then Ok (inr 1) else register_all tickers' limits e
  end.

(** [main] up to the start of the threads. *)
Definition main_engine (args : list string) (md_queue : Q MarketUpdate) (request_queue : Q OrderRequest)
    (response_queue : Q OrderResponse) : outcome (Engine + Z) :=
  r ← parseArgs args;
  match r with
  | inr exit_code => Ok (inr exit_code)
  | inl cfg =>
      register_all (cfg_tickers cfg) (cfg_limits cfg)
        (TradeEngine_new MaxSlots md_queue request_queue response_queue (cfg_signal cfg) 1 book_pool_size)
  end.

(** The wait for the gate: per iteration what [g_shutdown] and the gate read. *)
Fixpoint wait_synchronized (i : nat) (readings : list (bool * bool)) : bool :=
  match i, readings with
  | Datatypes.S i', (shutdown, gate) :: readings' =>
      if shutdown then false else if gate then true else wait_synchronized i' readings'
  | _, _ => false
  end.
Definition synced (readings : list (bool * bool)) : bool := wait_synchronized 100 readings.

(** The values of the session summary of slot 0. *)
Record Summary : Type := mkSummary {
  sm_orders_sent : Z;
  sm_replaces : Z;
  sm_cancels : Z;
  sm_risk_rejected : Z;
  sm_fills : Z;
  sm_filled_qty : Z;
  sm_live_slots : nat;
  sm_positions : list (TickerId * Position);
  sm_total : option Z
}.

Definition session_summary (tickers : list TickerId) (e : Engine) : outcome Summary :=
  s ← deref (slots_ e !! 0%nat);
  total ← totalPnL (sl_pnl s);
  let om := sl_om s in
  Ok (mkSummary (new_orders_ om) (replaces_ om) (cancels_ om) (rejected_ om) (fills_ om) (filled_qty_ om) (orderCount om)
        (omap (λ t, (t,.) <$> get t (sl_pnl s)) tickers) total).
End Main.
