(* ===== verification/MainProperties.v ===== *)
(** * Properties of the main program

    Which command lines start the program, and with what engine. *)

From Stdlib Require Import Ascii.
From stdpp Require Import strings.
From S2P Require Import Prelude Types OrderIdAllocator PnLTracker RiskManager QuantLink OrderManager OrderManagerInv.
From S2P Require Import MarketOrderBook BookRep BookRefine Features Strategy TradeEngine EngineInv EngineProperties Main.

(** ** The command line *)

(** What every parsed configuration satisfies: the fields fit their types and the
    default ticker 1 comes first. *)
Record cfg_ok (c : Config) : Prop := {
  co_limits : wf_limits (cfg_limits c);
  co_qty : is_qty (order_qty (cfg_signal c));
  co_imbalance : - 2 ^ 31 ≤ entry_imbalance (cfg_signal c) < 2 ^ 31;
  co_tickers : ∃ ts, cfg_tickers c = 1 :: ts ∧ Forall is_ticker ts
}.

Lemma ato_range w s z : ato w s = Ok z → - 2 ^ (w - 1) ≤ z < 2 ^ (w - 1).
Proof. unfold ato. by intros [-> ?]%chkS_inv. Qed.

Lemma option_value_ok arg set v c c' : cfg_ok c → option_value arg = Some set → set v c = Ok c' → cfg_ok c'.
Proof.
  intros [[Hl1 Hl2] Hq Hi (ts & Ht & Hts)]. unfold option_value.
  repeat match goal with |- (if ?b then _ else _) = _ → _ => destruct b end; intros [= <-]; try done;
    first [intros (n & Hn & [= <-])%bind_Ok_inv; apply ato_range in Hn | intros [= <-]];
    split; simpl; try done; try (split; simpl; done); try lia; try (by exists ts);
    try (apply (wrapU_range 32); lia); try (split; simpl; lia).
  exists (ts ++ [wrapU 32 n]). rewrite Ht. split; [done|]. apply Forall_app. split; [done|].
  apply Forall_singleton. apply (wrapU_range 32). lia.
Qed.

Lemma parse_loop_ok c' args : ∀ c, cfg_ok c → parse_loop args c = Ok (inl c') → cfg_ok c'.
Proof.
  induction args as [args IH] using (induction_ltof1 _ length). unfold ltof in IH. intros c Hc.
  destruct args as [|arg rest]; cbn [parse_loop]; [by intros [= <-]|].
  destruct (option_value arg) as [set|] eqn:Ho; [|by destruct (String.eqb _ _)].
  destruct rest as [|v rest]; [done|]. intros (c1 & Hs & Hp)%bind_Ok_inv.
  eapply (IH rest); [simpl; lia| |exact Hp]. by eapply option_value_ok.
Qed.

Lemma parseArgs_ok args cfg : parseArgs args = Ok (inl cfg) → cfg_ok cfg.
Proof. apply parse_loop_ok. split; simpl; [by split|by unfold is_qty|lia|by exists []]. Qed.

(** ** Registration *)

Lemma find_key {A} (f : A → Z) (l : list A) t : list_find (λ x, f x = t) l = None ↔ t ∉ (f <$> l).
Proof.
  rewrite list_find_None, Forall_forall. split.
  - intros Hf (x & -> & Hx)%list_elem_of_fmap. by apply (Hf x).
  - intros Hn x Hx <-. apply Hn. by apply list_elem_of_fmap_2.
Qed.

Section Register.
Context {P : Type} `{ObjectPoolLaws P} {Q : Type → Type} `{SPSCQueueLaws Q}.
#[local] Existing Instance taker.
Abbreviation Engine := (TradeEngine P Q TradingFeatures IocSignalConfig).
Implicit Types e : Engine.

(** Slot 0 trades exactly [ts], in this order, with fresh features, flat positions
    and the given limits; the books are those of [ts]. *)
Record registered (limits : RiskLimits) (ts : list TickerId) e : Prop := {
  rg_slot : ∃ s, slots_ e = [s] ∧ en_ticker_id <$> sl_entries s = ts ∧
              Forall (λ x, en_features x = Some (feature_init (P := P))) (sl_entries s) ∧
              entries_ (sl_pnl s) = (λ t, mkEntry t default_Position) <$> ts ∧
              RiskManager.tickers_ (sl_risk s) = (λ t, mkTickerLimits t limits) <$> ts;
  rg_books : tb_ticker_id <$> tickers_ e = ts
}.

(** What registration leaves alone. *)
Definition same_wiring e e' : Prop :=
  market_updates_ e' = market_updates_ e ∧ order_requests_ e' = order_requests_ e ∧ order_responses_ e' = order_responses_ e ∧
  allocator_ e' = allocator_ e ∧ book_pool_size_ e' = book_pool_size_ e.

Definition limits_accepted (limits : RiskLimits) : Prop := 0 ≤ max_abs_position limits ∧ 0 ≤ max_order_notional limits.

Lemma registered_new limits md req resp st pool : registered limits [] (TradeEngine_new MaxSlots md req resp st 1 pool : Engine).
Proof using Type. split; [|done]. by eexists. Qed.

Lemma findEntry_key s ts t : en_ticker_id <$> sl_entries s = ts → bool_decide (is_Some (findEntry (S := IocSignalConfig) (F := TradingFeatures) s t)) = bool_decide (t ∈ ts).
Proof using Type.
  intros <-. apply bool_decide_ext. rewrite <- not_eq_None_Some. unfold findEntry. rewrite find_key.
  split; [apply dec_stable|by intros Hi Hn].
Qed.

Lemma fmap_key {A} (f : TickerId → A) (key : A → Z) (ts : list TickerId) : (∀ t, key (f t) = t) → key <$> (f <$> ts) = ts.
Proof using Type. intros Hf. induction ts as [|t ts IH]; [done|]. rewrite !fmap_cons, Hf. by f_equal. Qed.

Lemma pnl_register_new ts t p : entries_ p = (λ t, mkEntry t default_Position) <$> ts → t ∉ ts → length ts ≠ MaxTickers →
  PnLTracker.registerTicker MaxTickers t p = (true, mkPnLTracker ((λ t, mkEntry t default_Position) <$> (ts ++ [t]))).
Proof using Type.
  intros Hp Hn Hl. unfold PnLTracker.registerTicker, get, count. rewrite Hp, (proj2 (find_key e_ticker_id _ _)) by (by rewrite fmap_key).
  cbn [fmap option_fmap option_map]. rewrite bool_decide_false by (by rewrite length_fmap). by rewrite fmap_app.
Qed.

Lemma risk_register_new ts t limits r : RiskManager.tickers_ r = (λ t, mkTickerLimits t limits) <$> ts → t ∉ ts →
  length ts ≠ MaxTickers → limits_accepted limits →
  RiskManager.registerTicker MaxTickers t limits r =
    (true, mkRiskManager ((λ t, mkTickerLimits t limits) <$> (ts ++ [t])) (pending_ r) (trading_enabled_ r)).
Proof using Type.
  intros Hr Hn Hl [H1' H2']. unfold RiskManager.registerTicker, RiskManager.findTicker.
  rewrite (proj2 (Z.ltb_ge _ _) H1'), (proj2 (Z.ltb_ge _ _) H2'). cbn [orb].
  rewrite Hr, (proj2 (find_key tl_ticker_id _ _)) by (by rewrite fmap_key). cbn [fmap option_fmap option_map].
  rewrite bool_decide_false by (by rewrite length_fmap). by rewrite fmap_app.
Qed.

(** A fresh ticker with acceptable limits, and room. *)
Lemma register_new ts t limits e : registered limits ts e → t ∉ ts → (length ts < MaxTickers)%nat → limits_accepted limits →
  ∃ e', registerTicker MaxSlots MaxTickers 0 t limits e = Ok (true, e') ∧ registered limits (ts ++ [t]) e' ∧ same_wiring e e'.
Proof using Type.
  intros [(s & Hs & Hen & Hfe & Hp & Hr) Hb] Hn Hl Hlim. unfold registerTicker, slotCount. rewrite Hs.
  change (bool_decide (MaxSlots ≤ 0)%nat || bool_decide (length [s] ≤ 0)%nat) with false.
  change ([s] !! 0%nat) with (Some s). cbn [deref mbind outcome_bind].
  rewrite (findEntry_key s ts t Hen), !bool_decide_false; [|rewrite <- (length_fmap en_ticker_id), Hen; lia|done]. cbn [orb].
  unfold findOrCreateTicker, TradeEngine.findTicker. rewrite (proj2 (find_key tb_ticker_id _ _)) by (by rewrite Hb).
  unfold bookCount. rewrite bool_decide_false by (rewrite <- (length_fmap tb_ticker_id), Hb; lia).
  rewrite (pnl_register_new ts t _ Hp Hn) by lia. cbn [negb sl_risk].
  rewrite (risk_register_new ts t limits _ Hr Hn) by (done || lia). cbn [negb]. eexists. split; [done|].
  split; [|done]. split.
  - cbn [set_slot slots_ set_tickers]. rewrite Hs. eexists. split; [done|]. cbn [sl_entries sl_pnl sl_risk entries_ RiskManager.tickers_].
    rewrite fmap_app, Hen. split_and!; try done. apply Forall_app. split; [done|by apply Forall_singleton].
  - cbn [set_slot tickers_ set_tickers]. by rewrite fmap_app, Hb.
Qed.

(** Any other registration is refused. *)
Lemma register_refused ts t limits e : registered limits ts e → (length ts ≤ MaxTickers)%nat →
  ¬ (t ∉ ts ∧ (length ts < MaxTickers)%nat ∧ limits_accepted limits) →
  ∃ e', registerTicker MaxSlots MaxTickers 0 t limits e = Ok (false, e').
Proof using Type.
  intros [(s & Hs & Hen & Hfe & Hp & Hr) Hb] Hl Hbad. unfold registerTicker, slotCount. rewrite Hs.
  change (bool_decide (MaxSlots ≤ 0)%nat || bool_decide (length [s] ≤ 0)%nat) with false.
  change ([s] !! 0%nat) with (Some s). cbn [deref mbind outcome_bind].
  rewrite (findEntry_key s ts t Hen), <- (length_fmap en_ticker_id), Hen.
  case_bool_decide as Hin; [by eexists|]. case_bool_decide as Hcap; [by eexists|]. cbn [orb].
  unfold findOrCreateTicker, TradeEngine.findTicker. rewrite (proj2 (find_key tb_ticker_id _ _)) by (by rewrite Hb).
  unfold bookCount. rewrite bool_decide_false by (rewrite <- (length_fmap tb_ticker_id), Hb; lia).
  rewrite (pnl_register_new ts t _ Hp Hin Hcap). cbn [negb sl_risk]. unfold RiskManager.registerTicker.
  destruct (_ || _) eqn:E; [by eexists|]. bsplit. destruct Hbad. split_and!; [done|lia|by split].
Qed.
Abbreviation engine_ok := (eng_ok wf_config MaxSlots MaxTickers MaxPendingOrders MaxOrders).

(** The engine's invariant, with [n] empty books. *)
Definition fresh_ok (n : nat) e : Prop := engine_ok e ∧ books_ok e (replicate n []).

Lemma register_new_ok ts t limits e : registered limits ts e → t ∉ ts → (length ts < MaxTickers)%nat → limits_accepted limits →
  wf_limits limits →
  ∃ e', registerTicker MaxSlots MaxTickers 0 t limits e = Ok (true, e') ∧ registered limits (ts ++ [t]) e' ∧ same_wiring e e' ∧
    (fresh_ok (length ts) e → fresh_ok (length (ts ++ [t])) e').
Proof using Type*.
  intros Hreg Hn Hl Hlim Hwf. destruct (register_new ts t limits e Hreg Hn Hl Hlim) as (e' & Hr & Hreg' & Hw).
  exists e'. split_and!; try done. intros [Hok Hbk].
  pose proof (registerTicker_ok wf_config MaxSlots MaxTickers MaxPendingOrders MaxOrders 0 t limits e _ Hok Hbk Hwf) as Hx.
  rewrite Hr in Hx. destruct Hx as (Hok' & Hb' & _). split; [done|].
  pose proof (f_equal length (rg_books _ _ _ Hreg')) as Hlen.
  rewrite length_fmap, length_app in Hlen. rewrite length_app, replicate_add. destruct Hb' as [Hb'|Hb']; [|exact Hb'].
  apply Forall2_length in Hb'. rewrite length_replicate in Hb'. simpl in Hlen. lia.
Qed.

Lemma register_all_ok limits ts' : ∀ ts e, registered limits ts e → NoDup (ts ++ ts') → (length (ts ++ ts') ≤ MaxTickers)%nat →
  limits_accepted limits → wf_limits limits →
  ∃ e', register_all ts' limits e = Ok (inl e') ∧ registered limits (ts ++ ts') e' ∧ same_wiring e e' ∧
    (fresh_ok (length ts) e → fresh_ok (length (ts ++ ts')) e').
Proof using Type*.
  induction ts' as [|t ts' IH]; intros ts e Hreg Hnd Hl Hlim Hwf; cbn [register_all].
  { rewrite app_nil_r in *. by exists e. }
  rewrite cons_middle, app_assoc in Hnd, Hl |- *. destruct (register_new_ok ts t limits e) as (e1 & Hr & Hreg1 & Hw1 & Hok1); try done.
  - apply NoDup_app in Hnd as (Hnd & _). apply NoDup_app in Hnd as (_ & Hx & _). intros Hin. apply (Hx t Hin). by apply list_elem_of_singleton.
  - rewrite !length_app in Hl. simpl in Hl. lia.
  - rewrite Hr. cbn [mbind outcome_bind negb]. destruct (IH (ts ++ [t]) e1) as (e2 & Hr2 & Hreg2 & Hw2 & Hok2); try done.
    exists e2. split_and!; try done; [|intros Hok; by apply Hok2, Hok1].
    destruct Hw1 as (?&?&?&?&?), Hw2 as (?&?&?&?&?). split_and!; congruence.
Qed.

Lemma register_all_refused limits ts' : ∀ ts e, registered limits ts e → NoDup ts → (length ts ≤ MaxTickers)%nat → ts' ≠ [] →
  ¬ (NoDup (ts ++ ts') ∧ (length (ts ++ ts') ≤ MaxTickers)%nat ∧ limits_accepted limits) →
  register_all ts' limits e = Ok (inr 1).
Proof using Type*.
  induction ts' as [|t ts' IH]; intros ts e Hreg Hnd Hl Hne Hbad; [done|]. cbn [register_all].
  destruct (decide (t ∉ ts ∧ (length ts < MaxTickers)%nat ∧ 0 ≤ max_abs_position limits ∧ 0 ≤ max_order_notional limits))
    as [(Hn & Hlt & Hlim)|Hno].
  2:{ destruct (register_refused ts t limits e Hreg Hl Hno) as (e' & ->). done. }
  destruct (register_new ts t limits e Hreg Hn Hlt Hlim) as (e' & -> & Hreg' & _). cbn [mbind outcome_bind negb].
  assert (NoDup (ts ++ [t])) as Hnd'.
  { apply NoDup_app. split_and!; [done| |apply NoDup_singleton]. by intros x Hx ->%list_elem_of_singleton. }
  assert (length (ts ++ [t]) ≤ MaxTickers)%nat by (rewrite length_app; simpl; lia).
  rewrite cons_middle, app_assoc in Hbad. apply (IH (ts ++ [t])); try done. intros ->. apply Hbad. by rewrite app_nil_r.
Qed.

(** A configuration the program can trade. *)
Definition tradable (cfg : Config) : bool :=
  bool_decide (NoDup (cfg_tickers cfg)) && bool_decide (length (cfg_tickers cfg) ≤ MaxTickers)%nat &&
  (0 <=? max_abs_position (cfg_limits cfg)) && (0 <=? max_order_notional (cfg_limits cfg)).

Definition bare_engine (cfg : Config) (md : Q MarketUpdate) (req : Q OrderRequest) (resp : Q OrderResponse) : Engine :=
  TradeEngine_new MaxSlots md req resp (cfg_signal cfg) 1 book_pool_size.

Lemma main_engine_cases args cfg md req resp : parseArgs args = Ok (inl cfg) →
  if tradable cfg
  then ∃ e, main_engine args md req resp = Ok (inl e) ∧ registered (cfg_limits cfg) (cfg_tickers cfg) e ∧
         same_wiring (bare_engine cfg md req resp) e ∧
         (- 2 ^ 31 < entry_imbalance (cfg_signal cfg) → fresh_ok (length (cfg_tickers cfg)) e)
  else main_engine (P := P) args md req resp = Ok (inr 1).
Proof using Type*.
  intros Hp. destruct (parseArgs_ok _ _ Hp) as [Hwf Hq Hi (ts & Hts & _)]. unfold main_engine, tradable. rewrite Hp. cbn [mbind outcome_bind].
  fold (bare_engine cfg md req resp). pose proof (registered_new (cfg_limits cfg) md req resp (cfg_signal cfg) book_pool_size) as Hreg.
  fold (bare_engine cfg md req resp) in Hreg. destruct (_ && _) eqn:Hgood.
  - bsplit. destruct (register_all_ok (cfg_limits cfg) (cfg_tickers cfg) [] _ Hreg) as (e & Hr & Hreg' & Hw & Hok); try done.
    exists e. split_and!; try done. intros Hneg. apply Hok. split; [|constructor].
    apply (eng_ok_new wf_config MaxSlots MaxTickers MaxPendingOrders MaxOrders); [|unfold MaxSlots; lia]. split; [done|lia].
  - apply (register_all_refused _ _ [] _ Hreg); [constructor|simpl; lia|by rewrite Hts|]. intros (Hnd & Hl & Hl1 & Hl2).
    apply Z.leb_le in Hl1, Hl2. cbn [app] in *. rewrite !bool_decide_true, Hl1, Hl2 in Hgood by done. done.
Qed.

(** C18: the program starts exactly on the configurations it can trade.  If the
    command line parses to a configuration whose tickers are distinct and at
    most 16 and whose position and notional limits are not negative, the engine
    is built, slot 0 trades exactly those tickers in their order, with the configured
    limits, flat positions, fresh features and each its own empty book, and (when the imbalance threshold can be negated) the engine
    satisfies its invariant; on every other configuration the process exits with
    code 1 before any thread runs. *)
Theorem main_registers_exactly args cfg md req resp : parseArgs args = Ok (inl cfg) →
  if bool_decide (NoDup (cfg_tickers cfg)) && bool_decide (length (cfg_tickers cfg) ≤ MaxTickers)%nat &&
     (0 <=? max_abs_position (cfg_limits cfg)) && (0 <=? max_order_notional (cfg_limits cfg))
  then ∃ e : Engine, main_engine args md req resp = Ok (inl e) ∧ registered (cfg_limits cfg) (cfg_tickers cfg) e ∧
         (- 2 ^ 31 < entry_imbalance (cfg_signal cfg) →
            fresh_ok (length (cfg_tickers cfg)) e)
  else main_engine (P := P) args md req resp = Ok (inr 1).
Proof using Type*.
  intros Hp. pose proof (main_engine_cases args cfg md req resp Hp) as Hc. unfold tradable in Hc. destruct (_ && _); [|done].
  destruct Hc as (e & ? & ? & _ & ?). by exists e.
Qed.
End Register.

(** ** Examples *)

Definition ex_args : list string := ["--ticker"; "7"; "--position-limit"; "50"; "--imbalance"; " -250000"]%string.
Definition ex_cfg : Config :=
  with_signal (mkIocSignalConfig 10 (-250000)) (with_limits (mkRiskLimits 50 10 100000000) (with_tickers [1; 7] Config_new)).

Lemma main_registers_exactly_witness :
  parseArgs ex_args = Ok (inl ex_cfg) ∧
  ∃ e : TradeEngine SetPool BQueue TradingFeatures IocSignalConfig,
    main_engine ex_args (mkBQueue 8 []) (mkBQueue 8 []) (mkBQueue 8 []) = Ok (inl e) ∧ registered (cfg_limits ex_cfg) [1; 7] e ∧ fresh_ok 2 e.
Proof.
  assert (parseArgs ex_args = Ok (inl ex_cfg)) as Hp by (by vm_compute). split; [exact Hp|].
  destruct (main_registers_exactly (P := SetPool) ex_args ex_cfg (mkBQueue 8 []) (mkBQueue 8 []) (mkBQueue 8 []) Hp)
    as (e & Hr & Hreg & Hok).
  exists e. split_and!; [exact Hr|exact Hreg|]. apply Hok. simpl. lia.
Defined.

(** Asking for ticker 1, the documented default, registers it twice and the
    program exits. *)
Theorem ticker_one_exits {P : Type} `{ObjectPool P} {Q : Type → Type} `{SPSCQueue Q} md req resp :
  main_engine (P := P) (Q := Q) ["--ticker"; "1"]%string md req resp = Ok (inr 1).
Proof. done. Qed.

(** Every option needs its value, and nothing else is accepted. *)
Theorem bad_arguments_exit :
  parseArgs ["--ticker"]%string = Ok (inr 1) ∧ parseArgs ["--tickers"; "2"]%string = Ok (inr 1) ∧
  parseArgs ["--ticker"; "2"; "--help"; "?"]%string = Ok (inr 0) ∧ parseArgs ["--ticker"; "99999999999"]%string = Undef.
Proof. by vm_compute. Qed.
