(* ===== verification/System.v ===== *)
(** * The program as a whole: [src/src/main.cpp] and its three threads

    The market-data thread, the engine's thread and the gateway's thread share
    three queues and the gate.  A turn is one iteration of one thread's loop; a
    run interleaves the turns of the three threads in any order.  Each queue has
    one producer and one consumer, and each component's copy of it is brought up
    to date after a turn. *)

From stdpp Require Import strings.
From S2P Require Import Prelude Types OrderIdAllocator PnLTracker RiskManager QuantLink OrderManager.
From S2P Require Import MarketOrderBook Features Strategy TradeEngine Bytes OrderGateway ItchDecoder MarketData Main.

Section System.
Context `{ByteOrder} `{ItchFormat} `{OuchFormat} {P : Type} `{ObjectPool P} {Q : Type → Type} `{SPSCQueue Q} (max_size : Z).
#[local] Existing Instance taker.
Abbreviation Engine := (TradeEngine P Q TradingFeatures IocSignalConfig).

Record System : Type := mkSystem {
  sys_consumer : MarketDataConsumer Q;
  sys_engine : Engine;
  sys_gateway : OrderGateway Q
}.
Implicit Types s : System.

(** ** Sharing *)
Definition set_requests_responses (req : Q OrderRequest) (resp : Q OrderResponse) (e : Engine) : Engine :=
  mkEngine (market_updates_ e) req resp (allocator_ e) (slots_ e) (tickers_ e) (book_pool_size_ e).
Definition set_gateway_queues (req : Q OrderRequest) (resp : Q OrderResponse) (g : OrderGateway Q) : OrderGateway Q :=
  mkGateway req resp (inbound_data_ g) (sent_ g) (run_ g) (thread_ g).

(** The gateway's flags: what [run_] and [thread_.joinable()] are from now on. *)
Definition set_gateway_running (run thread : bool) s : System :=
  mkSystem (sys_consumer s) (sys_engine s) (set_running run thread (sys_gateway s)).

(** ** Turns *)

Definition consumer_turn (r : Round) s : outcome System :=
  c ← MarketData.run_round max_size r (sys_consumer s);
  Ok (mkSystem c (set_market_updates (incoming_md_updates_ c) (sys_engine s)) (sys_gateway s)).

(** One iteration of [TradeEngine::run]: nothing while the gate is closed. *)
Definition engine_turn s : outcome System :=
  if negb (market_data_synchronized_ (sys_consumer s)) then Ok s
  else
    '(e, _) ← runOnce MaxPendingOrders (sys_engine s);
    Ok (mkSystem (set_incoming (market_updates_ e) (delivered_ (sys_consumer s)) (sys_consumer s)) e
          (set_gateway_queues (order_requests_ e) (order_responses_ e) (sys_gateway s))).

Definition gateway_turn (chunk : list Z) s : outcome System :=
  if negb (run_ (sys_gateway s)) then Ok s
  else
    g ← OrderGateway.run_round chunk (sys_gateway s);
    Ok (mkSystem (sys_consumer s) (set_requests_responses (outgoing_requests_ g) (incoming_responses_ g) (sys_engine s)) g).

(** ** Start *)

(** [main] up to the start of the engine's thread; [connected] is the result of
    the gateway's connect, [net_ok] and [fd] those of the first snapshot
    request. *)
Definition main_start (args : list string) (md : Q MarketUpdate) (req : Q OrderRequest) (resp : Q OrderResponse)
    (connected net_ok : bool) (fd : Z) : outcome (System + Z) :=
  r ← main_engine args md req resp;
  match r with
  | inr exit_code => Ok (inr exit_code)
  | inl e =>
      g ← OrderGateway.start connected (OrderGateway_new req resp);
      c ← MarketData.start net_ok fd (MarketDataConsumer_new md);
      Ok (inl (mkSystem c e g))
  end.
End System.
Arguments System P Q : clear implicits.
