(* ===== verification/SystemProperties.v ===== *)
(** * Properties of the whole program

    From the bytes of the feed to the books the strategies trade on: in every
    interleaving of the three threads the books are the reference books of a
    stream without holes. *)

From stdpp Require Import strings.
From S2P Require Import Prelude Types OrderIdAllocator PnLTracker RiskManager QuantLink OrderManager OrderManagerInv.
From S2P Require Import MarketOrderBook BookRep BookRefine Features Strategy TradeEngine EngineInv EngineProperties Bytes.
From S2P Require Import OrderGateway GatewayProperties ItchDecoder DecoderProperties MarketData RecoveryInv Main MainProperties System.

Lemma run_books_app ids us vs Ls : run_books ids (us ++ vs) Ls = run_books ids vs (run_books ids us Ls).
Proof. apply fold_left_app. Qed.

Lemma run_books_moderate cap ids us Ls : Forall moderate Ls → feed_fits cap ids us Ls → Forall moderate (run_books ids us Ls).
Proof.
  revert Ls. induction us as [|u us IH]; intros Ls Hm Hf; [done|]. destruct Hf as [Hu Hf]. apply IH; [|done].
  by eapply next_books_moderate.
Qed.

Lemma feed_fits_app cap ids us vs : ∀ Ls,
  feed_fits cap ids (us ++ vs) Ls ↔ feed_fits cap ids us Ls ∧ feed_fits cap ids vs (run_books ids us Ls).
Proof. induction us as [|u us IH]; intros Ls; cbn [app feed_fits run_books fold_left]; [tauto|]. rewrite IH. tauto. Qed.

Lemma frames_rest_bytes `{ByteOrder} `{OuchFormat} b : Forall is_byte b → Forall is_byte (frames b).2.
Proof.
  remember (length b) as n eqn:Hn. revert b Hn. induction n as [n IH] using lt_wf_ind. intros [|type rest] Hn Hb.
  { rewrite frames_equation_1. constructor. }
  rewrite frames_cons. simpl in Hn. pose proof Hb as [_ Hb']%Forall_cons. destruct (messageSize type) as [|k].
  - by apply (IH (length rest)); [lia|..].
  - destruct (decide _); simpl; [done|]. apply (IH (length (drop k rest))); [rewrite length_drop; lia|done|by apply Forall_drop].
Qed.

Section Runs.
Context `{ByteOrderLaws} `{ItchFormat} `{OuchFormatLaws} {P : Type} `{ObjectPoolLaws P} {Q : Type → Type} `{SPSCQueueLaws Q}.
Context (max_size : Z) (cfg : Config).
#[local] Existing Instance taker.
#[local] Instance taker_laws : StrategyLaws P Q TradingFeatures IocSignalConfig wf_config MaxTickers MaxPendingOrders MaxOrders.
Proof using Type*. apply LiquidityTaker_laws. unfold MaxPendingOrders. lia. Qed.
Abbreviation Engine := (TradeEngine P Q TradingFeatures IocSignalConfig).
Abbreviation engine_ok := (eng_ok wf_config MaxSlots MaxTickers MaxPendingOrders MaxOrders).
Implicit Types (s : System P Q) (e : Engine) (g : OrderGateway Q).

(** The reference books of the configured tickers after some updates. *)
Definition ref_books (popped : list MarketUpdate) : list (list Resting) :=
  run_books (cfg_tickers cfg) popped (replicate (length (cfg_tickers cfg)) []).

(** The sessions the theorems are about, in terms of what the engine has taken
    from its queues: fewer than 2^26 updates, each of which the books can take
    ([feed_fits]: a replace moves an order as [clean_replace] asks, the books
    stay within the pool and are [moderate]), and fewer than 2^29 responses. *)
Definition session_fits (popped : list MarketUpdate) (handled : Z) : Prop :=
  feed_fits book_pool_size (cfg_tickers cfg) popped (replicate (length (cfg_tickers cfg)) []) ∧
  Z.of_nat (length popped) < 2 ^ 26 ∧ handled < 2 ^ 29.

(** What a turn of the engine takes from its queues: nothing while the gate is
    closed. *)
Definition taken s : list MarketUpdate :=
  if market_data_synchronized_ (sys_consumer s) then q_items (market_updates_ (sys_engine s)) else [].
Definition answered s : Z :=
  if market_data_synchronized_ (sys_consumer s) then Z.of_nat (length (q_items (order_responses_ (sys_engine s)))) else 0.

(** The requests a turn of the engine queued. *)
Definition queued_by s s' : list OrderRequest :=
  drop (length (q_items (order_requests_ (sys_engine s)))) (q_items (order_requests_ (sys_engine s'))).

(** A run: the updates the engine has processed, the number of responses it has
    processed, the requests it has submitted, and the state. *)
Inductive system_run : list MarketUpdate → Z → list OrderRequest → System P Q → Prop :=
| sys_boot args md req resp connected net_ok fd s :
    parseArgs args = Ok (inl cfg) → - 2 ^ 31 < entry_imbalance (cfg_signal cfg) →
    q_items md = [] → q_items req = [] → q_items resp = [] →
    main_start args md req resp connected net_ok fd = Ok (inl s) → system_run [] 0 [] s
| sys_consumer_turn popped handled submitted r s s' : system_run popped handled submitted s →
    consumer_turn max_size r s = Ok s' → system_run popped handled submitted s'
| sys_engine_turn popped handled submitted s s' : system_run popped handled submitted s → engine_turn s = Ok s' →
    system_run (popped ++ taken s) (handled + answered s) (submitted ++ queued_by s s') s'
| sys_gateway_turn popped handled submitted chunk s s' : system_run popped handled submitted s → Forall is_byte chunk →
    gateway_turn chunk s = Ok s' → system_run popped handled submitted s'
| sys_gateway_stop popped handled submitted thread s : system_run popped handled submitted s →
    system_run popped handled submitted (set_gateway_running false thread s).

(** ** The invariant *)
Record sys_ok (popped : list MarketUpdate) (handled : Z) (submitted : list OrderRequest) s : Prop := {
  sy_req : order_requests_ (sys_engine s) = outgoing_requests_ (sys_gateway s);
  sy_md : market_updates_ (sys_engine s) = incoming_md_updates_ (sys_consumer s);
  sy_resp : order_responses_ (sys_engine s) = incoming_responses_ (sys_gateway s);
  sy_consumer : consumer_ok popped (sys_consumer s);
  sy_engine : engine_ok (sys_engine s);
  sy_tids : tids (sys_engine s) = cfg_tickers cfg ∧ (length (cfg_tickers cfg) ≤ 16)%nat ∧ Forall is_ticker (cfg_tickers cfg);
  sy_pool : book_pool_size_ (sys_engine s) = book_pool_size ∧ slotCount (sys_engine s) = 1%nat;
  sy_books : books_ok (sys_engine s) (ref_books popped);
  sy_moderate : Forall moderate (ref_books popped);
  sy_responses : response_queue_ok (sys_engine s);
  sy_nets : nets_le (handled * 2 ^ 32) (sys_engine s) ∧ 0 ≤ handled < 2 ^ 29;
  sy_feats : feats_ok trading_features_ok (2 ^ 30 - 1 - Z.of_nat (length popped) * Z.of_nat (bookCount (sys_engine s))) (sys_engine s);
  sy_popped : Z.of_nat (length popped) < 2 ^ 26;
  sy_ids : counter_ (allocator_ (sys_engine s)) ≤ 1 + Z.of_nat (length popped) * Z.of_nat (bookCount (sys_engine s));
  sy_inbound : frames (inbound_data_ (sys_gateway s)) = ([], inbound_data_ (sys_gateway s)) ∧
               Forall is_byte (inbound_data_ (sys_gateway s));
  sy_ready : Forall (λ rq, sendable rq = true ∧ wf_outgoing rq) (q_items (order_requests_ (sys_engine s)));
  sy_wire : carried <$> submitted =
              (read_request <$> sent_ (sys_gateway s)) ++ (carried <$> q_items (order_requests_ (sys_engine s)))
}.

Lemma ready_outgoing tid rq : is_ticker tid → request_ready tid rq → sendable rq = true ∧ wf_outgoing rq.
Proof using Type.
  intros Ht (Hid & H1' & H2' & Hs & Hp & Hq & Hty). subst tid. split.
  - unfold sendable. destruct (rq_type rq); [|done|]; destruct Hty as [Hn Hp0];
      by rewrite (proj2 (Z.eqb_neq _ _) Hn), (proj2 (Z.leb_le _ _) Hp0).
  - unfold wf_outgoing. destruct Hs as [-> | ->]; done.
Qed.

Lemma consumer_turn_ok popped handled submitted r s s' :
  sys_ok popped handled submitted s → consumer_turn max_size r s = Ok s' → sys_ok popped handled submitted s'.
Proof using Type*.
  intros []. unfold consumer_turn. intros (c & Hc & [= <-])%bind_Ok_inv.
  apply (run_round_ok max_size popped) in Hc; [|done]. split; try done. by apply eng_ok_set_updates.
Qed.
(** The engine takes everything that is queued. *)
Lemma consumer_ok_taken popped (c : MarketDataConsumer Q) q :
  consumer_ok popped c → q_items q = [] →
  consumer_ok (popped ++ q_items (incoming_md_updates_ c)) (set_incoming q (delivered_ c) c).
Proof using Type*.
  intros [? ? ? ? ? ? ? ? ? ? Hf] Hq. split; try done. unfold fifo in *. simpl. by rewrite Hq, app_nil_r.
Qed.

(** A pass the inputs fit returns, and leads to a good state. *)
Lemma engine_pass_ok popped handled submitted s :
  sys_ok popped handled submitted s → market_data_synchronized_ (sys_consumer s) = true →
  session_fits (popped ++ q_items (market_updates_ (sys_engine s)))
    (handled + Z.of_nat (length (q_items (order_responses_ (sys_engine s))))) →
  returns (engine_turn s) (λ s', q_items (market_updates_ (sys_engine s')) = [] ∧
    sys_ok (popped ++ q_items (market_updates_ (sys_engine s)))
      (handled + Z.of_nat (length (q_items (order_responses_ (sys_engine s))))) (submitted ++ queued_by s s') s').
Proof using Type*.
  intros [Hreq Hmd Hresp Hc He (Hti & Hlt & Htk) [Hps Hsc] Hbk Hmod Hrq [Hn Hh] Hf Hp Hid Hin Hready Hwire] Hgate (Hfits & Hu & Hr).
  apply feed_fits_app in Hfits as [_ Hfit]. fold (ref_books popped) in Hfit.
  unfold engine_turn. rewrite Hgate. cbn [negb]. set (e := sys_engine s) in *.
  set (us := q_items (market_updates_ e)) in *. set (rs := q_items (order_responses_ e)) in *. rewrite length_app in Hu.
  assert (bookCount e ≤ 16)%nat as Hbc by (unfold bookCount; rewrite <- (length_fmap tb_ticker_id); unfold tids in Hti; by rewrite Hti).
  apply returns_bind. eapply returns_mono.
  { apply (runOnce_run wf_config trading_features_ok MaxSlots MaxTickers MaxPendingOrders MaxOrders ltac:(unfold MaxSlots; lia)
      ltac:(unfold MaxPendingOrders; lia) forward_taker e (ref_books popped) (handled * 2 ^ 32)
      (2 ^ 30 - 1 - Z.of_nat (length popped + length us) * Z.of_nat (bookCount e))); try done; fold us rs; try lia.
    - by rewrite Hps, Hti.
    - by replace (2 ^ 30 - 1 - Z.of_nat (length popped + length us) * Z.of_nat (bookCount e) +
        Z.of_nat (length us) * Z.of_nat (bookCount e)) with (2 ^ 30 - 1 - Z.of_nat (length popped) * Z.of_nat (bookCount e)) by lia.
    - nia.
    - rewrite Hsc. nia. }
  intros [e' res] (Hok' & Hbk' & Hqr & Hqu & _ & _ & Hn' & Hf' & Hid' & Hsc' & Hti' & Hps' & new & Hnew & Hgood). fold us rs in Hbk', Hn', Hid'.
  change (tb_ticker_id <$> tickers_ e) with (tids e) in Hgood. rewrite Hti in Hgood.
  assert (bookCount e' = bookCount e) as Hbc'.
  { unfold bookCount. rewrite <- !(length_fmap tb_ticker_id). unfold tids in Hti'. by rewrite Hti'. }
  cbn [returns]. split; [done|]. split; cbn [sys_consumer sys_engine sys_gateway set_gateway_queues inbound_data_ incoming_responses_ set_incoming
    incoming_md_updates_]; try done.
  - unfold us. rewrite Hmd. by apply consumer_ok_taken.
  - by rewrite Hti'.
  - by rewrite Hps', Hsc'.
  - unfold ref_books. rewrite run_books_app. by rewrite <- Hti at 1.
  - unfold ref_books. rewrite run_books_app. by eapply run_books_moderate.
  - unfold response_queue_ok. rewrite Hqr. constructor.
  - split; [|lia]. by replace ((handled + Z.of_nat (length rs)) * 2 ^ 32) with (handled * 2 ^ 32 + Z.of_nat (length rs) * 2 ^ 32) by lia.
  - by rewrite Hbc', length_app.
  - rewrite length_app. lia.
  - rewrite Hbc', length_app. rewrite Hsc in Hid'. lia.
  - rewrite Hnew. apply Forall_app. split; [done|]. eapply Forall_impl; [exact Hgood|]. intros rq (tid & Hin' & Hrd).
    rewrite Forall_forall in Htk. by apply (ready_outgoing tid); [apply Htk|].
  - unfold queued_by. cbn [sys_engine set_gateway_queues sent_]. rewrite Hnew, drop_app_length, !fmap_app, Hwire. by rewrite app_assoc.
Qed.

Lemma session_fits_app popped us handled n : 0 ≤ n → session_fits (popped ++ us) (handled + n) → session_fits popped handled.
Proof using Type.
  intros Hn (Hf & Hu & Hh). apply feed_fits_app in Hf as [Hf _]. rewrite length_app in Hu. split_and!; [done|lia|lia].
Qed.

Lemma answered_nonneg s : 0 ≤ answered s.
Proof using Type. unfold answered. case_match; lia. Qed.

(** A turn of the engine, with the gate open or closed. *)
Lemma engine_turn_ok popped handled submitted s :
  sys_ok popped handled submitted s → session_fits (popped ++ taken s) (handled + answered s) →
  returns (engine_turn s) (λ s', sys_ok (popped ++ taken s) (handled + answered s) (submitted ++ queued_by s s') s').
Proof using Type*.
  intros Hok. unfold taken, answered. destruct (market_data_synchronized_ (sys_consumer s)) eqn:Hg; intros Hf.
  - eapply returns_mono; [by apply engine_pass_ok|]. by intros s' [_ ?].
  - unfold engine_turn. rewrite Hg. cbn [negb returns]. unfold queued_by. rewrite drop_all, !app_nil_r, Z.add_0_r. done.
Qed.

(** ** The gateway *)

Lemma eng_ok_set_requests req resp e : engine_ok e → engine_ok (set_requests_responses req resp e).
Proof using Type.
  intros [H1' H2' H3' H4']. split; try done. intros i sl Hs. destruct (H3' i sl Hs) as [Hc ? ? ? ?]. split; try done.
  rewrite ctx_ok_parts in *. done.
Qed.

(** What a round of the gateway does to the shared queue and its buffer. *)
Lemma gateway_round_ok chunk g g' :
  frames (inbound_data_ g) = ([], inbound_data_ g) → Forall is_byte (inbound_data_ g) → Forall is_byte chunk →
  OrderGateway.run_round chunk g = Ok g' →
  frames (inbound_data_ g') = ([], inbound_data_ g') ∧ Forall is_byte (inbound_data_ g') ∧
  q_items (outgoing_requests_ g') = [] ∧
  (Forall wf_outgoing (q_items (outgoing_requests_ g)) →
     read_request <$> sent_ g' = (read_request <$> sent_ g) ++ (carried <$> q_items (outgoing_requests_ g))) ∧
  ∃ new, q_items (incoming_responses_ g') = q_items (incoming_responses_ g) ++ new ∧ Forall wf_incoming new.
Proof using Type*.
  intros Hin Hb Hc. unfold OrderGateway.run_round. set (g1 := sendAndRecv chunk g).
  assert (Forall is_byte (inbound_data_ g ++ chunk)) as Hbc by (by apply Forall_app).
  assert (inbound_data_ g1 = (frames (inbound_data_ g ++ chunk)).2 ∧
    incoming_responses_ g1 = push_all (frames (inbound_data_ g ++ chunk)).1 (incoming_responses_ g)) as [Hi Hq].
  { destruct (recv_chunks [chunk] g Hin) as [Hq Hd]. cbn [concat] in Hq, Hd. rewrite app_nil_r in Hq, Hd. done. }
  pose proof (send_loop_spec _ g1 eq_refl) as Hs. destruct (forallb _ _); [|by rewrite Hs].
  destruct Hs as (g2 & ms & -> & He2 & Hs2 & Hf2 & Hq2 & Hi2). intros [= <-]. rewrite Hi2, Hq2, Hi, Hq, Hs2.
  assert (outgoing_requests_ g1 = outgoing_requests_ g ∧ sent_ g1 = sent_ g) as [Ho Hse] by apply sendAndRecv_frame.
  rewrite Ho in Hf2. rewrite Hse. split_and!.
  - apply frames_rest.
  - by apply frames_rest_bytes.
  - done.
  - intros Hwf. by rewrite fmap_app, (sent_read _ _ Hwf Hf2).
  - destruct (push_all_items (frames (inbound_data_ g ++ chunk)).1 (incoming_responses_ g)) as (kept & Hk & Hsub).
    exists kept. split; [done|]. eapply submseteq_Forall; [by apply sublist_submseteq|by apply frames_wf].
Qed.

Lemma gateway_turn_ok popped handled submitted chunk s s' :
  sys_ok popped handled submitted s → Forall is_byte chunk → gateway_turn chunk s = Ok s' → sys_ok popped handled submitted s'.
Proof using Type*.
  intros [Hreq ? Hresp ? He ? ? ? ? Hrq ? ? ? ? [Hin Hb] Hready Hwire] Hc. unfold gateway_turn. destruct (negb _); [by intros [= <-]|].
  intros (g & Hg & [= <-])%bind_Ok_inv. destruct (gateway_round_ok _ _ _ Hin Hb Hc Hg) as (Hin' & Hb' & Ho & Hsent & new & Hq & Hw).
  split; try done; [by apply eng_ok_set_requests|..]; cbn [sys_engine sys_gateway set_requests_responses order_responses_ order_requests_].
  - unfold response_queue_ok in *. cbn [set_requests_responses order_responses_]. rewrite Hq, <- Hresp. by apply Forall_app.
  - rewrite Ho. constructor.
  - rewrite Ho, Hwire, Hreq, Hsent, app_nil_r; [done|]. rewrite <- Hreq. eapply Forall_impl; [exact Hready|]. by intros rq [_ ?].
Qed.
(** ** Start *)

Lemma registered_counts limits ts e : registered limits ts e → tids e = ts ∧ slotCount e = 1%nat ∧ bookCount e = length ts.
Proof using Type.
  intros [(sl & Hs & _) Hb]. unfold tids, slotCount, bookCount. rewrite Hs, <- Hb at 1. split_and!; [done|done|].
  by rewrite <- Hb, length_fmap.
Qed.

Lemma registered_nets limits ts e : registered limits ts e → nets_le 0 e.
Proof using Type.
  intros [(sl & Hs & _ & _ & Hp & _) _]. unfold nets_le. rewrite Hs. apply Forall_singleton. intros tid.
  unfold net_of, get. rewrite Hp. destruct (list_find _ _) as [[k x]|] eqn:Hf; [|done].
  apply list_find_Some in Hf as (Hk & _). apply list_lookup_fmap_Some in Hk as (t & -> & _). done.
Qed.

Lemma registered_feats limits ts e : registered limits ts e → feats_ok trading_features_ok (2 ^ 30 - 1) e.
Proof using Type*.
  intros [(sl & Hs & _ & Hf & _) _]. unfold feats_ok. rewrite Hs. apply Forall_singleton.
  eapply Forall_impl; [exact Hf|]. intros x ->. eexists. split; [done|].
  apply (feature_init_ok (P := P) (FeatureLaws := TradingFeatures_laws P)). lia.
Qed.

Lemma boot_ok args md req resp connected net_ok fd s :
  parseArgs args = Ok (inl cfg) → - 2 ^ 31 < entry_imbalance (cfg_signal cfg) → q_items md = [] → q_items req = [] → q_items resp = [] →
  main_start args md req resp connected net_ok fd = Ok (inl s) → sys_ok [] 0 [] s.
Proof using Type*.
  intros Hp Hneg Hmd Hreq Hresp. unfold main_start. pose proof (main_engine_cases args cfg md req resp Hp) as Hc.
  destruct (tradable cfg) eqn:Ht; [|by rewrite Hc]. destruct Hc as (e & -> & Hreg & Hw & Hok). cbn [mbind outcome_bind].
  intros (g & Hg & (c & Hst & [= <-])%bind_Ok_inv)%bind_Ok_inv. destruct (Hok Hneg) as [He Hbk].
  destruct (registered_counts _ _ _ Hreg) as (Hti & Hsc & Hbc). unfold tradable in Ht. bsplit.
  destruct Hw as (Hw1 & Hw2 & Hw3 & Hw4 & Hw5). cbn [bare_engine TradeEngine_new market_updates_ order_requests_ order_responses_ allocator_ book_pool_size_] in *.
  assert (incoming_responses_ g = resp ∧ inbound_data_ g = [] ∧ outgoing_requests_ g = req ∧ sent_ g = []) as (Hgr & Hgi & Hgo & Hgs).
  { unfold OrderGateway.start in Hg. destruct connected; by injection Hg as <-. }
  assert (incoming_md_updates_ c = md) as Hcm by (by apply open_tcp_run in Hst as [_ ->]).
  split; cbn [sys_consumer sys_engine sys_gateway length]; try done.
  - congruence.
  - congruence.
  - congruence.
  - eapply startSnapshotSync_ok; [..|exact Hst]; [constructor|exact Hmd|done].
  - split_and!; [done|done|]. destruct (co_tickers _ (parseArgs_ok _ _ Hp)) as (ts & -> & Hts). by constructor.
  - unfold ref_books, run_books. simpl. apply Forall_replicate. split; [constructor|done].
  - unfold response_queue_ok. rewrite Hw3, Hresp. constructor.
  - split; [|lia]. by apply registered_nets in Hreg.
  - apply registered_feats in Hreg. by replace (2 ^ 30 - 1 - Z.of_nat 0 * Z.of_nat (bookCount e)) with (2 ^ 30 - 1) by lia.
  - rewrite Hw4. simpl. lia.
  - rewrite Hgi. split; [by rewrite frames_equation_1|constructor].
  - rewrite Hw2, Hreq. constructor.
  - by rewrite Hgs, Hw2, Hreq.
Qed.

Lemma system_run_ok popped handled submitted s :
  system_run popped handled submitted s → session_fits popped handled → sys_ok popped handled submitted s.
Proof using Type*.
  induction 1 as [args md req resp connected net_ok fd s ? ? ? ? ? Hs|popped handled submitted r s s' _ IH Ht|
    popped handled submitted s s' _ IH Ht|popped handled submitted chunk s s' _ IH Hb Ht|popped handled submitted thread s _ IH];
    intros Hf.
  - by eapply boot_ok.
  - eapply consumer_turn_ok; [by apply IH|done].
  - pose proof (session_fits_app _ _ _ _ (answered_nonneg s) Hf) as Hf0.
    pose proof (engine_turn_ok _ _ _ _ (IH Hf0) Hf) as Hr. by rewrite Ht in Hr.
  - eapply gateway_turn_ok; [by apply IH|done|done].
  - destruct (IH Hf). by split.
Qed.
(** A turn of the gateway returns: everything queued can be sent. *)
Lemma gateway_turn_total popped handled submitted chunk s :
  sys_ok popped handled submitted s → run_ (sys_gateway s) = true →
  ∃ s', gateway_turn chunk s = Ok s' ∧ q_items (order_requests_ (sys_engine s')) = [].
Proof using Type*.
  intros [Hreq ? ? ? ? ? ? ? ? ? ? ? ? ? ? Hready ?] Hrun. unfold gateway_turn. rewrite Hrun. cbn [negb].
  unfold OrderGateway.run_round. destruct (sendAndRecv_frame chunk (sys_gateway s)) as [Ho _].
  pose proof (send_loop_spec _ (sendAndRecv chunk (sys_gateway s)) eq_refl) as Hs. rewrite Ho, <- Hreq in Hs.
  assert (forallb sendable (q_items (order_requests_ (sys_engine s))) = true) as Hall.
  { apply Is_true_true, forallb_True. eapply Forall_impl; [exact Hready|]. intros rq [Hrq _]. by apply Is_true_true. }
  rewrite Hall in Hs. destruct Hs as (g' & ms & Hg & He & _). rewrite Ho, <- Hreq, Hg. cbn [mbind outcome_bind].
  eexists. split; [done|]. exact He.
Qed.
End Runs.

(** ** Properties *)

(** C1: the books the strategies trade on are right, in the sessions that
    [session_fits] describes: the engine has processed fewer than 2^26 updates and
    2^29 responses, and each update was one the books can take: every replace is
    one [replaceOrder] handles ([clean_replace]: the moved order is the youngest
    of its level and, unless it is alone there, joins a level that has orders), no
    book outgrows its pool, and the books are [moderate] (no negative price, at
    most 2^32 shares in total).  Then in every interleaving of the market-data,
    engine and gateway threads, from any command line that starts the program
    (with an entry threshold other than the least [int32_t]) and with any other
    datagrams, snapshot bytes and exchange bytes, the updates processed, followed
    by those still queued, form a stream without holes; each book is the reference
    book of exactly the processed updates; the engine satisfies its invariant; and
    while trading is open, if the session still fits with the queued inputs, the
    next pass of the engine returns (no overflow, no bad pointer, no failed
    assertion) and brings the books to the end of that stream. *)
Theorem system_books_follow_stream `{ByteOrderLaws} `{ItchFormat} `{OuchFormatLaws} {P : Type} `{ObjectPoolLaws P}
    {Q : Type → Type} `{SPSCQueueLaws Q} max_size cfg popped handled submitted (s : System P Q) :
  system_run max_size cfg popped handled submitted s → session_fits cfg popped handled →
  let us := q_items (market_updates_ (sys_engine s)) in
  let rs := q_items (order_responses_ (sys_engine s)) in
  (∃ n, stream (popped ++ us) n) ∧ books_ok (sys_engine s) (ref_books cfg popped) ∧
  eng_ok (H5 := taker) wf_config MaxSlots MaxTickers MaxPendingOrders MaxOrders (sys_engine s) ∧
  (market_data_synchronized_ (sys_consumer s) = true → session_fits cfg (popped ++ us) (handled + Z.of_nat (length rs)) →
   ∃ s', engine_turn s = Ok s' ∧ books_ok (sys_engine s') (ref_books cfg (popped ++ us)) ∧
     q_items (market_updates_ (sys_engine s')) = []).
Proof.
  intros Hrun Hses us rs. pose proof (system_run_ok _ _ _ _ _ _ Hrun Hses) as Hok.
  pose proof Hok as [? Hmd ? Hc He ? ? Hbk ? ? ? ? ? ? ? ? ?]. split_and!; try done.
  - exists (next_exp_inc_seq_num_ (sys_consumer s)). unfold us. rewrite Hmd, (co_fifo _ _ Hc). apply Hc.
  - intros Hg Hf. pose proof (engine_pass_ok cfg popped handled submitted s Hok Hg Hf) as (s' & Hs & Hq & Hok')%returns_ok.
    exists s'. split_and!; [done|apply Hok'|done].
Qed.

(** C2: every order reaches the exchange.  In every interleaving of the threads,
    in a session that fits (as for the books), the messages the gateway has sent,
    read the way the exchange reads them, followed by the requests still queued,
    are exactly the requests the engine has submitted, each once and in order; and
    no queued request ever trips an assertion of the gateway: its next turn, on
    whatever bytes arrive, returns and sends them all. *)
Theorem system_orders_reach_exchange `{ByteOrderLaws} `{ItchFormat} `{OuchFormatLaws} {P : Type} `{ObjectPoolLaws P}
    {Q : Type → Type} `{SPSCQueueLaws Q} max_size cfg popped handled submitted (s : System P Q) chunk :
  system_run max_size cfg popped handled submitted s → session_fits cfg popped handled →
  run_ (sys_gateway s) = true → Forall is_byte chunk →
  carried <$> submitted =
    (read_request <$> sent_ (sys_gateway s)) ++ (carried <$> q_items (order_requests_ (sys_engine s))) ∧
  ∃ s', gateway_turn chunk s = Ok s' ∧ read_request <$> sent_ (sys_gateway s') = carried <$> submitted.
Proof.
  intros Hsys Hses Hrun Hb. pose proof (system_run_ok _ _ _ _ _ _ Hsys Hses) as Hok. split; [apply Hok|]. destruct (gateway_turn_total cfg _ _ _ chunk s Hok Hrun) as (s' & Hs & Hq).
  exists s'. split; [done|]. pose proof (gateway_turn_ok _ _ _ _ _ _ _ Hok Hb Hs) as Hok'.
  by rewrite (sy_wire _ _ _ _ _ Hok'), Hq, app_nil_r.
Qed.

(** ** A session *)

#[local] Existing Instances bswap_order bswap_order_laws packed_itch packed_itch_laws packed_ouch packed_ouch_laws taker.

(** Snapshot messages: control deletes and orders of ticker 1. *)
Definition ex_snapshot : list Z :=
  ex_ctl CTL_SNAPSHOT_START 0 ++ drop 8 (ex_add 0 4 66 30 1000) ++ drop 8 (ex_add 0 5 83 10 1001) ++ ex_ctl CTL_SNAPSHOT_END 41.

Inductive Turn : Type :=
| TConsumer (r : Round)
| TEngine
| TGateway (chunk : list Z).

Abbreviation MainSystem := (System SetPool BQueue).

Definition take_turn (t : Turn) (s : MainSystem) : outcome MainSystem :=
  match t with
  | TConsumer r => consumer_turn (2 ^ 20) r s
  | TEngine => engine_turn s
  | TGateway chunk => gateway_turn chunk s
  end.

Fixpoint take_turns (ts : list Turn) (s : MainSystem) : outcome MainSystem :=
  match ts with
  | [] => Ok s
  | t :: ts' => s ← take_turn t s; take_turns ts' s
  end.

Definition ex_boot : outcome (MainSystem + Z) :=
  main_start [] (mkBQueue 16 []) (mkBQueue 16 []) (mkBQueue 16 []) true true 3.
Definition ex_system (ts : list Turn) : outcome MainSystem :=
  r ← ex_boot; match r with inl s => take_turns ts s | inr _ => Halt end.

(** The snapshot arrives in two pieces around a live frame; the exchange sends
    something the gateway does not know. *)
Definition ex_turns : list Turn :=
  [TConsumer (mkRound [] (TcpData (take 30 ex_snapshot)) true 3);
   TGateway [1; 2; 3];
   TConsumer (mkRound (ex_add 42 6 66 20 999) (TcpData (drop 30 ex_snapshot)) true 3)].

(** Turns other than the engine's keep a run a run. *)
Definition plain (t : Turn) : Prop :=
  match t with TConsumer _ => True | TEngine => False | TGateway chunk => Forall is_byte chunk end.

Lemma take_turns_run cfg popped handled submitted ts : ∀ s s', Forall plain ts →
  system_run (2 ^ 20) cfg popped handled submitted s → take_turns ts s = Ok s' → system_run (2 ^ 20) cfg popped handled submitted s'.
Proof.
  induction ts as [|t ts IH]; intros s s' Hp Hr; cbn [take_turns]; [by intros [= <-]|].
  apply Forall_cons in Hp as [Ht Hp]. intros (s1 & H1' & H2')%bind_Ok_inv. eapply IH; [done| |exact H2'].
  destruct t; [by eapply sys_consumer_turn|done|by eapply sys_gateway_turn].
Qed.

Lemma ex_system_run ts s : Forall plain ts → ex_system ts = Ok s → system_run (2 ^ 20) Config_new [] 0 [] s.
Proof.
  intros Hp. unfold ex_system. intros ([s0|] & Hb & Hr)%bind_Ok_inv; [|done]. eapply take_turns_run; [exact Hp| |exact Hr].
  by eapply sys_boot; [..|exact Hb].
Qed.

(** What is looked at in the result. *)
Definition queued_of (r : outcome MainSystem) : list MarketUpdate * list OrderResponse * bool :=
  match r with
  | Ok s => (q_items (market_updates_ (sys_engine s)), q_items (order_responses_ (sys_engine s)),
             market_data_synchronized_ (sys_consumer s))
  | _ => ([], [], false)
  end.
Definition ex_stream : list MarketUpdate :=
  [mkMarketUpdate 0 TickerId_INVALID SNAPSHOT_START BUY 0 0 0 0; mkMarketUpdate 0 1 ADD BUY 1000 30 4 0;
   mkMarketUpdate 0 1 ADD SELL 1001 10 5 0; mkMarketUpdate 0 TickerId_INVALID SNAPSHOT_END BUY 0 0 41 0;
   mkMarketUpdate 42 1 ADD BUY 999 20 6 0].

Lemma ex_mid : ∃ s, ex_system ex_turns = Ok s ∧ q_items (market_updates_ (sys_engine s)) = ex_stream ∧
  q_items (order_responses_ (sys_engine s)) = [] ∧ market_data_synchronized_ (sys_consumer s) = true.
Proof.
  assert (queued_of (ex_system ex_turns) = (ex_stream, [], true)) as Hq by (by vm_compute).
  destruct (ex_system ex_turns) as [s| |] eqn:Hs; [|done|done]. apply pair_equal_spec in Hq as [[Hu Hr]%pair_equal_spec Hg].
  exists s. split; [reflexivity|]. split; [exact Hu|]. split; [exact Hr|exact Hg].
Qed.

Lemma ex_mid_run s : ex_system ex_turns = Ok s → system_run (2 ^ 20) Config_new [] 0 [] s.
Proof. apply ex_system_run. repeat constructor; vm_compute; congruence. Qed.

Lemma ex_boot_fits : session_fits Config_new [] 0.
Proof. split_and!; [exact I|by vm_compute|by vm_compute]. Qed.

Lemma ex_mid_fits : session_fits Config_new ex_stream 0.
Proof.
  split_and!; [|by vm_compute|by vm_compute]. change (cfg_tickers Config_new) with [1]. unfold ex_stream. cbn [feed_fits length replicate].
  repeat (split; [constructor; [split; [vm_compute; done|apply moderateb_ok; vm_compute; done]|constructor]|]). exact I.
Qed.

Lemma system_books_follow_stream_witness : ∃ s s',
  ex_system ex_turns = Ok s ∧ engine_turn s = Ok s' ∧
  (∃ n, stream ex_stream n) ∧ books_ok (sys_engine s') [[mkResting 4 BUY 1000 30; mkResting 5 SELL 1001 10; mkResting 6 BUY 999 20]].
Proof.
  destruct ex_mid as (s & Hs & Hu & Hr & Hg).
  destruct (system_books_follow_stream (2 ^ 20) Config_new [] 0 [] s (ex_mid_run s Hs) ex_boot_fits) as (Hst & _ & _ & Hturn).
  rewrite Hu in Hst, Hturn. rewrite Hr in Hturn. destruct (Hturn Hg ex_mid_fits) as (s' & Hs' & Hbk & _).
  exists s, s'. split_and!; [done|exact Hs'|exact Hst|exact Hbk].
Defined.

(** The orders of the session: the taker buys at the ask, twice. *)
Definition ex_orders : list OrderRequest :=
  [mkOrderRequest RQ_NEW 1 0 1 BUY 1001 10 true; mkOrderRequest RQ_NEW 2 0 1 BUY 1001 10 true].

Definition submitted_of (r : outcome (MainSystem * MainSystem)) : option (list OrderRequest * bool) :=
  match r with Ok (s, s') => Some (queued_by s s', run_ (sys_gateway s')) | _ => None end.

Lemma ex_traded : ∃ s s', ex_system ex_turns = Ok s ∧ engine_turn s = Ok s' ∧ queued_by s s' = ex_orders ∧ run_ (sys_gateway s') = true.
Proof.
  assert (submitted_of (s ← ex_system ex_turns; s' ← engine_turn s; Ok (s, s')) = Some (ex_orders, true)) as Hq by (by vm_compute).
  destruct (ex_system ex_turns) as [s| |] eqn:Hs; cbn [mbind outcome_bind] in Hq; [|done|done].
  destruct (engine_turn s) as [s'| |] eqn:Ht; cbn [mbind outcome_bind] in Hq; [|done|done].
  injection Hq as H1' H2'. exists s, s'. split; [reflexivity|]. split; [exact Ht|]. split; [exact H1'|exact H2'].
Qed.

Lemma system_orders_reach_exchange_witness : ∃ s s' s'',
  ex_system ex_turns = Ok s ∧ engine_turn s = Ok s' ∧ gateway_turn [] s' = Ok s'' ∧
  read_request <$> sent_ (sys_gateway s'') = ex_orders.
Proof.
  destruct ex_traded as (s & s' & Hs & Ht & Hq & Hrun). destruct ex_mid as (s0 & Hs0 & Hu & Hr & Hg).
  rewrite Hs in Hs0. injection Hs0 as <-.
  pose proof (sys_engine_turn (2 ^ 20) Config_new _ _ _ s s' (ex_mid_run s Hs) Ht) as Hsys.
  unfold taken, answered in Hsys. rewrite Hg, Hu, Hr in Hsys.
  destruct (system_orders_reach_exchange (2 ^ 20) Config_new _ _ _ s' [] Hsys ex_mid_fits Hrun (Forall_nil_2 _)) as (_ & s'' & Hs'' & Hw).
  exists s, s', s''. split_and!; [exact Hs|exact Ht|exact Hs''|]. rewrite Hw, Hq. reflexivity.
Defined.
