(* ===== verification/Process.v ===== *)
(** * The threads of the process: [src/src/main.cpp] from start to shutdown

    [main] and the loops of the three threads, with the flags they share: the
    [run_] flag and the [std::thread] of each component, and [g_shutdown].  What
    the threads do in one iteration are the turns of [System]. *)

From stdpp Require Import strings.
From S2P Require Import Prelude Types QuantLink OrderManager MarketOrderBook Features Strategy TradeEngine Bytes.
From S2P Require Import OrderGateway ItchDecoder MarketData Main System.

(** ** [run_] and [thread_] of a component *)

Inductive ThreadStatus : Type :=
| NoThread     (* not joinable *)
| Running
| Finished.    (* the function returned; not yet joined *)

#[export] Instance ThreadStatus_eq_dec : EqDecision ThreadStatus.
Proof. solve_decision. Defined.

Record Worker : Type := mkWorker { w_run : bool; w_thread : ThreadStatus }.
Definition Worker_new : Worker := mkWorker false NoThread.

(** [run_.store(true); thread_ = create_and_pin_thread(...)]: assigning to a
    joinable [std::thread] ends the process. *)
Definition worker_start (w : Worker) : outcome Worker :=
  match w_thread w with
  | NoThread => Ok (mkWorker true Running)
  | _ => Halt
  end.

(** The two halves of [stop]: the store, and the join, which waits ([None]) for
    a thread that has not finished. *)
Definition worker_signal_stop (w : Worker) : Worker := mkWorker false (w_thread w).
Definition worker_join (w : Worker) : option Worker :=
  match w_thread w with
  | Running => None
  | _ => Some (mkWorker (w_run w) NoThread)
  end.

(** The head of the loop, [while (run_.load(...))]: whether another iteration
    is made. *)
Definition loops (w : Worker) : bool := bool_decide (w_thread w = Running) && w_run w.
Definition finish (w : Worker) : option Worker :=
  if bool_decide (w_thread w = Running) && negb (w_run w) then Some (mkWorker false Finished) else None.

(** ** [main] *)

(** Where [main] is: the wait for the gate, [engine.start], the wait for the
    signal, the store and the join of each [stop], and the summary. *)
Inductive Component : Type := TheConsumer | TheEngine | TheGateway.
#[export] Instance Component_eq_dec : EqDecision Component.
Proof. solve_decision. Defined.

Inductive MainPc : Type :=
| Waiting (i : nat)
| StartEngine
| Trading
| Stopping (c : Component)
| Joining (c : Component)
| Ended.

Section Process.
Context `{ByteOrder} `{ItchFormat} `{OuchFormat} {P : Type} `{ObjectPool P} {Q : Type → Type} `{SPSCQueue Q} (max_size : Z).
#[local] Existing Instance taker.

Record Process : Type := mkProcess {
  pr_pc : MainPc;
  pr_shutdown : bool;       (* g_shutdown *)
  pr_consumer : Worker;
  pr_engine : Worker;
  pr_gateway : Worker;
  pr_system : System P Q
}.
Implicit Types p : Process.

Definition worker_of (c : Component) p : Worker :=
  match c with TheConsumer => pr_consumer p | TheEngine => pr_engine p | TheGateway => pr_gateway p end.
(** The gateway's flags are also fields of [OrderGateway]. *)
Definition set_worker (c : Component) (w : Worker) p : Process :=
  match c with
  | TheConsumer => mkProcess (pr_pc p) (pr_shutdown p) w (pr_engine p) (pr_gateway p) (pr_system p)
  | TheEngine => mkProcess (pr_pc p) (pr_shutdown p) (pr_consumer p) w (pr_gateway p) (pr_system p)
  | TheGateway => mkProcess (pr_pc p) (pr_shutdown p) (pr_consumer p) (pr_engine p) w
                    (if w_run w then pr_system p
                     else set_gateway_running false (negb (bool_decide (w_thread w = NoThread))) (pr_system p))
  end.
Definition set_pc (pc : MainPc) p : Process :=
  mkProcess pc (pr_shutdown p) (pr_consumer p) (pr_engine p) (pr_gateway p) (pr_system p).
Definition set_system (s : System P Q) p : Process :=
  mkProcess (pr_pc p) (pr_shutdown p) (pr_consumer p) (pr_engine p) (pr_gateway p) s.

(** [handleSignal] *)
Definition handleSignal p : Process :=
  mkProcess (pr_pc p) true (pr_consumer p) (pr_engine p) (pr_gateway p) (pr_system p).

(** After [gateway.start] and [consumer.start]: the gateway has no thread when
    it could not connect. *)
Definition process_start (s : System P Q) : outcome Process :=
  consumer ← worker_start Worker_new;
  Ok (mkProcess (Waiting 0) false consumer Worker_new
        (mkWorker (run_ (sys_gateway s)) (if thread_ (sys_gateway s) then Running else NoThread)) s).

Definition after_join (c : Component) : MainPc :=
  match c with TheConsumer => Stopping TheEngine | TheEngine => Stopping TheGateway | TheGateway => Ended end.

(** One step of [main]; [None] when it waits. *)
Definition main_step p : outcome (option Process) :=
  match pr_pc p with
  | Waiting i =>
      if bool_decide (i < 100)%nat && negb (pr_shutdown p) then
        if market_data_synchronized_ (sys_consumer (pr_system p)) then Ok (Some (set_pc StartEngine p))
        else Ok (Some (set_pc (Waiting (i + 1)) p))
      else Ok (Some (set_pc StartEngine p))
  | StartEngine =>
      w ← worker_start (pr_engine p);
      Ok (Some (set_pc Trading (set_worker TheEngine w p)))
  | Trading => Ok (if pr_shutdown p then Some (set_pc (Stopping TheConsumer) p) else None)
  | Stopping c => Ok (Some (set_pc (Joining c) (set_worker c (worker_signal_stop (worker_of c p)) p)))
  | Joining c =>
      Ok (match worker_join (worker_of c p) with
          | Some w => Some (set_pc (after_join c) (set_worker c w p))
          | None => None
          end)
  | Ended => Ok None
  end.

(** ** Steps of the process *)

(** [main] moves on, or a thread sees its flag cleared and returns. *)
Inductive control_step p : Process → Prop :=
| step_main p' : main_step p = Ok (Some p') → control_step p p'
| step_finish c w : finish (worker_of c p) = Some w → control_step p (set_worker c w p).

(** A thread makes an iteration of its loop. *)
Inductive turn_step p : Process → Prop :=
| turn_consumer r s : loops (pr_consumer p) = true → consumer_turn max_size r (pr_system p) = Ok s → turn_step p (set_system s p)
| turn_engine s : loops (pr_engine p) = true → engine_turn (pr_system p) = Ok s → turn_step p (set_system s p)
| turn_gateway chunk s : loops (pr_gateway p) = true → gateway_turn chunk (pr_system p) = Ok s → turn_step p (set_system s p).
End Process.
Arguments Process P Q : clear implicits.
