(* ===== verification/ProcessProperties.v ===== *)
(** * The process shuts down

    Every reachable state of the process holds a reachable state of the three
    components; once the signal arrives, [main] reaches its summary whatever the
    threads do, and by then no thread is left that could touch what it prints. *)

From stdpp Require Import strings.
From S2P Require Import Prelude Types OrderIdAllocator PnLTracker RiskManager QuantLink OrderManager OrderManagerInv.
From S2P Require Import MarketOrderBook BookRep BookRefine Features Strategy TradeEngine EngineInv EngineProperties Bytes.
From S2P Require Import OrderGateway GatewayProperties ItchDecoder DecoderProperties MarketData Main MainProperties System.
From S2P Require Import SystemProperties Process.

Section Shutdown.
Context `{ByteOrder} `{ItchFormat} `{OuchFormat} {P : Type} `{ObjectPool P} {Q : Type → Type} `{SPSCQueue Q}.
Context (max_size : Z) (cfg : Config).
#[local] Existing Instance taker.
Implicit Types p : Process P Q.

(** A run of the process; the indices are those of [system_run]. *)
Inductive process_run : list MarketUpdate → Z → list OrderRequest → Process P Q → Prop :=
| proc_start args md req resp connected net_ok fd s p :
    parseArgs args = Ok (inl cfg) → - 2 ^ 31 < entry_imbalance (cfg_signal cfg) →
    q_items md = [] → q_items req = [] → q_items resp = [] →
    main_start args md req resp connected net_ok fd = Ok (inl s) → process_start s = Ok p → process_run [] 0 [] p
| proc_signal popped handled submitted p : process_run popped handled submitted p → process_run popped handled submitted (handleSignal p)
| proc_control popped handled submitted p p' : process_run popped handled submitted p → control_step p p' →
    process_run popped handled submitted p'
| proc_consumer popped handled submitted r s p : process_run popped handled submitted p → loops (pr_consumer p) = true →
    consumer_turn max_size r (pr_system p) = Ok s → process_run popped handled submitted (set_system s p)
| proc_engine popped handled submitted s p : process_run popped handled submitted p → loops (pr_engine p) = true →
    engine_turn (pr_system p) = Ok s →
    process_run (popped ++ taken (pr_system p)) (handled + answered (pr_system p)) (submitted ++ queued_by (pr_system p) s)
      (set_system s p)
| proc_gateway popped handled submitted chunk s p : process_run popped handled submitted p → loops (pr_gateway p) = true →
    Forall is_byte chunk → gateway_turn chunk (pr_system p) = Ok s → process_run popped handled submitted (set_system s p).

(** ** The invariant *)

(** The components that [main] has joined. *)
Definition stopped (pc : MainPc) (c : Component) : bool :=
  match pc, c with
  | Ended, _ => true
  | (Stopping TheGateway | Joining TheGateway), (TheConsumer | TheEngine) => true
  | (Stopping TheEngine | Joining TheEngine), TheConsumer => true
  | _, _ => false
  end.

Record process_ok p : Prop := {
  po_stopped : ∀ c, stopped (pr_pc p) c = true → w_thread (worker_of c p) = NoThread;
  po_joining : ∀ c, pr_pc p = Joining c → w_run (worker_of c p) = false;
  po_engine : match pr_pc p with Waiting _ | StartEngine => pr_engine p = Worker_new | _ => True end;
  po_flags : ∀ c, w_run (worker_of c p) = true → w_thread (worker_of c p) = Running;
  po_gateway : run_ (sys_gateway (pr_system p)) = w_run (pr_gateway p) ∧
               thread_ (sys_gateway (pr_system p)) = negb (bool_decide (w_thread (pr_gateway p) = NoThread))
}.

(** A turn leaves the gateway's flags alone. *)
Definition same_flags (s s' : System P Q) : Prop :=
  run_ (sys_gateway s') = run_ (sys_gateway s) ∧ thread_ (sys_gateway s') = thread_ (sys_gateway s).

Lemma consumer_turn_flags r s s' : consumer_turn max_size r s = Ok s' → same_flags s s'.
Proof using Type. unfold consumer_turn. by intros (c & _ & [= <-])%bind_Ok_inv. Qed.

Lemma engine_turn_flags s s' : engine_turn s = Ok s' → same_flags s s'.
Proof using Type.
  unfold engine_turn. destruct (negb _); [by intros [= <-]|]. by intros ([e x] & _ & [= <-])%bind_Ok_inv.
Qed.

Lemma send_loop_flags fuel : ∀ g g' : OrderGateway Q, send_loop fuel g = Ok g' → run_ g' = run_ g ∧ thread_ g' = thread_ g.
Proof using Type.
  induction fuel as [|fuel IH]; intros g g'; cbn [send_loop]; [by intros [= <-]|].
  destruct (q_pop _) as [[rq q]|]; [|by intros [= <-]]. intros (m & _ & Hr)%bind_Ok_inv. by apply IH in Hr.
Qed.

Lemma gateway_turn_flags chunk s s' : gateway_turn chunk s = Ok s' → same_flags s s'.
Proof using Type.
  unfold gateway_turn. destruct (negb _); [by intros [= <-]|]. intros (g & Hg & [= <-])%bind_Ok_inv.
  unfold OrderGateway.run_round in Hg. apply send_loop_flags in Hg as [Hr Ht]. unfold same_flags. cbn [sys_gateway]. rewrite Hr, Ht.
  unfold sendAndRecv. destruct chunk; [done|]. unfold recvCallback. by destruct (OrderGateway.recv_loop _ _ _ _).
Qed.

Lemma process_ok_turn s p : process_ok p → same_flags (pr_system p) s → process_ok (set_system s p).
Proof using Type. intros [? ? ? ? [Hr Ht]] [Hr' Ht']. split; try done. cbn. by rewrite Hr', Ht'. Qed.

(** ** Steps of [main] and of the loop heads *)

Lemma worker_set c w p : worker_of c (set_worker c w p) = w.
Proof using Type. by destruct c. Qed.
Lemma worker_set_ne c c' w p : c ≠ c' → worker_of c' (set_worker c w p) = worker_of c' p.
Proof using Type. by destruct c, c'. Qed.

(** A worker whose flag is cleared keeps the invariant at the same place. *)
Lemma process_ok_worker c w p : process_ok p → w_run w = false →
  (w_thread (worker_of c p) = NoThread → w_thread w = NoThread) → (pr_engine p = Worker_new → c = TheEngine → w = Worker_new) →
  process_ok (set_worker c w p).
Proof using Type.
  intros [Hs Hj He Hf [Hr Ht]] Hw Hnt Hen. assert (pr_pc (set_worker c w p) = pr_pc p) as Hpc by (by destruct c). split.
  - intros c' Hc. rewrite Hpc in Hc. destruct (decide (c = c')) as [<-|Hne]; [rewrite worker_set; auto|].
    rewrite worker_set_ne by done. auto.
  - intros c' Hc. rewrite Hpc in Hc. destruct (decide (c = c')) as [<-|Hne]; [by rewrite worker_set|].
    rewrite worker_set_ne by done. auto.
  - rewrite Hpc. destruct (pr_pc p); try done; destruct c; simpl; auto.
  - intros c' Hc. destruct (decide (c = c')) as [<-|Hne]; [rewrite worker_set in Hc; congruence|].
    rewrite worker_set_ne in * by done. auto.
  - destruct c; [done|done|]. simpl. by rewrite Hw.
Qed.

Lemma process_ok_pc pc p : process_ok p → (∀ c, stopped pc c = true → w_thread (worker_of c p) = NoThread) →
  (∀ c, pc = Joining c → w_run (worker_of c p) = false) →
  match pc with Waiting _ | StartEngine => pr_engine p = Worker_new | _ => True end → process_ok (set_pc pc p).
Proof using Type. intros [Hs Hj He Hf Hg] Hs' Hj' He'. by split. Qed.

Lemma finish_run w w' : finish w = Some w' → w_thread w = Running ∧ w_run w = false ∧ w' = mkWorker false Finished.
Proof using Type. unfold finish. case_bool_decide; [|done]. by destruct (w_run w); [|intros [= <-]]. Qed.

Lemma worker_join_run w w' : worker_join w = Some w' → w_thread w ≠ Running ∧ w' = mkWorker (w_run w) NoThread.
Proof using Type. unfold worker_join. by destruct (w_thread w); intros [= <-]. Qed.

Lemma main_step_ok p p' : process_ok p → main_step p = Ok (Some p') → process_ok p'.
Proof using Type.
  intros Hok. pose proof Hok as [Hs Hj He Hf Hg]. unfold main_step. destruct (pr_pc p) as [i| | |c|c|] eqn:Hpc.
  - destruct (_ && _); [destruct (market_data_synchronized_ _)|]; intros [= <-]; by apply process_ok_pc.
  - rewrite He. intros [= <-]. split; try done. intros []; [apply (Hf TheConsumer)|done|apply (Hf TheGateway)].
  - destruct (pr_shutdown p); [|done]. intros [= <-]. by apply process_ok_pc.
  - intros [= <-]. apply process_ok_pc; [apply process_ok_worker; try done|..|done].
    + intros E ->. simpl. by rewrite E.
    + intros c' Hc. destruct (decide (c = c')) as [<-|Hne]; [by destruct c|]. rewrite worker_set_ne by done. apply Hs. by destruct c, c'.
    + intros c' [= <-]. by rewrite worker_set.
  - destruct (worker_join _) as [w|] eqn:Hw; [|done]. apply worker_join_run in Hw as [_ ->]. intros [= <-].
    rewrite (Hj c eq_refl). apply process_ok_pc; [apply process_ok_worker; done|..].
    + intros c' Hc. destruct (decide (c = c')) as [<-|Hne]; [by rewrite worker_set|]. rewrite worker_set_ne by done.
      apply Hs. by destruct c, c'.
    + by destruct c.
    + by destruct c.
  - done.
Qed.

Lemma control_step_ok p p' : process_ok p → control_step p p' → process_ok p'.
Proof using Type.
  intros Hok [p1 Hm|c w Hw]; [by eapply main_step_ok|]. apply finish_run in Hw as (Ht & Hr & ->).
  apply process_ok_worker; try done; [congruence|]. intros He ->. simpl in Ht. by rewrite He in Ht.
Qed.

Lemma process_run_ok popped handled submitted p : process_run popped handled submitted p → process_ok p.
Proof using Type.
  induction 1 as [args md req resp connected net_ok fd s p _ _ _ _ _ Hs Hp| |popped handled submitted p p' _ IH Hc|
    popped handled submitted r s p _ IH _ Ht|popped handled submitted s p _ IH _ Ht|popped handled submitted chunk s p _ IH _ _ Ht].
  - injection Hp as <-. unfold main_start in Hs. apply bind_Ok_inv in Hs as ([e|] & _ & Hs); [|done].
    apply bind_Ok_inv in Hs as (g & Hg & Hs). apply bind_Ok_inv in Hs as (c & _ & Hs). injection Hs as <-.
    assert (run_ g = thread_ g) as Hrt by (unfold OrderGateway.start in Hg; destruct connected; by injection Hg as <-).
    split; try done; simpl; rewrite ?Hrt.
    + intros []; simpl; try done. by intros ->.
    + by destruct (thread_ g).
  - destruct IHprocess_run. by split.
  - by eapply control_step_ok.
  - by eapply process_ok_turn, consumer_turn_flags.
  - by eapply process_ok_turn, engine_turn_flags.
  - by eapply process_ok_turn, gateway_turn_flags.
Qed.

(** ** The run of the components *)

Lemma set_worker_system c w p : w_run w = false → ∃ s, pr_system (set_worker c w p) = s ∧
  (s = pr_system p ∨ ∃ thread, s = set_gateway_running false thread (pr_system p)).
Proof using Type. intros Hw. destruct c; simpl; rewrite ?Hw; eauto. Qed.

Lemma control_step_system p p' : process_ok p → control_step p p' →
  pr_system p' = pr_system p ∨ ∃ thread, pr_system p' = set_gateway_running false thread (pr_system p).
Proof using Type.
  intros [Hs Hj He Hf Hg] [p1 Hm|c w Hw].
  2:{ apply finish_run in Hw as (_ & _ & ->). destruct (set_worker_system c (mkWorker false Finished) p) as (s & <- & Hr); done. }
  unfold main_step in Hm. destruct (pr_pc p) as [i| | |c|c|] eqn:Hpc.
  - left. destruct (_ && _); [destruct (market_data_synchronized_ _)|]; by injection Hm as <-.
  - rewrite He in Hm. left. by injection Hm as <-.
  - left. destruct (pr_shutdown p); by simplify_eq.
  - injection Hm as <-. destruct (set_worker_system c (worker_signal_stop (worker_of c p)) p) as (s & <- & Hr); done.
  - destruct (worker_join _) as [w|] eqn:Hw; [|done]. apply worker_join_run in Hw as [_ ->]. injection Hm as <-.
    destruct (set_worker_system c (mkWorker (w_run (worker_of c p)) NoThread) p) as (s & <- & Hr); [by apply Hj|done].
  - done.
Qed.

Lemma process_run_system popped handled submitted p :
  process_run popped handled submitted p → system_run max_size cfg popped handled submitted (pr_system p).
Proof using Type.
  induction 1 as [args md req resp connected net_ok fd s p ? ? ? ? ? Hs Hp| |popped handled submitted p p' Hrun IH Hc| | |].
  - injection Hp as <-. by eapply sys_boot.
  - done.
  - destruct (control_step_system _ _ (process_run_ok _ _ _ _ Hrun) Hc) as [-> | [thread ->]]; [done|by apply sys_gateway_stop].
  - by eapply sys_consumer_turn.
  - by eapply sys_engine_turn.
  - by eapply sys_gateway_turn.
Qed.

(** ** Shutting down *)

(** How many steps of [main] and of the loop heads are left after the signal. *)
Definition pc_left (pc : MainPc) : nat :=
  match pc with
  | Waiting _ => 10
  | StartEngine => 9
  | Trading => 7
  | Stopping TheConsumer => 6
  | Joining TheConsumer => 5
  | Stopping TheEngine => 4
  | Joining TheEngine => 3
  | Stopping TheGateway => 2
  | Joining TheGateway => 1
  | Ended => 0
  end.
Definition live (w : Worker) : nat := if bool_decide (w_thread w = Running) then 1 else 0.
Definition control_left p : nat := (pc_left (pr_pc p) + live (pr_consumer p) + live (pr_engine p) + live (pr_gateway p))%nat.

Lemma control_left_pc pc p : (control_left (set_pc pc p) + pc_left (pr_pc p) = control_left p + pc_left pc)%nat.
Proof using Type. unfold control_left. simpl. lia. Qed.

Lemma control_left_worker c w p : (control_left (set_worker c w p) + live (worker_of c p) = control_left p + live w)%nat.
Proof using Type. unfold control_left. destruct c; simpl; lia. Qed.

Lemma set_worker_pc c w p : pr_pc (set_worker c w p) = pr_pc p ∧ pr_shutdown (set_worker c w p) = pr_shutdown p.
Proof using Type. by destruct c. Qed.

Lemma control_step_left p p' : process_ok p → pr_shutdown p = true → control_step p p' →
  (control_left p' < control_left p)%nat ∧ pr_shutdown p' = true.
Proof using Type.
  intros [Hs Hj He Hf Hg] Hsd [p1 Hm|c w Hw].
  2:{ apply finish_run in Hw as (Ht & _ & ->). destruct (set_worker_pc c (mkWorker false Finished) p) as [_ ->]. split; [|done].
      pose proof (control_left_worker c (mkWorker false Finished) p) as Hl. unfold live in Hl. rewrite Ht in Hl. simpl in Hl. lia. }
  unfold main_step in Hm. rewrite Hsd in Hm. destruct (pr_pc p) as [i| | |c|c|] eqn:Hpc.
  - rewrite andb_false_r in Hm. injection Hm as <-. pose proof (control_left_pc StartEngine p) as Hl. rewrite Hpc in Hl. cbn [pc_left] in Hl.
    split; [lia|done].
  - rewrite He in Hm. injection Hm as <-. unfold control_left. rewrite Hpc, He. split; [|done]. change (live Worker_new) with 0%nat. cbn. unfold live. simpl. lia.
  - injection Hm as <-. pose proof (control_left_pc (Stopping TheConsumer) p) as Hl. rewrite Hpc in Hl. cbn [pc_left] in Hl. split; [lia|done].
  - injection Hm as <-. set (w := worker_signal_stop _). destruct (set_worker_pc c w p) as [Hp1 Hp2].
    pose proof (control_left_pc (Joining c) (set_worker c w p)) as H1'. pose proof (control_left_worker c w p) as H2'.
    rewrite Hp1, Hpc in H1'. assert (live w = live (worker_of c p)) as Hl by done. split; [|by rewrite <- Hsd, <- Hp2].
    destruct c; cbn [pc_left after_join] in H1' |- *; lia.
  - destruct (worker_join _) as [w|] eqn:Hw; [|done]. apply worker_join_run in Hw as [_ ->]. injection Hm as <-.
    set (w := mkWorker _ NoThread). destruct (set_worker_pc c w p) as [Hp1 Hp2].
    pose proof (control_left_pc (after_join c) (set_worker c w p)) as H1'. pose proof (control_left_worker c w p) as H2'.
    rewrite Hp1, Hpc in H1'. assert (live w = 0%nat) as Hl by done. split; [|by rewrite <- Hsd, <- Hp2].
    destruct c; cbn [pc_left after_join] in H1' |- *; lia.
  - done.
Qed.

(** Nothing waits for ever: [main] can move, or the thread it waits for can
    return. *)
Lemma control_progress p : process_ok p → pr_shutdown p = true → pr_pc p ≠ Ended → ∃ p', control_step p p'.
Proof using Type.
  intros [Hs Hj He Hf Hg] Hsd Hne. destruct (pr_pc p) as [i| | |c|c|] eqn:Hpc; [..|done].
  1,2,3,4: eexists; apply step_main; unfold main_step; rewrite Hpc, ?Hsd, ?andb_false_r, ?He; done.
  destruct (decide (w_thread (worker_of c p) = Running)) as [Hr|Hr].
  - eexists. apply (step_finish _ c (mkWorker false Finished)). unfold finish. by rewrite bool_decide_true, (Hj c eq_refl) by done.
  - destruct (worker_join (worker_of c p)) as [w|] eqn:Hw; [|unfold worker_join in Hw; by destruct (w_thread (worker_of c p))].
    eexists. apply step_main. unfold main_step. by rewrite Hpc, Hw.
Qed.

Lemma control_reaches_end n : ∀ p, (control_left p ≤ n)%nat → process_ok p → pr_shutdown p = true →
  ∃ p', rtc control_step p p' ∧ pr_pc p' = Ended.
Proof using Type.
  induction n as [|n IH]; intros p Hn Hok Hsd.
  - exists p. split; [done|]. unfold control_left in Hn. destruct (pr_pc p) as [| | |[]|[]|]; simpl in Hn; try lia. done.
  - destruct (decide (pc_left (pr_pc p) = 0%nat)) as [Hz|Hz].
    { exists p. split; [done|]. by destruct (pr_pc p) as [| | |[]|[]|]. }
    destruct (control_progress p Hok Hsd) as (p1 & H1'); [by intros E; rewrite E in Hz|].
    destruct (control_step_left p p1 Hok Hsd H1') as [Hl Hsd1].
    destruct (IH p1) as (p' & Hr & He); [lia|by eapply control_step_ok|done|]. exists p'. split; [by eapply rtc_l|done].
Qed.

Lemma control_left_bound p : process_ok p → (control_left p ≤ 12)%nat.
Proof using Type.
  intros [_ _ He _ _]. unfold control_left, live. destruct (pr_pc p) as [| | |[]|[]|]; simpl; rewrite ?He; simpl; repeat case_bool_decide; lia.
Qed.

Lemma turn_step_left p p' : turn_step max_size p p' → control_left p' = control_left p ∧ pr_shutdown p' = pr_shutdown p.
Proof using Type. by intros []. Qed.

(** C3: the process shuts down.  In every reachable state: once the signal has
    arrived, [main] reaches its summary without a deadlock and without
    assigning to a running [std::thread]; at most twelve steps of [main] and of
    the threads' loop heads remain whatever turns the threads still take in
    between; and when the summary is printed every thread has been joined and
    nothing can touch the state it is printed from, which is a state the
    components reach. *)
Theorem shutdown_completes popped handled submitted p :
  process_run popped handled submitted p →
  system_run max_size cfg popped handled submitted (pr_system p) ∧
  (pr_shutdown p = true →
     (∃ p', rtc control_step p p' ∧ pr_pc p' = Ended) ∧ (control_left p ≤ 12)%nat ∧
     (∀ p', control_step p p' → (control_left p' < control_left p)%nat ∧ pr_shutdown p' = true) ∧
     (∀ p', turn_step max_size p p' → control_left p' = control_left p ∧ pr_shutdown p' = true)) ∧
  (pr_pc p = Ended →
     (∀ c, w_thread (worker_of c p) = NoThread) ∧ ∀ p', ¬ turn_step max_size p p' ∧ ¬ control_step p p').
Proof using Type.
  intros Hrun. pose proof (process_run_ok _ _ _ _ Hrun) as Hok. split; [by apply process_run_system|]. split.
  - intros Hsd. split; [by eapply control_reaches_end|]. split; [by apply control_left_bound|]. split.
    + intros p' Hc. by apply control_step_left.
    + intros p' [Hl Hs]%turn_step_left. by rewrite Hs.
  - intros He. assert (∀ c, w_thread (worker_of c p) = NoThread) as Ht by (intros c; apply (po_stopped _ Hok); by rewrite He).
    split; [done|]. intros p'. split.
    + pose proof (Ht TheConsumer) as H1'. pose proof (Ht TheEngine) as H2'. pose proof (Ht TheGateway) as H3'.
      simpl in *. unfold loops. intros [? ? Hl|? Hl|? ? Hl]; unfold loops in Hl; by rewrite ?H1', ?H2', ?H3' in Hl.
    + intros [p1 Hm|c w Hw]; [unfold main_step in Hm; by rewrite He in Hm|]. apply finish_run in Hw as (Hw & _). by rewrite Ht in Hw.
Qed.
End Shutdown.

(** ** A session *)

#[local] Existing Instances bswap_order bswap_order_laws packed_itch packed_itch_laws packed_ouch packed_ouch_laws taker.

(** The process at one place of [main] with all its threads running. *)
Definition ex_process (pc : MainPc) (engine : Worker) (s : MainSystem) : Process SetPool BQueue :=
  mkProcess pc false (mkWorker true Running) engine (mkWorker true Running) s.

Lemma process_turns popped handled submitted pc engine ts : ∀ s s', Forall plain ts →
  process_run (2 ^ 20) Config_new popped handled submitted (ex_process pc engine s) → take_turns ts s = Ok s' →
  process_run (2 ^ 20) Config_new popped handled submitted (ex_process pc engine s').
Proof.
  induction ts as [|t ts IH]; intros s s' Hp Hr; cbn [take_turns]; [by intros [= <-]|].
  apply Forall_cons in Hp as [Ht Hp]. intros (s1 & H1' & H2')%bind_Ok_inv. eapply IH; [exact Hp| |exact H2'].
  destruct t as [r| |chunk]; [|done|].
  - exact (proc_consumer _ _ _ _ _ r s1 _ Hr eq_refl H1').
  - exact (proc_gateway _ _ _ _ _ chunk s1 _ Hr eq_refl Ht H1').
Qed.

Lemma ex_started : ∃ s0, ex_boot = Ok (inl s0) ∧ process_start s0 = Ok (ex_process (Waiting 0) Worker_new s0).
Proof.
  assert (match ex_boot with Ok (inl s0) => run_ (sys_gateway s0) && thread_ (sys_gateway s0) | _ => false end = true) as Hb by (by vm_compute).
  destruct ex_boot as [[s0|]| |]; [|done..]. apply andb_true_iff in Hb as [Hr Ht]. exists s0. split; [reflexivity|].
  unfold process_start. cbn [worker_start Worker_new w_thread mbind outcome_bind]. by rewrite Hr, Ht.
Qed.

Lemma ex_system_turns ts s0 s : ex_boot = Ok (inl s0) → ex_system ts = Ok s → take_turns ts s0 = Ok s.
Proof. unfold ex_system. intros ->. exact id. Qed.

Lemma ex_turns_plain : Forall plain ex_turns.
Proof. repeat constructor; vm_compute; congruence. Qed.

Lemma ex_waiting_run s : ex_system ex_turns = Ok s → process_run (2 ^ 20) Config_new [] 0 [] (ex_process (Waiting 0) Worker_new s).
Proof.
  intros Hs. destruct ex_started as (s0 & Hb & Hp). apply (process_turns [] 0 [] (Waiting 0) Worker_new ex_turns s0 s ex_turns_plain).
  - by eapply proc_start; [..|exact Hb|exact Hp].
  - exact (ex_system_turns ex_turns s0 s Hb Hs).
Qed.

(** With the gate open, [main] starts the engine. *)
Lemma trading_run popped handled submitted s : market_data_synchronized_ (sys_consumer s) = true →
  process_run (2 ^ 20) Config_new popped handled submitted (ex_process (Waiting 0) Worker_new s) →
  process_run (2 ^ 20) Config_new popped handled submitted (ex_process Trading (mkWorker true Running) s).
Proof.
  intros Hg Hrun. eapply proc_control; [eapply proc_control; [exact Hrun|]|];
    [apply step_main|apply (step_main (ex_process StartEngine Worker_new s)); reflexivity].
  unfold main_step. cbn [pr_pc pr_shutdown pr_system ex_process]. rewrite Hg. reflexivity.
Qed.

(** The session of [SystemProperties]: synchronised, started, one pass of the
    engine. *)
Lemma ex_trading : ∃ s s', ex_system ex_turns = Ok s ∧ engine_turn s = Ok s' ∧ queued_by s s' = ex_orders ∧
  process_run (2 ^ 20) Config_new ex_stream 0 ex_orders (ex_process Trading (mkWorker true Running) s').
Proof.
  destruct ex_traded as (s & s' & Hs & Ht & Hq & _). destruct ex_mid as (s1 & Hs1 & Hu & Hr & Hg).
  rewrite Hs in Hs1. injection Hs1 as <-. exists s, s'. split; [exact Hs|]. split; [exact Ht|]. split; [exact Hq|].
  pose proof (proc_engine _ _ _ _ _ s' _ (trading_run _ _ _ s Hg (ex_waiting_run s Hs)) eq_refl Ht) as Hrun.
  cbn [pr_system ex_process] in Hrun. unfold taken, answered in Hrun. rewrite Hg, Hu, Hr, Hq in Hrun. exact Hrun.
Qed.

Lemma shutdown_completes_witness : ∃ p p' : Process SetPool BQueue,
  process_run (2 ^ 20) Config_new ex_stream 0 ex_orders p ∧ pr_pc p = Trading ∧ rtc control_step p p' ∧ pr_pc p' = Ended.
Proof.
  destruct ex_trading as (s & s' & _ & _ & _ & Hrun). apply proc_signal in Hrun as Hrun'.
  destruct (shutdown_completes (2 ^ 20) Config_new _ _ _ _ Hrun') as (_ & Hsd & _).
  destruct (Hsd eq_refl) as ((p' & Hr & He) & _).
  exists (handleSignal (ex_process Trading (mkWorker true Running) s')), p'.
  split; [exact Hrun'|]. split; [reflexivity|]. split; [exact Hr|exact He].
Defined.

(** ** What the model shows *)

(** The steps of a shutdown leave the queues, the wire and the books alone. *)
Lemma control_steps_keep `{ObjectPool P} {Q : Type → Type} `{SPSCQueue Q} (p p' : Process P Q) :
  rtc control_step p p' → process_ok p → process_ok p' ∧ sys_engine (pr_system p') = sys_engine (pr_system p) ∧
    sent_ (sys_gateway (pr_system p')) = sent_ (sys_gateway (pr_system p)).
Proof.
  induction 1 as [p|p p1 p' Hc _ IH]; intros Hok; [done|]. destruct (IH (control_step_ok _ _ Hok Hc)) as (Hok' & -> & ->).
  split; [done|]. by destruct (control_step_system _ _ Hok Hc) as [-> | [thread ->]].
Qed.

Lemma process_run_steps `{ByteOrder} `{ItchFormat} `{OuchFormat} `{ObjectPool P} {Q : Type → Type} `{SPSCQueue Q} max_size cfg popped handled
    submitted (p p' : Process P Q) :
  rtc control_step p p' → process_run max_size cfg popped handled submitted p → process_run max_size cfg popped handled submitted p'.
Proof. induction 1 as [p|p p1 p' Hc _ IH]; intros Hrun; [done|]. apply IH. by eapply proc_control. Qed.

(** What the engine queued last may never be sent: the gateway's thread looks at
    its flag before it looks at the queue.  In this session the summary counts
    two orders as sent, and no message has left. *)
Definition sent_and_counted (r : outcome (MainSystem * MainSystem)) : option (nat * option Z) :=
  match r with
  | Ok (_, s') => Some (length (sent_ (sys_gateway s')), new_orders_ ∘ sl_om <$> slots_ (sys_engine s') !! 0%nat)
  | _ => None
  end.

Theorem shutdown_strands_requests : ∃ p : Process SetPool BQueue,
  process_run (2 ^ 20) Config_new ex_stream 0 ex_orders p ∧ pr_pc p = Ended ∧ sent_ (sys_gateway (pr_system p)) = [] ∧
  new_orders_ ∘ sl_om <$> slots_ (sys_engine (pr_system p)) !! 0%nat = Some 2.
Proof.
  destruct ex_trading as (s & s' & Hs & Ht & _ & Hrun). apply proc_signal in Hrun.
  assert (sent_and_counted (s ← ex_system ex_turns; s' ← engine_turn s; Ok (s, s')) = Some (0%nat, Some 2)) as Hc by (by vm_compute).
  rewrite Hs in Hc. cbn [mbind outcome_bind] in Hc. rewrite Ht in Hc. cbn [mbind outcome_bind] in Hc. injection Hc as Hsent Hcount.
  pose proof (process_run_ok _ _ _ _ _ _ Hrun) as Hok.
  destruct (control_reaches_end _ _ (le_n _) Hok eq_refl) as (p' & Hr & He). exists p'.
  destruct (control_steps_keep _ _ Hr Hok) as (_ & Heng & Hse). split; [exact (process_run_steps _ _ _ _ _ _ _ Hr Hrun)|].
  split; [exact He|]. rewrite Heng, Hse. split; [by apply nil_length_inv|exact Hcount].
Qed.
